(** * A segregated-free-list allocator (CS:APP malloc lab, [mm.c])

    Shallow embedding of [mm.c] and verification of its specification.

    Pointers are modelled as byte offsets from [heap_base_ptr]; [NULL] is
    [None].  Memory is byte addressed (the target is little-endian x86-64,
    the code uses [lzcntl]); an [unsigned int] is a [Z] in [0, 2^32) with
    its wrap-around written out.  A computation that has no defined result
    (an index outside the [begins] table, a null table entry that is
    dereferenced, a list walk that runs out of fuel) is [None]. *)

From Stdlib Require Import ZArith List Lia Bool.
Import ListNotations.
Open Scope Z_scope.

(** ** Machine arithmetic *)

Definition two32 : Z := 4294967296.
Definition two64 : Z := 18446744073709551616.

Definition wrap32 (z : Z) : Z := z mod two32.
Definition wrap64 (z : Z) : Z := z mod two64.
Definition add32 (a b : Z) : Z := wrap32 (a + b).
Definition sub32 (a b : Z) : Z := wrap32 (a - b).

(** ** Byte-addressed memory *)

Definition mem : Type := Z -> Z.

Definition read_byte (a : Z) (m : mem) : Z := m a mod 256.

Definition write_byte (a v : Z) (m : mem) : mem :=
  fun x => if x =? a then v mod 256 else m x.

(** [read_word]/[write_word]: a little-endian 32-bit access. *)
Definition read_word (a : Z) (m : mem) : Z :=
  read_byte a m + 256 * read_byte (a + 1) m
  + 65536 * read_byte (a + 2) m + 16777216 * read_byte (a + 3) m.

Definition write_word (a v : Z) (m : mem) : mem :=
  write_byte (a + 3) (v / 16777216)
    (write_byte (a + 2) (v / 65536)
       (write_byte (a + 1) (v / 256) (write_byte a v m))).

(** [memcpy] (non-overlapping) and [memset] from [<string.h>]. *)
Definition memcpy (dst src len : Z) (m : mem) : mem :=
  fun x => if (dst <=? x) && (x <? dst + len) then m (src + (x - dst)) else m x.

Definition memset (dst c len : Z) (m : mem) : mem :=
  fun x => if (dst <=? x) && (x <? dst + len) then c mod 256 else m x.

(** ** Constants *)

Definition WORD_SIZE : Z := 4.
Definition EXTEND_SIZE : Z := 4096.
Definition ALLOCATED : Z := 1.
Definition FORWARD_FREE : Z := 0.
Definition FORWARD_ALLOCATED : Z := 2.

(** [~ALLOCATED], [~FORWARD_ALLOCATED] and [~7] converted to [unsigned int]. *)
Definition NOT_ALLOCATED : Z := 4294967294.
Definition NOT_FORWARD_ALLOCATED : Z := 4294967293.
Definition NOT_7 : Z := 4294967288.

(** ** Block encoding *)

Definition get_header (ptr : Z) (m : mem) : Z := read_word (ptr - WORD_SIZE) m.

Definition set_header (ptr header : Z) (m : mem) : mem :=
  write_word (ptr - WORD_SIZE) header m.

Definition set_allocated_flag (ptr : Z) (m : mem) : mem :=
  set_header ptr (Z.lor (get_header ptr m) ALLOCATED) m.

Definition unset_allocated_flag (ptr : Z) (m : mem) : mem :=
  set_header ptr (Z.land (get_header ptr m) NOT_ALLOCATED) m.

Definition set_forward_allocated_flag (ptr : Z) (m : mem) : mem :=
  set_header ptr (Z.lor (get_header ptr m) FORWARD_ALLOCATED) m.

Definition unset_forward_allocated_flag (ptr : Z) (m : mem) : mem :=
  set_header ptr (Z.land (get_header ptr m) NOT_FORWARD_ALLOCATED) m.

Definition set_prev (ptr prev : Z) (m : mem) : mem := write_word ptr prev m.

Definition set_next (ptr next : Z) (m : mem) : mem :=
  write_word (ptr + WORD_SIZE) next m.

Definition set_size (ptr size : Z) (m : mem) : mem :=
  let flag := Z.land (get_header ptr m) 7 in
  write_word (ptr + size - 2 * WORD_SIZE) size
    (set_header ptr (Z.lor size flag) m).

Definition set_size_only_header (ptr size : Z) (m : mem) : mem :=
  let flag := Z.land (get_header ptr m) 7 in
  set_header ptr (Z.lor size flag) m.

Definition get_size (ptr : Z) (m : mem) : Z := Z.land (get_header ptr m) NOT_7.

Definition get_prev (ptr : Z) (m : mem) : Z := read_word ptr m.

Definition get_next (ptr : Z) (m : mem) : Z := read_word (ptr + WORD_SIZE) m.

Definition get_forward (ptr : Z) (m : mem) : Z :=
  ptr - read_word (ptr - WORD_SIZE * 2) m.

Definition get_back (ptr : Z) (m : mem) : Z := ptr + get_size ptr m.

Definition is_allocated (ptr : Z) (m : mem) : bool :=
  negb (Z.land (get_header ptr m) ALLOCATED =? 0).

Definition is_forward_allocated (ptr : Z) (m : mem) : bool :=
  Z.land (get_header ptr m) FORWARD_ALLOCATED =? FORWARD_ALLOCATED.

(** ** Free lists *)

Definition delete_block (ptr : Z) (m : mem) : mem :=
  let prev := get_prev ptr m in
  let next := get_next ptr m in
  set_prev next prev (set_next prev next m).

(** [lzcntl]: the number of leading zero bits of a 32-bit value. *)
Definition get_index (aligned_size : Z) : Z :=
  if aligned_size =? 0 then 32 else 31 - Z.log2 aligned_size.

(** The table [begins] as [mm_init] fills it: entries 12..27 are the
    sentinels at offsets 120, 112, ..., 0; entries 0..11 alias offset 120;
    entries 28..31 stay null, and the table has 32 entries. *)
Definition begins (index : Z) : option Z :=
  if (0 <=? index) && (index <=? 11) then Some 120
  else if (12 <=? index) && (index <=? 27) then Some ((27 - index) * 8)
  else None.

Definition list_min_block_size (i : Z) : Z :=
  if (12 <=? i) && (i <=? 27) then Z.shiftl 1 (31 - i) else 0.

Definition list_max_block_size (i : Z) : Z :=
  if i =? 12 then 4294967295
  else if (12 <=? i) && (i <=? 27) then Z.shiftl 1 (32 - i) else 0.

Definition insert (ptr size : Z) (m : mem) : option mem :=
  let index := get_index size in
  match begins index with
  | None => None
  | Some end_ =>
      let prev := get_prev end_ m in
      let m1 := set_prev end_ ptr m in
      let m2 := set_prev ptr prev m1 in
      let m3 := set_next ptr end_ m2 in
      Some (set_next prev ptr m3)
  end.

(** ** Placement *)

Definition place (aligned_size ptr block_size : Z) (m : mem) : option (Z * mem) :=
  let remain_size := sub32 block_size aligned_size in
  if remain_size <? 16 then
    let m1 := set_allocated_flag ptr m in
    Some (ptr, set_forward_allocated_flag (get_back ptr m1) m1)
  else
    let m1 := set_size ptr aligned_size m in
    let m2 := set_allocated_flag ptr m1 in
    let new_back := get_back ptr m2 in
    let m3 := set_size new_back remain_size m2 in
    let m4 := unset_allocated_flag new_back m3 in
    let m5 := set_forward_allocated_flag new_back m4 in
    match insert new_back remain_size m5 with
    | None => None
    | Some m6 => Some (ptr, m6)
    end.

Definition align_size (size : Z) : Z :=
  if size =? 448 then 520
  else
    let tmp_aligned_size := Z.land (wrap32 (wrap32 size + 11)) NOT_7 in
    if tmp_aligned_size <? 16 then 16 else tmp_aligned_size.

Definition shrink (aligned_size ptr block_size : Z) (m : mem) : option (Z * mem) :=
  let remain_size := sub32 block_size aligned_size in
  if remain_size <? 16 then Some (ptr, m)
  else
    let m1 := set_size_only_header ptr aligned_size m in
    let new_back := get_back ptr m1 in
    let m2 := unset_allocated_flag new_back m1 in
    let m3 := set_size new_back remain_size m2 in
    let m4 := set_forward_allocated_flag new_back m3 in
    let back_of_new_back := get_back new_back m4 in
    if is_allocated back_of_new_back m4 then
      match insert new_back remain_size m4 with
      | None => None
      | Some m5 =>
          Some (ptr, unset_forward_allocated_flag (get_back new_back m5) m5)
      end
    else
      let new_size := add32 remain_size (get_size back_of_new_back m4) in
      let m5 := delete_block back_of_new_back m4 in
      let m6 := set_size new_back new_size m5 in
      match insert new_back new_size m6 with
      | None => None
      | Some m7 => Some (ptr, m7)
      end.

(** ** Search *)

(** The inner [for] loop of [find_fit_in_index_th_list]: walk the list from
    [ptr] until the sentinel [begin_and_end]. *)
Fixpoint scan_list (fuel : nat) (aligned_size begin_and_end ptr : Z) (m : mem)
  : option (option Z) :=
  match fuel with
  | O => None
  | S fuel' =>
      if ptr =? begin_and_end then Some None
      else if aligned_size <=? get_size ptr m then Some (Some ptr)
      else scan_list fuel' aligned_size begin_and_end (get_next ptr m) m
  end.

(** The [do ... while (--index > 11)] loop. *)
Fixpoint find_fit_loop (rounds fuel : nat) (aligned_size index : Z) (m : mem)
  : option (option Z * mem) :=
  match rounds with
  | O => None
  | S rounds' =>
      match begins index with
      | None => None
      | Some begin_and_end =>
          match scan_list fuel aligned_size begin_and_end
                  (get_next begin_and_end m) m with
          | None => None
          | Some (Some ptr) =>
              let block_size := get_size ptr m in
              match place aligned_size ptr block_size (delete_block ptr m) with
              | None => None
              | Some (p, m') => Some (Some p, m')
              end
          | Some None =>
              let index' := sub32 index 1 in
              if index' >? 11
              then find_fit_loop rounds' fuel aligned_size index' m
              else Some (None, m)
          end
      end
  end.

Definition find_fit_in_index_th_list (fuel : nat) (aligned_size index : Z)
  (m : mem) : option (option Z * mem) :=
  find_fit_loop fuel fuel aligned_size index m.

(** ** Allocator state *)

Record state : Type := mkState { heap_mem : mem; heap_last_ptr : Z }.

Definition with_mem (s : state) (m : mem) : state :=
  mkState m (heap_last_ptr s).

Section Allocator.

(** Modelled from the spec: the memory provider [mem_sbrk] (memlib.c is
    not part of the sources).  [heap_extend(n)] extends the heap by [n]
    bytes and returns the old end, or fails and leaves the heap unchanged.
    The provider's decision is the parameter [sbrk_ok brk incr]; the
    break itself coincides with [heap_last_ptr]. *)
Variable sbrk_ok : Z -> Z -> bool.

(** [mm_init] on an empty heap whose bytes are [m0]; the result is the
    returned [int] and the state. *)
Definition mm_init (m0 : mem) : option (Z * state) :=
  if negb (sbrk_ok 0 EXTEND_SIZE) then Some (-1, mkState m0 0)
  else
    let heap_last := 0 + EXTEND_SIZE in
    let m1 :=
      fold_left (fun m i => set_next i i (set_prev i i m))
        (map (fun k => 8 * Z.of_nat k) (seq 0 16)) m0 in
    let m2 := set_size 136 (EXTEND_SIZE - 128 - 8) m1 in
    let m3 := unset_allocated_flag 136 m2 in
    let m4 := set_forward_allocated_flag 136 m3 in
    let m5 := set_header heap_last (Z.lor (Z.lor 0 ALLOCATED) FORWARD_FREE) m4 in
    match insert 136 (EXTEND_SIZE - 128 - 8) m5 with
    | None => None
    | Some m6 => Some (0, mkState m6 heap_last)
    end.

Definition extend_heap (aligned_size : Z) (s : state)
  : option (option Z * state) :=
  let m := heap_mem s in
  let heap_last := heap_last_ptr s in
  if is_forward_allocated heap_last m then
    let extend_size :=
      if aligned_size >? EXTEND_SIZE then aligned_size else EXTEND_SIZE in
    let old_heap_last_ptr := heap_last in
    if negb (sbrk_ok heap_last extend_size) then Some (None, s)
    else
      let heap_last' := heap_last + extend_size in
      let m1 := set_size old_heap_last_ptr extend_size m in
      let m2 := unset_allocated_flag old_heap_last_ptr m1 in
      let m3 := set_header heap_last' (Z.lor (Z.lor 0 ALLOCATED) FORWARD_FREE) m2 in
      match place aligned_size old_heap_last_ptr extend_size m3 with
      | None => None
      | Some (p, m4) => Some (Some p, mkState m4 heap_last')
      end
  else
    let forward := get_forward heap_last m in
    let m1 := delete_block forward m in
    let forward_size := get_size forward m1 in
    let extend_size0 := sub32 aligned_size forward_size in
    let extend_size :=
      if extend_size0 >? EXTEND_SIZE then extend_size0 else EXTEND_SIZE in
    if negb (sbrk_ok heap_last extend_size) then Some (None, mkState m1 heap_last)
    else
      let heap_last' := heap_last + extend_size in
      let m2 := set_size forward (add32 forward_size extend_size) m1 in
      let m3 := set_header heap_last' (Z.lor (Z.lor 0 ALLOCATED) FORWARD_FREE) m2 in
      match place aligned_size forward (add32 extend_size forward_size) m3 with
      | None => None
      | Some (p, m4) => Some (Some p, mkState m4 heap_last')
      end.

Definition mm_malloc (fuel : nat) (size : Z) (s : state)
  : option (option Z * state) :=
  if size =? 0 then Some (None, s)
  else
    let aligned_size := align_size size in
    let index := get_index aligned_size in
    match find_fit_in_index_th_list fuel aligned_size index (heap_mem s) with
    | None => None
    | Some (Some ptr, m') => Some (Some ptr, with_mem s m')
    | Some (None, m') => extend_heap aligned_size (with_mem s m')
    end.

Definition mm_free (ptr : option Z) (s : state) : option state :=
  match ptr with
  | None => Some s
  | Some ptr =>
      let m := heap_mem s in
      let back := get_back ptr m in
      let forward_allocated := is_forward_allocated ptr m in
      let back_allocated := is_allocated back m in
      if forward_allocated && back_allocated then
        let size := get_size ptr m in
        let m1 := set_size ptr size m in
        let m2 := unset_allocated_flag ptr m1 in
        let m3 := unset_forward_allocated_flag back m2 in
        option_map (with_mem s) (insert ptr size m3)
      else if negb forward_allocated && back_allocated then
        let forward := get_forward ptr m in
        let m1 := delete_block forward m in
        let size := add32 (get_size forward m1) (get_size ptr m1) in
        let m2 := set_size forward size m1 in
        let m3 := unset_forward_allocated_flag back m2 in
        option_map (with_mem s) (insert forward size m3)
      else if forward_allocated && negb back_allocated then
        let m1 := delete_block back m in
        let size := add32 (get_size ptr m1) (get_size back m1) in
        let m2 := set_size ptr size m1 in
        let m3 := unset_allocated_flag ptr m2 in
        option_map (with_mem s) (insert ptr size m3)
      else
        let forward := get_forward ptr m in
        let m1 := delete_block forward m in
        let m2 := delete_block back m1 in
        let size :=
          add32 (add32 (get_size forward m2) (get_size ptr m2))
            (get_size back m2) in
        let m3 := set_size forward size m2 in
        option_map (with_mem s) (insert forward size m3)
  end.

Definition mm_realloc (fuel : nat) (old_ptr : option Z) (size : Z) (s : state)
  : option (option Z * state) :=
  match old_ptr with
  | None => mm_malloc fuel size s
  | Some old_ptr =>
      if size =? 0 then
        option_map (fun s' => (None, s')) (mm_free (Some old_ptr) s)
      else
        let m := heap_mem s in
        let old_block_size := get_size old_ptr m in
        let new_block_size := align_size size in
        if new_block_size <=? old_block_size then
          option_map (fun r => (Some (fst r), with_mem s (snd r)))
            (shrink new_block_size old_ptr old_block_size m)
        else
          let extend_size := sub32 new_block_size old_block_size in
          let back := get_back old_ptr m in
          let back_size := get_size back m in
          if negb (is_allocated back m) && (extend_size <=? back_size) then
            let new_back_size := sub32 back_size extend_size in
            if new_back_size >=? 16 then
              let m1 := delete_block back m in
              let new_back := back + extend_size in
              let m2 := set_size new_back new_back_size m1 in
              let m3 := unset_allocated_flag new_back m2 in
              let m4 := set_forward_allocated_flag new_back m3 in
              match insert new_back new_back_size m4 with
              | None => None
              | Some m5 =>
                  Some (Some old_ptr,
                        with_mem s (set_size_only_header old_ptr new_block_size m5))
              end
            else
              let m1 := delete_block back m in
              let m2 :=
                set_size_only_header old_ptr (add32 old_block_size back_size) m1 in
              Some (Some old_ptr,
                    with_mem s (set_forward_allocated_flag (get_back old_ptr m2) m2))
          else if back =? heap_last_ptr s then
            if negb (sbrk_ok (heap_last_ptr s) extend_size) then Some (None, s)
            else
              let heap_last' := heap_last_ptr s + extend_size in
              let m1 := set_size_only_header old_ptr new_block_size m in
              Some (Some old_ptr,
                    mkState
                      (set_header heap_last'
                         (Z.lor (Z.lor 0 ALLOCATED) FORWARD_ALLOCATED) m1)
                      heap_last')
          else
            match mm_malloc fuel size s with
            | None => None
            | Some (newptr, s1) =>
                let m1 :=
                  match newptr with
                  | Some q =>
                      memcpy q old_ptr (get_size old_ptr (heap_mem s1)) (heap_mem s1)
                  | None => heap_mem s1
                  end in
                option_map (fun s2 => (newptr, s2))
                  (mm_free (Some old_ptr) (with_mem s1 m1))
            end
  end.

(** [memset] writes [nmemb * size] bytes from [ptr].  When they do not
    end at or before the end of the heap, the write leaves the memory
    obtained from [mem_sbrk]: the call has no defined result. *)
Definition mm_calloc (fuel : nat) (nmemb size : Z) (s : state)
  : option (option Z * state) :=
  match mm_malloc fuel (wrap64 (nmemb * size)) s with
  | None => None
  | Some (Some ptr, s1) =>
      if ptr + wrap64 (nmemb * size) <=? heap_last_ptr s1 then
        Some (Some ptr,
              with_mem s1 (memset ptr 0 (wrap64 (nmemb * size)) (heap_mem s1)))
      else None
  | Some (None, s1) => Some (None, s1)
  end.

End Allocator.

(** * Specification-level definitions *)

(** ** Header fields *)

Definition hdr_size (h : Z) : Z := Z.land h NOT_7.
Definition hdr_alloc (h : Z) : bool := negb (Z.land h ALLOCATED =? 0).
Definition hdr_fwd (h : Z) : bool := Z.land h FORWARD_ALLOCATED =? FORWARD_ALLOCATED.

(** [hdr_is m p sz al pa]: the header of block [p] carries size [sz],
    allocated flag [al] and forward-allocated flag [pa]. *)
Definition hdr_is (m : mem) (p sz : Z) (al pa : bool) : Prop :=
  get_size p m = sz /\ is_allocated p m = al /\ is_forward_allocated p m = pa.

(** ** Free lists: circular doubly-linked lists with a sentinel *)

(** [dseg m a l b]: following [next] links from [a] visits the nodes [l]
    and then reaches [b]; the [prev] links go the other way. *)
Fixpoint dseg (m : mem) (a : Z) (l : list Z) (b : Z) : Prop :=
  match l with
  | [] => get_next a m = b /\ get_prev b m = a
  | y :: l' => get_next a m = y /\ get_prev y m = a /\ dseg m y l' b
  end.

Definition dll (m : mem) (h : Z) (l : list Z) : Prop := dseg m h l h.

(** A list node is an 8-aligned offset that fits a 32-bit link. *)
Definition node_ok (y : Z) : Prop := 0 <= y < two32 /\ y mod 8 = 0.

(** The memory effect of [insert] once the list head [end_] is known. *)
Definition link_tail (end_ ptr : Z) (m : mem) : mem :=
  let prev := get_prev end_ m in
  set_next prev ptr (set_next ptr end_ (set_prev ptr prev (set_prev end_ ptr m))).

(** ** The physical chain of blocks *)

(** A block of the abstract layout: its size and whether it is allocated. *)
Definition block : Type := (Z * bool)%type.

Fixpoint total (bs : list block) : Z :=
  match bs with
  | [] => 0
  | (sz, _) :: bs' => sz + total bs'
  end.

(** The allocated flag of the last block of [bs] ([pa] when [bs] is empty). *)
Fixpoint last_alloc (pa : bool) (bs : list block) : bool :=
  match bs with
  | [] => pa
  | (_, al) :: bs' => last_alloc al bs'
  end.

(** The blocks of [bs] laid out from [p]: pointer, size, allocated. *)
Fixpoint blocks_at (p : Z) (bs : list block) : list (Z * Z * bool) :=
  match bs with
  | [] => []
  | (sz, al) :: bs' => (p, sz, al) :: blocks_at (p + sz) bs'
  end.

Definition good_size (sz : Z) : Prop := 16 <= sz /\ sz mod 8 = 0.

(** [blk m p sz al pa]: memory holds at [p] a block of size [sz]; a free
    block also carries its size in the footer. *)
Definition blk (m : mem) (p sz : Z) (al pa : bool) : Prop :=
  hdr_is m p sz al pa /\ (al = false -> read_word (p + sz - 8) m = sz).

Fixpoint seg (m : mem) (p : Z) (pa : bool) (bs : list block) : Prop :=
  match bs with
  | [] => True
  | (sz, al) :: bs' => good_size sz /\ blk m p sz al pa /\ seg m (p + sz) al bs'
  end.

(** The header that follows a run of blocks: the next block's, or the
    trailing sentinel's. *)
Definition next_size (post : list block) : Z :=
  match post with [] => 0 | (sz, _) :: _ => sz end.

Definition next_alloc (post : list block) : bool :=
  match post with [] => true | (_, al) :: _ => al end.

(** The whole heap: the chain starts at offset 136 and ends with the
    trailing sentinel header at [hl]. *)
Definition heap_ok (m : mem) (hl : Z) (bs : list block) : Prop :=
  seg m 136 true bs /\ hl = 136 + total bs /\
  hdr_is m hl 0 true (last_alloc true bs).

(** No two physically adjacent blocks are free. *)
Fixpoint nadj (pa : bool) (bs : list block) : Prop :=
  match bs with
  | [] => True
  | (_, al) :: bs' => (pa = false -> al = true) /\ nadj al bs'
  end.

(** The bytes of the chain that hold headers and the footers of free blocks. *)
Fixpoint meta (p : Z) (bs : list block) (x : Z) : Prop :=
  match bs with
  | [] => False
  | (sz, al) :: bs' =>
      p - 4 <= x < p \/ (al = false /\ p + sz - 8 <= x < p + sz - 4) \/
      meta (p + sz) bs' x
  end.

(** ** Size classes *)

(** The sentinel of class [c] (12..27) and the class of a block size. *)
Definition sent (c : Z) : Z := (27 - c) * 8.

Definition class_of (sz : Z) : Z := Z.max 12 (get_index sz).

(** The abstract free lists: for each class, its nodes in list order. *)
Definition lists : Type := Z -> list Z.

Definition upd (L : lists) (c : Z) (l : list Z) : lists :=
  fun c' => if c' =? c then l else L c'.

Definition lists_ok (m : mem) (L : lists) : Prop :=
  forall c, 12 <= c <= 27 -> dll m (sent c) (L c) /\ NoDup (L c).

Definition sizes_ok (bs : list block) : Prop :=
  Forall (fun b => good_size (fst b)) bs.

(** Every list node is a free block of the chain and sits in the list of
    its size class. *)
Definition nodes_in (bs : list block) (L : lists) : Prop :=
  forall c x, 12 <= c <= 27 -> In x (L c) ->
    exists sz, In (x, sz, false) (blocks_at 136 bs) /\ class_of sz = c.

(** Every free block of the chain is on the list of its size class. *)
Definition complete (bs : list block) (L : lists) : Prop :=
  forall x sz, In (x, sz, false) (blocks_at 136 bs) -> In x (L (class_of sz)).

Record rep (m : mem) (hl : Z) (bs : list block) (L : lists) : Prop := mk_rep {
  rep_heap : heap_ok m hl bs;
  rep_bound : hl < two32;
  rep_lists : lists_ok m L;
  rep_nodes : nodes_in bs L
}.

(** The outcome of a successful placement of [aligned] bytes at [p]. *)
Definition carved (bs bs' : list block) (p aligned : Z) : Prop :=
  exists pre bsz post new,
    bs = pre ++ [(bsz, false)] ++ post /\ bs' = pre ++ new ++ post /\
    p = 136 + total pre /\ aligned <= bsz /\
    ((bsz - aligned < 16 /\ new = [(bsz, true)]) \/
     (16 <= bsz - aligned /\ new = [(aligned, true); (bsz - aligned, false)])).

(** The outcome of a successful extension of the heap for [aligned] bytes. *)
Definition grown (bs bs' : list block) (p aligned : Z) : Prop :=
  exists pre old new T,
    bs = pre ++ old /\ bs' = pre ++ new /\ p = 136 + total pre /\
    (old = [] \/ exists fsz, old = [(fsz, false)]) /\ aligned <= T /\
    ((T - aligned < 16 /\ new = [(T, true)]) \/
     (16 <= T - aligned /\ new = [(aligned, true); (T - aligned, false)])).

(** The allocated blocks of [bs'] are those of [bs] and a new one at [p]
    that holds at least [aligned] bytes. *)
Definition allocated_at (bs bs' : list block) (p aligned : Z) : Prop :=
  exists T, aligned <= T < aligned + 16 /\
    forall x sz, In (x, sz, true) (blocks_at 136 bs') <->
                 (x = p /\ sz = T) \/ In (x, sz, true) (blocks_at 136 bs).

(** ** The allocator invariant *)

(** [inv s live]: the heap of [s] is a well-formed chain of blocks without
    adjacent free blocks, the sixteen lists hold exactly its free blocks,
    each in the list of its size class, and the allocated blocks are the
    pointers in [live]. *)
Definition inv (s : state) (live : list Z) : Prop :=
  exists bs L,
    rep (heap_mem s) (heap_last_ptr s) bs L /\ complete bs L /\ nadj true bs /\
    forall x, In x live <-> exists sz, In (x, sz, true) (blocks_at 136 bs).

(** [apart L lo hi]: no link area of a list node or sentinel meets the
    bytes [lo, hi). *)
Definition apart (L : lists) (lo hi : Z) : Prop :=
  forall c y, 12 <= c <= 27 -> In y (sent c :: L c) -> y + 8 <= lo \/ hi <= y.

(** Two layouts with the same allocated pointers. *)
Definition same_allocs (bs bs' : list block) : Prop :=
  forall x, (exists sz, In (x, sz, true) (blocks_at 136 bs')) <->
            (exists sz, In (x, sz, true) (blocks_at 136 bs)).

(** [complete_on P bs L]: every free block of the chain that satisfies
    [P] is on the list of its size class. *)
Definition complete_on (P : Z -> Prop) (bs : list block) (L : lists) : Prop :=
  forall x sz, In (x, sz, false) (blocks_at 136 bs) -> P x -> In x (L (class_of sz)).

(** The allocated pointers of a layout. *)
Definition allocs (bs : list block) (x : Z) : Prop :=
  exists sz, In (x, sz, true) (blocks_at 136 bs).

(** The lists of a freshly initialized heap: the first block is the only
    node, in class 20. *)
Definition init_lists : lists := upd (fun _ => []) 20 [136].

(** [on_list m c x]: [x] is a node of the list of class [c], that is, it
    is met when the [next] links are followed from the sentinel of [c]
    until the sentinel is met again. *)
Definition on_list (m : mem) (c x : Z) : Prop :=
  exists l, dll m (sent c) l /\ ~ In (sent c) l /\ In x l.

(** * Executions of the allocator *)

Section Reachable.
Variable sbrk_ok : Z -> Z -> bool.

(** The live pointers after a call that returned [r]. *)
Definition add_live (r : option Z) (live : list Z) : list Z :=
  match r with
  | Some p => p :: live
  | None => live
  end.

(** The live pointers after [mm_realloc (Some p) size] returned [r] from
    state [s]: a null result leaves [p] live only when the block was the
    last one and the heap could not grow. *)
Definition realloc_live (s : state) (p size : Z) (r : option Z) (live : list Z)
  : list Z :=
  match r with
  | Some q => q :: remove Z.eq_dec p live
  | None =>
      if (size =? 0) || negb (get_back p (heap_mem s) =? heap_last_ptr s)
      then remove Z.eq_dec p live
      else live
  end.

(** [tail_allocated s]: the last block before the trailing sentinel is
    allocated (or the chain is empty). *)
Definition tail_allocated (s : state) : Prop :=
  is_forward_allocated (heap_last_ptr s) (heap_mem s) = true.

(** [reachable s live]: the state [s] is reached from a successful
    [mm_init] by calls of the allocator on live pointers and by writes
    of the client into the payload of live blocks; [live] are the
    pointers returned and not yet released.  A request may fail (return
    null for a size that is not 0) only while the last block is
    allocated: a refusal of the provider while the last block is free is
    the one path of [extend_heap] that is left out.  [mm_calloc] is
    called with a byte count that fits a block. *)
Inductive reachable : state -> list Z -> Prop :=
| reach_init m0 s :
    mm_init sbrk_ok m0 = Some (0, s) -> reachable s []
| reach_malloc s live fuel size r s' :
    reachable s live ->
    mm_malloc sbrk_ok fuel size s = Some (r, s') ->
    (r = None -> size <> 0 -> tail_allocated s) ->
    reachable s' (add_live r live)
| reach_free s live p s' :
    reachable s live -> In p live ->
    mm_free (Some p) s = Some s' ->
    reachable s' (remove Z.eq_dec p live)
| reach_realloc_null s live fuel size r s' :
    reachable s live ->
    mm_realloc sbrk_ok fuel None size s = Some (r, s') ->
    (r = None -> size <> 0 -> tail_allocated s) ->
    reachable s' (add_live r live)
| reach_realloc s live fuel p size r s' :
    reachable s live -> In p live ->
    mm_realloc sbrk_ok fuel (Some p) size s = Some (r, s') ->
    (r = None -> size <> 0 -> tail_allocated s) ->
    reachable s' (realloc_live s p size r live)
| reach_calloc s live fuel nmemb size r s' :
    reachable s live ->
    wrap64 (nmemb * size) <= two32 - 12 ->
    mm_calloc sbrk_ok fuel nmemb size s = Some (r, s') ->
    (r = None -> wrap64 (nmemb * size) <> 0 -> tail_allocated s) ->
    reachable s' (add_live r live)
| reach_write s live p a v :
    reachable s live -> In p live ->
    p <= a < p + get_size p (heap_mem s) - 4 ->
    reachable (with_mem s (write_byte a v (heap_mem s))) live.
End Reachable.

(** * Concrete runs *)

(** The provider keeps the heap within the offsets a 32-bit link can hold. *)
Definition bounded (sbrk_ok : Z -> Z -> bool) : Prop :=
  forall brk n, sbrk_ok brk n = true -> brk + n < two32.

(** A provider that grants an extension as long as the heap stays within
    [c] bytes. *)
Definition cap (c : Z) : Z -> Z -> bool := fun brk n => brk + n <=? c.

(** A heap area whose bytes are all zero before [mm_init]. *)
Definition m_zero : mem := fun _ => 0.

(** The calls of a client. *)
Inductive call : Type :=
| Malloc (size : Z)
| Free (ptr : Z)
| Realloc (ptr size : Z)
| Calloc (nmemb size : Z).

Definition step (sbrk_ok : Z -> Z -> bool) (fuel : nat) (c : call) (s : state)
  : option (option Z * state) :=
  match c with
  | Malloc size => mm_malloc sbrk_ok fuel size s
  | Free ptr => option_map (fun s' => (None, s')) (mm_free (Some ptr) s)
  | Realloc ptr size => mm_realloc sbrk_ok fuel (Some ptr) size s
  | Calloc nmemb size => mm_calloc sbrk_ok fuel nmemb size s
  end.

(** The results of a sequence of calls, and the state it leaves. *)
Fixpoint run (sbrk_ok : Z -> Z -> bool) (fuel : nat) (cs : list call) (s : state)
  : option (list (option Z) * state) :=
  match cs with
  | [] => Some ([], s)
  | c :: cs' =>
      match step sbrk_ok fuel c s with
      | None => None
      | Some (r, s') =>
          match run sbrk_ok fuel cs' s' with
          | None => None
          | Some (rs, s'') => Some (r :: rs, s'')
          end
      end
  end.

(** The state after [mm_init] on a zeroed heap area. *)
Definition start (sbrk_ok : Z -> Z -> bool) : state :=
  match mm_init sbrk_ok m_zero with
  | Some (_, s) => s
  | None => mkState m_zero 0
  end.

(** The state a sequence of calls leaves when it is run from [start]. *)
Definition after (sbrk_ok : Z -> Z -> bool) (cs : list call) : state :=
  match run sbrk_ok 100 cs (start sbrk_ok) with
  | Some (_, s) => s
  | None => start sbrk_ok
  end.

Definition results (sbrk_ok : Z -> Z -> bool) (cs : list call) : option (list (option Z)) :=
  option_map fst (run sbrk_ok 100 cs (start sbrk_ok)).

(** A run in which the provider refuses two extensions while the last
    block of the heap is free. *)
Definition refusals : list call :=
  [Malloc 16; Malloc 64; Malloc 16; Free 160; Malloc 3764; Malloc 100000;
   Free 136; Malloc 21; Malloc 100000].

(** The calls whose return is proved: requests below [2^31 - 12] bytes
    (larger ones make [find_fit_in_index_th_list] leave the table
    [begins]), pointers that are live, and for [mm_realloc] a heap whose
    last block is allocated or a block whose successor is. *)
Definition valid_call (s : state) (live : list Z) (c : call) : Prop :=
  match c with
  | Malloc size => 0 <= size <= 2 ^ 31 - 12
  | Free ptr => In ptr live
  | Realloc ptr size =>
      In ptr live /\ 0 <= size <= 2 ^ 31 - 12 /\
      (tail_allocated s \/
       is_allocated (get_back ptr (heap_mem s)) (heap_mem s) = true)
  | Calloc nmemb size => 0 <= nmemb /\ 0 <= size /\ nmemb * size <= 2 ^ 31 - 12
  end.

(** * The heap checker *)

(** What [mm_checkheap] prints: one constructor for each [printf] of the
    function, with the values of its arguments (pointers as offsets). *)
Inductive report : Type :=
| Heap_tail (heap_last : Z)
| Allocated_wrong (lineno block : Z)
| Flags_are (allocated forward_allocated : bool)
| Both_free (lineno block : Z)
| Footer_differs (lineno block : Z)
| Wrong_size (lineno block index : Z)
| Size_limits (lineno max min size : Z)
| Wrong_link (lineno block : Z).

(** The innermost [for] loop: the walk of list [i] from [iterator] to the
    sentinel [end_]. *)
Fixpoint check_list (fuel : nat) (lineno i end_ iterator : Z) (s : state)
  : option (list report) :=
  match fuel with
  | O => None
  | S fuel' =>
      if iterator =? end_ then Some []
      else
        let m := heap_mem s in
        let out1 :=
          if (get_size iterator m <? list_min_block_size i)
             || (get_size iterator m >=? list_max_block_size i)
          then [Heap_tail (heap_last_ptr s); Wrong_size lineno iterator i;
                Size_limits lineno (list_max_block_size i) (list_min_block_size i)
                  (get_size iterator m)]
          else [] in
        let out2 :=
          if negb (get_prev (get_next iterator m) m =? iterator)
          then [Heap_tail (heap_last_ptr s); Wrong_link lineno iterator]
          else [] in
        match check_list fuel' lineno i end_ (get_next iterator m) s with
        | None => None
        | Some out => Some (out1 ++ out2 ++ out)
        end
  end.

(** The loop [for (size_t i = 12; i < 28; i++)] over the lists [indices]. *)
Fixpoint check_lists (fuel : nat) (lineno : Z) (indices : list Z) (s : state)
  : option (list report) :=
  match indices with
  | [] => Some []
  | i :: indices' =>
      match begins i with
      | None => None
      | Some end_ =>
          match check_list fuel lineno i end_ (get_next end_ (heap_mem s)) s with
          | None => None
          | Some out =>
              match check_lists fuel lineno indices' s with
              | None => None
              | Some out' => Some (out ++ out')
              end
          end
      end
  end.

(** The indices 12, 13, ..., 27. *)
Definition list_indices : list Z := map (fun k => 12 + Z.of_nat k) (seq 0 16).

(** The outer [for] loop: the walk of the blocks from [iterator] to
    [heap_last_ptr]; the lists are checked once for every block. *)
Fixpoint check_blocks (fuel rounds : nat) (lineno iterator : Z) (s : state)
  : option (list report) :=
  match rounds with
  | O => None
  | S rounds' =>
      if iterator <? heap_last_ptr s then
        let m := heap_mem s in
        let back := get_back iterator m in
        let out1 :=
          if xorb (is_allocated iterator m) (is_forward_allocated back m)
          then [Heap_tail (heap_last_ptr s); Allocated_wrong lineno iterator;
                Flags_are (is_allocated iterator m) (is_forward_allocated back m)]
          else [] in
        let out2 :=
          if negb (is_allocated iterator m) && negb (is_allocated back m)
          then [Heap_tail (heap_last_ptr s); Both_free lineno iterator]
          else [] in
        let out3 :=
          if negb (is_allocated iterator m)
             && negb (get_size iterator m
                      =? read_word (iterator + get_size iterator m - 2 * WORD_SIZE) m)
          then [Heap_tail (heap_last_ptr s); Footer_differs lineno iterator]
          else [] in
        match check_lists fuel lineno list_indices s with
        | None => None
        | Some out4 =>
            match check_blocks fuel rounds' lineno back s with
            | None => None
            | Some out => Some (out1 ++ out2 ++ out3 ++ out4 ++ out)
            end
        end
      else Some []
  end.

(** [mm_checkheap lineno]: what the function prints; it changes nothing. *)
Definition mm_checkheap (fuel : nat) (lineno : Z) (s : state) : option (list report) :=
  check_blocks fuel fuel lineno 136 s.

(** * Further specification-level definitions *)

(** [moved sbrk_ok least s s']: the end of the heap is where it was, or it
    moved up by the size of one request that the provider granted at the
    old end, of at least [least] bytes. *)
Definition moved (sbrk_ok : Z -> Z -> bool) (least : Z) (s s' : state) : Prop :=
  heap_last_ptr s' = heap_last_ptr s \/
  exists n, least <= n /\ sbrk_ok (heap_last_ptr s) n = true /\
            heap_last_ptr s' = heap_last_ptr s + n.

(** [off_lists L w]: the byte [w] is in the link area of no sentinel and
    of no list node. *)
Definition off_lists (L : lists) (w : Z) : Prop :=
  forall c y, 12 <= c <= 27 -> In y (sent c :: L c) -> w < y \/ y + 8 <= w.

(** [payload_byte bs x w]: [w] is a byte of the payload of the allocated
    block [x] of the layout [bs]: one of the bytes after its header and
    before the header of the next block. *)
Definition payload_byte (bs : list block) (x w : Z) : Prop :=
  exists sz, In (x, sz, true) (blocks_at 136 bs) /\ x <= w < x + sz - 4.

(** [spared bs top x w]: [w] is a byte that the allocator has to leave
    alone: a payload byte of the allocated block [x], or a byte outside
    the area from offset 0 to [top]. *)
Definition spared (bs : list block) (top x w : Z) : Prop :=
  payload_byte bs x w \/ w < 0 \/ top <= w.

(** The block that holds [p] once [p] is free and merged with its free
    neighbours: it starts at [p], or at the block before [p] when that
    one is free, and ends where the block after [p] starts, or where that
    block ends when it is free. *)
Definition merged_start (p : Z) (m : mem) : Z :=
  if is_forward_allocated p m then p else get_forward p m.

Definition merged_end (p : Z) (m : mem) : Z :=
  if is_allocated (get_back p m) m then get_back p m
  else get_back (get_back p m) m.

(** A heap with two adjacent free blocks: the one free block of the heap
    after [mm_init] is taken off its list and cut in two free blocks of
    24 and 3936 bytes. *)
Definition two_free : state :=
  let s := start (cap 4096) in
  with_mem s (set_size 160 3936 (set_size 136 24 (delete_block 136 (heap_mem s)))).

(** * Proofs *)

Ltac Zify.zify_post_hook ::= Z.to_euclidean_division_equations.

(** ** Bytes and words *)

Lemma read_byte_bound a m : 0 <= read_byte a m < 256.
Proof. unfold read_byte. apply Z.mod_pos_bound. lia. Qed.

Lemma read_word_bound a m : 0 <= read_word a m < two32.
Proof.
  unfold read_word, two32.
  pose proof (read_byte_bound a m). pose proof (read_byte_bound (a + 1) m).
  pose proof (read_byte_bound (a + 2) m). pose proof (read_byte_bound (a + 3) m).
  lia.
Qed.

Lemma read_write_byte_same a v m : read_byte a (write_byte a v m) = v mod 256.
Proof.
  unfold read_byte, write_byte. rewrite Z.eqb_refl. apply Z.mod_mod. lia.
Qed.

Lemma read_write_byte_other a b v m :
  a <> b -> read_byte a (write_byte b v m) = read_byte a m.
Proof.
  intros H. unfold read_byte, write_byte.
  destruct (Z.eqb_spec a b); [contradiction | reflexivity].
Qed.

Lemma read_byte_ext a m m' : m' a = m a -> read_byte a m' = read_byte a m.
Proof. unfold read_byte. intros ->. reflexivity. Qed.

Lemma read_word_ext a m m' :
  (forall x, a <= x < a + 4 -> m' x = m x) -> read_word a m' = read_word a m.
Proof.
  intros H. unfold read_word.
  rewrite (read_byte_ext a m m'), (read_byte_ext (a + 1) m m'),
    (read_byte_ext (a + 2) m m'), (read_byte_ext (a + 3) m m');
    try reflexivity; apply H; lia.
Qed.

Lemma write_word_frame b v m x :
  x < b \/ b + 4 <= x -> write_word b v m x = m x.
Proof.
  intros H. unfold write_word, write_byte.
  repeat match goal with
         | |- context [?u =? ?w] => destruct (Z.eqb_spec u w); [lia|]
         end.
  reflexivity.
Qed.

Lemma bytes_of_word v :
  v mod 256 + 256 * ((v / 256) mod 256) + 65536 * ((v / 65536) mod 256)
  + 16777216 * ((v / 16777216) mod 256) = v mod two32.
Proof.
  unfold two32.
  pose proof (Z.div_mod v 256 ltac:(lia)) as H0.
  pose proof (Z.div_mod (v / 256) 256 ltac:(lia)) as H1.
  pose proof (Z.div_mod (v / 256 / 256) 256 ltac:(lia)) as H2.
  pose proof (Z.div_mod (v / 256 / 256 / 256) 256 ltac:(lia)) as H3.
  pose proof (Z.mod_pos_bound v 256 ltac:(lia)).
  pose proof (Z.mod_pos_bound (v / 256) 256 ltac:(lia)).
  pose proof (Z.mod_pos_bound (v / 256 / 256) 256 ltac:(lia)).
  pose proof (Z.mod_pos_bound (v / 256 / 256 / 256) 256 ltac:(lia)).
  replace (v / 65536) with (v / 256 / 256)
    by (rewrite Z.div_div by lia; reflexivity).
  replace (v / 16777216) with (v / 256 / 256 / 256)
    by (rewrite !Z.div_div by lia; reflexivity).
  apply Z.mod_unique with (q := v / 256 / 256 / 256 / 256); lia.
Qed.

Lemma read_write_word_same a v m : read_word a (write_word a v m) = v mod two32.
Proof.
  unfold read_word, write_word.
  repeat first [ rewrite read_write_byte_same
               | rewrite read_write_byte_other by lia ].
  apply bytes_of_word.
Qed.

Lemma read_write_word_other a b v m :
  a + 4 <= b \/ b + 4 <= a -> read_word a (write_word b v m) = read_word a m.
Proof.
  intros H. apply read_word_ext. intros x Hx. apply write_word_frame. lia.
Qed.

(** ** Header fields *)

Lemma testbit_1 n : 0 <= n -> Z.testbit 1 n = (n =? 0).
Proof.
  intros H. change 1 with (Z.ones 1). rewrite Z.testbit_ones by lia.
  destruct (Z.eqb_spec n 0); destruct (Z.leb_spec 0 n); destruct (Z.ltb_spec n 1); simpl; lia.
Qed.

Lemma testbit_2 n : 0 <= n -> Z.testbit 2 n = (n =? 1).
Proof.
  intros H. change 2 with (Z.shiftl 1 1). rewrite Z.shiftl_spec by lia.
  destruct (Z.eqb_spec n 1).
  - subst. reflexivity.
  - destruct (Z.ltb_spec (n - 1) 0).
    + apply Z.testbit_neg_r. lia.
    + rewrite testbit_1 by lia. apply Z.eqb_neq. lia.
Qed.

Lemma testbit_7 n : 0 <= n -> Z.testbit 7 n = (n <? 3).
Proof.
  intros H. change 7 with (Z.ones 3). rewrite Z.testbit_ones by lia.
  destruct (Z.leb_spec 0 n); destruct (Z.ltb_spec n 3); simpl; lia.
Qed.

Lemma testbit_NOT_7 n : 0 <= n -> Z.testbit NOT_7 n = (3 <=? n) && (n <? 32).
Proof.
  intros H. change NOT_7 with (Z.shiftl (Z.ones 29) 3). rewrite Z.shiftl_spec by lia.
  destruct (Z.leb_spec 3 n); simpl.
  - rewrite Z.testbit_ones by lia.
    destruct (Z.leb_spec 0 (n - 3)); destruct (Z.ltb_spec (n - 3) 29); destruct (Z.ltb_spec n 32); simpl; lia.
  - apply Z.testbit_neg_r. lia.
Qed.

Lemma testbit_NOT_ALLOCATED n :
  0 <= n -> Z.testbit NOT_ALLOCATED n = (1 <=? n) && (n <? 32).
Proof.
  intros H. change NOT_ALLOCATED with (Z.shiftl (Z.ones 31) 1). rewrite Z.shiftl_spec by lia.
  destruct (Z.leb_spec 1 n); simpl.
  - rewrite Z.testbit_ones by lia.
    destruct (Z.leb_spec 0 (n - 1)); destruct (Z.ltb_spec (n - 1) 31); destruct (Z.ltb_spec n 32); simpl; lia.
  - apply Z.testbit_neg_r. lia.
Qed.

Lemma testbit_NOT_FORWARD_ALLOCATED n :
  0 <= n -> Z.testbit NOT_FORWARD_ALLOCATED n = negb (n =? 1) && (n <? 32).
Proof.
  intros H. change NOT_FORWARD_ALLOCATED with (Z.lor (Z.shiftl (Z.ones 30) 2) 1).
  rewrite Z.lor_spec, testbit_1, Z.shiftl_spec by lia.
  destruct (Z.eqb_spec n 0); [subst; reflexivity|].
  destruct (Z.eqb_spec n 1); [subst; reflexivity|].
  rewrite Z.testbit_ones by lia.
  destruct (Z.leb_spec 0 (n - 2)); destruct (Z.ltb_spec (n - 2) 30); destruct (Z.ltb_spec n 32); simpl; lia.
Qed.

Lemma hdr_alloc_testbit h : hdr_alloc h = Z.testbit h 0.
Proof.
  unfold hdr_alloc, ALLOCATED. change 1 with (Z.ones 1).
  rewrite Z.land_ones by lia. change (2 ^ 1) with 2.
  rewrite <- Z.bit0_mod. destruct (Z.testbit h 0); reflexivity.
Qed.

Lemma hdr_fwd_testbit h : hdr_fwd h = Z.testbit h 1.
Proof.
  unfold hdr_fwd, FORWARD_ALLOCATED.
  destruct (Z.testbit h 1) eqn:E.
  - apply Z.eqb_eq. apply Z.bits_inj'. intros n Hn.
    rewrite Z.land_spec, testbit_2 by lia.
    destruct (Z.eqb_spec n 1); [subst; rewrite E; reflexivity | apply andb_false_r].
  - apply Z.eqb_neq. intros H. apply (f_equal (fun z => Z.testbit z 1)) in H.
    rewrite Z.land_spec, E in H. discriminate H.
Qed.

Lemma testbit_low_mult8 sz n : sz mod 8 = 0 -> n < 3 -> Z.testbit sz n = false.
Proof.
  intros H Hn. destruct (Z.ltb_spec n 0); [apply Z.testbit_neg_r; lia|].
  rewrite <- (Z.mod_pow2_bits_low sz 3 n) by lia.
  change (2 ^ 3) with 8. rewrite H. apply Z.bits_0.
Qed.

Lemma testbit_high_32 v n : 0 <= v < two32 -> 32 <= n -> Z.testbit v n = false.
Proof.
  intros H Hn. rewrite <- (Z.mod_small v (2 ^ 32)) by (change (2 ^ 32) with two32; lia).
  apply Z.mod_pow2_bits_high. lia.
Qed.

Ltac cmp_cases :=
  repeat match goal with
    | |- context [?a =? ?b] => destruct (Z.eqb_spec a b)
    | |- context [?a <=? ?b] => destruct (Z.leb_spec a b)
    | |- context [?a <? ?b] => destruct (Z.ltb_spec a b)
    end; simpl; try reflexivity; try lia.

Ltac bits_eq :=
  apply Z.bits_inj'; intros ?n ?Hn;
  repeat (rewrite Z.lor_spec || rewrite Z.land_spec);
  rewrite ?testbit_1, ?testbit_2, ?testbit_7, ?testbit_NOT_7,
    ?testbit_NOT_ALLOCATED, ?testbit_NOT_FORWARD_ALLOCATED by lia.

Lemma hdr_size_bound h : 0 <= hdr_size h < two32.
Proof.
  unfold hdr_size. split.
  - apply Z.land_nonneg. right. unfold NOT_7. lia.
  - assert (Z.land h NOT_7 = Z.land (Z.land h NOT_7) (Z.ones 32)) as ->.
    { rewrite <- Z.land_assoc. reflexivity. }
    rewrite Z.land_ones by lia. apply Z.mod_pos_bound. reflexivity.
Qed.

Lemma hdr_size_mult8 h : hdr_size h mod 8 = 0.
Proof.
  unfold hdr_size. change 8 with (2 ^ 3). rewrite <- Z.land_ones by lia.
  rewrite <- Z.land_assoc. change (Z.land NOT_7 (Z.ones 3)) with 0.
  apply Z.land_0_r.
Qed.

Lemma hdr_size_wrap v : hdr_size (v mod two32) = hdr_size v.
Proof.
  unfold hdr_size. change two32 with (2 ^ 32). rewrite <- Z.land_ones by lia.
  rewrite <- Z.land_assoc. reflexivity.
Qed.

Lemma hdr_alloc_wrap v : hdr_alloc (v mod two32) = hdr_alloc v.
Proof.
  unfold hdr_alloc. change two32 with (2 ^ 32). rewrite <- Z.land_ones by lia.
  rewrite <- Z.land_assoc. reflexivity.
Qed.

Lemma hdr_fwd_wrap v : hdr_fwd (v mod two32) = hdr_fwd v.
Proof.
  unfold hdr_fwd. change two32 with (2 ^ 32). rewrite <- Z.land_ones by lia.
  rewrite <- Z.land_assoc. reflexivity.
Qed.

(** Flag updates. *)
Lemma hdr_size_set_alloc h : hdr_size (Z.lor h ALLOCATED) = hdr_size h.
Proof. unfold hdr_size, ALLOCATED. bits_eq. cmp_cases; destruct (Z.testbit h n); reflexivity. Qed.

Lemma hdr_size_unset_alloc h : hdr_size (Z.land h NOT_ALLOCATED) = hdr_size h.
Proof. unfold hdr_size. bits_eq. cmp_cases; destruct (Z.testbit h n); reflexivity. Qed.

Lemma hdr_size_set_fwd h : hdr_size (Z.lor h FORWARD_ALLOCATED) = hdr_size h.
Proof. unfold hdr_size, FORWARD_ALLOCATED. bits_eq. cmp_cases; destruct (Z.testbit h n); reflexivity. Qed.

Lemma hdr_size_unset_fwd h : hdr_size (Z.land h NOT_FORWARD_ALLOCATED) = hdr_size h.
Proof. unfold hdr_size. bits_eq. cmp_cases; destruct (Z.testbit h n); reflexivity. Qed.

Lemma hdr_alloc_set_alloc h : hdr_alloc (Z.lor h ALLOCATED) = true.
Proof. rewrite hdr_alloc_testbit. unfold ALLOCATED. rewrite Z.lor_spec. apply orb_true_r. Qed.

Lemma hdr_alloc_unset_alloc h : hdr_alloc (Z.land h NOT_ALLOCATED) = false.
Proof. rewrite hdr_alloc_testbit, Z.land_spec. apply andb_false_r. Qed.

Lemma hdr_alloc_set_fwd h : hdr_alloc (Z.lor h FORWARD_ALLOCATED) = hdr_alloc h.
Proof. rewrite !hdr_alloc_testbit. unfold FORWARD_ALLOCATED. rewrite Z.lor_spec. apply orb_false_r. Qed.

Lemma hdr_alloc_unset_fwd h : hdr_alloc (Z.land h NOT_FORWARD_ALLOCATED) = hdr_alloc h.
Proof. rewrite !hdr_alloc_testbit, Z.land_spec. apply andb_true_r. Qed.

Lemma hdr_fwd_set_alloc h : hdr_fwd (Z.lor h ALLOCATED) = hdr_fwd h.
Proof. rewrite !hdr_fwd_testbit. unfold ALLOCATED. rewrite Z.lor_spec. apply orb_false_r. Qed.

Lemma hdr_fwd_unset_alloc h : hdr_fwd (Z.land h NOT_ALLOCATED) = hdr_fwd h.
Proof. rewrite !hdr_fwd_testbit, Z.land_spec. apply andb_true_r. Qed.

Lemma hdr_fwd_set_fwd h : hdr_fwd (Z.lor h FORWARD_ALLOCATED) = true.
Proof. rewrite hdr_fwd_testbit. unfold FORWARD_ALLOCATED. rewrite Z.lor_spec. apply orb_true_r. Qed.

Lemma hdr_fwd_unset_fwd h : hdr_fwd (Z.land h NOT_FORWARD_ALLOCATED) = false.
Proof. rewrite hdr_fwd_testbit, Z.land_spec. apply andb_false_r. Qed.

(** Size updates keep the three flag bits. *)
Lemma hdr_size_set_size sz h :
  0 <= sz < two32 -> sz mod 8 = 0 -> hdr_size (Z.lor sz (Z.land h 7)) = sz.
Proof.
  intros Hr H8. unfold hdr_size. bits_eq.
  destruct (Z.ltb_spec n 3).
  - rewrite (testbit_low_mult8 sz n) by lia. cmp_cases.
  - destruct (Z.ltb_spec n 32).
    + cmp_cases. rewrite andb_false_r, orb_false_r, andb_true_r. reflexivity.
    + rewrite (testbit_high_32 sz n) by lia. cmp_cases.
Qed.

Lemma hdr_alloc_set_size sz h :
  sz mod 8 = 0 -> hdr_alloc (Z.lor sz (Z.land h 7)) = hdr_alloc h.
Proof.
  intros H8. rewrite !hdr_alloc_testbit, Z.lor_spec, Z.land_spec.
  rewrite (testbit_low_mult8 sz 0) by lia. simpl. apply andb_true_r.
Qed.

Lemma hdr_fwd_set_size sz h :
  sz mod 8 = 0 -> hdr_fwd (Z.lor sz (Z.land h 7)) = hdr_fwd h.
Proof.
  intros H8. rewrite !hdr_fwd_testbit, Z.lor_spec, Z.land_spec.
  rewrite (testbit_low_mult8 sz 1) by lia. simpl. apply andb_true_r.
Qed.

(** ** Header accessors *)

Lemma get_size_hdr p m : get_size p m = hdr_size (get_header p m).
Proof. reflexivity. Qed.

Lemma is_allocated_hdr p m : is_allocated p m = hdr_alloc (get_header p m).
Proof. reflexivity. Qed.

Lemma is_forward_allocated_hdr p m :
  is_forward_allocated p m = hdr_fwd (get_header p m).
Proof. reflexivity. Qed.

Lemma get_header_bound p m : 0 <= get_header p m < two32.
Proof. apply read_word_bound. Qed.

Lemma get_size_bound p m : 0 <= get_size p m < two32.
Proof. apply hdr_size_bound. Qed.

Lemma get_size_mult8 p m : get_size p m mod 8 = 0.
Proof. apply hdr_size_mult8. Qed.

Lemma hdr_is_self p m :
  hdr_is m p (get_size p m) (is_allocated p m) (is_forward_allocated p m).
Proof. repeat split. Qed.

(** *** Frames: which bytes a setter may change *)

Lemma set_header_frame p h m x :
  x < p - 4 \/ p <= x -> set_header p h m x = m x.
Proof. intros H. apply write_word_frame. unfold WORD_SIZE. lia. Qed.

Lemma set_allocated_flag_frame p m x :
  x < p - 4 \/ p <= x -> set_allocated_flag p m x = m x.
Proof. apply set_header_frame. Qed.

Lemma unset_allocated_flag_frame p m x :
  x < p - 4 \/ p <= x -> unset_allocated_flag p m x = m x.
Proof. apply set_header_frame. Qed.

Lemma set_forward_allocated_flag_frame p m x :
  x < p - 4 \/ p <= x -> set_forward_allocated_flag p m x = m x.
Proof. apply set_header_frame. Qed.

Lemma unset_forward_allocated_flag_frame p m x :
  x < p - 4 \/ p <= x -> unset_forward_allocated_flag p m x = m x.
Proof. apply set_header_frame. Qed.

Lemma set_size_only_header_frame p sz m x :
  x < p - 4 \/ p <= x -> set_size_only_header p sz m x = m x.
Proof. apply set_header_frame. Qed.

Lemma set_size_frame p sz m x :
  x < p - 4 \/ p <= x -> x < p + sz - 8 \/ p + sz - 4 <= x ->
  set_size p sz m x = m x.
Proof.
  intros H1 H2. unfold set_size.
  rewrite write_word_frame by (unfold WORD_SIZE; lia).
  apply set_header_frame. exact H1.
Qed.

Lemma set_prev_frame p v m x : x < p \/ p + 4 <= x -> set_prev p v m x = m x.
Proof. apply write_word_frame. Qed.

Lemma set_next_frame p v m x :
  x < p + 4 \/ p + 8 <= x -> set_next p v m x = m x.
Proof. intros H. apply write_word_frame. unfold WORD_SIZE. lia. Qed.

(** *** Reading a header after a write *)

Lemma get_header_frame p m m' :
  (forall x, p - 4 <= x < p -> m' x = m x) -> get_header p m' = get_header p m.
Proof.
  intros H. apply read_word_ext. intros x Hx. apply H. unfold WORD_SIZE in Hx. lia.
Qed.

Lemma hdr_is_frame m m' p sz al pa :
  hdr_is m p sz al pa -> (forall x, p - 4 <= x < p -> m' x = m x) ->
  hdr_is m' p sz al pa.
Proof.
  unfold hdr_is. rewrite !get_size_hdr, !is_allocated_hdr, !is_forward_allocated_hdr.
  intros H Hf. rewrite (get_header_frame p m m' Hf). exact H.
Qed.

Lemma get_header_set_header p h m : get_header p (set_header p h m) = h mod two32.
Proof. apply read_write_word_same. Qed.

Lemma hdr_is_set_header m p h :
  hdr_is (set_header p h m) p (hdr_size h) (hdr_alloc h) (hdr_fwd h).
Proof.
  unfold hdr_is. rewrite get_size_hdr, is_allocated_hdr, is_forward_allocated_hdr.
  rewrite get_header_set_header, hdr_size_wrap, hdr_alloc_wrap, hdr_fwd_wrap.
  repeat split.
Qed.

Lemma hdr_is_set_allocated_flag m p sz al pa :
  hdr_is m p sz al pa -> hdr_is (set_allocated_flag p m) p sz true pa.
Proof.
  intros (Hs & Ha & Hf). pose proof (hdr_is_set_header m p (Z.lor (get_header p m) ALLOCATED)) as H.
  rewrite hdr_size_set_alloc, hdr_alloc_set_alloc, hdr_fwd_set_alloc in H.
  rewrite <- get_size_hdr, <- is_forward_allocated_hdr, Hs, Hf in H. exact H.
Qed.

Lemma hdr_is_unset_allocated_flag m p sz al pa :
  hdr_is m p sz al pa -> hdr_is (unset_allocated_flag p m) p sz false pa.
Proof.
  intros (Hs & Ha & Hf). pose proof (hdr_is_set_header m p (Z.land (get_header p m) NOT_ALLOCATED)) as H.
  rewrite hdr_size_unset_alloc, hdr_alloc_unset_alloc, hdr_fwd_unset_alloc in H.
  rewrite <- get_size_hdr, <- is_forward_allocated_hdr, Hs, Hf in H. exact H.
Qed.

Lemma hdr_is_set_forward_allocated_flag m p sz al pa :
  hdr_is m p sz al pa -> hdr_is (set_forward_allocated_flag p m) p sz al true.
Proof.
  intros (Hs & Ha & Hf). pose proof (hdr_is_set_header m p (Z.lor (get_header p m) FORWARD_ALLOCATED)) as H.
  rewrite hdr_size_set_fwd, hdr_alloc_set_fwd, hdr_fwd_set_fwd in H.
  rewrite <- get_size_hdr, <- is_allocated_hdr, Hs, Ha in H. exact H.
Qed.

Lemma hdr_is_unset_forward_allocated_flag m p sz al pa :
  hdr_is m p sz al pa -> hdr_is (unset_forward_allocated_flag p m) p sz al false.
Proof.
  intros (Hs & Ha & Hf). pose proof (hdr_is_set_header m p (Z.land (get_header p m) NOT_FORWARD_ALLOCATED)) as H.
  rewrite hdr_size_unset_fwd, hdr_alloc_unset_fwd, hdr_fwd_unset_fwd in H.
  rewrite <- get_size_hdr, <- is_allocated_hdr, Hs, Ha in H. exact H.
Qed.

Lemma hdr_is_set_size_only_header m p sz al pa sz' :
  hdr_is m p sz al pa -> 0 <= sz' < two32 -> sz' mod 8 = 0 ->
  hdr_is (set_size_only_header p sz' m) p sz' al pa.
Proof.
  intros (Hs & Ha & Hf) Hr H8.
  pose proof (hdr_is_set_header m p (Z.lor sz' (Z.land (get_header p m) 7))) as H.
  rewrite hdr_size_set_size, hdr_alloc_set_size, hdr_fwd_set_size in H by assumption.
  rewrite <- is_allocated_hdr, <- is_forward_allocated_hdr, Ha, Hf in H. exact H.
Qed.

Lemma hdr_is_set_size m p sz al pa sz' :
  hdr_is m p sz al pa -> 8 <= sz' < two32 -> sz' mod 8 = 0 ->
  hdr_is (set_size p sz' m) p sz' al pa.
Proof.
  intros H Hr H8. unfold set_size.
  apply hdr_is_frame with (m := set_size_only_header p sz' m).
  - apply hdr_is_set_size_only_header with (sz := sz); [exact H | lia | exact H8].
  - intros x Hx. apply write_word_frame. unfold WORD_SIZE. lia.
Qed.

Lemma footer_set_size p sz m :
  0 <= sz < two32 -> read_word (p + sz - 8) (set_size p sz m) = sz.
Proof.
  intros Hr. unfold set_size, WORD_SIZE. change (2 * 4) with 8.
  rewrite read_write_word_same. apply Z.mod_small. exact Hr.
Qed.

(** ** Doubly-linked list segments *)

Ltac zlia := unfold node_ok, two32, WORD_SIZE in *; lia.

Lemma get_next_set_next p v m : 0 <= v < two32 -> get_next p (set_next p v m) = v.
Proof. intros H. unfold get_next, set_next. rewrite read_write_word_same. apply Z.mod_small, H. Qed.

Lemma get_prev_set_prev p v m : 0 <= v < two32 -> get_prev p (set_prev p v m) = v.
Proof. intros H. unfold get_prev, set_prev. rewrite read_write_word_same. apply Z.mod_small, H. Qed.

Lemma get_next_frame p m m' :
  (forall x, p + 4 <= x < p + 8 -> m' x = m x) -> get_next p m' = get_next p m.
Proof. intros H. apply read_word_ext. intros x Hx. apply H. unfold WORD_SIZE in Hx. lia. Qed.

Lemma get_prev_frame p m m' :
  (forall x, p <= x < p + 4 -> m' x = m x) -> get_prev p m' = get_prev p m.
Proof. intros H. apply read_word_ext. intros x Hx. apply H. lia. Qed.

Lemma dseg_frame m m' a l b :
  dseg m a l b ->
  (forall y, In y (a :: l) -> get_next y m' = get_next y m) ->
  (forall y, In y (l ++ [b]) -> get_prev y m' = get_prev y m) ->
  dseg m' a l b.
Proof.
  revert a. induction l as [|y l IH]; simpl; intros a H Hn Hp.
  - destruct H as [H1 H2]. split.
    + rewrite Hn by auto. exact H1.
    + rewrite Hp by auto. exact H2.
  - destruct H as (H1 & H2 & H3). split; [|split].
    + rewrite Hn by auto. exact H1.
    + rewrite Hp by auto. exact H2.
    + apply IH; auto.
Qed.

Lemma dseg_frame_bytes m m' a l b :
  dseg m a l b ->
  (forall y x, In y (a :: l) -> y + 4 <= x < y + 8 -> m' x = m x) ->
  (forall y x, In y (l ++ [b]) -> y <= x < y + 4 -> m' x = m x) ->
  dseg m' a l b.
Proof.
  intros H Hn Hp. apply dseg_frame with (m := m); auto.
  - intros y Hy. apply get_next_frame. intros x Hx. eapply Hn; eauto.
  - intros y Hy. apply get_prev_frame. intros x Hx. eapply Hp; eauto.
Qed.

Lemma dseg_app m a l1 x l2 b :
  dseg m a (l1 ++ x :: l2) b <-> dseg m a l1 x /\ dseg m x l2 b.
Proof.
  revert a. induction l1 as [|y l1 IH]; simpl; intros a.
  - tauto.
  - rewrite IH. tauto.
Qed.

Lemma last_cons {A} (l : list A) (y a : A) : last (y :: l) a = last l y.
Proof.
  revert y a. induction l as [|z l IH]; intros y a; [reflexivity|].
  change (last (y :: z :: l) a) with (last (z :: l) a).
  rewrite (IH z a). symmetry. apply IH.
Qed.

Lemma dseg_last_prev m a l b : dseg m a l b -> get_prev b m = last l a.
Proof.
  revert a. induction l as [|y l IH]; intros a H.
  - simpl in *. tauto.
  - destruct H as (_ & _ & H). rewrite last_cons. apply IH. exact H.
Qed.

Lemma dseg_first_next m a l b : dseg m a l b -> get_next a m = hd b l.
Proof. destruct l; simpl; tauto. Qed.

Lemma last_in_cons {A} (l : list A) (a : A) : In (last l a) (a :: l).
Proof.
  revert a. induction l as [|y l IH]; intros a.
  - left. reflexivity.
  - rewrite last_cons. right. apply IH.
Qed.

Lemma hd_in_app {A} (l : list A) (b : A) : In (hd b l) (l ++ [b]).
Proof. destruct l; simpl; auto. Qed.

(** Unlinking a node: the effect of [delete_block] on a segment. *)
Lemma dseg_unlink m a l1 x l2 b :
  dseg m a (l1 ++ x :: l2) b ->
  NoDup (l1 ++ x :: l2) -> ~ In a (l1 ++ x :: l2) -> ~ In b (l1 ++ x :: l2) ->
  node_ok a -> node_ok b -> Forall node_ok (l1 ++ x :: l2) ->
  dseg (delete_block x m) a (l1 ++ l2) b.
Proof.
  intros H. pose proof H as H0. apply dseg_app in H0. destruct H0 as [Ha Hb].
  unfold delete_block. rewrite (dseg_last_prev _ _ _ _ Ha), (dseg_first_next _ _ _ _ Hb).
  clear Ha Hb. revert a H.
  induction l1 as [|z l1 IH]; intros a H Hnd Hna Hnb Hoa Hob Hol.
  - simpl in *. destruct H as (H1 & H2 & H3).
    apply NoDup_cons_iff in Hnd as [Hx Hnd'].
    apply Forall_cons_iff in Hol as [Hox Hol'].
    assert (Hhd : In (hd b l2) (l2 ++ [b])) by apply hd_in_app.
    assert (HN : node_ok (hd b l2)).
    { apply in_app_or in Hhd. destruct Hhd as [Hh|[<-|[]]]; auto.
      rewrite Forall_forall in Hol'. auto. }
    assert (Hgoal1 : get_next a (set_prev (hd b l2) a (set_next a (hd b l2) m)) = hd b l2).
    { rewrite <- (get_next_set_next a (hd b l2) m) at 3 by zlia.
      apply get_next_frame. intros w Hw. apply set_prev_frame. zlia. }
    assert (Hgoal2 : get_prev (hd b l2) (set_prev (hd b l2) a (set_next a (hd b l2) m)) = a).
    { apply get_prev_set_prev. zlia. }
    destruct l2 as [|y l2]; simpl in *.
    + split; assumption.
    + destruct H3 as (H3 & H4 & H5). split; [assumption|]. split; [assumption|].
      apply Forall_cons_iff in Hol' as [Hoy Hol''].
      apply NoDup_cons_iff in Hnd' as [Hy Hnd''].
      apply dseg_frame_bytes with (m := m); auto.
      * intros u w Hu Hw. assert (node_ok u).
        { destruct Hu as [<-|Hu]; [assumption|]. rewrite Forall_forall in Hol''. auto. }
        assert (u <> a) by (intros ->; apply Hna; simpl in Hu; tauto).
        rewrite set_prev_frame, set_next_frame; auto; zlia.
      * intros u w Hu Hw. assert (node_ok u).
        { apply in_app_or in Hu. destruct Hu as [Hu|[<-|[]]]; [|assumption].
          rewrite Forall_forall in Hol''. auto. }
        assert (u <> y).
        { intros ->. apply in_app_or in Hu. destruct Hu as [Hu|[<-|[]]]; auto. }
        rewrite set_prev_frame, set_next_frame; auto; zlia.
  - simpl in H. destruct H as (H1 & H2 & H3).
    simpl in Hnd, Hna, Hnb, Hol.
    apply NoDup_cons_iff in Hnd as [Hz Hnd'].
    apply Forall_cons_iff in Hol as [Hoz Hol'].
    assert (Hlast : In (last l1 z) (z :: l1)) by apply last_in_cons.
    assert (Hhd : In (hd b l2) (l2 ++ [b])) by apply hd_in_app.
    assert (Hol2 : forall u, In u (l1 ++ x :: l2) -> node_ok u)
      by (rewrite Forall_forall in Hol'; exact Hol').
    assert (HP : node_ok (last l1 z) /\ last l1 z <> a).
    { destruct Hlast as [<-|Hl].
      - split; auto.
      - split; [apply Hol2; apply in_or_app; auto|].
        intros E. apply Hna. right. rewrite <- E. apply in_or_app; auto. }
    assert (HN : node_ok (hd b l2) /\ hd b l2 <> z).
    { apply in_app_or in Hhd. destruct Hhd as [Hh|[<-|[]]].
      - split; [apply Hol2; apply in_or_app; simpl; auto|].
        intros E. apply Hz. rewrite <- E. apply in_or_app; simpl; auto.
      - split; auto. }
    destruct HP as [? ?], HN as [? ?].
    rewrite last_cons. simpl. split; [|split].
    + transitivity (get_next a m); [|exact H1]. apply get_next_frame. intros w Hw.
      rewrite set_prev_frame, set_next_frame; auto; zlia.
    + transitivity (get_prev z m); [|exact H2]. apply get_prev_frame. intros w Hw.
      rewrite set_prev_frame, set_next_frame; auto; zlia.
    + apply IH; auto.
Qed.

Lemma delete_block_frame x m w :
  (w < get_prev x m + 4 \/ get_prev x m + 8 <= w) ->
  (w < get_next x m \/ get_next x m + 4 <= w) ->
  delete_block x m w = m w.
Proof.
  intros H1 H2. unfold delete_block.
  rewrite set_prev_frame, set_next_frame; auto.
Qed.

Lemma link_tail_frame e x m w :
  (w < get_prev e m + 4 \/ get_prev e m + 8 <= w) ->
  (w < x \/ x + 8 <= w) -> (w < e \/ e + 4 <= w) ->
  link_tail e x m w = m w.
Proof.
  intros H1 H2 H3. unfold link_tail.
  rewrite set_next_frame, set_next_frame, set_prev_frame, set_prev_frame; auto; lia.
Qed.

(** Linking a node at the tail: the effect of [insert] on a segment. *)
Lemma dseg_link_tail_gen m a l x b :
  dseg m a l b -> NoDup l ->
  ~ In a l -> ~ In b l -> ~ In x l -> x <> a -> x <> b ->
  node_ok a -> node_ok b -> node_ok x -> Forall node_ok l ->
  dseg (set_next (last l a) x (set_next x b (set_prev x (last l a) (set_prev b x m))))
    a (l ++ [x]) b.
Proof.
  revert a. induction l as [|z l IH]; intros a H Hnd Hna Hnb Hnx Hxa Hxb Hoa Hob Hox Hol.
  - simpl in *. destruct H as [H1 H2]. repeat split.
    + apply get_next_set_next. zlia.
    + transitivity (get_prev x (set_prev x a (set_prev b x m))).
      * apply get_prev_frame. intros w Hw.
        rewrite set_next_frame, set_next_frame; auto; zlia.
      * apply get_prev_set_prev. zlia.
    + transitivity (get_next x (set_next x b (set_prev x a (set_prev b x m)))).
      * apply get_next_frame. intros w Hw. rewrite set_next_frame; auto; zlia.
      * apply get_next_set_next. zlia.
    + transitivity (get_prev b (set_prev b x m)).
      * apply get_prev_frame. intros w Hw.
        rewrite set_next_frame, set_next_frame, set_prev_frame; auto; zlia.
      * apply get_prev_set_prev. zlia.
  - simpl in H. destruct H as (H1 & H2 & H3).
    apply Forall_cons_iff in Hol as [Hoz Hol'].
    apply NoDup_cons_iff in Hnd as [Hz Hnd'].
    assert (Hlast : In (last l z) (z :: l)) by apply last_in_cons.
    assert (HP : node_ok (last l z) /\ last l z <> a).
    { destruct Hlast as [<-|Hl].
      - split; auto. intros E. apply Hna. left. auto.
      - split; [rewrite Forall_forall in Hol'; auto|].
        intros E. apply Hna. right. rewrite <- E. exact Hl. }
    destruct HP as [HP1 HP2].
    rewrite last_cons. simpl. split; [|split].
    + transitivity (get_next a m); [|exact H1]. apply get_next_frame. intros w Hw.
      rewrite set_next_frame, set_next_frame, set_prev_frame, set_prev_frame; auto; zlia.
    + transitivity (get_prev z m); [|exact H2]. apply get_prev_frame. intros w Hw.
      assert (z <> b) by (intros E; apply Hnb; left; auto).
      assert (x <> z) by (intros E; apply Hnx; left; auto).
      rewrite set_next_frame, set_next_frame, set_prev_frame, set_prev_frame; auto; zlia.
    + apply IH; auto.
      * intros Hi. apply Hnb. right. exact Hi.
      * intros Hi. apply Hnx. right. exact Hi.
      * intros E. apply Hnx. left. auto.
Qed.

Lemma dll_link_tail m h l x :
  dll m h l -> NoDup l -> ~ In h l -> ~ In x l -> x <> h ->
  node_ok h -> node_ok x -> Forall node_ok l ->
  dll (link_tail h x m) h (l ++ [x]).
Proof.
  intros H Hnd Hh Hx Hxh Hoh Hox Hol. unfold dll, link_tail.
  rewrite (dseg_last_prev _ _ _ _ H).
  apply dseg_link_tail_gen; auto.
Qed.

Lemma dll_unlink m h l1 x l2 :
  dll m h (l1 ++ x :: l2) ->
  NoDup (l1 ++ x :: l2) -> ~ In h (l1 ++ x :: l2) ->
  node_ok h -> Forall node_ok (l1 ++ x :: l2) ->
  dll (delete_block x m) h (l1 ++ l2).
Proof. intros. apply dseg_unlink; auto. Qed.

(** Walking a list finds its first large-enough node. *)
Lemma scan_list_spec fuel aligned_size m a l e :
  dseg m a l e -> ~ In e l -> (length l < fuel)%nat ->
  scan_list fuel aligned_size e (get_next a m) m
  = Some (find (fun y => aligned_size <=? get_size y m) l).
Proof.
  revert a fuel. induction l as [|y l IH]; intros a fuel H He Hf.
  - simpl in H. destruct H as [H _]. rewrite H.
    destruct fuel as [|fuel]; [simpl in Hf; lia|]. simpl. rewrite Z.eqb_refl. reflexivity.
  - simpl in H. destruct H as (H1 & H2 & H3). rewrite H1.
    destruct fuel as [|fuel]; [simpl in Hf; lia|]. simpl.
    destruct (Z.eqb_spec y e) as [E|E]; [exfalso; apply He; left; auto|].
    destruct (aligned_size <=? get_size y m); [reflexivity|].
    apply IH; auto.
    + intros Hin. apply He. right. exact Hin.
    + simpl in Hf. lia.
Qed.

(** ** The chain of blocks *)

Lemma total_app b1 b2 : total (b1 ++ b2) = total b1 + total b2.
Proof. induction b1 as [|[sz al] b1 IH]; simpl; lia. Qed.

Lemma last_alloc_app pa b1 b2 :
  last_alloc pa (b1 ++ b2) = last_alloc (last_alloc pa b1) b2.
Proof. revert pa. induction b1 as [|[sz al] b1 IH]; simpl; auto. Qed.

Lemma blocks_at_app p b1 b2 :
  blocks_at p (b1 ++ b2) = blocks_at p b1 ++ blocks_at (p + total b1) b2.
Proof.
  revert p. induction b1 as [|[sz al] b1 IH]; simpl; intros p.
  - f_equal; lia.
  - rewrite IH. replace (p + sz + total b1) with (p + (sz + total b1)) by lia.
    reflexivity.
Qed.

Lemma seg_app m p pa b1 b2 :
  seg m p pa (b1 ++ b2) <->
  seg m p pa b1 /\ seg m (p + total b1) (last_alloc pa b1) b2.
Proof.
  revert p pa. induction b1 as [|[sz al] b1 IH]; simpl; intros p pa.
  - replace (p + 0) with p by lia. tauto.
  - rewrite IH. replace (p + sz + total b1) with (p + (sz + total b1)) by lia. tauto.
Qed.

Lemma nadj_app pa b1 b2 :
  nadj pa (b1 ++ b2) <-> nadj pa b1 /\ nadj (last_alloc pa b1) b2.
Proof.
  revert pa. induction b1 as [|[sz al] b1 IH]; simpl; intros pa.
  - tauto.
  - rewrite IH. tauto.
Qed.

Lemma seg_sizes m p pa bs :
  seg m p pa bs -> Forall (fun b => good_size (fst b)) bs.
Proof.
  revert p pa. induction bs as [|[sz al] bs IH]; simpl; intros p pa H.
  - constructor.
  - destruct H as (H1 & _ & H3). constructor; eauto.
Qed.

Lemma total_nonneg bs : Forall (fun b => good_size (fst b)) bs -> 0 <= total bs.
Proof.
  induction 1 as [|[sz al] bs [H _] _ IH]; simpl in *; lia.
Qed.

Lemma total_mult8 bs : Forall (fun b => good_size (fst b)) bs -> total bs mod 8 = 0.
Proof.
  induction 1 as [|[sz al] bs [_ H] _ IH]; simpl in *; lia.
Qed.

(** Where the blocks lie. *)
Lemma in_blocks_at_split p bs x sz al :
  In (x, sz, al) (blocks_at p bs) ->
  exists b1 b2, bs = b1 ++ (sz, al) :: b2 /\ x = p + total b1.
Proof.
  revert p. induction bs as [|[sz0 al0] bs IH]; simpl; intros p H.
  - contradiction.
  - destruct H as [H|H].
    + inversion H; subst. exists [], bs. simpl. split; [reflexivity | lia].
    + destruct (IH _ H) as (b1 & b2 & -> & ->).
      exists ((sz0, al0) :: b1), b2. simpl. split; [reflexivity | lia].
Qed.

Lemma in_blocks_at_mid p b1 sz al b2 :
  In (p + total b1, sz, al) (blocks_at p (b1 ++ (sz, al) :: b2)).
Proof. rewrite blocks_at_app. apply in_or_app. right. left. reflexivity. Qed.

Lemma in_blocks_at_range p bs x sz al :
  Forall (fun b => good_size (fst b)) bs ->
  In (x, sz, al) (blocks_at p bs) ->
  p <= x /\ x + sz <= p + total bs /\ good_size sz /\ (x - p) mod 8 = 0.
Proof.
  intros Hs H. destruct (in_blocks_at_split _ _ _ _ _ H) as (b1 & b2 & -> & ->).
  apply Forall_app in Hs as [H1 H2]. apply Forall_cons_iff in H2 as [H2 H3].
  pose proof (total_nonneg _ H1). pose proof (total_nonneg _ H3).
  pose proof (total_mult8 _ H1).
  rewrite total_app. simpl in *. unfold good_size in *. repeat split; try lia.
Qed.

(** Two blocks of a chain coincide or do not overlap. *)
Lemma blocks_at_disjoint p bs x sz al y sz' al' :
  Forall (fun b => good_size (fst b)) bs ->
  In (x, sz, al) (blocks_at p bs) -> In (y, sz', al') (blocks_at p bs) ->
  (x = y /\ sz = sz' /\ al = al') \/ x + sz <= y \/ y + sz' <= x.
Proof.
  revert p. induction bs as [|[sz0 al0] bs IH]; simpl; intros p Hs Hx Hy.
  - contradiction.
  - apply Forall_cons_iff in Hs as [H0 Hs]. simpl in H0.
    destruct Hx as [Hx|Hx], Hy as [Hy|Hy].
    + inversion Hx; inversion Hy; subst. left. auto.
    + inversion Hx; subst. right. left.
      pose proof (in_blocks_at_range _ _ _ _ _ Hs Hy). lia.
    + inversion Hy; subst. right. right.
      pose proof (in_blocks_at_range _ _ _ _ _ Hs Hx). lia.
    + eapply IH; eauto.
Qed.

Lemma seg_blk m p pa bs x sz al :
  seg m p pa bs -> In (x, sz, al) (blocks_at p bs) -> exists pa', blk m x sz al pa'.
Proof.
  revert p pa. induction bs as [|[sz0 al0] bs IH]; simpl; intros p pa H Hin.
  - contradiction.
  - destruct H as (H1 & H2 & H3). destruct Hin as [Hin|Hin].
    + inversion Hin; subst. eauto.
    + eapply IH; eauto.
Qed.

(** *** Frames *)

Lemma blk_frame m m' p sz al pa :
  blk m p sz al pa ->
  (forall x, p - 4 <= x < p -> m' x = m x) ->
  (al = false -> forall x, p + sz - 8 <= x < p + sz - 4 -> m' x = m x) ->
  blk m' p sz al pa.
Proof.
  intros [H1 H2] Hh Hf. split.
  - eapply hdr_is_frame; eauto.
  - intros E. transitivity (read_word (p + sz - 8) m); [|exact (H2 E)].
    apply read_word_ext. intros x Hx. apply Hf; auto. lia.
Qed.

Lemma seg_frame_meta m m' p pa bs :
  seg m p pa bs -> (forall x, meta p bs x -> m' x = m x) -> seg m' p pa bs.
Proof.
  revert p pa. induction bs as [|[sz al] bs IH]; simpl; intros p pa H Hm.
  - exact I.
  - destruct H as (H1 & H2 & H3). split; [exact H1|]. split.
    + eapply blk_frame; eauto.
    + apply IH; auto.
Qed.

Lemma meta_range p bs x :
  Forall (fun b => good_size (fst b)) bs -> meta p bs x ->
  p - 4 <= x < p + total bs - 4.
Proof.
  revert p. induction bs as [|[sz al] bs IH]; simpl; intros p Hs H.
  - contradiction.
  - apply Forall_cons_iff in Hs as [[H0 H8] Hs]. simpl in H0, H8.
    pose proof (total_nonneg _ Hs).
    destruct H as [H|[[_ H]|H]]; try lia.
    specialize (IH _ Hs H). lia.
Qed.

Lemma meta_in p bs x :
  meta p bs x ->
  exists y sz al, In (y, sz, al) (blocks_at p bs) /\
    (y - 4 <= x < y \/ (al = false /\ y + sz - 8 <= x < y + sz - 4)).
Proof.
  revert p. induction bs as [|[sz al] bs IH]; simpl; intros p H.
  - contradiction.
  - destruct H as [H|[H|H]].
    + exists p, sz, al. auto.
    + exists p, sz, al. auto.
    + destruct (IH _ H) as (y & sz' & al' & Hin & Hy). exists y, sz', al'. auto.
Qed.

Lemma seg_frame m m' p pa bs :
  seg m p pa bs ->
  (forall x, p - 4 <= x < p + total bs - 4 -> m' x = m x) ->
  seg m' p pa bs.
Proof.
  intros H Hf. apply seg_frame_meta with (m := m); auto.
  intros x Hx. apply Hf. eapply meta_range; eauto. eapply seg_sizes; eauto.
Qed.

(** A byte inside the payload of a block (for a free block, before its
    footer) is not a metadata byte. *)
Lemma payload_not_meta p bs y sz al x :
  Forall (fun b => good_size (fst b)) bs ->
  In (y, sz, al) (blocks_at p bs) ->
  y <= x < y + sz - (if al then 4 else 8) ->
  ~ meta p bs x.
Proof.
  intros Hs Hin Hx Hm.
  destruct (meta_in _ _ _ Hm) as (y' & sz' & al' & Hin' & Hy').
  pose proof (in_blocks_at_range _ _ _ _ _ Hs Hin') as (_ & _ & [? _] & _).
  destruct (blocks_at_disjoint _ _ _ _ _ _ _ _ Hs Hin Hin') as [(-> & -> & ->)|D].
  - destruct al'; lia.
  - destruct al; lia.
Qed.

(** ** Size classes and list nodes *)

Lemma get_index_range sz : 16 <= sz < two32 -> 0 <= get_index sz <= 27.
Proof.
  intros H. unfold get_index. destruct (Z.eqb_spec sz 0); [lia|].
  assert (4 <= Z.log2 sz) by (change 4 with (Z.log2 16); apply Z.log2_le_mono; lia).
  assert (Z.log2 sz < 32) by (apply Z.log2_lt_pow2; unfold two32 in H; lia).
  lia.
Qed.

Lemma class_of_range sz : 16 <= sz < two32 -> 12 <= class_of sz <= 27.
Proof. intros H. pose proof (get_index_range sz H). unfold class_of. lia. Qed.

Lemma begins_class sz :
  16 <= sz < two32 -> begins (get_index sz) = Some (sent (class_of sz)).
Proof.
  intros H. pose proof (get_index_range sz H) as Hi.
  unfold begins, class_of, sent.
  destruct (Z.leb_spec 0 (get_index sz)); [|lia].
  destruct (Z.leb_spec (get_index sz) 11); simpl.
  - rewrite Z.max_l by lia. reflexivity.
  - destruct (Z.leb_spec 12 (get_index sz)); [|lia].
    destruct (Z.leb_spec (get_index sz) 27); [|lia]. simpl.
    rewrite Z.max_r by lia. reflexivity.
Qed.

Lemma sent_node c : 12 <= c <= 27 -> node_ok (sent c) /\ 0 <= sent c /\ sent c + 8 <= 128.
Proof. intros H. unfold node_ok, sent, two32. lia. Qed.

Lemma sent_inj c c' : sent c = sent c' -> c = c'.
Proof. unfold sent. lia. Qed.

Lemma upd_same L c l : upd L c l c = l.
Proof. unfold upd. rewrite Z.eqb_refl. reflexivity. Qed.

Lemma upd_other L c l c' : c' <> c -> upd L c l c' = L c'.
Proof. intros H. unfold upd. destruct (Z.eqb_spec c' c); [contradiction | reflexivity]. Qed.

Section Geometry.
Variables (bs : list block) (L : lists).
Hypothesis Hs : sizes_ok bs.
Hypothesis Hb : 136 + total bs < two32.
Hypothesis Hn : nodes_in bs L.

Lemma block_node x sz al :
  In (x, sz, al) (blocks_at 136 bs) ->
  node_ok x /\ 136 <= x /\ x + sz <= 136 + total bs /\ good_size sz /\ sz < two32.
Proof using Hs Hb.
  intros H. pose proof (in_blocks_at_range _ _ _ _ _ Hs H) as (H1 & H2 & H3 & H4).
  unfold node_ok, good_size in *. unfold two32 in *. lia.
Qed.

Lemma node_block c x :
  12 <= c <= 27 -> In x (L c) ->
  exists sz, In (x, sz, false) (blocks_at 136 bs) /\ class_of sz = c /\
             node_ok x /\ 136 <= x /\ x + sz <= 136 + total bs /\ good_size sz.
Proof using Hs Hb Hn.
  intros Hc H. destruct (Hn c x Hc H) as (sz & Hin & Hcl).
  exists sz. pose proof (block_node _ _ _ Hin). tauto.
Qed.

Lemma node_not_sent c x c' : 12 <= c <= 27 -> 12 <= c' <= 27 -> In x (L c) -> x <> sent c'.
Proof using Hs Hb Hn.
  intros Hc Hc' H. destruct (node_block c x Hc H) as (sz & _ & _ & _ & Hx & _).
  pose proof (sent_node c' Hc'). lia.
Qed.

Lemma node_class_unique c c' x :
  12 <= c <= 27 -> 12 <= c' <= 27 -> In x (L c) -> In x (L c') -> c = c'.
Proof using Hs Hn.
  intros Hc Hc' H H'.
  destruct (Hn c x Hc H) as (sz & Hin & <-).
  destruct (Hn c' x Hc' H') as (sz' & Hin' & <-).
  destruct (blocks_at_disjoint _ _ _ _ _ _ _ _ Hs Hin Hin') as [(_ & -> & _)|D]; [reflexivity|].
  pose proof (in_blocks_at_range _ _ _ _ _ Hs Hin) as (_ & _ & [? _] & _).
  pose proof (in_blocks_at_range _ _ _ _ _ Hs Hin') as (_ & _ & [? _] & _).
  lia.
Qed.

Lemma nodes_forall c : 12 <= c <= 27 -> Forall node_ok (L c).
Proof using Hs Hb Hn.
  intros Hc. apply Forall_forall. intros x Hx.
  destruct (node_block c x Hc Hx) as (sz & _ & _ & Hok & _). exact Hok.
Qed.

Lemma sent_not_node c c' : 12 <= c <= 27 -> 12 <= c' <= 27 -> ~ In (sent c') (L c).
Proof using Hs Hb Hn.
  intros Hc Hc' H. apply (node_not_sent c (sent c') c' Hc Hc' H). reflexivity.
Qed.

(** A metadata byte of the chain lies in no link area. *)
Lemma meta_not_link c y w :
  12 <= c <= 27 -> In y (sent c :: L c) -> meta 136 bs w -> w < y \/ y + 8 <= w.
Proof using Hs Hb Hn.
  intros Hc Hy Hm. destruct Hy as [<-|Hy].
  - pose proof (sent_node c Hc). pose proof (meta_range _ _ _ Hs Hm). lia.
  - destruct (node_block c y Hc Hy) as (sz & Hin & _ & _ & _ & _ & [Hsz _]).
    destruct (Z.lt_ge_cases w y); [lia|].
    destruct (Z.le_gt_cases (y + 8) w); [lia|].
    exfalso. eapply payload_not_meta; eauto. simpl. lia.
Qed.

(** The sentinel header lies in no link area. *)
Lemma tail_not_link c y w :
  12 <= c <= 27 -> In y (sent c :: L c) -> 136 + total bs - 4 <= w -> y + 8 <= w.
Proof using Hs Hb Hn.
  intros Hc Hy Hw. destruct Hy as [<-|Hy].
  - pose proof (sent_node c Hc). pose proof (total_nonneg _ Hs). lia.
  - destruct (node_block c y Hc Hy) as (sz & Hin & _ & _ & _ & ? & [Hsz _]). lia.
Qed.

(** Link areas of distinct nodes are disjoint. *)
Lemma link_areas_disjoint c c' y y' :
  12 <= c <= 27 -> 12 <= c' <= 27 ->
  In y (sent c :: L c) -> In y' (sent c' :: L c') -> y <> y' ->
  y + 8 <= y' \/ y' + 8 <= y.
Proof using Hs Hb Hn.
  intros Hc Hc' Hy Hy' D.
  assert (node_ok y).
  { destruct Hy as [<-|Hy]; [apply sent_node; auto|].
    destruct (node_block c y Hc Hy) as (sz & _ & _ & Hok & _). exact Hok. }
  assert (node_ok y').
  { destruct Hy' as [<-|Hy']; [apply sent_node; auto|].
    destruct (node_block c' y' Hc' Hy') as (sz & _ & _ & Hok & _). exact Hok. }
  unfold node_ok in *. lia.
Qed.

End Geometry.

Lemma lists_frame m m' L :
  lists_ok m L ->
  (forall c y w, 12 <= c <= 27 -> In y (sent c :: L c) -> y <= w < y + 8 -> m' w = m w) ->
  lists_ok m' L.
Proof.
  intros H Hf c Hc. destruct (H c Hc) as [Hd Hnd]. split; [|exact Hnd].
  apply dseg_frame_bytes with (m := m); auto.
  - intros y w Hy Hw. apply (Hf c y w Hc); auto. lia.
  - intros y w Hy Hw. apply (Hf c y w Hc); [|lia].
    apply in_app_or in Hy. destruct Hy as [Hy|[<-|[]]]; simpl; auto.
Qed.

Lemma nodes_in_upd_sub bs L c l :
  nodes_in bs L -> (forall x, In x l -> In x (L c)) -> nodes_in bs (upd L c l).
Proof.
  intros Hn Hsub c' x Hc' Hx. unfold upd in Hx.
  destruct (Z.eqb_spec c' c) as [->|D]; auto.
Qed.

(** [delete_block] on the abstract lists. *)
Lemma unlink_lists m L bs c x :
  sizes_ok bs -> 136 + total bs < two32 -> nodes_in bs L -> lists_ok m L ->
  12 <= c <= 27 -> In x (L c) ->
  exists l1 l2, L c = l1 ++ x :: l2 /\
    lists_ok (delete_block x m) (upd L c (l1 ++ l2)) /\
    nodes_in bs (upd L c (l1 ++ l2)) /\
    (forall w, (forall y, In y (sent c :: L c) -> w < y \/ y + 8 <= w) ->
               delete_block x m w = m w).
Proof.
  intros Hs Hb Hn Hl Hc Hx.
  destruct (in_split _ _ Hx) as (l1 & l2 & E). exists l1, l2. split; [exact E|].
  destruct (Hl c Hc) as [Hd Hnd]. rewrite E in Hd, Hnd.
  assert (HP : In (get_prev x m) (sent c :: L c)).
  { unfold dll in Hd. apply dseg_app in Hd. destruct Hd as [Hd _].
    rewrite (dseg_last_prev _ _ _ _ Hd).
    destruct (last_in_cons l1 (sent c)) as [<-|Hi]; [left; reflexivity|].
    right. rewrite E. apply in_or_app. auto. }
  assert (HN : In (get_next x m) (sent c :: L c)).
  { unfold dll in Hd. apply dseg_app in Hd. destruct Hd as [_ Hd].
    rewrite (dseg_first_next _ _ _ _ Hd).
    pose proof (hd_in_app l2 (sent c)) as Hi. apply in_app_or in Hi.
    destruct Hi as [Hi|[<-|[]]]; [|left; reflexivity].
    right. rewrite E. apply in_or_app. simpl. auto. }
  split; [|split].
  - intros c' Hc'. destruct (Z.eq_dec c' c) as [->|D].
    + rewrite upd_same. split.
      * apply dll_unlink; auto.
        -- rewrite <- E. apply (sent_not_node bs L Hs Hb Hn); auto.
        -- apply sent_node; auto.
        -- rewrite <- E. apply (nodes_forall bs L Hs Hb Hn); auto.
      * apply NoDup_remove in Hnd. tauto.
    + rewrite upd_other by exact D. destruct (Hl c' Hc') as [Hd' Hnd']. split; [|exact Hnd'].
      assert (Hfr : forall y w, In y (sent c' :: L c') -> y <= w < y + 8 ->
                                delete_block x m w = m w).
      { intros y w Hy Hw.
        assert (forall z, In z (sent c :: L c) -> y + 8 <= z \/ z + 8 <= y).
        { intros z Hz. apply (link_areas_disjoint bs L Hs Hb Hn c' c); auto.
          intros ->. destruct Hy as [Hy|Hy], Hz as [Hz|Hz].
          - apply D. apply sent_inj. congruence.
          - apply (node_not_sent bs L Hs Hb Hn c z c'); auto.
          - apply (node_not_sent bs L Hs Hb Hn c' z c); auto.
          - apply D. apply (node_class_unique bs L Hs Hn c' c z); auto. }
        pose proof (H _ HP). pose proof (H _ HN).
        apply delete_block_frame; lia. }
      apply dseg_frame_bytes with (m := m); auto.
      * intros y w Hy Hw. apply (Hfr y w); auto. lia.
      * intros y w Hy Hw. apply (Hfr y w); [|lia].
        apply in_app_or in Hy. destruct Hy as [Hy|[<-|[]]]; simpl; auto.
  - apply nodes_in_upd_sub; auto. intros y Hy. rewrite E.
    apply in_app_or in Hy. apply in_or_app. simpl. tauto.
  - intros w H.
    pose proof (H _ HP). pose proof (H _ HN).
    apply delete_block_frame; lia.
Qed.

Lemma NoDup_snoc {A} (l : list A) (x : A) :
  NoDup l -> ~ In x l -> NoDup (l ++ [x]).
Proof.
  induction 1 as [|y l Hy Hnd IH]; intros Hx; simpl.
  - constructor; [intros [] | constructor].
  - constructor.
    + intros Hi. apply in_app_or in Hi. destruct Hi as [Hi|[<-|[]]]; [auto|].
      apply Hx. left. reflexivity.
    + apply IH. intros Hi. apply Hx. right. exact Hi.
Qed.

(** [insert] on the abstract lists. *)
Lemma link_lists m L bs x sz :
  sizes_ok bs -> 136 + total bs < two32 -> nodes_in bs L -> lists_ok m L ->
  In (x, sz, false) (blocks_at 136 bs) -> ~ In x (L (class_of sz)) ->
  insert x sz m = Some (link_tail (sent (class_of sz)) x m) /\
  lists_ok (link_tail (sent (class_of sz)) x m)
    (upd L (class_of sz) (L (class_of sz) ++ [x])) /\
  nodes_in bs (upd L (class_of sz) (L (class_of sz) ++ [x])) /\
  (forall w, (forall y, In y (sent (class_of sz) :: L (class_of sz)) ->
                        w < y \/ y + 8 <= w) ->
             w < x \/ x + 8 <= w ->
             link_tail (sent (class_of sz)) x m w = m w).
Proof.
  intros Hs Hb Hn Hl Hin Hx.
  destruct (block_node bs Hs Hb _ _ _ Hin) as (Hox & Hx136 & Hxe & Hg & Hlt).
  assert (Hr : 16 <= sz < two32) by (destruct Hg; lia).
  pose proof (class_of_range sz Hr) as Hc. set (c := class_of sz) in *.
  destruct (Hl c Hc) as [Hd Hnd].
  assert (HP : In (get_prev (sent c) m) (sent c :: L c)).
  { rewrite (dseg_last_prev _ _ _ _ Hd). apply last_in_cons. }
  assert (Hxs : forall c', 12 <= c' <= 27 -> x <> sent c').
  { intros c' Hc'. pose proof (sent_node c' Hc'). lia. }
  assert (Hnx : forall c', 12 <= c' <= 27 -> c' <> c -> ~ In x (L c')).
  { intros c' Hc' D Hi. destruct (Hn c' x Hc' Hi) as (sz' & Hin' & Hcl).
    destruct (blocks_at_disjoint _ _ _ _ _ _ _ _ Hs Hin Hin') as [(_ & <- & _)|Dj].
    - apply D. symmetry. exact Hcl.
    - destruct (block_node bs Hs Hb _ _ _ Hin') as (_ & _ & _ & [? _] & _).
      destruct Hg. lia. }
  split; [|split; [|split]].
  - unfold insert. rewrite begins_class by exact Hr. reflexivity.
  - intros c' Hc'. destruct (Z.eq_dec c' c) as [->|D].
    + rewrite upd_same. split.
      * apply dll_link_tail; auto.
        -- apply (sent_not_node bs L Hs Hb Hn); auto.
        -- apply sent_node; auto.
        -- apply (nodes_forall bs L Hs Hb Hn); auto.
      * apply NoDup_snoc; auto.
    + rewrite upd_other by exact D. destruct (Hl c' Hc') as [Hd' Hnd']. split; [|exact Hnd'].
      assert (Hfr : forall y w, In y (sent c' :: L c') -> y <= w < y + 8 ->
                                link_tail (sent c) x m w = m w).
      { intros y w Hy Hw.
        assert (forall z, In z (sent c :: L c) -> y + 8 <= z \/ z + 8 <= y).
        { intros z Hz. apply (link_areas_disjoint bs L Hs Hb Hn c' c); auto.
          intros ->. destruct Hy as [Hy|Hy], Hz as [Hz|Hz].
          - apply D. apply sent_inj. congruence.
          - apply (node_not_sent bs L Hs Hb Hn c z c'); auto.
          - apply (node_not_sent bs L Hs Hb Hn c' z c); auto.
          - apply D. apply (node_class_unique bs L Hs Hn c' c z); auto. }
        pose proof (H _ HP). pose proof (H (sent c) (or_introl eq_refl)).
        assert (y + 8 <= x \/ x + 8 <= y).
        { assert (node_ok y /\ y <> x) as [[? ?] ?].
          { destruct Hy as [<-|Hy].
            - split; [apply sent_node; auto|]. intros E. apply (Hxs c'); auto.
            - split.
              + destruct (node_block bs L Hs Hb Hn c' y Hc' Hy) as (? & _ & _ & Hok & _). exact Hok.
              + intros ->. apply (Hnx c'); auto. }
          destruct Hox. lia. }
        apply link_tail_frame; lia. }
      apply dseg_frame_bytes with (m := m); auto.
      * intros y w Hy Hw. apply (Hfr y w); auto. lia.
      * intros y w Hy Hw. apply (Hfr y w); [|lia].
        apply in_app_or in Hy. destruct Hy as [Hy|[<-|[]]]; simpl; auto.
  - intros c' y Hc' Hy. unfold upd in Hy. destruct (Z.eqb_spec c' c) as [->|D].
    + apply in_app_or in Hy. destruct Hy as [Hy|[<-|[]]]; [apply Hn; auto|].
      exists sz. split; [exact Hin | reflexivity].
    + apply Hn; auto.
  - intros w H Hwx.
    pose proof (H _ HP). pose proof (H (sent c) (or_introl eq_refl)).
    apply link_tail_frame; lia.
Qed.

(** Metadata bytes and the sentinel header lie in no link area. *)
Lemma meta_apart bs L c w :
  sizes_ok bs -> 136 + total bs < two32 -> nodes_in bs L -> 12 <= c <= 27 ->
  meta 136 bs w \/ 136 + total bs - 4 <= w ->
  forall y, In y (sent c :: L c) -> w < y \/ y + 8 <= w.
Proof.
  intros Hs Hb Hn Hc Hw y Hy. destruct Hw as [Hw|Hw].
  - apply (meta_not_link bs L Hs Hb Hn c); auto.
  - right. apply (tail_not_link bs L Hs Hb Hn c); auto.
Qed.

Lemma meta_apart_block bs x sz w :
  sizes_ok bs -> In (x, sz, false) (blocks_at 136 bs) ->
  meta 136 bs w \/ 136 + total bs - 4 <= w -> w < x \/ x + 8 <= w.
Proof.
  intros Hs Hin Hw.
  pose proof (in_blocks_at_range _ _ _ _ _ Hs Hin) as (? & ? & [? _] & _).
  destruct Hw as [Hw|Hw]; [|lia].
  destruct (Z.lt_ge_cases w x); [lia|].
  destruct (Z.le_gt_cases (x + 8) w); [lia|].
  exfalso. eapply payload_not_meta; eauto. simpl. lia.
Qed.

(** ** Rebuilding the chain after a local change *)

Lemma meta_app p b1 b2 w :
  meta p (b1 ++ b2) w <-> meta p b1 w \/ meta (p + total b1) b2 w.
Proof.
  revert p. induction b1 as [|[sz al] b1 IH]; simpl; intros p.
  - replace (p + 0) with p by lia. tauto.
  - rewrite IH. replace (p + sz + total b1) with (p + (sz + total b1)) by lia. tauto.
Qed.

Lemma sizes_ok_app b1 b2 : sizes_ok (b1 ++ b2) <-> sizes_ok b1 /\ sizes_ok b2.
Proof. apply Forall_app. Qed.

Lemma heap_ok_sizes m hl bs : heap_ok m hl bs -> sizes_ok bs.
Proof. intros (H & _). eapply seg_sizes; eauto. Qed.

(** The header that follows a prefix of the chain. *)
Lemma heap_next_hdr m hl b1 post :
  heap_ok m hl (b1 ++ post) ->
  hdr_is m (136 + total b1) (next_size post) (next_alloc post) (last_alloc true b1).
Proof.
  intros (Hseg & Hhl & Hsent). apply seg_app in Hseg. destruct Hseg as [_ Hp].
  destruct post as [|[sz al] post]; cbn [seg next_size next_alloc last_alloc total meta fst app] in *.
  - rewrite app_nil_r in *. subst hl. exact Hsent.
  - destruct Hp as (_ & [Hh _] & _). exact Hh.
Qed.

Lemma heap_assemble m m' hl pre old new post :
  heap_ok m hl (pre ++ old ++ post) ->
  total new = total old ->
  (forall w, w < 136 + total pre - 4 \/ 136 + total pre + total old <= w ->
             meta 136 (pre ++ old ++ post) w \/ hl - 4 <= w -> m' w = m w) ->
  seg m' (136 + total pre) (last_alloc true pre) new ->
  hdr_is m' (136 + total pre + total old) (next_size post) (next_alloc post)
    (last_alloc (last_alloc true pre) new) ->
  heap_ok m' hl (pre ++ new ++ post).
Proof.
  intros H Ht Hf Hnew Hnext.
  pose proof (heap_ok_sizes _ _ _ H) as Hs.
  apply sizes_ok_app in Hs as [Hs1 Hs23]. apply sizes_ok_app in Hs23 as [Hs2 Hs3].
  pose proof (total_nonneg _ Hs1). pose proof (total_nonneg _ Hs2).
  pose proof (total_nonneg _ Hs3).
  destruct H as (Hseg & Hhl & Hsent).
  rewrite !total_app in Hhl.
  apply seg_app in Hseg. destruct Hseg as [Hpre Hrest].
  apply seg_app in Hrest. destruct Hrest as [_ Hpost].
  split; [|split].
  - apply seg_app. split.
    + apply seg_frame_meta with (m := m); auto. intros w Hw. apply Hf.
      * pose proof (meta_range _ _ _ Hs1 Hw). lia.
      * left. apply meta_app. left. exact Hw.
    + apply seg_app. split; [exact Hnew|]. rewrite Ht.
      destruct post as [|[sz al] post]; cbn [seg next_size next_alloc last_alloc total meta fst app] in *; [exact I|].
      destruct Hpost as (Hg & [Hh Hft] & Hp). split; [exact Hg|].
      apply Forall_cons_iff in Hs3 as [[Hsz _] Hs3]. cbn [fst] in Hsz.
      pose proof (total_nonneg _ Hs3).
      split; [split|].
      * exact Hnext.
      * intros E. transitivity (read_word (136 + total pre + total old + sz - 8) m); [|auto].
        apply read_word_ext. intros w Hw. apply Hf; [lia|].
        left. apply meta_app. right. apply meta_app. right. cbn [meta]. right. left. split; [exact E | lia].
      * apply seg_frame_meta with (m := m); auto. intros w Hw. apply Hf.
        -- pose proof (meta_range _ _ _ Hs3 Hw). lia.
        -- left. apply meta_app. right. apply meta_app. right. cbn [meta]. right. right. exact Hw.
  - rewrite !total_app. lia.
  - rewrite !last_alloc_app. rewrite !last_alloc_app in Hsent.
    destruct post as [|[sz al] post]; cbn [seg next_size next_alloc last_alloc total meta fst app] in *.
    + replace hl with (136 + total pre + total old) by lia. exact Hnext.
    + apply hdr_is_frame with (m := m); auto.
      apply Forall_cons_iff in Hs3 as [[Hsz _] Hs3]. cbn [fst] in Hsz.
      pose proof (total_nonneg _ Hs3).
      intros w Hw. apply Hf; lia.
Qed.

Lemma heap_assemble_tail m m' hl hl' pre old new :
  heap_ok m hl (pre ++ old) ->
  (forall w, w < 136 + total pre - 4 -> meta 136 (pre ++ old) w -> m' w = m w) ->
  seg m' (136 + total pre) (last_alloc true pre) new ->
  hl' = 136 + total pre + total new ->
  hdr_is m' hl' 0 true (last_alloc (last_alloc true pre) new) ->
  heap_ok m' hl' (pre ++ new).
Proof.
  intros H Hf Hnew Hhl' Hsent.
  pose proof (heap_ok_sizes _ _ _ H) as Hs.
  apply sizes_ok_app in Hs as [Hs1 Hs2].
  destruct H as (Hseg & Hhl & _).
  apply seg_app in Hseg. destruct Hseg as [Hpre _].
  split; [|split].
  - apply seg_app. split; [|exact Hnew].
    apply seg_frame_meta with (m := m); auto. intros w Hw. apply Hf.
    + pose proof (meta_range _ _ _ Hs1 Hw). lia.
    + apply meta_app. left. exact Hw.
  - rewrite total_app. lia.
  - rewrite last_alloc_app. exact Hsent.
Qed.

(** Blocks outside a replaced run keep their place. *)
Lemma in_blocks_replace pre old new post y sz al :
  sizes_ok (pre ++ old ++ post) ->
  In (y, sz, al) (blocks_at 136 (pre ++ old ++ post)) ->
  y < 136 + total pre \/ 136 + total pre + total old <= y ->
  total new = total old ->
  In (y, sz, al) (blocks_at 136 (pre ++ new ++ post)).
Proof.
  intros Hs Hin Hy Ht.
  apply sizes_ok_app in Hs as [Hs1 Hs23]. apply sizes_ok_app in Hs23 as [Hs2 Hs3].
  rewrite !blocks_at_app in *. rewrite Ht.
  apply in_app_or in Hin. destruct Hin as [Hin|Hin].
  - apply in_or_app. left. exact Hin.
  - apply in_app_or in Hin. destruct Hin as [Hin|Hin].
    + pose proof (in_blocks_at_range _ _ _ _ _ Hs2 Hin) as (? & ? & [? _] & _). lia.
    + apply in_or_app. right. apply in_or_app. right. exact Hin.
Qed.

Lemma in_blocks_replace_tail pre old new y sz al :
  sizes_ok (pre ++ old) ->
  In (y, sz, al) (blocks_at 136 (pre ++ old)) ->
  y < 136 + total pre ->
  In (y, sz, al) (blocks_at 136 (pre ++ new)).
Proof.
  intros Hs Hin Hy.
  apply sizes_ok_app in Hs as [Hs1 Hs2].
  rewrite !blocks_at_app in *.
  apply in_app_or in Hin. destruct Hin as [Hin|Hin].
  - apply in_or_app. left. exact Hin.
  - pose proof (in_blocks_at_range _ _ _ _ _ Hs2 Hin) as (? & ? & [? _] & _). lia.
Qed.

Lemma nodes_in_replace pre old new post L :
  sizes_ok (pre ++ old ++ post) ->
  nodes_in (pre ++ old ++ post) L ->
  (forall c y, 12 <= c <= 27 -> In y (L c) ->
               y < 136 + total pre \/ 136 + total pre + total old <= y) ->
  total new = total old ->
  nodes_in (pre ++ new ++ post) L.
Proof.
  intros Hs Hn Hout Ht c y Hc Hy.
  destruct (Hn c y Hc Hy) as (sz & Hin & Hcl). exists sz. split; [|exact Hcl].
  eapply in_blocks_replace; eauto.
Qed.

Lemma nodes_in_replace_tail pre old new L :
  sizes_ok (pre ++ old) ->
  nodes_in (pre ++ old) L ->
  (forall c y, 12 <= c <= 27 -> In y (L c) -> y < 136 + total pre) ->
  nodes_in (pre ++ new) L.
Proof.
  intros Hs Hn Hout c y Hc Hy.
  destruct (Hn c y Hc Hy) as (sz & Hin & Hcl). exists sz. split; [|exact Hcl].
  eapply in_blocks_replace_tail; eauto.
Qed.

(** ** [delete_block] and [insert] on a represented heap *)

Lemma rep_sizes m hl bs L : rep m hl bs L -> sizes_ok bs.
Proof. intros [H _ _ _]. eapply heap_ok_sizes; eauto. Qed.

Lemma rep_total_bound m hl bs L : rep m hl bs L -> 136 + total bs < two32.
Proof. intros [(_ & E & _) Hb _ _]. lia. Qed.

Lemma heap_ok_frame m m' hl bs :
  heap_ok m hl bs ->
  (forall w, meta 136 bs w \/ 136 + total bs - 4 <= w -> m' w = m w) ->
  heap_ok m' hl bs.
Proof.
  intros (Hseg & Hhl & Hsent) Hf. split; [|split]; auto.
  - apply seg_frame_meta with (m := m); auto.
  - apply hdr_is_frame with (m := m); auto. intros w Hw. apply Hf. lia.
Qed.

Lemma rep_unlink m hl bs L c x :
  rep m hl bs L -> 12 <= c <= 27 -> In x (L c) ->
  exists l1 l2, L c = l1 ++ x :: l2 /\
    rep (delete_block x m) hl bs (upd L c (l1 ++ l2)).
Proof.
  intros H Hc Hx. pose proof (rep_sizes _ _ _ _ H) as Hs.
  pose proof (rep_total_bound _ _ _ _ H) as Hb. destruct H as [Hh Hbd Hl Hn].
  destruct (unlink_lists m L bs c x Hs Hb Hn Hl Hc Hx) as (l1 & l2 & E & Hl' & Hn' & Hf).
  exists l1, l2. split; [exact E|]. constructor; auto.
  eapply heap_ok_frame; eauto.
  intros w Hw. apply Hf. eapply meta_apart; eauto.
Qed.

Lemma rep_link m hl bs L x sz :
  rep m hl bs L -> In (x, sz, false) (blocks_at 136 bs) -> ~ In x (L (class_of sz)) ->
  insert x sz m = Some (link_tail (sent (class_of sz)) x m) /\
  rep (link_tail (sent (class_of sz)) x m) hl bs
    (upd L (class_of sz) (L (class_of sz) ++ [x])).
Proof.
  intros H Hin Hx. pose proof (rep_sizes _ _ _ _ H) as Hs.
  pose proof (rep_total_bound _ _ _ _ H) as Hb. destruct H as [Hh Hbd Hl Hn].
  destruct (link_lists m L bs x sz Hs Hb Hn Hl Hin Hx) as (E & Hl' & Hn' & Hf).
  split; [exact E|]. constructor; auto.
  eapply heap_ok_frame; eauto.
  intros w Hw. apply Hf.
  - eapply meta_apart; eauto.
    apply class_of_range. destruct (block_node bs Hs Hb _ _ _ Hin) as (_ & _ & _ & [? _] & ?). lia.
  - eapply meta_apart_block; eauto.
Qed.

(** ** Replacing a run of blocks *)

Lemma lists_ok_region m m' hl pre old post L :
  rep m hl (pre ++ old ++ post) L ->
  (forall c y, 12 <= c <= 27 -> In y (L c) ->
               y < 136 + total pre \/ 136 + total pre + total old <= y) ->
  (forall w, w < 136 + total pre - 4 \/ 136 + total pre + total old <= w -> m' w = m w) ->
  lists_ok m' L.
Proof.
  intros H Hout Hf. pose proof (rep_sizes _ _ _ _ H) as Hs.
  pose proof (rep_total_bound _ _ _ _ H) as Hb. destruct H as [Hh Hbd Hl Hn].
  apply lists_frame with (m := m); auto.
  intros c y w Hc Hy Hw. apply Hf.
  pose proof Hs as Hs'. apply sizes_ok_app in Hs' as [Hs1 Hs23].
  pose proof (total_nonneg _ Hs1).
  destruct Hy as [<-|Hy].
  - pose proof (sent_node c Hc). lia.
  - destruct (Hout c y Hc Hy) as [Hlt|Hge]; [|lia].
    destruct (Hn c y Hc Hy) as (sz & Hin & _).
    rewrite blocks_at_app in Hin. apply in_app_or in Hin. destruct Hin as [Hin|Hin].
    + pose proof (in_blocks_at_range _ _ _ _ _ Hs1 Hin) as (? & ? & [? _] & _). lia.
    + pose proof (in_blocks_at_range _ _ _ _ _ Hs23 Hin) as (? & _). lia.
Qed.

Lemma rep_replace m m' hl pre old new post L p q :
  rep m hl (pre ++ old ++ post) L ->
  p = 136 + total pre -> q = p + total old ->
  total new = total old ->
  (forall w, w < p - 4 \/ q <= w -> m' w = m w) ->
  seg m' p (last_alloc true pre) new ->
  hdr_is m' q (next_size post) (next_alloc post)
    (last_alloc (last_alloc true pre) new) ->
  (forall c y, 12 <= c <= 27 -> In y (L c) -> y < p \/ q <= y) ->
  rep m' hl (pre ++ new ++ post) L.
Proof.
  intros H -> -> Ht Hf Hnew Hnext Hout.
  pose proof (lists_ok_region _ _ _ _ _ _ _ H Hout Hf) as Hl'.
  pose proof (rep_sizes _ _ _ _ H) as Hs.
  destruct H as [Hh Hbd Hl Hn]. constructor; auto.
  - eapply heap_assemble; eauto.
  - eapply nodes_in_replace; eauto.
Qed.

Lemma rep_replace_tail m m' hl hl' pre old new L p :
  rep m hl (pre ++ old) L ->
  p = 136 + total pre ->
  (forall w, w < p - 4 -> m' w = m w) ->
  seg m' p (last_alloc true pre) new ->
  hl' = p + total new -> hl' < two32 ->
  hdr_is m' hl' 0 true (last_alloc (last_alloc true pre) new) ->
  (forall c y, 12 <= c <= 27 -> In y (L c) -> y < p) ->
  rep m' hl' (pre ++ new) L.
Proof.
  intros H -> Hf Hnew Hhl' Hbd' Hsent Hout.
  pose proof (rep_sizes _ _ _ _ H) as Hs.
  pose proof (rep_total_bound _ _ _ _ H) as Hb. pose proof H as [Hh Hbd Hl Hn].
  constructor; auto.
  - eapply heap_assemble_tail; eauto.
  - apply lists_frame with (m := m); auto.
    intros c y w Hc Hy Hw. apply Hf.
    pose proof Hs as Hs'. apply sizes_ok_app in Hs' as [Hs1 Hs2].
    pose proof (total_nonneg _ Hs1).
    destruct Hy as [<-|Hy].
    + pose proof (sent_node c Hc). lia.
    + specialize (Hout c y Hc Hy).
      destruct (Hn c y Hc Hy) as (sz & Hin & _).
      rewrite blocks_at_app in Hin. apply in_app_or in Hin. destruct Hin as [Hin|Hin].
      * pose proof (in_blocks_at_range _ _ _ _ _ Hs1 Hin) as (? & ? & [? _] & _). lia.
      * pose proof (in_blocks_at_range _ _ _ _ _ Hs2 Hin) as (? & _). lia.
  - eapply nodes_in_replace_tail; eauto.
Qed.

(** A block that is on no list lies apart from every list node. *)
Lemma nodes_apart m hl bs L x sz al :
  rep m hl bs L -> In (x, sz, al) (blocks_at 136 bs) ->
  (forall c, 12 <= c <= 27 -> ~ In x (L c)) ->
  forall c y, 12 <= c <= 27 -> In y (L c) -> y < x \/ x + sz <= y.
Proof.
  intros H Hin Hx c y Hc Hy. pose proof (rep_sizes _ _ _ _ H) as Hs.
  destruct H as [Hh Hbd Hl Hn].
  destruct (Hn c y Hc Hy) as (sz' & Hin' & _).
  destruct (blocks_at_disjoint _ _ _ _ _ _ _ _ Hs Hin Hin') as [(-> & _)|D].
  - exfalso. apply (Hx c); auto.
  - pose proof (in_blocks_at_range _ _ _ _ _ Hs Hin') as (_ & _ & [? _] & _).
    pose proof (in_blocks_at_range _ _ _ _ _ Hs Hin) as (_ & _ & [? _] & _). lia.
Qed.

Lemma alloc_not_node m hl bs L x sz :
  rep m hl bs L -> In (x, sz, true) (blocks_at 136 bs) ->
  forall c, 12 <= c <= 27 -> ~ In x (L c).
Proof.
  intros H Hin c Hc Hx. pose proof (rep_sizes _ _ _ _ H) as Hs.
  destruct H as [Hh Hbd Hl Hn].
  destruct (Hn c x Hc Hx) as (sz' & Hin' & _).
  destruct (blocks_at_disjoint _ _ _ _ _ _ _ _ Hs Hin Hin') as [(_ & _ & E)|D].
  - discriminate E.
  - pose proof (in_blocks_at_range _ _ _ _ _ Hs Hin') as (_ & _ & [? _] & _).
    pose proof (in_blocks_at_range _ _ _ _ _ Hs Hin) as (_ & _ & [? _] & _). lia.
Qed.

(** ** [place] *)

Lemma sub32_small a b : 0 <= a - b < two32 -> sub32 a b = a - b.
Proof. intros H. unfold sub32, wrap32. apply Z.mod_small. exact H. Qed.

Lemma add32_small a b : 0 <= a + b < two32 -> add32 a b = a + b.
Proof. intros H. unfold add32, wrap32. apply Z.mod_small. exact H. Qed.

(** The block in the middle of a chain, and the header after it. *)
Lemma heap_mid m hl pre sz al post :
  heap_ok m hl (pre ++ [(sz, al)] ++ post) ->
  good_size sz /\ blk m (136 + total pre) sz al (last_alloc true pre) /\
  hdr_is m (136 + total pre + sz) (next_size post) (next_alloc post) al /\
  136 + total pre + sz <= hl /\ 0 <= total pre.
Proof.
  intros H. pose proof (heap_ok_sizes _ _ _ H) as Hs.
  apply sizes_ok_app in Hs as [Hs1 Hs2]. apply sizes_ok_app in Hs2 as [_ Hs3].
  pose proof (total_nonneg _ Hs1). pose proof (total_nonneg _ Hs3).
  pose proof H as (Hseg & Hhl & _).
  apply seg_app in Hseg. destruct Hseg as [_ Hseg]. cbn [app seg] in Hseg.
  destruct Hseg as (Hg & Hb & _).
  rewrite app_assoc in H. apply heap_next_hdr in H.
  rewrite total_app, last_alloc_app in H. cbn [total last_alloc] in H.
  replace (136 + (total pre + (sz + 0))) with (136 + total pre + sz) in H by lia.
  rewrite !total_app in Hhl. cbn [total] in Hhl.
  split; [exact Hg|]. split; [exact Hb|]. split; [exact H|]. lia.
Qed.

Lemma place_spec m hl pre bsz post L aligned :
  rep m hl (pre ++ [(bsz, false)] ++ post) L ->
  last_alloc true pre = true ->
  (forall c, 12 <= c <= 27 -> ~ In (136 + total pre) (L c)) ->
  good_size aligned -> aligned <= bsz ->
  exists m' new L',
    place aligned (136 + total pre) bsz m = Some (136 + total pre, m') /\
    rep m' hl (pre ++ new ++ post) L' /\
    ((bsz - aligned < 16 /\ new = [(bsz, true)] /\ L' = L) \/
     (16 <= bsz - aligned /\ new = [(aligned, true); (bsz - aligned, false)] /\
      L' = upd L (class_of (bsz - aligned))
             (L (class_of (bsz - aligned)) ++ [136 + total pre + aligned]))).
Proof.
  intros H Hpa Hun Hga Hle.
  pose proof (rep_sizes _ _ _ _ H) as Hs.
  pose proof (rep_total_bound _ _ _ _ H) as Hb.
  pose proof (rep_heap _ _ _ _ H) as Hh.
  destruct (heap_mid _ _ _ _ _ _ Hh) as (Hgb & [Hhdr Hft] & Hnext & Hend & Hpre0).
  rewrite Hpa in Hhdr.
  set (p := 136 + total pre) in *.
  assert (Hbsz : bsz < two32) by (pose proof (rep_bound _ _ _ _ H); lia).
  assert (Hout : forall c y, 12 <= c <= 27 -> In y (L c) -> y < p \/ p + bsz <= y).
  { intros c y Hc Hy.
    pose proof (nodes_apart _ _ _ _ p bsz false H (in_blocks_at_mid 136 pre bsz false post) Hun c y Hc Hy).
    lia. }
  destruct Hga as [Hga16 Hga8]. destruct Hgb as [Hgb16 Hgb8].
  unfold place. rewrite sub32_small by lia.
  destruct (Z.ltb_spec (bsz - aligned) 16) as [Hsmall|Hbig].
  - (* the whole block is used *)
    set (m1 := set_allocated_flag p m).
    assert (H1 : hdr_is m1 p bsz true true) by (eapply hdr_is_set_allocated_flag; eauto).
    assert (Hback : get_back p m1 = p + bsz).
    { unfold get_back. destruct H1 as (-> & _). reflexivity. }
    rewrite Hback. set (m2 := set_forward_allocated_flag (p + bsz) m1).
    exists m2, [(bsz, true)], L. split; [reflexivity|]. split; [|left; auto].
    apply rep_replace with (m := m) (old := [(bsz, false)]) (p := p) (q := p + bsz); auto.
    + cbn [total]. lia.
    + intros w Hw. unfold m2, m1.
      rewrite set_forward_allocated_flag_frame, set_allocated_flag_frame by lia. reflexivity.
    + rewrite Hpa. cbn [seg]. split; [split; assumption|]. split; [|exact I].
      split; [|discriminate].
      apply hdr_is_frame with (m := m1); auto.
      intros w Hw. apply set_forward_allocated_flag_frame. lia.
    + cbn [last_alloc].
      apply hdr_is_set_forward_allocated_flag with (pa := false).
      apply hdr_is_frame with (m := m); auto.
      intros w Hw. apply set_allocated_flag_frame. lia.
  - (* split *)
    set (remain := bsz - aligned) in *.
    set (m1 := set_size p aligned m).
    assert (H1 : hdr_is m1 p aligned false true).
    { eapply hdr_is_set_size; eauto; lia. }
    set (m2 := set_allocated_flag p m1).
    assert (H2 : hdr_is m2 p aligned true true) by (eapply hdr_is_set_allocated_flag; eauto).
    assert (Hback : get_back p m2 = p + aligned).
    { unfold get_back. destruct H2 as (-> & _). reflexivity. }
    rewrite Hback. set (q := p + aligned) in *.
    assert (Hr8 : remain mod 8 = 0) by (unfold remain; lia).
    set (m3 := set_size q remain m2).
    assert (H3 : hdr_is m3 q remain (is_allocated q m2) (is_forward_allocated q m2)).
    { apply hdr_is_set_size with (sz := get_size q m2); [apply hdr_is_self | lia | exact Hr8]. }
    assert (F3 : read_word (q + remain - 8) m3 = remain) by (apply footer_set_size; lia).
    set (m4 := unset_allocated_flag q m3).
    assert (H4 : hdr_is m4 q remain false (is_forward_allocated q m2))
      by (eapply hdr_is_unset_allocated_flag; eauto).
    set (m5 := set_forward_allocated_flag q m4).
    assert (H5 : hdr_is m5 q remain false true)
      by (eapply hdr_is_set_forward_allocated_flag; eauto).
    assert (Fr : forall w, w < p - 4 \/ p + bsz - 4 <= w -> m5 w = m w).
    { intros w Hw. unfold m5, m4, m3, m2, m1.
      rewrite set_forward_allocated_flag_frame, unset_allocated_flag_frame,
        set_size_frame, set_allocated_flag_frame, set_size_frame by (unfold q, remain; lia).
      reflexivity. }
    assert (Fr2 : forall w, w < q - 4 -> m5 w = m2 w).
    { intros w Hw. unfold m5, m4, m3.
      rewrite set_forward_allocated_flag_frame, unset_allocated_flag_frame,
        set_size_frame by (unfold q, remain; lia).
      reflexivity. }
    assert (Hrep5 : rep m5 hl (pre ++ [(aligned, true); (remain, false)] ++ post) L).
    { apply rep_replace with (m := m) (old := [(bsz, false)]) (p := p) (q := p + bsz); auto.
      - cbn [total]. lia.
      - cbn [total]. unfold remain. lia.
      - intros w Hw. apply Fr. lia.
      - rewrite Hpa. cbn [seg]. fold q.
        split; [split; assumption|]. split.
        { split; [|discriminate]. apply hdr_is_frame with (m := m2); auto.
          intros w Hw. apply Fr2. unfold q. lia. }
        split; [split; lia|]. split; [|exact I].
        split; [exact H5|].
        intros _. transitivity (read_word (q + remain - 8) m3); [|exact F3].
        apply read_word_ext. intros w Hw. unfold m5, m4.
        rewrite set_forward_allocated_flag_frame, unset_allocated_flag_frame by lia.
        reflexivity.
      - cbn [last_alloc].
        apply hdr_is_frame with (m := m); auto.
        intros w Hw. apply Fr. lia. }
    assert (Hin : In (q, remain, false)
                    (blocks_at 136 (pre ++ [(aligned, true); (remain, false)] ++ post))).
    { replace (pre ++ [(aligned, true); (remain, false)] ++ post)
        with ((pre ++ [(aligned, true)]) ++ (remain, false) :: post)
        by (rewrite <- app_assoc; reflexivity).
      replace q with (136 + total (pre ++ [(aligned, true)]))
        by (rewrite total_app; cbn [total]; unfold q, p; lia).
      apply in_blocks_at_mid. }
    assert (Hnq : ~ In q (L (class_of remain))).
    { intros Hq. assert (Hc : 12 <= class_of remain <= 27) by (apply class_of_range; lia).
      specialize (Hout _ _ Hc Hq). unfold q in Hout. lia. }
    destruct (rep_link _ _ _ _ _ _ Hrep5 Hin Hnq) as [Hins Hrep6].
    rewrite Hins.
    exists (link_tail (sent (class_of remain)) q m5), [(aligned, true); (remain, false)],
      (upd L (class_of remain) (L (class_of remain) ++ [q])).
    split; [reflexivity|]. split; [exact Hrep6|]. right. auto.
Qed.

(** ** Abstract facts about replaced runs *)

Lemma complete_replace pre old new post (L L' : lists) p q :
  sizes_ok (pre ++ old ++ post) ->
  complete (pre ++ old ++ post) L ->
  p = 136 + total pre -> q = p + total old -> total new = total old ->
  (forall x sz, In (x, sz, false) (blocks_at 136 (pre ++ old ++ post)) ->
                x < p \/ q <= x -> In x (L (class_of sz)) -> In x (L' (class_of sz))) ->
  (forall x sz, In (x, sz, false) (blocks_at p new) -> In x (L' (class_of sz))) ->
  complete (pre ++ new ++ post) L'.
Proof.
  intros Hs Hc -> -> Ht Hkeep Hnew x sz Hin.
  apply sizes_ok_app in Hs as [Hs1 Hs23]. apply sizes_ok_app in Hs23 as [Hs2 Hs3].
  pose proof (total_nonneg _ Hs2).
  rewrite !blocks_at_app in Hin. apply in_app_or in Hin. destruct Hin as [Hin|Hin].
  - assert (Hin' : In (x, sz, false) (blocks_at 136 (pre ++ old ++ post))).
    { rewrite blocks_at_app. apply in_or_app. left. exact Hin. }
    apply Hkeep; auto.
    pose proof (in_blocks_at_range _ _ _ _ _ Hs1 Hin) as (? & ? & [? _] & _). lia.
  - apply in_app_or in Hin. destruct Hin as [Hin|Hin]; [apply Hnew; exact Hin|].
    rewrite Ht in Hin.
    assert (Hin' : In (x, sz, false) (blocks_at 136 (pre ++ old ++ post))).
    { rewrite !blocks_at_app. apply in_or_app. right. apply in_or_app. right. exact Hin. }
    apply Hkeep; auto.
    pose proof (in_blocks_at_range _ _ _ _ _ Hs3 Hin) as (? & _). lia.
Qed.

Lemma complete_on_replace (P : Z -> Prop) pre old new post (L L' : lists) p q :
  sizes_ok (pre ++ old ++ post) ->
  complete_on P (pre ++ old ++ post) L ->
  p = 136 + total pre -> q = p + total old -> total new = total old ->
  (forall x sz, In (x, sz, false) (blocks_at 136 (pre ++ old ++ post)) ->
                x < p \/ q <= x -> In x (L (class_of sz)) -> In x (L' (class_of sz))) ->
  (forall x sz, In (x, sz, false) (blocks_at p new) -> In x (L' (class_of sz))) ->
  complete_on P (pre ++ new ++ post) L'.
Proof.
  intros Hs Hc -> -> Ht Hkeep Hnew x sz Hin HP.
  apply sizes_ok_app in Hs as [Hs1 Hs23]. apply sizes_ok_app in Hs23 as [Hs2 Hs3].
  pose proof (total_nonneg _ Hs2).
  rewrite !blocks_at_app in Hin. apply in_app_or in Hin. destruct Hin as [Hin|Hin].
  - assert (Hin' : In (x, sz, false) (blocks_at 136 (pre ++ old ++ post))).
    { rewrite blocks_at_app. apply in_or_app. left. exact Hin. }
    apply Hkeep; auto.
    pose proof (in_blocks_at_range _ _ _ _ _ Hs1 Hin) as (? & ? & [? _] & _). lia.
  - apply in_app_or in Hin. destruct Hin as [Hin|Hin]; [apply Hnew; exact Hin|].
    rewrite Ht in Hin.
    assert (Hin' : In (x, sz, false) (blocks_at 136 (pre ++ old ++ post))).
    { rewrite !blocks_at_app. apply in_or_app. right. apply in_or_app. right. exact Hin. }
    apply Hkeep; auto.
    pose proof (in_blocks_at_range _ _ _ _ _ Hs3 Hin) as (? & _). lia.
Qed.

Lemma in_upd_remove (L : lists) c l1 x l2 c' y :
  L c = l1 ++ x :: l2 -> In y (L c') -> y <> x -> In y (upd L c (l1 ++ l2) c').
Proof.
  intros E Hy D. unfold upd. destruct (Z.eqb_spec c' c) as [->|Dc]; [|exact Hy].
  rewrite E in Hy. apply in_app_or in Hy. apply in_or_app.
  destruct Hy as [Hy|[Hy|Hy]]; auto. congruence.
Qed.

Lemma in_upd_add (L : lists) c x c' y :
  In y (L c') -> In y (upd L c (L c ++ [x]) c').
Proof.
  intros Hy. unfold upd. destruct (Z.eqb_spec c' c) as [->|Dc]; [|exact Hy].
  apply in_or_app. left. exact Hy.
Qed.

Lemma in_upd_new (L : lists) c x : In x (upd L c (L c ++ [x]) c).
Proof. rewrite upd_same. apply in_or_app. right. left. reflexivity. Qed.

Lemma not_in_upd_remove (L : lists) c l1 x l2 c' :
  L c = l1 ++ x :: l2 -> NoDup (L c) -> (c' <> c -> ~ In x (L c')) ->
  ~ In x (upd L c (l1 ++ l2) c').
Proof.
  intros E Hnd Ho. unfold upd. destruct (Z.eqb_spec c' c) as [->|Dc]; [|auto].
  rewrite E in Hnd. apply NoDup_remove in Hnd. tauto.
Qed.

(** ** [find_fit_in_index_th_list] *)

Lemma scan_list_find fuel aligned_size m a l e r :
  dseg m a l e -> ~ In e l ->
  scan_list fuel aligned_size e (get_next a m) m = Some r ->
  r = find (fun y => aligned_size <=? get_size y m) l.
Proof.
  revert a fuel. induction l as [|y l IH]; intros a fuel H He Hr.
  - simpl in H. destruct H as [H _]. rewrite H in Hr.
    destruct fuel as [|fuel]; [discriminate|]. simpl in Hr. rewrite Z.eqb_refl in Hr.
    inversion Hr. reflexivity.
  - simpl in H. destruct H as (H1 & H2 & H3). rewrite H1 in Hr.
    destruct fuel as [|fuel]; [discriminate|]. simpl in Hr. simpl.
    destruct (Z.eqb_spec y e) as [E|E]; [exfalso; apply He; left; auto|].
    destruct (aligned_size <=? get_size y m); [inversion Hr; reflexivity|].
    eapply IH; eauto. intros Hin. apply He. right. exact Hin.
Qed.

Lemma class_of_mono a b : 16 <= a <= b -> b < two32 -> class_of b <= class_of a.
Proof.
  intros H Hb. unfold class_of, get_index.
  destruct (Z.eqb_spec a 0); [lia|]. destruct (Z.eqb_spec b 0); [lia|].
  pose proof (Z.log2_le_mono a b ltac:(lia)). lia.
Qed.

Lemma nadj_last_true pa bs : nadj pa bs -> nadj true bs.
Proof. destruct bs as [|[sz al] bs]; simpl; [auto|]. intros [_ H]. split; [discriminate | exact H]. Qed.

(** Unlinking a free block and placing a request into it. *)
Lemma unlink_place m hl bs L c p bsz aligned :
  rep m hl bs L -> complete bs L -> nadj true bs ->
  12 <= c <= 27 -> In p (L c) -> get_size p m = bsz ->
  good_size aligned -> aligned <= bsz ->
  exists m' bs' L',
    place aligned p bsz (delete_block p m) = Some (p, m') /\
    rep m' hl bs' L' /\ complete bs' L' /\ carved bs bs' p aligned.
Proof.
  intros H Hcomp Hadj Hc Hp Hsz Hga Hle.
  pose proof (rep_sizes _ _ _ _ H) as Hs.
  pose proof (rep_total_bound _ _ _ _ H) as Hb.
  destruct (node_block bs L Hs Hb (rep_nodes _ _ _ _ H) c p Hc Hp)
    as (sz & Hin & Hcl & Hok & Hp136 & Hpe & Hg).
  destruct (in_blocks_at_split _ _ _ _ _ Hin) as (pre & post & Ebs & Ep).
  assert (Ebs' : bs = pre ++ [(sz, false)] ++ post) by exact Ebs.
  clear Ebs. subst bs.
  destruct (heap_mid _ _ _ _ _ _ (rep_heap _ _ _ _ H)) as (_ & [[Hsz' _] _] & _).
  rewrite <- Ep in Hsz'. assert (Esz : sz = bsz) by congruence. clear Hsz'.
  subst sz. destruct Hg as [Hg16 Hg8].
  (* the predecessor is allocated *)
  assert (Hpa : last_alloc true pre = true).
  { apply nadj_app in Hadj. destruct Hadj as [_ Hadj]. cbn [app nadj] in Hadj.
    destruct (last_alloc true pre); [reflexivity|]. destruct Hadj as [Hadj _]. auto. }
  assert (Hna : next_alloc post = true).
  { apply nadj_app in Hadj. destruct Hadj as [_ Hadj]. cbn [app nadj] in Hadj.
    destruct Hadj as [_ Hadj]. destruct post as [|[s a] post]; [reflexivity|].
    cbn [nadj next_alloc] in *. destruct Hadj as [Hadj _]. auto. }
  destruct (rep_unlink _ _ _ _ _ _ H Hc Hp) as (l1 & l2 & El & H1).
  set (L1 := upd L c (l1 ++ l2)) in *.
  assert (Hnd : NoDup (L c)) by (apply (rep_lists _ _ _ _ H); auto).
  assert (Hun : forall c', 12 <= c' <= 27 -> ~ In (136 + total pre) (L1 c')).
  { intros c' Hc'. rewrite <- Ep. unfold L1. eapply not_in_upd_remove; eauto.
    intros D Hi. apply D.
    apply (node_class_unique _ L Hs (rep_nodes _ _ _ _ H) c' c p); auto. }
  destruct (place_spec _ _ _ _ _ _ _ H1 Hpa Hun Hga Hle) as (m' & new & L' & Hpl & Hrep' & Hshape).
  rewrite <- Ep in Hpl.
  exists m', (pre ++ new ++ post), L'. split; [exact Hpl|]. split; [exact Hrep'|].
  split.
  - (* completeness *)
    eapply complete_replace with (old := [(bsz, false)]) (L := L); eauto.
    + cbn [total]. destruct Hshape as [(_ & -> & _)|(_ & -> & _)]; cbn [total]; lia.
    + intros x sz Hx Hout Hxl.
      assert (x <> p) by (cbn [total] in Hout; lia).
      assert (In x (L1 (class_of sz))) by (eapply in_upd_remove; eauto).
      destruct Hshape as [(_ & _ & ->)|(_ & _ & ->)]; [assumption|].
      apply in_upd_add. assumption.
    + intros x sz Hx.
      destruct Hshape as [(_ & -> & _)|(_ & -> & ->)]; cbn [blocks_at In] in Hx.
      * destruct Hx as [Hx|[]]. inversion Hx.
      * destruct Hx as [Hx|[Hx|[]]]; inversion Hx; subst. apply in_upd_new.
  - exists pre, bsz, post, new. repeat split; auto. tauto.
Qed.

Lemma begins_sent i : 12 <= i <= 27 -> begins i = Some (sent i).
Proof.
  intros H. unfold begins, sent.
  destruct (Z.leb_spec 0 i); [|lia]. destruct (Z.leb_spec i 11); [lia|]. simpl.
  destruct (Z.leb_spec 12 i); [|lia]. destruct (Z.leb_spec i 27); [|lia]. reflexivity.
Qed.

Lemma begins_low i : 0 <= i <= 11 -> begins i = Some (sent 12).
Proof.
  intros H. unfold begins, sent.
  destruct (Z.leb_spec 0 i); [|lia]. destruct (Z.leb_spec i 11); [|lia]. reflexivity.
Qed.

Lemma block_size_read m hl bs x sz al :
  heap_ok m hl bs -> In (x, sz, al) (blocks_at 136 bs) -> get_size x m = sz.
Proof.
  intros (Hseg & _) Hin. destruct (seg_blk _ _ _ _ _ _ _ Hseg Hin) as (pa & [[H _] _]).
  exact H.
Qed.

(** One round of the search: the list of class [c] is scanned. *)
Lemma scan_round fuel m hl bs L aligned c r0 :
  rep m hl bs L -> complete bs L -> nadj true bs -> good_size aligned ->
  12 <= c <= 27 ->
  scan_list fuel aligned (sent c) (get_next (sent c) m) m = Some r0 ->
  match r0 with
  | None => forall x, In x (L c) -> get_size x m < aligned
  | Some p =>
      exists m' bs' L',
        place aligned p (get_size p m) (delete_block p m) = Some (p, m') /\
        rep m' hl bs' L' /\ complete bs' L' /\ carved bs bs' p aligned
  end.
Proof.
  intros H Hcomp Hadj Hga Hc Hscan.
  pose proof (rep_sizes _ _ _ _ H) as Hs.
  pose proof (rep_total_bound _ _ _ _ H) as Hb.
  destruct (rep_lists _ _ _ _ H c Hc) as [Hd _].
  apply scan_list_find with (l := L c) in Hscan; auto.
  2:{ apply (sent_not_node bs L Hs Hb (rep_nodes _ _ _ _ H)); auto. }
  subst r0. destruct (find _ (L c)) as [p|] eqn:Ef.
  - apply find_some in Ef. destruct Ef as [Hp Hfit]. apply Z.leb_le in Hfit.
    eapply unlink_place; eauto.
  - intros x Hx. pose proof (find_none _ _ Ef x Hx) as Hno. simpl in Hno.
    apply Z.leb_gt in Hno. exact Hno.
Qed.

Lemma find_fit_loop_spec rounds fuel m hl bs L aligned i r m' :
  rep m hl bs L -> complete bs L -> nadj true bs -> good_size aligned ->
  12 <= i <= 27 ->
  find_fit_loop rounds fuel aligned i m = Some (r, m') ->
  (r = None /\ m' = m /\
   forall c x, 12 <= c <= i -> In x (L c) -> get_size x m < aligned) \/
  (exists p bs' L', r = Some p /\ rep m' hl bs' L' /\ complete bs' L' /\
                    carved bs bs' p aligned).
Proof.
  intros H Hcomp Hadj Hga. revert i.
  induction rounds as [|rounds IH]; intros i Hi Hr; [discriminate|].
  cbn [find_fit_loop] in Hr. rewrite begins_sent in Hr by exact Hi.
  destruct (scan_list fuel aligned (sent i) (get_next (sent i) m) m) as [r0|] eqn:Es;
    [|discriminate].
  pose proof (scan_round _ _ _ _ _ _ _ _ H Hcomp Hadj Hga Hi Es) as Hround.
  destruct r0 as [p|].
  - destruct Hround as (m1 & bs' & L' & Hpl & Hrep & Hc' & Hcv).
    rewrite Hpl in Hr. inversion Hr; subst. right. exists p, bs', L'. auto.
  - rewrite sub32_small in Hr by (unfold two32; lia).
    destruct (Z.gtb_spec (i - 1) 11) as [Hgt|Hle].
    + destruct (IH (i - 1) ltac:(lia) Hr) as [(-> & -> & Hall)|Hok]; [|right; exact Hok].
      left. split; [reflexivity|]. split; [reflexivity|].
      intros c x Hc Hx. destruct (Z.eq_dec c i) as [->|D]; [auto|].
      apply (Hall c); auto. lia.
    + inversion Hr; subst. left. split; [reflexivity|]. split; [reflexivity|].
      intros c x Hc Hx. assert (c = i) by lia. subst c. auto.
Qed.

Lemma find_fit_loop_low rounds fuel m hl bs L aligned i r m' :
  rep m hl bs L -> complete bs L -> nadj true bs -> good_size aligned ->
  0 <= i <= 11 ->
  find_fit_loop rounds fuel aligned i m = Some (r, m') ->
  (r = None /\ m' = m /\ forall x, In x (L 12) -> get_size x m < aligned) \/
  (exists p bs' L', r = Some p /\ rep m' hl bs' L' /\ complete bs' L' /\
                    carved bs bs' p aligned).
Proof.
  intros H Hcomp Hadj Hga Hi Hr.
  destruct rounds as [|rounds]; [discriminate|].
  cbn [find_fit_loop] in Hr. rewrite begins_low in Hr by exact Hi.
  destruct (scan_list fuel aligned (sent 12) (get_next (sent 12) m) m) as [r0|] eqn:Es;
    [|discriminate].
  pose proof (scan_round fuel m hl bs L aligned 12 _ H Hcomp Hadj Hga ltac:(lia) Es)
    as Hround.
  destruct r0 as [p|].
  - destruct Hround as (m1 & bs' & L' & Hpl & Hrep & Hc' & Hcv).
    rewrite Hpl in Hr. inversion Hr; subst. right. exists p, bs', L'. auto.
  - destruct (Z.eq_dec i 0) as [->|Hnz].
    + (* the index wraps around and leaves the table *)
      exfalso. change (sub32 0 1) with 4294967295 in Hr.
      change (4294967295 >? 11) with true in Hr. cbv iota in Hr.
      destruct rounds; discriminate.
    + rewrite sub32_small in Hr by (unfold two32; lia).
      destruct (Z.gtb_spec (i - 1) 11) as [Hgt|Hle]; [lia|].
      inversion Hr; subst. left. auto.
Qed.

Lemma find_fit_spec fuel m hl bs L aligned r m' :
  rep m hl bs L -> complete bs L -> nadj true bs ->
  good_size aligned -> aligned < two32 ->
  find_fit_in_index_th_list fuel aligned (get_index aligned) m = Some (r, m') ->
  (r = None /\ m' = m /\
   forall x sz, In (x, sz, false) (blocks_at 136 bs) -> sz < aligned) \/
  (exists p bs' L', r = Some p /\ rep m' hl bs' L' /\ complete bs' L' /\
                    carved bs bs' p aligned).
Proof.
  intros H Hcomp Hadj Hga Hlt Hr. unfold find_fit_in_index_th_list in Hr.
  pose proof (rep_sizes _ _ _ _ H) as Hs.
  pose proof (rep_total_bound _ _ _ _ H) as Hb.
  assert (Hrange : 16 <= aligned < two32) by (destruct Hga; lia).
  pose proof (get_index_range aligned Hrange) as Hidx.
  assert (Hfree : (forall x, In x (L (class_of aligned)) -> get_size x m < aligned) ->
                  (forall c x, 12 <= c <= class_of aligned -> In x (L c) -> get_size x m < aligned) ->
                  forall x sz, In (x, sz, false) (blocks_at 136 bs) -> sz < aligned).
  { intros _ Hall x sz Hin. destruct (Z.lt_ge_cases sz aligned) as [|Hge]; [assumption|].
    exfalso.
    destruct (block_node bs Hs Hb _ _ _ Hin) as (_ & _ & _ & [Hsz16 _] & Hszlt).
    pose proof (class_of_mono aligned sz ltac:(lia) Hszlt).
    pose proof (class_of_range sz ltac:(lia)).
    pose proof (Hall (class_of sz) x ltac:(lia) (Hcomp _ _ Hin)) as Hsmall.
    rewrite (block_size_read _ _ _ _ _ _ (rep_heap _ _ _ _ H) Hin) in Hsmall. lia. }
  destruct (Z.le_gt_cases 12 (get_index aligned)) as [Hhi|Hlo].
  - destruct (find_fit_loop_spec fuel fuel m hl bs L aligned (get_index aligned) r m'
                H Hcomp Hadj Hga ltac:(lia) Hr)
      as [(-> & -> & Hall)|Hok]; [|right; exact Hok].
    left. split; [reflexivity|]. split; [reflexivity|].
    assert (Ecl : class_of aligned = get_index aligned) by (unfold class_of; lia).
    apply Hfree.
    + intros x Hx. apply (Hall (class_of aligned)); auto. lia.
    + rewrite Ecl. exact Hall.
  - destruct (find_fit_loop_low fuel fuel m hl bs L aligned (get_index aligned) r m'
                H Hcomp Hadj Hga ltac:(lia) Hr)
      as [(-> & -> & Hall)|Hok]; [|right; exact Hok].
    left. split; [reflexivity|]. split; [reflexivity|].
    assert (Ecl : class_of aligned = 12) by (unfold class_of; lia).
    apply Hfree.
    + rewrite Ecl. exact Hall.
    + rewrite Ecl. intros c x Hc Hx. assert (c = 12) by lia. subst c. auto.
Qed.

(** ** From the shape of a change to facts about the allocated blocks *)

Lemma last_alloc_cons pa b bs : last_alloc pa (b :: bs) = last_alloc (snd b) bs.
Proof. destruct b. reflexivity. Qed.

Lemma nadj_true_pre pre : nadj true pre -> forall bs, nadj (last_alloc true pre) bs ->
  nadj true (pre ++ bs).
Proof. intros H bs Hb. apply nadj_app. split; assumption. Qed.

Lemma carved_facts bs bs' p aligned :
  sizes_ok bs -> nadj true bs -> carved bs bs' p aligned ->
  nadj true bs' /\ allocated_at bs bs' p aligned.
Proof.
  intros Hs Hadj (pre & bsz & post & new & -> & -> & -> & Hle & Hshape).
  apply nadj_app in Hadj. destruct Hadj as [Hpre Hadj]. cbn [app nadj] in Hadj.
  destruct Hadj as [Hpa Hpost].
  split.
  - apply nadj_app. split; [exact Hpre|].
    destruct Hshape as [(_ & ->)|(_ & ->)]; cbn [app nadj].
    + split; [auto|]. eapply nadj_last_true; eauto.
    + split; [auto|]. split; [discriminate|]. exact Hpost.
  - exists (if bsz - aligned <? 16 then bsz else aligned). split.
    + destruct Hshape as [(H & _)|(H & _)]; destruct (Z.ltb_spec (bsz - aligned) 16); lia.
    + intros x sz. rewrite !blocks_at_app.
      destruct Hshape as [(H & ->)|(H & ->)]; destruct (Z.ltb_spec (bsz - aligned) 16); try lia;
        cbn [total blocks_at app In]; rewrite !in_app_iff; cbn [In];
        replace (136 + total pre + (bsz + 0)) with (136 + total pre + bsz) by lia.
      * split; [intros [Hx|[Hx|Hx]]|intros [[-> ->]|[Hx|[Hx|Hx]]]]; auto.
        -- inversion Hx; subst. auto.
        -- inversion Hx.
      * replace (136 + total pre + (aligned + (bsz - aligned + 0)))
          with (136 + total pre + bsz) by lia.
        split; [intros [Hx|[Hx|[Hx|Hx]]]|intros [[-> ->]|[Hx|[Hx|Hx]]]]; auto.
        -- inversion Hx; subst. auto.
        -- inversion Hx.
        -- inversion Hx.
Qed.

Lemma grown_facts bs bs' p aligned :
  nadj true bs -> grown bs bs' p aligned ->
  nadj true bs' /\ allocated_at bs bs' p aligned.
Proof.
  intros Hadj (pre & old & new & T & -> & -> & -> & Hold & Hle & Hshape).
  apply nadj_app in Hadj. destruct Hadj as [Hpre Hadj].
  split.
  - apply nadj_app. split; [exact Hpre|].
    destruct Hshape as [(_ & ->)|(_ & ->)]; cbn [app nadj].
    + split; [|exact I]. destruct Hold as [->|(fsz & ->)]; cbn [nadj] in Hadj; tauto.
    + split; [|split; [discriminate | exact I]].
      destruct Hold as [->|(fsz & ->)]; cbn [nadj] in Hadj; tauto.
  - exists (if T - aligned <? 16 then T else aligned). split.
    + destruct Hshape as [(H & _)|(H & _)]; destruct (Z.ltb_spec (T - aligned) 16); lia.
    + intros x sz. rewrite !blocks_at_app, !in_app_iff.
      assert (Ho : In (x, sz, true) (blocks_at (136 + total pre) old) <-> False).
      { destruct Hold as [->|(fsz & ->)]; cbn [blocks_at In]; [tauto|].
        split; [intros [Hx|[]]; inversion Hx | tauto]. }
      rewrite Ho.
      destruct Hshape as [(H & ->)|(H & ->)]; destruct (Z.ltb_spec (T - aligned) 16); try lia;
        cbn [blocks_at In].
      * split; [intros [Hx|[Hx|[]]]|intros [[-> ->]|[Hx|[]]]]; auto.
        inversion Hx; subst. auto.
      * split; [intros [Hx|[Hx|[Hx|[]]]]|intros [[-> ->]|[Hx|[]]]]; auto.
        -- inversion Hx; subst. auto.
        -- inversion Hx.
Qed.

Lemma align_size_good size : good_size (align_size size) /\ align_size size < two32.
Proof.
  unfold align_size. destruct (Z.eqb_spec size 448).
  - unfold good_size, two32. lia.
  - pose proof (hdr_size_bound (wrap32 (wrap32 size + 11))) as Hb.
    pose proof (hdr_size_mult8 (wrap32 (wrap32 size + 11))) as H8.
    unfold hdr_size in *.
    destruct (Z.ltb_spec (Z.land (wrap32 (wrap32 size + 11)) NOT_7) 16);
      unfold good_size, two32 in *; lia.
Qed.

(** ** [extend_heap] *)

Lemma last_free_split bs :
  last_alloc true bs = false -> exists pre fsz, bs = pre ++ [(fsz, false)].
Proof.
  induction bs as [|[sz al] bs IH] using rev_ind; [discriminate|].
  rewrite last_alloc_app. cbn [last_alloc]. intros ->. exists bs, sz. reflexivity.
Qed.

Lemma hdr_is_sentinel_free m p : hdr_is (set_header p 1 m) p 0 true false.
Proof. apply (hdr_is_set_header m p 1). Qed.

Lemma hdr_is_sentinel_alloc m p : hdr_is (set_header p 3 m) p 0 true true.
Proof. apply (hdr_is_set_header m p 3). Qed.

Lemma nodes_below m hl bs L c y :
  rep m hl bs L -> 12 <= c <= 27 -> In y (L c) -> y + 16 <= hl.
Proof.
  intros H Hc Hy. pose proof (rep_sizes _ _ _ _ H) as Hs.
  pose proof (rep_total_bound _ _ _ _ H) as Hb.
  destruct (node_block bs L Hs Hb (rep_nodes _ _ _ _ H) c y Hc Hy)
    as (sz & _ & _ & _ & _ & He & [Hg _]).
  destruct (rep_heap _ _ _ _ H) as (_ & -> & _). lia.
Qed.

Lemma complete_replace_tail pre old new (L L' : lists) p :
  complete (pre ++ old) L -> p = 136 + total pre ->
  (forall x sz, In (x, sz, false) (blocks_at 136 pre) ->
                In x (L (class_of sz)) -> In x (L' (class_of sz))) ->
  (forall x sz, In (x, sz, false) (blocks_at p new) -> In x (L' (class_of sz))) ->
  complete (pre ++ new) L'.
Proof.
  intros Hc -> Hkeep Hnew x sz Hin.
  rewrite blocks_at_app in Hin. apply in_app_or in Hin. destruct Hin as [Hin|Hin].
  - apply Hkeep; auto. apply Hc. rewrite blocks_at_app. apply in_or_app. left. exact Hin.
  - apply Hnew. exact Hin.
Qed.

(** What [place] leaves on the lists. *)
Lemma place_lists_new (L1 L' : lists) bsz aligned new p x sz :
  (bsz - aligned < 16 /\ new = [(bsz, true)] /\ L' = L1) \/
  (16 <= bsz - aligned /\ new = [(aligned, true); (bsz - aligned, false)] /\
   L' = upd L1 (class_of (bsz - aligned)) (L1 (class_of (bsz - aligned)) ++ [p + aligned])) ->
  In (x, sz, false) (blocks_at p new) -> In x (L' (class_of sz)).
Proof.
  intros [(_ & -> & _)|(_ & -> & ->)] Hx; cbn [blocks_at In] in Hx.
  - destruct Hx as [Hx|[]]. inversion Hx.
  - destruct Hx as [Hx|[Hx|[]]]; inversion Hx; subst. apply in_upd_new.
Qed.

Lemma place_lists_keep (L1 L' : lists) bsz aligned new p c x :
  (bsz - aligned < 16 /\ new = [(bsz, true)] /\ L' = L1) \/
  (16 <= bsz - aligned /\ new = [(aligned, true); (bsz - aligned, false)] /\
   L' = upd L1 (class_of (bsz - aligned)) (L1 (class_of (bsz - aligned)) ++ [p + aligned])) ->
  In x (L1 c) -> In x (L' c).
Proof.
  intros [(_ & _ & ->)|(_ & _ & ->)] Hx; [exact Hx|]. apply in_upd_add. exact Hx.
Qed.

Lemma place_shape (L1 L' : lists) bsz aligned new p :
  (bsz - aligned < 16 /\ new = [(bsz, true)] /\ L' = L1) \/
  (16 <= bsz - aligned /\ new = [(aligned, true); (bsz - aligned, false)] /\
   L' = upd L1 (class_of (bsz - aligned)) (L1 (class_of (bsz - aligned)) ++ [p + aligned])) ->
  (bsz - aligned < 16 /\ new = [(bsz, true)]) \/
  (16 <= bsz - aligned /\ new = [(aligned, true); (bsz - aligned, false)]).
Proof. tauto. Qed.

Section Extend.
Variable sbrk_ok : Z -> Z -> bool.
Hypothesis sbrk_bound : forall brk n, sbrk_ok brk n = true -> brk + n < two32.

(** [extend_heap] never faults, and what it returns. *)
Lemma extend_heap_cases s bs L aligned :
  rep (heap_mem s) (heap_last_ptr s) bs L -> complete bs L -> nadj true bs ->
  good_size aligned -> aligned < two32 ->
  (forall x sz, In (x, sz, false) (blocks_at 136 bs) -> sz < aligned) ->
  match extend_heap sbrk_ok aligned s with
  | Some (Some p, s') =>
      exists bs' L', rep (heap_mem s') (heap_last_ptr s') bs' L' /\
                     complete bs' L' /\ grown bs bs' p aligned
  | Some (None, s') =>
      is_forward_allocated (heap_last_ptr s) (heap_mem s) = true -> s' = s
  | None => False
  end.
Proof using sbrk_bound.
  destruct s as [m hl]. cbn [heap_mem heap_last_ptr].
  intros H Hcomp Hadj [Hga16 Hga8] Hlt Hnofit.
  pose proof (rep_sizes _ _ _ _ H) as Hs.
  pose proof (rep_total_bound _ _ _ _ H) as Hb.
  pose proof (rep_heap _ _ _ _ H) as Hh.
  pose proof Hh as (Hseg & Hhl & Hsent).
  pose proof (total_nonneg _ Hs) as Ht0.
  pose proof (total_mult8 _ Hs) as Ht8.
  unfold extend_heap. cbn [heap_mem heap_last_ptr].
  change (Z.lor (Z.lor 0 ALLOCATED) FORWARD_FREE) with 1.
  destruct (is_forward_allocated hl m) eqn:Efa.
  - (* the last block is allocated *)
    assert (Hla : last_alloc true bs = true).
    { destruct Hsent as (_ & _ & Hf). congruence. }
    rewrite Hla in Hsent.
    set (ext := if aligned >? EXTEND_SIZE then aligned else EXTEND_SIZE) in *.
    assert (Hext : aligned <= ext /\ 4096 <= ext /\ ext mod 8 = 0 /\ ext <= two32).
    { unfold ext, EXTEND_SIZE. destruct (Z.gtb_spec aligned 4096); unfold two32 in *; lia. }
    destruct Hext as (Hea & He4 & He8 & He32).
    destruct (sbrk_ok hl ext) eqn:Esb; cbn [negb].
    2:{ intros _. reflexivity. }
    pose proof (sbrk_bound _ _ Esb) as Hnew.
    set (m1 := set_size hl ext m) in *.
    set (m2 := unset_allocated_flag hl m1) in *.
    set (m3 := set_header (hl + ext) 1 m2) in *.
    assert (H1 : hdr_is m1 hl ext true true).
    { eapply hdr_is_set_size; eauto. lia. }
    assert (F1 : read_word (hl + ext - 8) m1 = ext) by (apply footer_set_size; lia).
    assert (H2 : hdr_is m2 hl ext false true)
      by (eapply hdr_is_unset_allocated_flag; eauto).
    assert (Hrep3 : rep m3 (hl + ext) (bs ++ [(ext, false)] ++ []) L).
    { apply rep_replace_tail with (m := m) (hl := hl) (old := []) (p := hl); auto.
      - rewrite app_nil_r. exact H.
      - intros w Hw. unfold m3, m2, m1.
        rewrite set_header_frame, unset_allocated_flag_frame, set_size_frame by lia.
        reflexivity.
      - rewrite Hla. cbn [app seg]. split; [split; lia|]. split; [|exact I]. split.
        + apply hdr_is_frame with (m := m2); auto.
          intros w Hw. apply set_header_frame. lia.
        + intros _. transitivity (read_word (hl + ext - 8) m1); [|exact F1].
          apply read_word_ext. intros w Hw. unfold m3, m2.
          rewrite set_header_frame, unset_allocated_flag_frame by lia. reflexivity.
      - cbn [app total]. lia.
      - cbn [app last_alloc]. apply hdr_is_sentinel_free.
      - intros c y Hc Hy. pose proof (nodes_below _ _ _ _ _ _ H Hc Hy). lia. }
    assert (Hun : forall c, 12 <= c <= 27 -> ~ In (136 + total bs) (L c)).
    { intros c Hc Hy. pose proof (nodes_below _ _ _ _ _ _ H Hc Hy). lia. }
    destruct (place_spec _ _ _ _ _ _ aligned Hrep3 Hla Hun ltac:(split; lia) Hea)
      as (m' & new & L' & Hpl & Hrep' & Hshape).
    rewrite <- Hhl in Hpl. rewrite Hpl.
    cbn [heap_mem heap_last_ptr]. rewrite app_nil_r in *.
    exists (bs ++ new), L'.
    split; [exact Hrep'|]. split.
    + apply complete_replace_tail with (old := []) (L := L) (p := 136 + total bs); auto.
      * rewrite app_nil_r. exact Hcomp.
      * intros x sz _ Hx. eapply place_lists_keep; eauto.
      * intros x sz Hx. eapply place_lists_new; eauto.
    + exists bs, [], new, ext. rewrite app_nil_r.
      split; [reflexivity|]. split; [reflexivity|]. split; [exact Hhl|].
      split; [left; reflexivity|]. split; [lia|]. eapply place_shape; eauto.
  - (* the last block is free *)
    assert (Hla : last_alloc true bs = false).
    { destruct Hsent as (_ & _ & Hf). congruence. }
    destruct (last_free_split _ Hla) as (pre & fsz & Ebs). subst bs.
    assert (Hh' : heap_ok m hl (pre ++ [(fsz, false)] ++ [])) by exact Hh.
    destruct (heap_mid _ _ _ _ _ _ Hh') as ([Hf16 Hf8] & [Hfh Hff] & _ & _ & Hp0).
    rewrite total_app in Hhl, Hb. cbn [total] in Hhl, Hb.
    set (f := 136 + total pre) in *.
    assert (Hfoot : read_word (hl - 8) m = fsz).
    { replace (hl - 8) with (f + fsz - 8) by lia. auto. }
    assert (Hfwd : get_forward hl m = f).
    { unfold get_forward, WORD_SIZE. change (4 * 2) with 8. rewrite Hfoot. lia. }
    rewrite Hfwd.
    assert (Hinf : In (f, fsz, false) (blocks_at 136 (pre ++ [(fsz, false)])))
      by apply in_blocks_at_mid.
    pose proof (Hcomp _ _ Hinf) as Hfl.
    assert (Hcf : 12 <= class_of fsz <= 27) by (apply class_of_range; unfold two32 in *; lia).
    destruct (rep_unlink _ _ _ _ _ _ H Hcf Hfl) as (l1 & l2 & El & H1).
    set (m1 := delete_block f m) in *.
    set (L1 := upd L (class_of fsz) (l1 ++ l2)) in *.
    rewrite (block_size_read _ _ _ _ _ _ (rep_heap _ _ _ _ H1) Hinf).
    pose proof (Hnofit _ _ Hinf) as Hsmall.
    rewrite sub32_small by (unfold two32 in *; lia).
    set (ext := if aligned - fsz >? EXTEND_SIZE then aligned - fsz else EXTEND_SIZE) in *.
    assert (Hext : aligned - fsz <= ext /\ 4096 <= ext /\ ext mod 8 = 0 /\ ext <= two32).
    { unfold ext, EXTEND_SIZE. destruct (Z.gtb_spec (aligned - fsz) 4096); unfold two32 in *; lia. }
    destruct Hext as (Hea & He4 & He8 & He32).
    destruct (sbrk_ok hl ext) eqn:Esb; cbn [negb].
    2:{ intros Hc. congruence. }
    pose proof (sbrk_bound _ _ Esb) as Hnew.
    rewrite !add32_small by (unfold two32 in *; lia).
    replace (ext + fsz) with (fsz + ext) by lia.
    set (T := fsz + ext) in *.
    set (m2 := set_size f T m1) in *.
    set (m3 := set_header (hl + ext) 1 m2) in *.
    assert (Hpa : last_alloc true pre = true).
    { apply nadj_app in Hadj. destruct Hadj as [_ Hadj]. cbn [nadj] in Hadj.
      destruct (last_alloc true pre); [reflexivity|]. destruct Hadj as [Hadj _]. auto. }
    destruct (heap_mid _ _ _ _ _ _ (rep_heap _ _ _ _ H1 : heap_ok m1 hl (pre ++ [(fsz, false)] ++ [])))
      as (_ & [Hfh1 _] & _).
    fold f in Hfh1. rewrite Hpa in Hfh1.
    assert (H2 : hdr_is m2 f T false true).
    { eapply hdr_is_set_size; eauto; unfold T, two32 in *; lia. }
    assert (F2 : read_word (f + T - 8) m2 = T)
      by (apply footer_set_size; unfold T, two32 in *; lia).
    assert (Hnd : NoDup (L (class_of fsz))) by (apply (rep_lists _ _ _ _ H); auto).
    assert (Hun : forall c, 12 <= c <= 27 -> ~ In f (L1 c)).
    { intros c Hc. unfold L1. eapply not_in_upd_remove; eauto.
      intros D Hi. apply D.
      apply (node_class_unique _ L Hs (rep_nodes _ _ _ _ H) c (class_of fsz) f); auto. }
    assert (Hrep3 : rep m3 (hl + ext) (pre ++ [(T, false)] ++ []) L1).
    { apply rep_replace_tail with (m := m1) (hl := hl) (old := [(fsz, false)]) (p := f); auto.
      - intros w Hw. unfold m3, m2.
        rewrite set_header_frame, set_size_frame by (unfold T; lia). reflexivity.
      - rewrite Hpa. cbn [app seg]. split; [split; unfold T; lia|]. split; [|exact I]. split.
        + apply hdr_is_frame with (m := m2); auto.
          intros w Hw. apply set_header_frame. lia.
        + intros _. transitivity (read_word (f + T - 8) m2); [|exact F2].
          apply read_word_ext. intros w Hw. unfold m3.
          rewrite set_header_frame by (unfold T in *; lia). reflexivity.
      - cbn [app total]. unfold T. lia.
      - cbn [app last_alloc]. apply hdr_is_sentinel_free.
      - intros c y Hc Hy.
        pose proof (nodes_apart _ _ _ _ f fsz false H1 Hinf Hun c y Hc Hy).
        pose proof (nodes_below _ _ _ _ _ _ H1 Hc Hy). lia. }
    destruct (place_spec _ _ _ _ _ _ aligned Hrep3 Hpa Hun ltac:(split; lia) ltac:(unfold T; lia))
      as (m' & new & L' & Hpl & Hrep' & Hshape).
    fold f in Hpl. rewrite Hpl.
    cbn [heap_mem heap_last_ptr]. rewrite app_nil_r in *.
    exists (pre ++ new), L'.
    split; [exact Hrep'|]. split.
    + apply complete_replace_tail with (old := [(fsz, false)]) (L := L) (p := f); auto.
      * intros x sz Hx Hxl. eapply place_lists_keep; eauto.
        unfold L1. eapply in_upd_remove; eauto.
        apply sizes_ok_app in Hs as [Hs1 _].
        pose proof (in_blocks_at_range _ _ _ _ _ Hs1 Hx) as (? & ? & [? _] & _).
        unfold f. lia.
      * intros x sz Hx. eapply place_lists_new; eauto.
    + exists pre, [(fsz, false)], new, T.
      split; [reflexivity|]. split; [reflexivity|]. split; [reflexivity|].
      split; [right; eauto|]. split; [unfold T; lia|]. eapply place_shape; eauto.
Qed.

Lemma extend_heap_spec s bs L aligned r s' :
  rep (heap_mem s) (heap_last_ptr s) bs L -> complete bs L -> nadj true bs ->
  good_size aligned -> aligned < two32 ->
  (forall x sz, In (x, sz, false) (blocks_at 136 bs) -> sz < aligned) ->
  extend_heap sbrk_ok aligned s = Some (r, s') ->
  match r with
  | Some p =>
      exists bs' L', rep (heap_mem s') (heap_last_ptr s') bs' L' /\
                     complete bs' L' /\ grown bs bs' p aligned
  | None => is_forward_allocated (heap_last_ptr s) (heap_mem s) = true -> s' = s
  end.
Proof using sbrk_bound.
  intros H Hcomp Hadj Hga Hlt Hnofit Hr.
  pose proof (extend_heap_cases s bs L aligned H Hcomp Hadj Hga Hlt Hnofit) as Hc.
  rewrite Hr in Hc. destruct r; exact Hc.
Qed.

Lemma extend_heap_total s bs L aligned :
  rep (heap_mem s) (heap_last_ptr s) bs L -> complete bs L -> nadj true bs ->
  good_size aligned -> aligned < two32 ->
  (forall x sz, In (x, sz, false) (blocks_at 136 bs) -> sz < aligned) ->
  exists r s', extend_heap sbrk_ok aligned s = Some (r, s').
Proof using sbrk_bound.
  intros H Hcomp Hadj Hga Hlt Hnofit.
  pose proof (extend_heap_cases s bs L aligned H Hcomp Hadj Hga Hlt Hnofit) as Hc.
  destruct (extend_heap sbrk_ok aligned s) as [[r s']|]; [eauto|contradiction].
Qed.
End Extend.

(** ** [mm_malloc] *)

Section Malloc.
Variable sbrk_ok : Z -> Z -> bool.
Hypothesis sbrk_bound : forall brk n, sbrk_ok brk n = true -> brk + n < two32.

Lemma mm_malloc_spec s bs L fuel size r s' :
  rep (heap_mem s) (heap_last_ptr s) bs L -> complete bs L -> nadj true bs ->
  mm_malloc sbrk_ok fuel size s = Some (r, s') ->
  match r with
  | Some p =>
      exists bs' L', rep (heap_mem s') (heap_last_ptr s') bs' L' /\
                     complete bs' L' /\ nadj true bs' /\
                     allocated_at bs bs' p (align_size size)
  | None =>
      (size = 0 /\ s' = s) \/
      (size <> 0 /\
       (is_forward_allocated (heap_last_ptr s) (heap_mem s) = true -> s' = s))
  end.
Proof using sbrk_bound.
  intros H Hcomp Hadj Hr. unfold mm_malloc in Hr.
  destruct (Z.eqb_spec size 0) as [E0|N0].
  { injection Hr as <- <-. left. auto. }
  destruct (align_size_good size) as [Hga Hlt].
  pose proof (rep_sizes _ _ _ _ H) as Hs.
  destruct (find_fit_in_index_th_list fuel (align_size size)
              (get_index (align_size size)) (heap_mem s)) as [[r0 m0]|] eqn:Ef;
    [|discriminate].
  destruct (find_fit_spec _ _ _ _ _ _ _ _ H Hcomp Hadj Hga Hlt Ef)
    as [(-> & -> & Hnofit)|(p & bs' & L' & -> & Hrep' & Hc' & Hcv)].
  - assert (Es : with_mem s (heap_mem s) = s) by (destruct s; reflexivity).
    rewrite Es in Hr.
    pose proof (extend_heap_spec sbrk_ok sbrk_bound s bs L (align_size size) r s'
                  H Hcomp Hadj Hga Hlt Hnofit Hr) as Hext.
    destruct r as [p|].
    + destruct Hext as (bs' & L' & Hrep' & Hc' & Hg).
      destruct (grown_facts _ _ _ _ Hadj Hg) as [Hadj' Hal].
      exists bs', L'. auto.
    + right. auto.
  - injection Hr as <- <-. cbn [heap_mem heap_last_ptr with_mem].
    destruct (carved_facts _ _ _ _ Hs Hadj Hcv) as [Hadj' Hal].
    exists bs', L'. auto.
Qed.
End Malloc.

(** ** Building a free block over a run of blocks *)

Lemma nadj_next_alloc pa post : next_alloc post = true -> nadj pa post -> nadj false post.
Proof.
  destruct post as [|[sz al] post]; cbn [next_alloc nadj]; [auto|].
  intros -> [_ H]. auto.
Qed.

Lemma make_free m m' hl pre old post L f T :
  rep m hl (pre ++ old ++ post) L ->
  f = 136 + total pre -> T = total old -> 16 <= T ->
  last_alloc true pre = true ->
  (forall c y, 12 <= c <= 27 -> In y (L c) -> y < f \/ f + T <= y) ->
  (forall w, w < f - 4 \/ f + T <= w -> m' w = m w) ->
  hdr_is m' f T false true ->
  read_word (f + T - 8) m' = T ->
  hdr_is m' (f + T) (next_size post) (next_alloc post) false ->
  insert f T m' = Some (link_tail (sent (class_of T)) f m') /\
  rep (link_tail (sent (class_of T)) f m') hl (pre ++ [(T, false)] ++ post)
    (upd L (class_of T) (L (class_of T) ++ [f])).
Proof.
  intros H Ef ET HT Hpa Hout Hfr Hh Hft Hnext.
  pose proof (rep_sizes _ _ _ _ H) as Hs.
  assert (HT8 : T mod 8 = 0).
  { subst T. apply sizes_ok_app in Hs as [_ Hs]. apply sizes_ok_app in Hs as [Hs _].
    apply total_mult8. exact Hs. }
  assert (Hrep : rep m' hl (pre ++ [(T, false)] ++ post) L).
  { apply rep_replace with (m := m) (old := old) (p := f) (q := f + T); auto.
    - lia.
    - cbn [total]. lia.
    - rewrite Hpa. cbn [seg]. split; [split; assumption|]. split; [|exact I].
      split; [exact Hh|]. intros _. exact Hft. }
  assert (Hin : In (f, T, false) (blocks_at 136 (pre ++ [(T, false)] ++ post))).
  { subst f. apply in_blocks_at_mid. }
  apply rep_link; auto.
  intros Hy. assert (Hc : 12 <= class_of T <= 27).
  { apply class_of_range. pose proof (rep_total_bound _ _ _ _ Hrep) as Hb.
    rewrite !total_app in Hb. cbn [total] in Hb.
    pose proof (rep_sizes _ _ _ _ Hrep) as Hs'.
    apply sizes_ok_app in Hs' as [Hs1 Hs2]. apply sizes_ok_app in Hs2 as [_ Hs3].
    pose proof (total_nonneg _ Hs1). pose proof (total_nonneg _ Hs3). lia. }
  specialize (Hout _ _ Hc Hy). lia.
Qed.

(** ** [mm_free] *)

(** The writes that every branch of [mm_free] performs once the free
    neighbours are unlinked: resize the block at [f], clear its allocated
    flag when [f] is the freed block itself ([pa]), clear the successor's
    forward flag when the successor is allocated ([na]), and insert. *)
Lemma free_core m1 hl pre0 old post0 L1 f T (pa na a0 fw0 : bool) s0 :
  rep m1 hl (pre0 ++ old ++ post0) L1 ->
  f = 136 + total pre0 -> T = total old -> 16 <= T ->
  last_alloc true pre0 = true ->
  (forall c y, 12 <= c <= 27 -> In y (L1 c) -> y < f \/ f + T <= y) ->
  hdr_is m1 f s0 a0 true -> (pa = false -> a0 = false) ->
  hdr_is m1 (f + T) (next_size post0) (next_alloc post0) fw0 ->
  (na = false -> fw0 = false) ->
  let m2 := set_size f T m1 in
  let m3 := if pa then unset_allocated_flag f m2 else m2 in
  let m4 := if na then unset_forward_allocated_flag (f + T) m3 else m3 in
  insert f T m4 = Some (link_tail (sent (class_of T)) f m4) /\
  rep (link_tail (sent (class_of T)) f m4) hl (pre0 ++ [(T, false)] ++ post0)
    (upd L1 (class_of T) (L1 (class_of T) ++ [f])).
Proof.
  intros H Ef ET HT Hpa Hout Hh Ha0 Hn Hfw0 m2 m3 m4.
  pose proof (rep_sizes _ _ _ _ H) as Hs.
  pose proof (rep_total_bound _ _ _ _ H) as Hb.
  assert (HT8 : T mod 8 = 0).
  { subst T. apply sizes_ok_app in Hs as [_ Hs]. apply sizes_ok_app in Hs as [Hs _].
    apply total_mult8. exact Hs. }
  assert (HTlt : T < two32).
  { rewrite !total_app in Hb. apply sizes_ok_app in Hs as [Hs1 Hs2].
    apply sizes_ok_app in Hs2 as [_ Hs3].
    pose proof (total_nonneg _ Hs1). pose proof (total_nonneg _ Hs3). lia. }
  assert (H2 : hdr_is m2 f T a0 true) by (eapply hdr_is_set_size; eauto; lia).
  assert (F2 : read_word (f + T - 8) m2 = T) by (apply footer_set_size; lia).
  assert (N2 : hdr_is m2 (f + T) (next_size post0) (next_alloc post0) fw0).
  { apply hdr_is_frame with (m := m1); auto. intros w Hw. apply set_size_frame; lia. }
  assert (Fr2 : forall w, w < f - 4 \/ f + T - 4 <= w -> m2 w = m1 w).
  { intros w Hw. apply set_size_frame; lia. }
  assert (H3 : hdr_is m3 f T false true).
  { unfold m3. destruct pa.
    - eapply hdr_is_unset_allocated_flag; eauto.
    - rewrite Ha0 in H2 by reflexivity. exact H2. }
  assert (Fr3 : forall w, w < f - 4 \/ f <= w -> m3 w = m2 w).
  { intros w Hw. unfold m3. destruct pa; [|reflexivity].
    apply unset_allocated_flag_frame. lia. }
  assert (H4 : hdr_is m4 f T false true).
  { apply hdr_is_frame with (m := m3); auto. intros w Hw. unfold m4.
    destruct na; [|reflexivity]. apply unset_forward_allocated_flag_frame. lia. }
  assert (Fr4 : forall w, w < f + T - 4 \/ f + T <= w -> m4 w = m3 w).
  { intros w Hw. unfold m4. destruct na; [|reflexivity].
    apply unset_forward_allocated_flag_frame. lia. }
  assert (N4 : hdr_is m4 (f + T) (next_size post0) (next_alloc post0) false).
  { assert (N3 : hdr_is m3 (f + T) (next_size post0) (next_alloc post0) fw0).
    { apply hdr_is_frame with (m := m2); auto. intros w Hw. apply Fr3. lia. }
    unfold m4. destruct na.
    - eapply hdr_is_unset_forward_allocated_flag; eauto.
    - rewrite Hfw0 in N3 by reflexivity. exact N3. }
  apply make_free with (m := m1) (old := old); auto.
  - intros w Hw. rewrite Fr4, Fr3, Fr2 by lia. reflexivity.
  - transitivity (read_word (f + T - 8) m2); [|exact F2].
    apply read_word_ext. intros w Hw. rewrite Fr4, Fr3 by lia. reflexivity.
Qed.

(** The abstract effect of freeing the block at [p]. *)
Lemma freed_facts bs pre0 old post0 T p sz :
  sizes_ok bs -> bs = pre0 ++ old ++ post0 -> T = total old ->
  (forall x sz', In (x, sz', true) (blocks_at (136 + total pre0) old) <->
                 x = p /\ sz' = sz) ->
  136 + total pre0 <= p < 136 + total pre0 + T ->
  nadj true bs -> last_alloc true pre0 = true -> next_alloc post0 = true ->
  nadj true (pre0 ++ [(T, false)] ++ post0) /\
  forall x sz', In (x, sz', true) (blocks_at 136 (pre0 ++ [(T, false)] ++ post0)) <->
                In (x, sz', true) (blocks_at 136 bs) /\ x <> p.
Proof.
  intros Hs -> -> Hold Hp Hadj Hpa Hna.
  apply nadj_app in Hadj. destruct Hadj as [Hpre Hadj].
  apply nadj_app in Hadj. destruct Hadj as [_ Hpost].
  apply sizes_ok_app in Hs as [Hs1 Hs2]. apply sizes_ok_app in Hs2 as [Hs2 Hs3].
  split.
  - apply nadj_app. split; [exact Hpre|]. cbn [app nadj]. rewrite Hpa.
    split; [auto|]. eapply nadj_next_alloc; eauto.
  - intros x sz'. rewrite !blocks_at_app, !in_app_iff. cbn [blocks_at In total].
    replace (136 + total pre0 + (total old + 0)) with (136 + total pre0 + total old) by lia.
    rewrite Hold. split.
    + intros [Hx|[[Hx|[]]|Hx]].
      * split; [auto|].
        pose proof (in_blocks_at_range _ _ _ _ _ Hs1 Hx) as (? & ? & [? _] & _). lia.
      * inversion Hx.
      * split; [auto|].
        pose proof (in_blocks_at_range _ _ _ _ _ Hs3 Hx) as (? & _). lia.
    + intros [[Hx|[[-> _]|Hx]] D]; auto; contradiction.
Qed.

Lemma first_free_split post :
  next_alloc post = false -> exists nsz post', post = (nsz, false) :: post'.
Proof.
  destruct post as [|[nsz al] post']; cbn [next_alloc]; [discriminate|].
  intros ->. eauto.
Qed.

Lemma nadj_pre_alloc pre sz rest : nadj true (pre ++ (sz, false) :: rest) ->
  last_alloc true pre = true.
Proof.
  intros H. apply nadj_app in H. destruct H as [_ H]. cbn [nadj] in H.
  destruct (last_alloc true pre); [reflexivity|]. destruct H as [H _]. auto.
Qed.

Lemma nadj_post_alloc pre sz post : nadj true (pre ++ (sz, false) :: post) ->
  next_alloc post = true.
Proof.
  intros H. apply nadj_app in H. destruct H as [_ H]. cbn [nadj] in H.
  destruct H as [_ H]. destruct post as [|[s a] post]; [reflexivity|].
  cbn [nadj next_alloc] in *. destruct H as [H _]. auto.
Qed.

(** [mm_free] on a heap whose lists hold the free blocks that satisfy [P],
    the free neighbours of the block among them. *)
Lemma mm_free_gen (P : Z -> Prop) s bs L p sz :
  rep (heap_mem s) (heap_last_ptr s) bs L -> complete_on P bs L -> nadj true bs ->
  In (p, sz, true) (blocks_at 136 bs) ->
  (forall x sz', In (x, sz', false) (blocks_at 136 bs) -> x < p \/ x = p + sz -> P x) ->
  exists s' bs' L',
    mm_free (Some p) s = Some s' /\ heap_last_ptr s' = heap_last_ptr s /\
    rep (heap_mem s') (heap_last_ptr s') bs' L' /\ complete_on P bs' L' /\
    nadj true bs' /\
    forall x sz', In (x, sz', true) (blocks_at 136 bs') <->
                  In (x, sz', true) (blocks_at 136 bs) /\ x <> p.
Proof.
  destruct s as [m hl]. cbn [heap_mem heap_last_ptr].
  intros H Hcomp Hadj Hin HPn.
  pose proof (rep_sizes _ _ _ _ H) as Hs.
  pose proof (rep_total_bound _ _ _ _ H) as Hb.
  destruct (in_blocks_at_split _ _ _ _ _ Hin) as (pre & post & Ebs & Ep).
  assert (Ebs' : bs = pre ++ [(sz, true)] ++ post) by exact Ebs. clear Ebs.
  subst bs.
  destruct (heap_mid _ _ _ _ _ _ (rep_heap _ _ _ _ H))
    as ([Hg16 Hg8] & [Hh _] & Hnext & Hend & Hp0).
  rewrite <- Ep in Hh, Hnext, Hend.
  assert (Hback : get_back p m = p + sz).
  { unfold get_back. destruct Hh as (-> & _). reflexivity. }
  assert (Hfa : is_forward_allocated p m = last_alloc true pre) by apply Hh.
  assert (Hba : is_allocated (p + sz) m = next_alloc post) by apply Hnext.
  assert (Hgs : get_size p m = sz) by apply Hh.
  assert (Hnp : forall c, 12 <= c <= 27 -> ~ In p (L c)).
  { eapply alloc_not_node; eauto. }
  pose proof (rep_bound _ _ _ _ H) as Hbd.
  unfold mm_free. cbn [heap_mem]. rewrite Hback, Hfa, Hba.
  destruct (last_alloc true pre) eqn:Epa; destruct (next_alloc post) eqn:Ena;
    cbn [andb negb].
  - (* both neighbours allocated *)
    rewrite Hgs.
    assert (Hout : forall c y, 12 <= c <= 27 -> In y (L c) -> y < p \/ p + sz <= y).
    { intros c y Hc Hy. eapply nodes_apart; eauto. }
    assert (ET : sz = total [(sz, true)]) by (cbn [total]; lia).
    pose proof (free_core m hl pre [(sz, true)] post L p sz true true true true sz
                  H Ep ET Hg16 Epa Hout Hh ltac:(discriminate)
                  ltac:(rewrite Ena; exact Hnext) ltac:(discriminate)) as [Hins Hrep].
    + cbv zeta iota in Hins, Hrep. rewrite Hins. cbn [option_map with_mem heap_mem heap_last_ptr].
      eexists _, _, _. split; [reflexivity|]. split; [reflexivity|].
      cbn [heap_mem heap_last_ptr]. split; [exact Hrep|]. split.
      * eapply complete_on_replace with (old := [(sz, true)]) (L := L); eauto.
        -- intros x sz' _ _ Hx. apply in_upd_add. exact Hx.
        -- intros x sz' Hx. cbn [blocks_at In] in Hx. destruct Hx as [Hx|[]].
           injection Hx as <- <-. apply in_upd_new.
      * apply freed_facts with (old := [(sz, true)]) (sz := sz);
          [exact Hs | reflexivity | exact ET | | lia | exact Hadj | exact Epa | exact Ena].
        intros x sz'. cbn [blocks_at In]. rewrite <- Ep. split.
        -- intros [Hx|[]]. inversion Hx. auto.
        -- intros [-> ->]. auto.
  - (* successor free *)
    destruct (first_free_split _ Ena) as (nsz & post' & ->).
    cbn [next_alloc next_size] in *.
    assert (Hinb : In (p + sz, nsz, false)
                     (blocks_at 136 (pre ++ [(sz, true)] ++ (nsz, false) :: post'))).
    { replace (pre ++ [(sz, true)] ++ (nsz, false) :: post')
        with ((pre ++ [(sz, true)]) ++ (nsz, false) :: post')
        by (rewrite <- app_assoc; reflexivity).
      replace (p + sz) with (136 + total (pre ++ [(sz, true)]))
        by (rewrite total_app; cbn [total]; lia).
      apply in_blocks_at_mid. }
    pose proof (Hcomp _ _ Hinb (HPn _ _ Hinb ltac:(right; reflexivity))) as Hbl.
    destruct (block_node _ Hs Hb _ _ _ Hinb) as (_ & _ & Hbe & [Hn16 Hn8] & Hnlt).
    assert (Hcn : 12 <= class_of nsz <= 27) by (apply class_of_range; lia).
    destruct (rep_unlink _ _ _ _ _ _ H Hcn Hbl) as (l1 & l2 & El & H1).
    set (m1 := delete_block (p + sz) m) in *.
    set (L1 := upd L (class_of nsz) (l1 ++ l2)) in *.
    rewrite (block_size_read _ _ _ _ _ _ (rep_heap _ _ _ _ H1) Hin).
    rewrite (block_size_read _ _ _ _ _ _ (rep_heap _ _ _ _ H1) Hinb).
    rewrite add32_small by lia.
    assert (Hnd : NoDup (L (class_of nsz))) by (apply (rep_lists _ _ _ _ H); auto).
    assert (Hunb : forall c, 12 <= c <= 27 -> ~ In (p + sz) (L1 c)).
    { intros c Hc. unfold L1. eapply not_in_upd_remove; eauto.
      intros D Hi. apply D.
      apply (node_class_unique _ L Hs (rep_nodes _ _ _ _ H) c (class_of nsz) (p + sz)); auto. }
    assert (Hnp1 : forall c, 12 <= c <= 27 -> ~ In p (L1 c)).
    { eapply alloc_not_node; eauto. }
    assert (H1' : rep m1 hl (pre ++ [(sz, true); (nsz, false)] ++ post') L1) by exact H1.
    destruct (heap_mid _ _ _ _ _ _ (rep_heap _ _ _ _ H1)) as (_ & [Hh1 _] & _).
    rewrite <- Ep, Epa in Hh1.
    assert (Hn1 : hdr_is m1 (p + (sz + nsz)) (next_size post') (next_alloc post') false).
    { pose proof (rep_heap _ _ _ _ H1) as Hh1'.
      replace (pre ++ [(sz, true)] ++ (nsz, false) :: post')
        with ((pre ++ [(sz, true); (nsz, false)]) ++ post') in Hh1'
        by (rewrite <- app_assoc; reflexivity).
      apply heap_next_hdr in Hh1'. rewrite total_app, last_alloc_app in Hh1'.
      cbn [total last_alloc] in Hh1'.
      replace (136 + (total pre + (sz + (nsz + 0)))) with (p + (sz + nsz)) in Hh1' by lia.
      exact Hh1'. }
    assert (Hout : forall c y, 12 <= c <= 27 -> In y (L1 c) -> y < p \/ p + (sz + nsz) <= y).
    { intros c y Hc Hy.
      pose proof (nodes_apart _ _ _ _ _ _ _ H1 Hin Hnp1 c y Hc Hy).
      pose proof (nodes_apart _ _ _ _ _ _ _ H1 Hinb Hunb c y Hc Hy). lia. }
    assert (ET : sz + nsz = total [(sz, true); (nsz, false)]) by (cbn [total]; lia).
    pose proof (free_core m1 hl pre [(sz, true); (nsz, false)] post' L1 p (sz + nsz)
                  true false true false sz
                  H1' Ep ET ltac:(lia) Epa Hout Hh1 ltac:(discriminate)
                  Hn1 ltac:(reflexivity)) as [Hins Hrep].
    + cbv zeta iota in Hins, Hrep. rewrite Hins. cbn [option_map with_mem heap_mem heap_last_ptr].
      eexists _, _, _. split; [reflexivity|]. split; [reflexivity|].
      cbn [heap_mem heap_last_ptr]. split; [exact Hrep|]. split.
      * eapply complete_on_replace with (old := [(sz, true); (nsz, false)]) (L := L); eauto.
        -- cbn [total]. lia.
        -- intros x sz' _ Hx Hxl. cbn [total] in Hx. apply in_upd_add.
           unfold L1. eapply in_upd_remove; eauto. lia.
        -- intros x sz' Hx. cbn [blocks_at In] in Hx. destruct Hx as [Hx|[]].
           injection Hx as <- <-. apply in_upd_new.
      * apply freed_facts with (old := [(sz, true); (nsz, false)]) (sz := sz);
          [exact Hs | reflexivity | exact ET | | lia | exact Hadj | exact Epa | ].
        -- intros x sz'. cbn [blocks_at In]. rewrite <- Ep. split.
           ++ intros [Hx|[Hx|[]]]; inversion Hx. auto.
           ++ intros [-> ->]. auto.
        -- eapply nadj_post_alloc with (pre := pre ++ [(sz, true)]).
           rewrite <- app_assoc. exact Hadj.
  - (* predecessor free *)
    destruct (last_free_split _ Epa) as (pre' & fsz & ->).
    rewrite total_app in Ep. cbn [total] in Ep.
    set (f := 136 + total pre') in *.
    assert (Ebs : (pre' ++ [(fsz, false)]) ++ [(sz, true)] ++ post
                  = pre' ++ [(fsz, false)] ++ ((sz, true) :: post))
      by (rewrite <- app_assoc; reflexivity).
    rewrite Ebs in *.
    destruct (heap_mid _ _ _ _ _ _ (rep_heap _ _ _ _ H))
      as ([Hf16 Hf8] & [_ Hff] & _ & _ & Hp0').
    fold f in Hff.
    assert (Hfwd : get_forward p m = f).
    { unfold get_forward, WORD_SIZE. change (4 * 2) with 8.
      replace (p - 8) with (f + fsz - 8) by lia. rewrite Hff by reflexivity. lia. }
    rewrite Hfwd.
    assert (Hinf : In (f, fsz, false)
                     (blocks_at 136 (pre' ++ [(fsz, false)] ++ (sz, true) :: post)))
      by apply in_blocks_at_mid.
    pose proof (Hcomp _ _ Hinf (HPn _ _ Hinf ltac:(left; lia))) as Hfl.
    destruct (block_node _ Hs Hb _ _ _ Hinf) as (_ & _ & _ & _ & Hflt).
    assert (Hcf : 12 <= class_of fsz <= 27) by (apply class_of_range; lia).
    destruct (rep_unlink _ _ _ _ _ _ H Hcf Hfl) as (l1 & l2 & El & H1).
    set (m1 := delete_block f m) in *.
    set (L1 := upd L (class_of fsz) (l1 ++ l2)) in *.
    rewrite (block_size_read _ _ _ _ _ _ (rep_heap _ _ _ _ H1) Hin).
    rewrite (block_size_read _ _ _ _ _ _ (rep_heap _ _ _ _ H1) Hinf).
    rewrite add32_small by lia.
    assert (Hnd : NoDup (L (class_of fsz))) by (apply (rep_lists _ _ _ _ H); auto).
    assert (Hunf : forall c, 12 <= c <= 27 -> ~ In f (L1 c)).
    { intros c Hc. unfold L1. eapply not_in_upd_remove; eauto.
      intros D Hi. apply D.
      apply (node_class_unique _ L Hs (rep_nodes _ _ _ _ H) c (class_of fsz) f); auto. }
    assert (Hnp1 : forall c, 12 <= c <= 27 -> ~ In p (L1 c)).
    { eapply alloc_not_node; eauto. }
    assert (Hpa' : last_alloc true pre' = true) by (eapply nadj_pre_alloc; eauto).
    destruct (heap_mid _ _ _ _ _ _ (rep_heap _ _ _ _ H1)) as (_ & [Hh1 _] & _).
    fold f in Hh1. rewrite Hpa' in Hh1.
    assert (H1' : rep m1 hl (pre' ++ [(fsz, false); (sz, true)] ++ post) L1) by exact H1.
    assert (Hn1 : hdr_is m1 (f + (fsz + sz)) (next_size post) (next_alloc post) true).
    { pose proof (rep_heap _ _ _ _ H1) as Hh1'.
      replace (pre' ++ [(fsz, false)] ++ (sz, true) :: post)
        with ((pre' ++ [(fsz, false); (sz, true)]) ++ post) in Hh1'
        by (rewrite <- app_assoc; reflexivity).
      apply heap_next_hdr in Hh1'. rewrite total_app, last_alloc_app in Hh1'.
      cbn [total last_alloc] in Hh1'.
      replace (136 + (total pre' + (fsz + (sz + 0)))) with (f + (fsz + sz)) in Hh1'
        by (unfold f; lia).
      exact Hh1'. }
    assert (Hout : forall c y, 12 <= c <= 27 -> In y (L1 c) -> y < f \/ f + (fsz + sz) <= y).
    { intros c y Hc Hy.
      pose proof (nodes_apart _ _ _ _ _ _ _ H1 Hin Hnp1 c y Hc Hy).
      pose proof (nodes_apart _ _ _ _ _ _ _ H1 Hinf Hunf c y Hc Hy). lia. }
    assert (ET : fsz + sz = total [(fsz, false); (sz, true)]) by (cbn [total]; lia).
    pose proof (free_core m1 hl pre' [(fsz, false); (sz, true)] post L1 f (fsz + sz)
                  false true false true fsz
                  H1' eq_refl ET ltac:(lia) Hpa' Hout Hh1 ltac:(reflexivity)
                  Hn1 ltac:(discriminate)) as [Hins Hrep].
    cbv zeta iota in Hins, Hrep.
    replace (p + sz) with (f + (fsz + sz)) by lia.
    rewrite Hins. cbn [option_map with_mem heap_mem heap_last_ptr].
    eexists _, _, _. split; [reflexivity|]. split; [reflexivity|].
    cbn [heap_mem heap_last_ptr]. split; [exact Hrep|]. split.
    + eapply complete_on_replace with (old := [(fsz, false); (sz, true)]) (L := L)
        (p := f); eauto.
      * cbn [total]. lia.
      * intros x sz' _ Hx Hxl. cbn [total] in Hx. apply in_upd_add.
        unfold L1. eapply in_upd_remove; eauto. lia.
      * intros x sz' Hx. cbn [blocks_at In] in Hx. destruct Hx as [Hx|[]].
        injection Hx as <- <-. apply in_upd_new.
    + apply freed_facts with (old := [(fsz, false); (sz, true)]) (sz := sz);
        [exact Hs | reflexivity | exact ET | | fold f; lia | exact Hadj | exact Hpa' | exact Ena].
      intros x sz'. cbn [blocks_at In]. fold f. split.
      * intros [Hx|[Hx|[]]]; inversion Hx. split; [lia | reflexivity].
      * intros [-> ->]. right. left. f_equal. f_equal. lia.
  - (* both neighbours free *)
    destruct (last_free_split _ Epa) as (pre' & fsz & ->).
    destruct (first_free_split _ Ena) as (nsz & post' & ->).
    cbn [next_alloc next_size] in *.
    rewrite total_app in Ep. cbn [total] in Ep.
    set (f := 136 + total pre') in *.
    assert (Ebs : (pre' ++ [(fsz, false)]) ++ [(sz, true)] ++ (nsz, false) :: post'
                  = pre' ++ [(fsz, false)] ++ ((sz, true) :: (nsz, false) :: post'))
      by (rewrite <- app_assoc; reflexivity).
    rewrite Ebs in *.
    destruct (heap_mid _ _ _ _ _ _ (rep_heap _ _ _ _ H))
      as ([Hf16 Hf8] & [_ Hff] & _ & _ & Hp0').
    fold f in Hff.
    assert (Hfwd : get_forward p m = f).
    { unfold get_forward, WORD_SIZE. change (4 * 2) with 8.
      replace (p - 8) with (f + fsz - 8) by lia. rewrite Hff by reflexivity. lia. }
    rewrite Hfwd.
    assert (Hinf : In (f, fsz, false)
                     (blocks_at 136 (pre' ++ [(fsz, false)] ++ (sz, true) :: (nsz, false) :: post')))
      by apply in_blocks_at_mid.
    assert (Hinb : In (p + sz, nsz, false)
                     (blocks_at 136 (pre' ++ [(fsz, false)] ++ (sz, true) :: (nsz, false) :: post'))).
    { replace (pre' ++ [(fsz, false)] ++ (sz, true) :: (nsz, false) :: post')
        with ((pre' ++ [(fsz, false); (sz, true)]) ++ (nsz, false) :: post')
        by (rewrite <- app_assoc; reflexivity).
      replace (p + sz) with (136 + total (pre' ++ [(fsz, false); (sz, true)]))
        by (rewrite total_app; cbn [total]; unfold f in Ep; lia).
      apply in_blocks_at_mid. }
    pose proof (Hcomp _ _ Hinf (HPn _ _ Hinf ltac:(left; lia))) as Hfl.
    pose proof (Hcomp _ _ Hinb (HPn _ _ Hinb ltac:(right; reflexivity))) as Hbl.
    destruct (block_node _ Hs Hb _ _ _ Hinf) as (_ & _ & _ & _ & Hflt).
    destruct (block_node _ Hs Hb _ _ _ Hinb) as (_ & _ & Hbe & [Hn16 Hn8] & Hnlt).
    assert (Hcf : 12 <= class_of fsz <= 27) by (apply class_of_range; lia).
    assert (Hcn : 12 <= class_of nsz <= 27) by (apply class_of_range; lia).
    destruct (rep_unlink _ _ _ _ _ _ H Hcf Hfl) as (l1 & l2 & El & H1).
    set (m1 := delete_block f m) in *.
    set (L1 := upd L (class_of fsz) (l1 ++ l2)) in *.
    assert (Hbl1 : In (p + sz) (L1 (class_of nsz))).
    { unfold L1. eapply in_upd_remove; eauto. lia. }
    destruct (rep_unlink _ _ _ _ _ _ H1 Hcn Hbl1) as (l3 & l4 & El1 & H2).
    set (m2 := delete_block (p + sz) m1) in *.
    set (L2 := upd L1 (class_of nsz) (l3 ++ l4)) in *.
    rewrite (block_size_read _ _ _ _ _ _ (rep_heap _ _ _ _ H2) Hin).
    rewrite (block_size_read _ _ _ _ _ _ (rep_heap _ _ _ _ H2) Hinf).
    rewrite (block_size_read _ _ _ _ _ _ (rep_heap _ _ _ _ H2) Hinb).
    rewrite !add32_small by (try rewrite add32_small by lia; lia).
    assert (Hnd : NoDup (L (class_of fsz))) by (apply (rep_lists _ _ _ _ H); auto).
    assert (Hnd1 : NoDup (L1 (class_of nsz))) by (apply (rep_lists _ _ _ _ H1); auto).
    assert (Hunf1 : forall c, 12 <= c <= 27 -> ~ In f (L1 c)).
    { intros c Hc. unfold L1. eapply not_in_upd_remove; eauto.
      intros D Hi. apply D.
      apply (node_class_unique _ L Hs (rep_nodes _ _ _ _ H) c (class_of fsz) f); auto. }
    assert (Hunf : forall c, 12 <= c <= 27 -> ~ In f (L2 c)).
    { intros c Hc Hi. apply (Hunf1 c Hc). unfold L2, upd in Hi.
      destruct (Z.eqb_spec c (class_of nsz)) as [->|D]; [|exact Hi].
      rewrite El1. apply in_app_or in Hi. apply in_or_app. simpl. tauto. }
    assert (Hunb : forall c, 12 <= c <= 27 -> ~ In (p + sz) (L2 c)).
    { intros c Hc. unfold L2. eapply not_in_upd_remove; eauto.
      intros D Hi. apply D.
      apply (node_class_unique _ L1 Hs (rep_nodes _ _ _ _ H1) c (class_of nsz) (p + sz)); auto. }
    assert (Hnp2 : forall c, 12 <= c <= 27 -> ~ In p (L2 c)).
    { eapply alloc_not_node; eauto. }
    assert (Hpa' : last_alloc true pre' = true) by (eapply nadj_pre_alloc; eauto).
    destruct (heap_mid _ _ _ _ _ _ (rep_heap _ _ _ _ H2)) as (_ & [Hh2 _] & _).
    fold f in Hh2. rewrite Hpa' in Hh2.
    assert (H2' : rep m2 hl (pre' ++ [(fsz, false); (sz, true); (nsz, false)] ++ post') L2)
      by exact H2.
    assert (Hn2 : hdr_is m2 (f + (fsz + sz + nsz)) (next_size post') (next_alloc post') false).
    { pose proof (rep_heap _ _ _ _ H2) as Hh2'.
      replace (pre' ++ [(fsz, false)] ++ (sz, true) :: (nsz, false) :: post')
        with ((pre' ++ [(fsz, false); (sz, true); (nsz, false)]) ++ post') in Hh2'
        by (rewrite <- app_assoc; reflexivity).
      apply heap_next_hdr in Hh2'. rewrite total_app, last_alloc_app in Hh2'.
      cbn [total last_alloc] in Hh2'.
      replace (136 + (total pre' + (fsz + (sz + (nsz + 0))))) with (f + (fsz + sz + nsz))
        in Hh2' by (unfold f; lia).
      exact Hh2'. }
    assert (Hout : forall c y, 12 <= c <= 27 -> In y (L2 c) ->
                               y < f \/ f + (fsz + sz + nsz) <= y).
    { intros c y Hc Hy.
      pose proof (nodes_apart _ _ _ _ _ _ _ H2 Hin Hnp2 c y Hc Hy).
      pose proof (nodes_apart _ _ _ _ _ _ _ H2 Hinf Hunf c y Hc Hy).
      pose proof (nodes_apart _ _ _ _ _ _ _ H2 Hinb Hunb c y Hc Hy). lia. }
    assert (ET : fsz + sz + nsz = total [(fsz, false); (sz, true); (nsz, false)])
      by (cbn [total]; lia).
    pose proof (free_core m2 hl pre' [(fsz, false); (sz, true); (nsz, false)] post' L2 f
                  (fsz + sz + nsz) false false false false fsz
                  H2' eq_refl ET ltac:(lia) Hpa' Hout Hh2 ltac:(reflexivity)
                  Hn2 ltac:(reflexivity)) as [Hins Hrep].
    cbv zeta iota in Hins, Hrep.
    rewrite Hins. cbn [option_map with_mem heap_mem heap_last_ptr].
    eexists _, _, _. split; [reflexivity|]. split; [reflexivity|].
    cbn [heap_mem heap_last_ptr]. split; [exact Hrep|]. split.
    + eapply complete_on_replace with (old := [(fsz, false); (sz, true); (nsz, false)]) (L := L)
        (p := f); eauto.
      * cbn [total]. lia.
      * intros x sz' _ Hx Hxl. cbn [total] in Hx. apply in_upd_add.
        unfold L2. eapply in_upd_remove; eauto; [|lia].
        unfold L1. eapply in_upd_remove; eauto. lia.
      * intros x sz' Hx. cbn [blocks_at In] in Hx. destruct Hx as [Hx|[]].
        injection Hx as <- <-. apply in_upd_new.
    + apply freed_facts with (old := [(fsz, false); (sz, true); (nsz, false)]) (sz := sz);
        [exact Hs | reflexivity | exact ET | | fold f; lia | exact Hadj | exact Hpa' | ].
      * intros x sz'. cbn [blocks_at In]. fold f. split.
        -- intros [Hx|[Hx|[Hx|[]]]]; inversion Hx. split; [lia | reflexivity].
        -- intros [-> ->]. right. left. f_equal. f_equal. lia.
      * eapply nadj_post_alloc with (pre := pre' ++ [(fsz, false); (sz, true)]).
        rewrite <- app_assoc. exact Hadj.
Qed.

Lemma mm_free_spec s bs L p sz :
  rep (heap_mem s) (heap_last_ptr s) bs L -> complete bs L -> nadj true bs ->
  In (p, sz, true) (blocks_at 136 bs) ->
  exists s' bs' L',
    mm_free (Some p) s = Some s' /\ heap_last_ptr s' = heap_last_ptr s /\
    rep (heap_mem s') (heap_last_ptr s') bs' L' /\ complete bs' L' /\
    nadj true bs' /\
    forall x sz', In (x, sz', true) (blocks_at 136 bs') <->
                  In (x, sz', true) (blocks_at 136 bs) /\ x <> p.
Proof.
  intros H Hcomp Hadj Hin.
  destruct (mm_free_gen (fun _ => True) s bs L p sz H) as
    (s' & bs' & L' & E & Ehl & H' & Hc' & Ha' & Hal); auto.
  - intros x sz' Hx _. apply Hcomp. exact Hx.
  - exists s', bs', L'. split; [exact E|]. split; [exact Ehl|]. split; [exact H'|].
    split; [|split; [exact Ha'|exact Hal]].
    intros x sz' Hx. apply (Hc' x sz' Hx I).
Qed.

(** ** Regions free of list nodes *)

Lemma apart_of_region pre old post L f T :
  sizes_ok (pre ++ old ++ post) -> nodes_in (pre ++ old ++ post) L ->
  f = 136 + total pre -> T = total old ->
  (forall c y, 12 <= c <= 27 -> In y (L c) -> y < f \/ f + T <= y) ->
  apart L (f - 4) (f + T).
Proof.
  intros Hs Hn -> -> Hout c y Hc Hy.
  pose proof Hs as Hs'. apply sizes_ok_app in Hs' as [Hs1 Hs23].
  pose proof (total_nonneg _ Hs1).
  destruct Hy as [<-|Hy].
  - pose proof (sent_node c Hc). lia.
  - destruct (Hout c y Hc Hy) as [Hlt|Hge]; [|lia].
    destruct (Hn c y Hc Hy) as (sz & Hin & _).
    rewrite blocks_at_app in Hin. apply in_app_or in Hin. destruct Hin as [Hin|Hin].
    + pose proof (in_blocks_at_range _ _ _ _ _ Hs1 Hin) as (? & ? & [? _] & _). lia.
    + pose proof (in_blocks_at_range _ _ _ _ _ Hs23 Hin) as (? & _). lia.
Qed.

Lemma apart_sub (L : lists) lo hi lo' hi' :
  apart L lo hi -> lo <= lo' -> hi' <= hi -> apart L lo' hi'.
Proof. intros H H1 H2 c y Hc Hy. specialize (H c y Hc Hy). lia. Qed.

Lemma apart_upd_remove (L : lists) c l1 x l2 lo hi :
  apart L lo hi -> L c = l1 ++ x :: l2 -> apart (upd L c (l1 ++ l2)) lo hi.
Proof.
  intros H E c' y Hc' Hy. apply (H c' y Hc'). destruct Hy as [Hy|Hy]; [left; exact Hy|].
  right. unfold upd in Hy. destruct (Z.eqb_spec c' c) as [->|D]; [|exact Hy].
  rewrite E. apply in_app_or in Hy. apply in_or_app. simpl. tauto.
Qed.

Lemma lists_frame_apart m m' L lo hi :
  lists_ok m L -> apart L lo hi ->
  (forall w, w < lo \/ hi <= w -> m' w = m w) -> lists_ok m' L.
Proof.
  intros H Ha Hf. apply lists_frame with (m := m); auto.
  intros c y w Hc Hy Hw. apply Hf. specialize (Ha c y Hc Hy). lia.
Qed.

Lemma apart_nodes (L : lists) lo hi c w :
  apart L lo hi -> 12 <= c <= 27 -> lo <= w < hi ->
  forall y, In y (sent c :: L c) -> w < y \/ y + 8 <= w.
Proof. intros H Hc Hw y Hy. specialize (H c y Hc Hy). lia. Qed.

Lemma sizes_ok_replace pre old new post :
  sizes_ok (pre ++ old ++ post) -> sizes_ok new -> sizes_ok (pre ++ new ++ post).
Proof.
  intros H Hn. apply sizes_ok_app in H as [H1 H2]. apply sizes_ok_app in H2 as [_ H3].
  apply sizes_ok_app. split; [exact H1|]. apply sizes_ok_app. split; assumption.
Qed.

(** The header after a run is a metadata byte of the chain, or the
    sentinel header. *)
Lemma next_header_meta pre new post w :
  sizes_ok (pre ++ new ++ post) ->
  136 + total pre + total new - 4 <= w < 136 + total pre + total new ->
  meta 136 (pre ++ new ++ post) w \/ 136 + total (pre ++ new ++ post) - 4 <= w.
Proof.
  intros Hs Hw. apply sizes_ok_app in Hs as [_ Hs]. apply sizes_ok_app in Hs as [_ Hs3].
  destruct post as [|[sz al] post].
  - right. rewrite !total_app. cbn [total]. lia.
  - left. apply meta_app. right. apply meta_app. right. cbn [meta]. left. lia.
Qed.

Lemma rep_ext m m' hl bs L : rep m hl bs L -> (forall w, m' w = m w) -> rep m' hl bs L.
Proof.
  intros [Hh Hb Hl Hn] He. constructor; auto.
  - eapply heap_ok_frame; eauto.
  - eapply lists_frame; eauto.
Qed.

(** The abstract effect of a change that keeps the allocated pointers. *)
Lemma resized_facts pre old new post p :
  sizes_ok (pre ++ old ++ post) ->
  total new = total old ->
  (forall x, (exists sz, In (x, sz, true) (blocks_at (136 + total pre) new)) <-> x = p) ->
  (forall x, (exists sz, In (x, sz, true) (blocks_at (136 + total pre) old)) <-> x = p) ->
  same_allocs (pre ++ old ++ post) (pre ++ new ++ post).
Proof.
  intros Hs Ht Hnew Hold x.
  split; intros (sz & Hin); rewrite !blocks_at_app, !in_app_iff in Hin;
    rewrite ?Ht in Hin.
  - destruct Hin as [Hin|[Hin|Hin]].
    + exists sz. rewrite !blocks_at_app, !in_app_iff. auto.
    + assert (x = p) by (apply Hnew; eauto). subst x.
      destruct (proj2 (Hold p) eq_refl) as (sz' & Hin').
      exists sz'. rewrite !blocks_at_app, !in_app_iff. auto.
    + exists sz. rewrite !blocks_at_app, !in_app_iff. auto.
  - destruct Hin as [Hin|[Hin|Hin]].
    + exists sz. rewrite !blocks_at_app, !in_app_iff. auto.
    + assert (x = p) by (apply Hold; eauto). subst x.
      destruct (proj2 (Hnew p) eq_refl) as (sz' & Hin').
      exists sz'. rewrite !blocks_at_app, !in_app_iff. auto.
    + exists sz. rewrite !blocks_at_app, !in_app_iff, Ht. auto.
Qed.

(** ** [shrink] *)

Lemma shrink_spec m hl bs L p bsz aligned :
  rep m hl bs L -> complete bs L -> nadj true bs ->
  In (p, bsz, true) (blocks_at 136 bs) -> good_size aligned -> aligned <= bsz ->
  exists m' bs' L',
    shrink aligned p bsz m = Some (p, m') /\
    rep m' hl bs' L' /\ complete bs' L' /\ nadj true bs' /\ same_allocs bs bs'.
Proof.
  intros H Hcomp Hadj Hin [Ha16 Ha8] Hle.
  pose proof (rep_sizes _ _ _ _ H) as Hs.
  pose proof (rep_total_bound _ _ _ _ H) as Hb.
  pose proof (rep_bound _ _ _ _ H) as Hbd.
  destruct (in_blocks_at_split _ _ _ _ _ Hin) as (pre & post & Ebs & Ep).
  assert (Ebs' : bs = pre ++ [(bsz, true)] ++ post) by exact Ebs. clear Ebs.
  subst bs.
  destruct (heap_mid _ _ _ _ _ _ (rep_heap _ _ _ _ H))
    as ([Hg16 Hg8] & [Hh _] & Hnext & Hend & Hp0).
  rewrite <- Ep in Hh, Hnext, Hend.
  assert (Hnp : forall c, 12 <= c <= 27 -> ~ In p (L c)).
  { eapply alloc_not_node; eauto. }
  assert (Hout : forall c y, 12 <= c <= 27 -> In y (L c) -> y < p \/ p + bsz <= y).
  { intros c y Hc Hy. eapply nodes_apart; eauto. }
  assert (Hap : apart L (p - 4) (p + bsz)).
  { apply (apart_of_region pre [(bsz, true)] post L p bsz Hs (rep_nodes _ _ _ _ H) Ep
             ltac:(cbn [total]; lia) Hout). }
  unfold shrink. rewrite sub32_small by lia.
  destruct (Z.ltb_spec (bsz - aligned) 16) as [Hsmall|Hbig].
  { exists m, (pre ++ [(bsz, true)] ++ post), L.
    split; [reflexivity|]. split; [exact H|]. split; [exact Hcomp|].
    split; [exact Hadj|]. intros x. tauto. }
  cbv zeta. set (remain := bsz - aligned) in *.
  assert (Hr8 : remain mod 8 = 0) by (unfold remain; lia).
  set (m1 := set_size_only_header p aligned m).
  assert (H1 : hdr_is m1 p aligned true (last_alloc true pre)).
  { eapply hdr_is_set_size_only_header; eauto. lia. }
  assert (Hqb : get_back p m1 = p + aligned).
  { unfold get_back. destruct H1 as (-> & _). reflexivity. }
  rewrite Hqb. set (q := p + aligned) in *.
  set (m2 := unset_allocated_flag q m1).
  assert (H2 : hdr_is m2 q (get_size q m1) false (is_forward_allocated q m1)).
  { eapply hdr_is_unset_allocated_flag. apply hdr_is_self. }
  set (m3 := set_size q remain m2).
  assert (H3 : hdr_is m3 q remain false (is_forward_allocated q m1)).
  { eapply hdr_is_set_size; eauto. lia. }
  assert (F3 : read_word (q + remain - 8) m3 = remain) by (apply footer_set_size; lia).
  set (m4 := set_forward_allocated_flag q m3).
  assert (H4 : hdr_is m4 q remain false true).
  { eapply hdr_is_set_forward_allocated_flag; eauto. }
  assert (F4 : read_word (q + remain - 8) m4 = remain).
  { transitivity (read_word (q + remain - 8) m3); [|exact F3].
    apply read_word_ext. intros w Hw. apply set_forward_allocated_flag_frame. lia. }
  assert (Fr41 : forall w, w < q - 4 -> m4 w = m1 w).
  { intros w Hw. unfold m4, m3, m2.
    rewrite set_forward_allocated_flag_frame, set_size_frame, unset_allocated_flag_frame
      by lia. reflexivity. }
  assert (Fr4 : forall w, w < p - 4 \/ p + bsz - 4 <= w -> m4 w = m w).
  { intros w Hw. unfold m4, m3, m2, m1.
    rewrite set_forward_allocated_flag_frame, set_size_frame, unset_allocated_flag_frame,
      set_size_only_header_frame by (unfold q, remain; lia). reflexivity. }
  assert (Hp4 : hdr_is m4 p aligned true (last_alloc true pre)).
  { apply hdr_is_frame with (m := m1); [exact H1|]. intros w Hw. apply Fr41. unfold q. lia. }
  assert (Hrb : get_back q m4 = p + bsz).
  { unfold get_back. destruct H4 as (-> & _). unfold q, remain. lia. }
  rewrite Hrb.
  assert (Hr4 : hdr_is m4 (p + bsz) (next_size post) (next_alloc post) true).
  { apply hdr_is_frame with (m := m); [exact Hnext|]. intros w Hw. apply Fr4. lia. }
  assert (Hia : is_allocated (p + bsz) m4 = next_alloc post) by apply Hr4.
  rewrite Hia.
  assert (Hl4 : lists_ok m4 L).
  { apply lists_frame_apart with (m := m) (lo := p - 4) (hi := p + bsz - 4).
    - apply (rep_lists _ _ _ _ H).
    - eapply apart_sub; eauto; lia.
    - exact Fr4. }
  destruct (next_alloc post) eqn:Ena.
  - (* the successor is allocated *)
    set (bs' := pre ++ [(aligned, true); (remain, false)] ++ post).
    assert (Hs' : sizes_ok bs').
    { apply sizes_ok_replace with (old := [(bsz, true)]); auto.
      repeat constructor; cbn [fst]; lia. }
    assert (Hb' : 136 + total bs' < two32).
    { unfold bs'. rewrite !total_app in *. cbn [total] in *. unfold remain. lia. }
    assert (Hn' : nodes_in bs' L).
    { apply nodes_in_replace with (old := [(bsz, true)]); auto.
      - apply (rep_nodes _ _ _ _ H).
      - cbn [total]. rewrite <- Ep. intros c y Hc Hy. specialize (Hout c y Hc Hy). lia.
      - cbn [total]. unfold remain. lia. }
    assert (Hinq : In (q, remain, false) (blocks_at 136 bs')).
    { unfold bs'.
      replace (pre ++ [(aligned, true); (remain, false)] ++ post)
        with ((pre ++ [(aligned, true)]) ++ (remain, false) :: post)
        by (rewrite <- app_assoc; reflexivity).
      replace q with (136 + total (pre ++ [(aligned, true)]))
        by (rewrite total_app; cbn [total]; unfold q; lia).
      apply in_blocks_at_mid. }
    assert (Hcr : 12 <= class_of remain <= 27) by (apply class_of_range; unfold remain; lia).
    assert (Hnq : ~ In q (L (class_of remain))).
    { intros Hq. specialize (Hout _ _ Hcr Hq). unfold q, remain in *. lia. }
    destruct (link_lists m4 L bs' q remain Hs' Hb' Hn' Hl4 Hinq Hnq)
      as (Hins & Hl5 & Hn5 & Fr5).
    rewrite Hins. set (m5 := link_tail (sent (class_of remain)) q m4) in *.
    set (L' := upd L (class_of remain) (L (class_of remain) ++ [q])) in *.
    assert (Fr5' : forall w, p - 4 <= w < q \/ q + 8 <= w < p + bsz -> m5 w = m4 w).
    { intros w Hw. apply Fr5; [|lia].
      eapply apart_nodes; eauto. unfold q in *. lia. }
    assert (Hq5 : hdr_is m5 q remain false true).
    { apply hdr_is_frame with (m := m4); [exact H4|]. intros w Hw. apply Fr5'. unfold q in *. lia. }
    assert (Hgb5 : get_back q m5 = p + bsz).
    { unfold get_back. destruct Hq5 as (-> & _). unfold q, remain. lia. }
    rewrite Hgb5. set (m6 := unset_forward_allocated_flag (p + bsz) m5).
    exists m6, bs', L'. split; [reflexivity|].
    assert (Hrep : rep m6 hl bs' L').
    { constructor; [ | exact Hbd | | exact Hn5].
      - (* the chain *)
        unfold bs'.
        apply heap_assemble with (m := m) (old := [(bsz, true)]).
        + apply (rep_heap _ _ _ _ H).
        + cbn [total]. unfold remain. lia.
        + rewrite <- Ep. cbn [total]. intros w Hw Hmeta. unfold m6.
          rewrite unset_forward_allocated_flag_frame by lia.
          unfold m5. rewrite Fr5.
          * apply Fr4. lia.
          * apply (meta_apart (pre ++ [(bsz, true)] ++ post) L (class_of remain) w
                     Hs Hb (rep_nodes _ _ _ _ H) Hcr).
            destruct (rep_heap _ _ _ _ H) as (_ & E & _). rewrite <- E. exact Hmeta.
          * unfold q. lia.
        + rewrite <- Ep. cbn [seg]. fold q.
          split; [split; lia|]. split.
          { split; [|discriminate]. apply hdr_is_frame with (m := m4); [exact Hp4|].
            intros w Hw. unfold m6.
            rewrite unset_forward_allocated_flag_frame by lia.
            apply Fr5'. unfold q. lia. }
          split; [split; unfold remain in *; lia|]. split; [|exact I]. split.
          { apply hdr_is_frame with (m := m5); [exact Hq5|].
            intros w Hw. apply unset_forward_allocated_flag_frame. unfold q, remain in *. lia. }
          intros _. transitivity (read_word (q + remain - 8) m4); [|exact F4].
          apply read_word_ext. intros w Hw. unfold m6.
          rewrite unset_forward_allocated_flag_frame by (unfold q, remain in *; lia).
          apply Fr5'. unfold q, remain in *. lia.
        + rewrite <- Ep. cbn [total last_alloc].
          replace (p + (bsz + 0)) with (p + bsz) by lia. rewrite Ena.
          apply hdr_is_unset_forward_allocated_flag with (pa := true).
          apply hdr_is_frame with (m := m4); [exact Hr4|].
          intros w Hw. apply Fr5'. unfold q, remain in *. lia.
      - (* the lists *)
        apply lists_frame with (m := m5); [exact Hl5|].
        intros c y w Hc Hy Hw. apply unset_forward_allocated_flag_frame.
        destruct (Z.lt_ge_cases w (p + bsz - 4)); [lia|].
        destruct (Z.le_gt_cases (p + bsz) w); [lia|]. exfalso.
        assert (Hm : meta 136 bs' w \/ 136 + total bs' - 4 <= w).
        { unfold bs'. apply next_header_meta; auto. cbn [total]. unfold remain. lia. }
        pose proof (meta_apart bs' L' c w Hs' Hb' Hn5 Hc Hm y Hy). lia. }
    split; [exact Hrep|]. split; [|split].
    + unfold bs'. eapply complete_replace with (old := [(bsz, true)]) (L := L); eauto.
      * cbn [total]. unfold remain. lia.
      * intros x sz' _ _ Hx. apply in_upd_add. exact Hx.
      * intros x sz' Hx. cbn [blocks_at In] in Hx.
        destruct Hx as [Hx|[Hx|[]]]; inversion Hx; subst. apply in_upd_new.
    + unfold bs'. apply nadj_app in Hadj. destruct Hadj as [Hpre Hadj].
      cbn [app nadj] in Hadj. destruct Hadj as [_ Hpost].
      apply nadj_app. split; [exact Hpre|]. cbn [app nadj].
      split; [auto|]. split; [discriminate|]. eapply nadj_next_alloc; eauto.
    + unfold bs'. apply resized_facts with (p := p); auto.
      * cbn [total]. unfold remain. lia.
      * intros x. rewrite <- Ep. cbn [blocks_at In]. split.
        -- intros (sz' & [Hx|[Hx|[]]]); inversion Hx. reflexivity.
        -- intros ->. exists aligned. left. reflexivity.
      * intros x. rewrite <- Ep. cbn [blocks_at In]. split.
        -- intros (sz' & [Hx|[]]); inversion Hx. reflexivity.
        -- intros ->. exists bsz. left. reflexivity.
  - (* the successor is free: merge the remainder with it *)
    destruct (first_free_split _ Ena) as (nsz & post' & ->).
    cbn [next_size next_alloc] in *.
    set (r := p + bsz) in *.
    assert (Hgr : get_size r m4 = nsz) by apply Hr4.
    rewrite Hgr.
    assert (Hinr : In (r, nsz, false)
                     (blocks_at 136 (pre ++ [(bsz, true)] ++ (nsz, false) :: post'))).
    { replace (pre ++ [(bsz, true)] ++ (nsz, false) :: post')
        with ((pre ++ [(bsz, true)]) ++ (nsz, false) :: post')
        by (rewrite <- app_assoc; reflexivity).
      replace r with (136 + total (pre ++ [(bsz, true)]))
        by (rewrite total_app; cbn [total]; unfold r; lia).
      apply in_blocks_at_mid. }
    pose proof (Hcomp _ _ Hinr) as Hrl.
    destruct (block_node _ Hs Hb _ _ _ Hinr) as (_ & _ & Hre & [Hn16 Hn8] & Hnlt).
    assert (Hcn : 12 <= class_of nsz <= 27) by (apply class_of_range; lia).
    rewrite add32_small by (unfold remain, r in *; lia).
    set (T := remain + nsz) in *.
    destruct (unlink_lists m4 L _ (class_of nsz) r Hs Hb (rep_nodes _ _ _ _ H) Hl4 Hcn Hrl)
      as (l1 & l2 & El & Hl5 & Hn5 & Fr5).
    set (m5 := delete_block r m4) in *.
    set (L1 := upd L (class_of nsz) (l1 ++ l2)) in *.
    assert (Fr5r : forall w, p - 4 <= w < p + bsz -> m5 w = m4 w).
    { intros w Hw. apply Fr5. eapply apart_nodes; eauto. }
    assert (Fr5m : forall w,
               meta 136 (pre ++ [(bsz, true)] ++ (nsz, false) :: post') w \/ hl - 4 <= w ->
               m5 w = m4 w).
    { intros w Hw. apply Fr5.
      apply (meta_apart _ L (class_of nsz) w Hs Hb (rep_nodes _ _ _ _ H) Hcn).
      destruct (rep_heap _ _ _ _ H) as (_ & E & _). rewrite <- E. exact Hw. }
    assert (Hq5 : hdr_is m5 q remain false true).
    { apply hdr_is_frame with (m := m4); [exact H4|].
      intros w Hw. apply Fr5r. unfold q in *. lia. }
    set (m6 := set_size q T m5).
    assert (H6 : hdr_is m6 q T false true).
    { eapply hdr_is_set_size; eauto; unfold T, remain, r in *; lia. }
    assert (F6 : read_word (q + T - 8) m6 = T)
      by (apply footer_set_size; unfold T, remain, r in *; lia).
    assert (Fr6 : forall w, w < q - 4 \/ q <= w -> w < q + T - 8 \/ q + T - 4 <= w ->
                            m6 w = m5 w).
    { intros w Hw1 Hw2. apply set_size_frame; assumption. }
    set (bs'' := pre ++ [(aligned, true); (T, false)] ++ post').
    assert (Hnd : NoDup (L (class_of nsz))) by (apply (rep_lists _ _ _ _ H); auto).
    assert (Hunr : forall c, 12 <= c <= 27 -> ~ In r (L1 c)).
    { intros c Hc. unfold L1. eapply not_in_upd_remove; eauto.
      intros D Hi. apply D.
      apply (node_class_unique _ L Hs (rep_nodes _ _ _ _ H) c (class_of nsz) r); auto. }
    assert (Hout1 : forall c y, 12 <= c <= 27 -> In y (L1 c) -> y < p \/ p + (bsz + nsz) <= y).
    { intros c y Hc Hy.
      assert (Hy0 : In y (L c)).
      { unfold L1, upd in Hy. destruct (Z.eqb_spec c (class_of nsz)) as [->|D]; [|exact Hy].
        rewrite El. apply in_app_or in Hy. apply in_or_app. simpl. tauto. }
      pose proof (Hout c y Hc Hy0).
      destruct (Hn5 c y Hc Hy) as (szy & Hiny & _).
      destruct (blocks_at_disjoint _ _ _ _ _ _ _ _ Hs Hiny Hinr) as [(-> & _)|D].
      - exfalso. apply (Hunr c Hc Hy).
      - pose proof (in_blocks_at_range _ _ _ _ _ Hs Hiny) as (_ & _ & [? _] & _).
        unfold r in *. lia. }
    assert (Hs2 : sizes_ok (pre ++ [(bsz, true); (nsz, false)] ++ post')) by exact Hs.
    assert (Hap1 : apart L1 (p - 4) (p + (bsz + nsz))).
    { apply (apart_of_region pre [(bsz, true); (nsz, false)] post' L1 p (bsz + nsz)
               Hs2 Hn5 Ep ltac:(cbn [total]; lia) Hout1). }
    assert (Hrep6 : rep m6 hl bs'' L1).
    { constructor; [ | exact Hbd | | ].
      - unfold bs''.
        apply heap_assemble with (m := m) (old := [(bsz, true); (nsz, false)]).
        + apply (rep_heap _ _ _ _ H).
        + cbn [total]. unfold T, remain. lia.
        + rewrite <- Ep. cbn [total]. intros w Hw Hmeta.
          rewrite Fr6 by (unfold q, T, remain in *; lia).
          rewrite Fr5m by exact Hmeta.
          apply Fr4. lia.
        + rewrite <- Ep. cbn [seg]. fold q.
          split; [split; lia|]. split.
          { split; [|discriminate]. apply hdr_is_frame with (m := m4); [exact Hp4|].
            intros w Hw. rewrite Fr6 by (unfold q, T, remain in *; lia).
            apply Fr5r. lia. }
          split; [split; unfold T, remain in *; lia|]. split; [|exact I].
          split; [exact H6|]. intros _. exact F6.
        + rewrite <- Ep. cbn [total last_alloc].
          replace (p + (bsz + (nsz + 0))) with (r + nsz) by (unfold r; lia).
          pose proof (rep_heap _ _ _ _ H) as Hh0.
          replace (pre ++ [(bsz, true)] ++ (nsz, false) :: post')
            with ((pre ++ [(bsz, true); (nsz, false)]) ++ post') in Hh0
            by (rewrite <- app_assoc; reflexivity).
          pose proof (heap_next_hdr _ _ _ _ Hh0) as Hn0.
          rewrite total_app, last_alloc_app in Hn0. cbn [total last_alloc] in Hn0.
          replace (136 + (total pre + (bsz + (nsz + 0)))) with (r + nsz) in Hn0
            by (unfold r; lia).
          apply hdr_is_frame with (m := m); [exact Hn0|].
          intros w Hw. rewrite Fr6 by (unfold q, T, remain, r in *; lia).
          rewrite Fr5m.
          * apply Fr4. unfold r in *. lia.
          * assert (Hm : meta 136 (pre ++ [(bsz, true); (nsz, false)] ++ post') w \/
                         136 + total (pre ++ [(bsz, true); (nsz, false)] ++ post') - 4 <= w).
            { apply next_header_meta; [exact Hs2|]. cbn [total]. unfold r in *. lia. }
            destruct (rep_heap _ _ _ _ H) as (_ & E & _). rewrite E. exact Hm.
      - apply lists_frame_apart with (m := m5) (lo := p - 4) (hi := p + (bsz + nsz));
          [exact Hl5 | exact Hap1 |].
        intros w Hw. apply Fr6; unfold q, T, remain in *; lia.
      - unfold bs''. apply nodes_in_replace with (old := [(bsz, true); (nsz, false)]);
          [exact Hs2 | exact Hn5 | | cbn [total]; unfold T, remain; lia].
        cbn [total]. rewrite <- Ep. intros c y Hc Hy. specialize (Hout1 c y Hc Hy). lia. }
    assert (Hinq : In (q, T, false) (blocks_at 136 bs'')).
    { unfold bs''.
      replace (pre ++ [(aligned, true); (T, false)] ++ post')
        with ((pre ++ [(aligned, true)]) ++ (T, false) :: post')
        by (rewrite <- app_assoc; reflexivity).
      replace q with (136 + total (pre ++ [(aligned, true)]))
        by (rewrite total_app; cbn [total]; unfold q; lia).
      apply in_blocks_at_mid. }
    assert (HcT : 12 <= class_of T <= 27)
      by (apply class_of_range; unfold T, remain, r in *; lia).
    assert (Hnq : ~ In q (L1 (class_of T))).
    { intros Hq. specialize (Hout1 _ _ HcT Hq). unfold q, remain in *. lia. }
    destruct (rep_link _ _ _ _ _ _ Hrep6 Hinq Hnq) as [Hins Hrep7].
    rewrite Hins.
    eexists _, bs'', _. split; [reflexivity|]. split; [exact Hrep7|]. split; [|split].
    + unfold bs''. eapply complete_replace with (old := [(bsz, true); (nsz, false)]) (L := L);
        eauto.
      * cbn [total]. unfold T, remain. lia.
      * intros x sz' _ Hx Hxl. cbn [total] in Hx. apply in_upd_add.
        unfold L1. eapply in_upd_remove; eauto. unfold r. lia.
      * intros x sz' Hx. cbn [blocks_at In] in Hx.
        destruct Hx as [Hx|[Hx|[]]]; inversion Hx; subst. apply in_upd_new.
    + unfold bs''. pose proof Hadj as Hadj0.
      apply nadj_app in Hadj. destruct Hadj as [Hpre Hadj].
      apply nadj_app. split; [exact Hpre|]. cbn [app nadj].
      split; [auto|]. split; [discriminate|].
      eapply nadj_next_alloc.
      * eapply nadj_post_alloc with (pre := pre ++ [(bsz, true)]).
        rewrite <- app_assoc. exact Hadj0.
      * cbn [app nadj] in Hadj. apply Hadj.
    + unfold bs''.
      apply (resized_facts pre [(bsz, true); (nsz, false)] [(aligned, true); (T, false)] post' p Hs2).
      * cbn [total]. unfold T, remain. lia.
      * intros x. rewrite <- Ep. cbn [blocks_at In]. split.
        -- intros (sz' & [Hx|[Hx|[]]]); inversion Hx. reflexivity.
        -- intros ->. exists aligned. left. reflexivity.
      * intros x. rewrite <- Ep. cbn [blocks_at In]. split.
        -- intros (sz' & [Hx|[Hx|[]]]); inversion Hx. reflexivity.
        -- intros ->. exists bsz. left. reflexivity.
Qed.

(** ** Writes into the payload of an allocated block *)

Lemma rep_payload_write m m' hl bs L x sz :
  rep m hl bs L -> In (x, sz, true) (blocks_at 136 bs) ->
  (forall w, w < x \/ x + sz - 4 <= w -> m' w = m w) ->
  rep m' hl bs L.
Proof.
  intros H Hin Hf. pose proof (rep_sizes _ _ _ _ H) as Hs.
  pose proof (rep_total_bound _ _ _ _ H) as Hb.
  destruct (block_node _ Hs Hb _ _ _ Hin) as (_ & Hx & He & [Hg _] & _).
  pose proof H as [Hh Hbd Hl Hn]. constructor; auto.
  - apply heap_ok_frame with (m := m); auto. intros w Hw. apply Hf.
    destruct Hw as [Hw|Hw]; [|lia].
    destruct (Z.lt_ge_cases w x); [lia|].
    destruct (Z.le_gt_cases (x + sz - 4) w); [lia|].
    exfalso. apply (payload_not_meta 136 bs x sz true w Hs Hin); [lia | exact Hw].
  - apply lists_frame with (m := m); auto. intros c y w Hc Hy Hw. apply Hf.
    destruct Hy as [<-|Hy].
    + pose proof (sent_node c Hc). lia.
    + pose proof (nodes_apart _ _ _ _ _ _ _ H Hin (alloc_not_node _ _ _ _ _ _ H Hin) c y Hc Hy).
      destruct (node_block bs L Hs Hb Hn c y Hc Hy) as (szy & Hiny & _ & _ & _ & _ & [? _]).
      destruct (blocks_at_disjoint _ _ _ _ _ _ _ _ Hs Hiny Hin) as [(_ & _ & E)|D];
        [discriminate E | lia].
Qed.

Lemma apart_upd_add (L : lists) c x lo hi :
  apart L lo hi -> x + 8 <= lo \/ hi <= x -> apart (upd L c (L c ++ [x])) lo hi.
Proof.
  intros H Hx c' y Hc' Hy. destruct Hy as [Hy|Hy]; [apply (H c' y Hc'); left; exact Hy|].
  unfold upd in Hy. destruct (Z.eqb_spec c' c) as [->|D].
  - apply in_app_or in Hy. destruct Hy as [Hy|[<-|[]]]; [|exact Hx].
    apply (H c y Hc'). right. exact Hy.
  - apply (H c' y Hc'). right. exact Hy.
Qed.

Lemma post_nil_iff m hl pre sz al post :
  heap_ok m hl (pre ++ [(sz, al)] ++ post) ->
  (136 + total pre + sz = hl <-> post = []).
Proof.
  intros H. pose proof (heap_ok_sizes _ _ _ H) as Hs.
  apply sizes_ok_app in Hs as [_ Hs]. apply sizes_ok_app in Hs as [_ Hs3].
  destruct H as (_ & -> & _). rewrite !total_app. cbn [total].
  destruct post as [|[s a] post].
  - cbn [total]. split; [reflexivity | lia].
  - apply Forall_cons_iff in Hs3 as [[Hg _] Hs3]. cbn [fst] in Hg.
    pose proof (total_nonneg _ Hs3). cbn [total]. split; [lia | discriminate].
Qed.

(** ** Growing an allocated block into its free successor *)

(** What is known when an allocated block [p] is followed by a free one. *)
Lemma alloc_then_free m hl pre bsz nsz post' L :
  rep m hl (pre ++ [(bsz, true)] ++ (nsz, false) :: post') L ->
  complete (pre ++ [(bsz, true)] ++ (nsz, false) :: post') L ->
  let p := 136 + total pre in
  let r := p + bsz in
  exists l1 l2,
    L (class_of nsz) = l1 ++ r :: l2 /\
    let L1 := upd L (class_of nsz) (l1 ++ l2) in
    rep (delete_block r m) hl (pre ++ [(bsz, true); (nsz, false)] ++ post') L1 /\
    (forall c y, 12 <= c <= 27 -> In y (L1 c) -> y < p \/ p + (bsz + nsz) <= y) /\
    apart L1 (p - 4) (p + (bsz + nsz)) /\
    (forall x sz', In (x, sz', false) (blocks_at 136 (pre ++ [(bsz, true)] ++ (nsz, false) :: post')) ->
       x < p \/ p + (bsz + nsz) <= x -> In x (L1 (class_of sz'))) /\
    hdr_is (delete_block r m) p bsz true (last_alloc true pre) /\
    hdr_is (delete_block r m) (p + (bsz + nsz)) (next_size post') (next_alloc post') false /\
    16 <= bsz /\ bsz mod 8 = 0 /\ 16 <= nsz /\ nsz mod 8 = 0 /\
    p + (bsz + nsz) <= hl /\ hl < two32 /\ 0 <= total pre.
Proof.
  intros H Hcomp p r.
  pose proof (rep_sizes _ _ _ _ H) as Hs.
  pose proof (rep_total_bound _ _ _ _ H) as Hb.
  pose proof (rep_bound _ _ _ _ H) as Hbd.
  assert (Hin : In (p, bsz, true) (blocks_at 136 (pre ++ [(bsz, true)] ++ (nsz, false) :: post')))
    by apply in_blocks_at_mid.
  assert (Hinr : In (r, nsz, false)
                   (blocks_at 136 (pre ++ [(bsz, true)] ++ (nsz, false) :: post'))).
  { replace (pre ++ [(bsz, true)] ++ (nsz, false) :: post')
      with ((pre ++ [(bsz, true)]) ++ (nsz, false) :: post')
      by (rewrite <- app_assoc; reflexivity).
    replace r with (136 + total (pre ++ [(bsz, true)]))
      by (rewrite total_app; cbn [total]; unfold r, p; lia).
    apply in_blocks_at_mid. }
  pose proof (Hcomp _ _ Hinr) as Hrl.
  destruct (block_node _ Hs Hb _ _ _ Hin) as (_ & Hp136 & _ & [Hb16 Hb8] & _).
  destruct (block_node _ Hs Hb _ _ _ Hinr) as (_ & _ & Hre & [Hn16 Hn8] & Hnlt).
  assert (Hcn : 12 <= class_of nsz <= 27) by (apply class_of_range; lia).
  destruct (rep_unlink _ _ _ _ _ _ H Hcn Hrl) as (l1 & l2 & El & H1).
  exists l1, l2. split; [exact El|]. intros L1.
  assert (Hnd : NoDup (L (class_of nsz))) by (apply (rep_lists _ _ _ _ H); auto).
  assert (Hunr : forall c, 12 <= c <= 27 -> ~ In r (L1 c)).
  { intros c Hc. unfold L1. eapply not_in_upd_remove; eauto.
    intros D Hi. apply D.
    apply (node_class_unique _ L Hs (rep_nodes _ _ _ _ H) c (class_of nsz) r); auto. }
  assert (Hnp1 : forall c, 12 <= c <= 27 -> ~ In p (L1 c)).
  { eapply alloc_not_node; eauto. }
  assert (Hout1 : forall c y, 12 <= c <= 27 -> In y (L1 c) -> y < p \/ p + (bsz + nsz) <= y).
  { intros c y Hc Hy.
    pose proof (nodes_apart _ _ _ _ _ _ _ H1 Hin Hnp1 c y Hc Hy).
    pose proof (nodes_apart _ _ _ _ _ _ _ H1 Hinr Hunr c y Hc Hy). unfold r in *. lia. }
  assert (Hs2 : sizes_ok (pre ++ [(bsz, true); (nsz, false)] ++ post')) by exact Hs.
  split; [exact H1|]. split; [exact Hout1|]. split.
  { apply (apart_of_region pre [(bsz, true); (nsz, false)] post' L1 p (bsz + nsz)
             Hs2 (rep_nodes _ _ _ _ H1) eq_refl ltac:(cbn [total]; lia) Hout1). }
  split.
  { intros x sz' Hx Hxo. unfold L1. eapply in_upd_remove; eauto. unfold r. lia. }
  destruct (heap_mid _ _ _ _ _ _ (rep_heap _ _ _ _ H1)) as (_ & [Hh1 _] & _ & _ & Hp0).
  split; [exact Hh1|]. split.
  { pose proof (rep_heap _ _ _ _ H1) as Hh0.
    replace (pre ++ [(bsz, true)] ++ (nsz, false) :: post')
      with ((pre ++ [(bsz, true); (nsz, false)]) ++ post') in Hh0
      by (rewrite <- app_assoc; reflexivity).
    pose proof (heap_next_hdr _ _ _ _ Hh0) as Hn0.
    rewrite total_app, last_alloc_app in Hn0. cbn [total last_alloc] in Hn0.
    replace (136 + (total pre + (bsz + (nsz + 0)))) with (p + (bsz + nsz)) in Hn0
      by (unfold p; lia).
    exact Hn0. }
  destruct (rep_heap _ _ _ _ H) as (_ & Ehl & _).
  unfold r in *. repeat split; try assumption; lia.
Qed.

Lemma in_blocks_second pre b1 sz al post x :
  x = 136 + total pre + fst b1 ->
  In (x, sz, al) (blocks_at 136 (pre ++ [b1; (sz, al)] ++ post)).
Proof.
  intros ->. destruct b1 as [s1 a1]. cbn [fst].
  replace (pre ++ [(s1, a1); (sz, al)] ++ post)
    with ((pre ++ [(s1, a1)]) ++ (sz, al) :: post)
    by (rewrite <- app_assoc; reflexivity).
  replace (136 + total pre + s1) with (136 + total (pre ++ [(s1, a1)]))
    by (rewrite total_app; cbn [total]; lia).
  apply in_blocks_at_mid.
Qed.

(** The successor is split: the front part joins [p], the rest stays free. *)
Lemma expand_split m hl pre bsz nsz post' L new :
  rep m hl (pre ++ [(bsz, true)] ++ (nsz, false) :: post') L ->
  complete (pre ++ [(bsz, true)] ++ (nsz, false) :: post') L ->
  nadj true (pre ++ [(bsz, true)] ++ (nsz, false) :: post') ->
  good_size new -> bsz < new -> 16 <= nsz - (new - bsz) ->
  let p := 136 + total pre in
  let nb := p + new in
  let nbs := nsz - (new - bsz) in
  exists m5 bs' L',
    insert nb nbs (set_forward_allocated_flag nb (unset_allocated_flag nb
       (set_size nb nbs (delete_block (p + bsz) m)))) = Some m5 /\
    rep (set_size_only_header p new m5) hl bs' L' /\ complete bs' L' /\ nadj true bs' /\
    same_allocs (pre ++ [(bsz, true)] ++ (nsz, false) :: post') bs'.
Proof.
  intros H Hcomp Hadj [Ha16 Ha8] Hlt Hbig p nb nbs.
  pose proof (rep_sizes _ _ _ _ H) as Hs.
  pose proof (rep_total_bound _ _ _ _ H) as Hb.
  pose proof (alloc_then_free _ _ _ _ _ _ _ H Hcomp) as X. cbv zeta in X. fold p in X.
  destruct X as (l1 & l2 & El & H1 & Hout1 & Hap1 & Hkeep & Hp1 & Hn1 & Hb16 & Hb8 &
                 Hn16 & Hn8 & Hend & Hbd & Hp0).
  set (L1 := upd L (class_of nsz) (l1 ++ l2)) in *.
  set (m1 := delete_block (p + bsz) m) in *.
  assert (Hnbs8 : nbs mod 8 = 0) by (unfold nbs; lia).
  assert (Hpge : 136 <= p) by (unfold p; lia).
  set (m2 := set_size nb nbs m1).
  assert (H2 : hdr_is m2 nb nbs (is_allocated nb m1) (is_forward_allocated nb m1)).
  { apply hdr_is_set_size with (sz := get_size nb m1); [apply hdr_is_self| |exact Hnbs8].
    unfold nbs. lia. }
  set (m3 := unset_allocated_flag nb m2).
  set (m4 := set_forward_allocated_flag nb m3).
  assert (H4 : hdr_is m4 nb nbs false true).
  { eapply hdr_is_set_forward_allocated_flag. eapply hdr_is_unset_allocated_flag. exact H2. }
  assert (Fr4 : forall w, w < nb - 4 \/ nb <= w -> w < nb + nbs - 8 \/ nb + nbs - 4 <= w ->
                          m4 w = m1 w).
  { intros w Hw1 Hw2. unfold m4, m3, m2.
    rewrite set_forward_allocated_flag_frame, unset_allocated_flag_frame, set_size_frame
      by lia. reflexivity. }
  assert (F4 : read_word (nb + nbs - 8) m4 = nbs).
  { transitivity (read_word (nb + nbs - 8) m2);
      [|apply footer_set_size; unfold nbs; lia].
    apply read_word_ext. intros w Hw. unfold m4, m3.
    rewrite set_forward_allocated_flag_frame, unset_allocated_flag_frame
      by (unfold nbs in *; lia). reflexivity. }
  assert (Hl4 : lists_ok m4 L1).
  { apply lists_frame_apart with (m := m1) (lo := p - 4) (hi := p + (bsz + nsz)).
    - apply (rep_lists _ _ _ _ H1).
    - exact Hap1.
    - intros w Hw. apply Fr4; unfold nb, nbs; lia. }
  set (bs' := pre ++ [(new, true); (nbs, false)] ++ post').
  assert (Hs2 : sizes_ok (pre ++ [(bsz, true); (nsz, false)] ++ post')) by exact Hs.
  assert (Hs' : sizes_ok bs').
  { apply sizes_ok_replace with (old := [(bsz, true); (nsz, false)]); [exact Hs2|].
    repeat constructor; cbn [fst]; unfold nbs; lia. }
  assert (Hb' : 136 + total bs' < two32).
  { unfold bs'. rewrite !total_app in *. cbn [total] in *. unfold nbs. lia. }
  assert (Hn' : nodes_in bs' L1).
  { apply nodes_in_replace with (old := [(bsz, true); (nsz, false)]); [exact Hs2| | |].
    - apply (rep_nodes _ _ _ _ H1).
    - cbn [total]. fold p. intros c y Hc Hy. specialize (Hout1 c y Hc Hy). lia.
    - cbn [total]. unfold nbs. lia. }
  assert (Hinq : In (nb, nbs, false) (blocks_at 136 bs')).
  { apply in_blocks_second. cbn [fst]. reflexivity. }
  assert (Hcr : 12 <= class_of nbs <= 27) by (apply class_of_range; unfold nbs; lia).
  assert (Hnq : ~ In nb (L1 (class_of nbs))).
  { intros Hq. specialize (Hout1 _ _ Hcr Hq). unfold nb, nbs in *. lia. }
  destruct (link_lists m4 L1 bs' nb nbs Hs' Hb' Hn' Hl4 Hinq Hnq)
    as (Hins & Hl5 & Hn5 & Fr5).
  set (m5 := link_tail (sent (class_of nbs)) nb m4) in *.
  set (L' := upd L1 (class_of nbs) (L1 (class_of nbs) ++ [nb])) in *.
  assert (Fr5' : forall w, p - 4 <= w < nb \/ nb + 8 <= w < p + (bsz + nsz) -> m5 w = m4 w).
  { intros w Hw. apply Fr5; [|lia].
    eapply apart_nodes; [exact Hap1|exact Hcr|]. unfold nb in *. lia. }
  assert (Fr5m : forall w,
             meta 136 (pre ++ [(bsz, true); (nsz, false)] ++ post') w \/
             136 + total (pre ++ [(bsz, true); (nsz, false)] ++ post') - 4 <= w ->
             w < nb \/ nb + 8 <= w -> m5 w = m4 w).
  { intros w Hw Hw2. apply Fr5; [|exact Hw2].
    apply (meta_apart _ L1 (class_of nbs) w Hs2 Hb (rep_nodes _ _ _ _ H1) Hcr Hw). }
  set (m6 := set_size_only_header p new m5).
  assert (Hp5 : hdr_is m5 p bsz true (last_alloc true pre)).
  { apply hdr_is_frame with (m := m1); [exact Hp1|]. intros w Hw.
    rewrite Fr5' by (unfold nb; lia). apply Fr4; unfold nb, nbs; lia. }
  assert (Hnew32 : 0 <= new < two32).
  { unfold nbs in *. lia. }
  exists m5, bs', L'. split; [exact Hins|].
  assert (Hrep : rep m6 hl bs' L').
  { constructor; [ | exact Hbd | | exact Hn5].
    - unfold bs'.
      apply heap_assemble with (m := m1) (old := [(bsz, true); (nsz, false)]).
      + apply (rep_heap _ _ _ _ H1).
      + cbn [total]. unfold nbs. lia.
      + fold p. cbn [total]. intros w Hw Hmeta. unfold m6.
        rewrite set_size_only_header_frame by lia.
        rewrite Fr5m.
        * apply Fr4; unfold nb, nbs; lia.
        * destruct (rep_heap _ _ _ _ H1) as (_ & E & _). rewrite <- E. exact Hmeta.
        * unfold nb. lia.
      + fold p. cbn [seg]. fold nb.
        split; [split; lia|]. split.
        { split; [|discriminate]. unfold m6.
          eapply hdr_is_set_size_only_header; [exact Hp5|exact Hnew32|exact Ha8]. }
        split; [split; unfold nbs in *; lia|]. split; [|exact I]. split.
        { apply hdr_is_frame with (m := m4); [exact H4|].
          intros w Hw. unfold m6. rewrite set_size_only_header_frame by (unfold nb in *; lia).
          apply Fr5'. unfold nb in *. lia. }
        intros _. transitivity (read_word (nb + nbs - 8) m4); [|exact F4].
        apply read_word_ext. intros w Hw. unfold m6.
        rewrite set_size_only_header_frame by (unfold nb, nbs in *; lia).
        apply Fr5'. unfold nb, nbs in *. lia.
      + fold p. cbn [total last_alloc].
        replace (p + (bsz + (nsz + 0))) with (p + (bsz + nsz)) by lia.
        apply hdr_is_frame with (m := m1); [exact Hn1|].
        intros w Hw. unfold m6. rewrite set_size_only_header_frame by lia.
        rewrite Fr5m.
        * apply Fr4; unfold nb, nbs; lia.
        * apply next_header_meta; [exact Hs2|]. cbn [total]. fold p. lia.
        * unfold nb, nbs in *. lia.
    - apply lists_frame_apart with (m := m5) (lo := p - 4) (hi := p); [exact Hl5| |].
      + apply apart_upd_add; [|unfold nb; lia].
        eapply apart_sub; [exact Hap1| |]; lia.
      + intros w Hw. apply set_size_only_header_frame. lia. }
  split; [exact Hrep|]. split; [|split].
  - unfold bs'.
    apply complete_replace with (old := [(bsz, true); (nsz, false)]) (L := L)
                                (p := p) (q := p + (bsz + nsz)).
    + exact Hs2.
    + exact Hcomp.
    + reflexivity.
    + cbn [total]. lia.
    + cbn [total]. unfold nbs. lia.
    + intros x sz' Hx Hxo _. apply in_upd_add. apply Hkeep; assumption.
    + intros x sz' Hx. cbn [blocks_at In] in Hx.
      destruct Hx as [Hx|[Hx|[]]]; inversion Hx; subst. apply in_upd_new.
  - unfold bs'. apply nadj_app in Hadj. destruct Hadj as [Hpre Hadj].
    cbn [app nadj] in Hadj. destruct Hadj as (_ & _ & Hpost).
    apply nadj_app. split; [exact Hpre|]. cbn [app nadj].
    split; [auto|]. split; [discriminate|]. exact Hpost.
  - unfold bs'.
    apply (resized_facts pre [(bsz, true); (nsz, false)] [(new, true); (nbs, false)] post' p).
    + exact Hs2.
    + cbn [total]. unfold nbs. lia.
    + intros x. fold p. cbn [blocks_at In]. split.
      * intros (sz' & [Hx|[Hx|[]]]); inversion Hx. reflexivity.
      * intros ->. exists new. left. reflexivity.
    + intros x. fold p. cbn [blocks_at In]. split.
      * intros (sz' & [Hx|[Hx|[]]]); inversion Hx. reflexivity.
      * intros ->. exists bsz. left. reflexivity.
Qed.

(** The successor is absorbed whole. *)
Lemma expand_absorb m hl pre bsz nsz post' L :
  rep m hl (pre ++ [(bsz, true)] ++ (nsz, false) :: post') L ->
  complete (pre ++ [(bsz, true)] ++ (nsz, false) :: post') L ->
  nadj true (pre ++ [(bsz, true)] ++ (nsz, false) :: post') ->
  let p := 136 + total pre in
  exists bs' L',
    rep (set_forward_allocated_flag (p + (bsz + nsz))
           (set_size_only_header p (bsz + nsz) (delete_block (p + bsz) m))) hl bs' L' /\
    complete bs' L' /\ nadj true bs' /\
    same_allocs (pre ++ [(bsz, true)] ++ (nsz, false) :: post') bs'.
Proof.
  intros H Hcomp Hadj p.
  pose proof (rep_sizes _ _ _ _ H) as Hs.
  pose proof (rep_total_bound _ _ _ _ H) as Hb.
  pose proof (alloc_then_free _ _ _ _ _ _ _ H Hcomp) as X. cbv zeta in X. fold p in X.
  destruct X as (l1 & l2 & El & H1 & Hout1 & Hap1 & Hkeep & Hp1 & Hn1 & Hb16 & Hb8 &
                 Hn16 & Hn8 & Hend & Hbd & Hp0).
  set (L1 := upd L (class_of nsz) (l1 ++ l2)) in *.
  set (m1 := delete_block (p + bsz) m) in *.
  set (m2 := set_size_only_header p (bsz + nsz) m1).
  set (q := p + (bsz + nsz)) in *.
  set (m3 := set_forward_allocated_flag q m2).
  assert (Hs2 : sizes_ok (pre ++ [(bsz, true); (nsz, false)] ++ post')) by exact Hs.
  exists (pre ++ [(bsz + nsz, true)] ++ post'), L1.
  split; [|split; [|split]].
  - apply (rep_replace m1 m3 hl pre [(bsz, true); (nsz, false)] [(bsz + nsz, true)] post'
             L1 p q).
    + exact H1.
    + reflexivity.
    + cbn [total]. unfold q. lia.
    + cbn [total]. lia.
    + intros w Hw. unfold m3, m2.
      rewrite set_forward_allocated_flag_frame, set_size_only_header_frame
        by (unfold q in *; lia). reflexivity.
    + cbn [seg]. split; [split; lia|]. split; [|exact I]. split; [|discriminate].
      apply hdr_is_frame with (m := m2).
      * unfold m2. eapply hdr_is_set_size_only_header; [exact Hp1| |]; unfold q in *; lia.
      * intros w Hw. apply set_forward_allocated_flag_frame. unfold q. lia.
    + cbn [last_alloc]. unfold m3.
      apply hdr_is_set_forward_allocated_flag with (pa := false).
      apply hdr_is_frame with (m := m1); [exact Hn1|].
      intros w Hw. apply set_size_only_header_frame. unfold q in *. lia.
    + exact Hout1.
  - apply complete_replace with (old := [(bsz, true); (nsz, false)]) (L := L)
                                (p := p) (q := q).
    + exact Hs2.
    + exact Hcomp.
    + reflexivity.
    + cbn [total]. unfold q. lia.
    + cbn [total]. lia.
    + intros x sz' Hx Hxo _. apply Hkeep; assumption.
    + intros x sz' Hx. cbn [blocks_at In] in Hx.
      destruct Hx as [Hx|[]]; inversion Hx.
  - apply nadj_app in Hadj. destruct Hadj as [Hpre Hadj].
    cbn [app nadj] in Hadj. destruct Hadj as (_ & _ & Hpost).
    apply nadj_app. split; [exact Hpre|]. cbn [app nadj].
    split; [auto|]. eapply nadj_last_true; exact Hpost.
  - apply (resized_facts pre [(bsz, true); (nsz, false)] [(bsz + nsz, true)] post' p).
    + exact Hs2.
    + cbn [total]. lia.
    + intros x. fold p. cbn [blocks_at In]. split.
      * intros (sz' & [Hx|[]]); inversion Hx. reflexivity.
      * intros ->. exists (bsz + nsz). left. reflexivity.
    + intros x. fold p. cbn [blocks_at In]. split.
      * intros (sz' & [Hx|[Hx|[]]]); inversion Hx. reflexivity.
      * intros ->. exists bsz. left. reflexivity.
Qed.

(** ** Growing the last block by extending the heap *)

Lemma grow_tail m hl pre bsz L new :
  rep m hl (pre ++ [(bsz, true)]) L -> complete (pre ++ [(bsz, true)]) L ->
  nadj true (pre ++ [(bsz, true)]) ->
  good_size new -> bsz < new -> hl + (new - bsz) < two32 ->
  let p := 136 + total pre in
  let hl' := hl + (new - bsz) in
  rep (set_header hl' 3 (set_size_only_header p new m)) hl' (pre ++ [(new, true)]) L /\
  complete (pre ++ [(new, true)]) L /\ nadj true (pre ++ [(new, true)]) /\
  same_allocs (pre ++ [(bsz, true)]) (pre ++ [(new, true)]).
Proof.
  intros H Hcomp Hadj [Ha16 Ha8] Hlt Hbd' p hl'.
  pose proof (rep_sizes _ _ _ _ H) as Hs.
  assert (H0 : rep m hl (pre ++ [(bsz, true)] ++ []) L) by exact H.
  destruct (heap_mid _ _ _ _ _ _ (rep_heap _ _ _ _ H0))
    as ([Hg16 Hg8] & [Hh _] & _ & _ & Hp0).
  fold p in Hh.
  assert (Ehl : hl = p + bsz).
  { destruct (rep_heap _ _ _ _ H) as (_ & -> & _). rewrite total_app. cbn [total].
    unfold p. lia. }
  assert (Hin : In (p, bsz, true) (blocks_at 136 (pre ++ [(bsz, true)])))
    by apply in_blocks_at_mid.
  split; [|split; [|split]].
  - apply (rep_replace_tail m _ hl hl' pre [(bsz, true)] [(new, true)] L p).
    + exact H.
    + reflexivity.
    + intros w Hw.
      rewrite set_header_frame, set_size_only_header_frame by (unfold hl'; lia).
      reflexivity.
    + cbn [seg]. split; [split; lia|]. split; [|exact I]. split; [|discriminate].
      apply hdr_is_frame with (m := set_size_only_header p new m).
      * eapply hdr_is_set_size_only_header; [exact Hh| |exact Ha8]. unfold hl' in *. lia.
      * intros w Hw. apply set_header_frame. unfold hl'. lia.
    + cbn [total]. unfold hl'. lia.
    + exact Hbd'.
    + cbn [last_alloc]. apply hdr_is_sentinel_alloc.
    + intros c y Hc Hy.
      pose proof (nodes_apart _ _ _ _ _ _ _ H Hin (alloc_not_node _ _ _ _ _ _ H Hin) c y Hc Hy).
      pose proof (nodes_below _ _ _ _ _ _ H Hc Hy). lia.
  - apply complete_replace_tail with (old := [(bsz, true)]) (L := L) (p := p).
    + exact Hcomp.
    + reflexivity.
    + intros x sz' _ Hx. exact Hx.
    + intros x sz' Hx. cbn [blocks_at In] in Hx. destruct Hx as [Hx|[]]; inversion Hx.
  - apply nadj_app in Hadj. destruct Hadj as [Hpre _].
    apply nadj_app. split; [exact Hpre|]. cbn [nadj]. auto.
  - intros x. rewrite !blocks_at_app. fold p. cbn [blocks_at].
    split; intros (sz' & Hx); apply in_app_or in Hx; destruct Hx as [Hx|[Hx|[]]].
    + exists sz'. apply in_or_app. left. exact Hx.
    + inversion Hx; subst. exists bsz. apply in_or_app. right. left. reflexivity.
    + exists sz'. apply in_or_app. left. exact Hx.
    + inversion Hx; subst. exists new. apply in_or_app. right. left. reflexivity.
Qed.

(** ** [mm_realloc] *)

Lemma memcpy_frame dst src len m w :
  w < dst \/ dst + len <= w -> memcpy dst src len m w = m w.
Proof.
  intros H. unfold memcpy.
  destruct (Z.leb_spec dst w); destruct (Z.ltb_spec w (dst + len)); cbn [andb];
    try reflexivity; lia.
Qed.

Lemma get_size_set_size_only_header p sz m :
  0 <= sz < two32 -> sz mod 8 = 0 -> get_size p (set_size_only_header p sz m) = sz.
Proof.
  intros Hr H8.
  destruct (hdr_is_set_size_only_header m p _ _ _ sz (hdr_is_self p m) Hr H8) as (E & _).
  exact E.
Qed.

Lemma with_mem_self s : with_mem s (heap_mem s) = s.
Proof. destruct s; reflexivity. Qed.

Section Realloc.
Variable sbrk_ok : Z -> Z -> bool.
Hypothesis sbrk_bound : forall brk n, sbrk_ok brk n = true -> brk + n < two32.

(** The last resort: allocate a new block, copy, free the old one. *)
Lemma realloc_move s bs L fuel p bsz size r s' :
  rep (heap_mem s) (heap_last_ptr s) bs L -> complete bs L -> nadj true bs ->
  In (p, bsz, true) (blocks_at 136 bs) -> size <> 0 -> bsz < align_size size ->
  match mm_malloc sbrk_ok fuel size s with
  | None => None
  | Some (newptr, s1) =>
      let m1 :=
        match newptr with
        | Some q => memcpy q p (get_size p (heap_mem s1)) (heap_mem s1)
        | None => heap_mem s1
        end in
      option_map (fun s2 => (newptr, s2)) (mm_free (Some p) (with_mem s1 m1))
  end = Some (r, s') ->
  (r = None -> is_forward_allocated (heap_last_ptr s) (heap_mem s) = true) ->
  exists bs' L',
    rep (heap_mem s') (heap_last_ptr s') bs' L' /\ complete bs' L' /\ nadj true bs' /\
    forall x, allocs bs' x <->
              match r with
              | Some q => x = q \/ (allocs bs x /\ x <> p)
              | None => allocs bs x /\ x <> p
              end.
Proof using sbrk_bound.
  intros H Hcomp Hadj Hin Hn0 Hlt Hr Htail.
  destruct (mm_malloc sbrk_ok fuel size s) as [[newptr s1]|] eqn:Em; [|discriminate].
  pose proof (mm_malloc_spec sbrk_ok sbrk_bound s bs L fuel size newptr s1
                H Hcomp Hadj Em) as Hm.
  destruct newptr as [q|].
  - destruct Hm as (bs1 & L1 & H1 & Hc1 & Ha1 & (T & HT & Hal)).
    assert (Hin1 : In (p, bsz, true) (blocks_at 136 bs1)) by (apply Hal; right; exact Hin).
    assert (Hq1 : In (q, T, true) (blocks_at 136 bs1)) by (apply Hal; left; auto).
    pose proof (rep_sizes _ _ _ _ H1) as Hs1.
    pose proof (rep_total_bound _ _ _ _ H1) as Hb1.
    destruct (block_node _ Hs1 Hb1 _ _ _ Hin1) as (_ & _ & _ & [Hb16 Hb8] & _).
    destruct (block_node _ Hs1 Hb1 _ _ _ Hq1) as (_ & _ & _ & [HT16 HT8] & _).
    assert (Hqp : q <> p).
    { intros ->.
      destruct (blocks_at_disjoint _ _ _ _ _ _ _ _ Hs1 Hin1 Hq1) as [(_ & E & _)|D]; lia. }
    cbv zeta in Hr.
    rewrite (block_size_read _ _ _ _ _ _ (rep_heap _ _ _ _ H1) Hin1) in Hr.
    set (m1 := memcpy q p bsz (heap_mem s1)) in *.
    assert (H1' : rep (heap_mem (with_mem s1 m1)) (heap_last_ptr (with_mem s1 m1)) bs1 L1).
    { cbn [with_mem heap_mem heap_last_ptr].
      apply (rep_payload_write (heap_mem s1) m1 _ bs1 L1 q T H1 Hq1).
      intros w Hw. apply memcpy_frame. lia. }
    destruct (mm_free_spec _ _ _ _ _ H1' Hc1 Ha1 Hin1)
      as (s2 & bs2 & L2 & Ef & _ & H2 & Hc2 & Ha2 & Hal2).
    rewrite Ef in Hr. cbn [option_map] in Hr. injection Hr as <- <-.
    exists bs2, L2. split; [exact H2|]. split; [exact Hc2|]. split; [exact Ha2|].
    intros x. unfold allocs. split.
    + intros (sz & Hx). apply Hal2 in Hx. destruct Hx as [Hx Hxp].
      apply Hal in Hx. destruct Hx as [[-> _]|Hx]; [left; reflexivity|].
      right. split; [exists sz; exact Hx|exact Hxp].
    + intros [->|[(sz & Hx) Hxp]].
      * exists T. apply Hal2. split; [exact Hq1|exact Hqp].
      * exists sz. apply Hal2. split; [|exact Hxp]. apply Hal. right. exact Hx.
  - destruct Hm as [[E0 _]|[_ Hsame]]; [contradiction|].
    cbv zeta in Hr.
    destruct (mm_free (Some p) (with_mem s1 (heap_mem s1))) as [s2|] eqn:Ef;
      [|discriminate].
    cbn [option_map] in Hr. injection Hr as <- <-.
    specialize (Hsame (Htail eq_refl)). subst s1.
    rewrite with_mem_self in Ef.
    destruct (mm_free_spec _ _ _ _ _ H Hcomp Hadj Hin)
      as (s2' & bs2 & L2 & Ef' & _ & H2 & Hc2 & Ha2 & Hal2).
    rewrite Ef in Ef'. injection Ef' as <-.
    exists bs2, L2. split; [exact H2|]. split; [exact Hc2|]. split; [exact Ha2|].
    intros x. unfold allocs. split.
    + intros (sz & Hx). apply Hal2 in Hx. destruct Hx as [Hx Hxp].
      split; [exists sz; exact Hx|exact Hxp].
    + intros [(sz & Hx) Hxp]. exists sz. apply Hal2. split; assumption.
Qed.

Lemma mm_realloc_spec s bs L fuel p bsz size r s' :
  rep (heap_mem s) (heap_last_ptr s) bs L -> complete bs L -> nadj true bs ->
  In (p, bsz, true) (blocks_at 136 bs) -> size <> 0 ->
  mm_realloc sbrk_ok fuel (Some p) size s = Some (r, s') ->
  (r = None -> is_forward_allocated (heap_last_ptr s) (heap_mem s) = true) ->
  exists bs' L',
    rep (heap_mem s') (heap_last_ptr s') bs' L' /\ complete bs' L' /\ nadj true bs' /\
    forall x, allocs bs' x <->
              match r with
              | Some q => x = q \/ (allocs bs x /\ x <> p)
              | None => allocs bs x /\
                        (get_back p (heap_mem s) = heap_last_ptr s \/ x <> p)
              end.
Proof using sbrk_bound.
  intros H Hcomp Hadj Hin Hn0 Hr Htail.
  pose proof (rep_sizes _ _ _ _ H) as Hs.
  pose proof (rep_total_bound _ _ _ _ H) as Hb.
  pose proof (rep_bound _ _ _ _ H) as Hbd.
  destruct (block_node _ Hs Hb _ _ _ Hin) as (_ & Hp136 & _ & [Hb16 Hb8] & _).
  destruct (align_size_good size) as [[Ha16 Ha8] Halt].
  assert (Esz : get_size p (heap_mem s) = bsz)
    by (apply (block_size_read _ _ _ _ _ _ (rep_heap _ _ _ _ H) Hin)).
  assert (Hself : forall x, allocs bs x <-> x = p \/ (allocs bs x /\ x <> p)).
  { intros x. split.
    - intros Hx. destruct (Z.eq_dec x p); auto.
    - intros [->|[Hx _]]; [exists bsz; exact Hin|exact Hx]. }
  unfold mm_realloc in Hr.
  destruct (Z.eqb_spec size 0) as [|_]; [contradiction|].
  cbv zeta in Hr. unfold get_back in Hr. rewrite Esz in Hr.
  destruct (Z.leb_spec (align_size size) bsz) as [Hle|Hgt].
  { (* shrink in place *)
    destruct (shrink_spec _ _ _ _ _ _ _ H Hcomp Hadj Hin (conj Ha16 Ha8) Hle)
      as (m' & bs' & L' & Esh & H' & Hc' & Ha' & Hsame).
    rewrite Esh in Hr. cbn [option_map fst snd] in Hr. injection Hr as <- <-.
    cbn [with_mem heap_mem heap_last_ptr].
    exists bs', L'. split; [exact H'|]. split; [exact Hc'|]. split; [exact Ha'|].
    intros x. rewrite <- Hself. apply Hsame. }
  rewrite sub32_small in Hr by lia.
  destruct (in_blocks_at_split _ _ _ _ _ Hin) as (pre & post & Ebs & Ep).
  assert (Ebs' : bs = pre ++ [(bsz, true)] ++ post) by exact Ebs. clear Ebs.
  subst bs.
  destruct (heap_mid _ _ _ _ _ _ (rep_heap _ _ _ _ H))
    as (_ & [Hh _] & Hnext & Hend & Hp0).
  rewrite <- Ep in Hh, Hnext, Hend.
  destruct Hnext as (Ens & Ena & _). rewrite Ens, Ena in Hr.
  destruct (negb (next_alloc post) && (align_size size - bsz <=? next_size post))
    eqn:Efit.
  { (* the successor is free and large enough *)
    apply andb_prop in Efit. destruct Efit as [Efree Efits].
    apply negb_true_iff in Efree. apply Z.leb_le in Efits.
    destruct (first_free_split _ Efree) as (nsz & post' & ->).
    cbn [next_size next_alloc] in *.
    pose proof (alloc_then_free _ _ _ _ _ _ _ H Hcomp) as X. cbv zeta in X.
    rewrite <- Ep in X.
    destruct X as (_ & _ & _ & _ & _ & _ & _ & _ & _ & _ & _ & Hn16 & Hn8 & Hend' & _).
    rewrite sub32_small in Hr by lia.
    rewrite Z.geb_leb in Hr.
    destruct (Z.leb_spec 16 (nsz - (align_size size - bsz))) as [Hbig|Hsmall].
    - pose proof (expand_split _ _ _ _ _ _ _ (align_size size) H Hcomp Hadj
                    (conj Ha16 Ha8) Hgt Hbig) as X. cbv zeta in X.
      rewrite <- Ep in X.
      destruct X as (m5 & bs' & L' & Eins & H' & Hc' & Ha' & Hsame).
      replace (p + bsz + (align_size size - bsz)) with (p + align_size size) in Hr by lia.
      rewrite Eins in Hr. injection Hr as <- <-.
      cbn [with_mem heap_mem heap_last_ptr].
      exists bs', L'. split; [exact H'|]. split; [exact Hc'|]. split; [exact Ha'|].
      intros x. rewrite <- Hself. apply Hsame.
    - pose proof (expand_absorb _ _ _ _ _ _ _ H Hcomp Hadj) as X. cbv zeta in X.
      rewrite <- Ep in X.
      destruct X as (bs' & L' & H' & Hc' & Ha' & Hsame).
      rewrite add32_small in Hr by lia.
      rewrite get_size_set_size_only_header in Hr by lia.
      injection Hr as <- <-.
      cbn [with_mem heap_mem heap_last_ptr].
      exists bs', L'. split; [exact H'|]. split; [exact Hc'|]. split; [exact Ha'|].
      intros x. rewrite <- Hself. apply Hsame. }
  destruct (Z.eqb_spec (p + bsz) (heap_last_ptr s)) as [Elast|Nlast].
  { (* the block is the last one: extend the heap *)
    assert (Hnil : post = []).
    { apply (post_nil_iff _ _ _ _ _ _ (rep_heap _ _ _ _ H)). lia. }
    subst post.
    destruct (sbrk_ok (heap_last_ptr s) (align_size size - bsz)) eqn:Esb;
      cbn [negb] in Hr.
    - injection Hr as <- <-. cbn [heap_mem heap_last_ptr].
      pose proof (grow_tail _ _ _ _ _ (align_size size) H Hcomp Hadj (conj Ha16 Ha8) Hgt
                    (sbrk_bound _ _ Esb)) as X. cbv zeta in X. rewrite <- Ep in X.
      destruct X as (H' & Hc' & Ha' & Hsame).
      exists (pre ++ [(align_size size, true)]), L.
      split; [exact H'|]. split; [exact Hc'|]. split; [exact Ha'|].
      intros x. rewrite <- Hself. apply Hsame.
    - injection Hr as <- <-.
      exists (pre ++ [(bsz, true)] ++ []), L.
      split; [exact H|]. split; [exact Hcomp|]. split; [exact Hadj|].
      intros x. unfold get_back. rewrite Esz. tauto. }
  (* move *)
  destruct (realloc_move s _ L fuel p bsz size r s' H Hcomp Hadj Hin Hn0 Hgt Hr Htail)
    as (bs' & L' & H' & Hc' & Ha' & Hal).
  exists bs', L'. split; [exact H'|]. split; [exact Hc'|]. split; [exact Ha'|].
  intros x. rewrite Hal. destruct r; [tauto|]. unfold get_back. rewrite Esz. tauto.
Qed.
End Realloc.

(** ** [mm_calloc] and writes of the client *)

Lemma memset_frame dst c len m w :
  w < dst \/ dst + len <= w -> memset dst c len m w = m w.
Proof.
  intros H. unfold memset.
  destruct (Z.leb_spec dst w); destruct (Z.ltb_spec w (dst + len)); cbn [andb];
    try reflexivity; lia.
Qed.

Lemma memset_zero dst len m w :
  dst <= w < dst + len -> memset dst 0 len m w = 0.
Proof.
  intros H. unfold memset.
  destruct (Z.leb_spec dst w); destruct (Z.ltb_spec w (dst + len)); cbn [andb];
    try reflexivity; lia.
Qed.

Lemma write_byte_frame a v m w : w <> a -> write_byte a v m w = m w.
Proof. intros H. unfold write_byte. destruct (Z.eqb_spec w a); [contradiction|reflexivity]. Qed.

(** Masking with [~7] rounds down to a multiple of 8. *)
Lemma land_NOT_7 x : 0 <= x < two32 -> Z.land x NOT_7 = x - x mod 8.
Proof.
  intros H.
  assert (E : Z.land x NOT_7 = Z.shiftl (Z.shiftr x 3) 3).
  { apply Z.bits_inj'. intros k Hk. rewrite Z.land_spec, testbit_NOT_7 by lia.
    rewrite Z.shiftl_spec by lia.
    destruct (Z.leb_spec 3 k).
    - rewrite Z.shiftr_spec by lia. replace (k - 3 + 3) with k by lia.
      destruct (Z.ltb_spec k 32); cbn [andb].
      + apply andb_true_r.
      + rewrite (testbit_high_32 x) by lia. reflexivity.
    - cbn [andb]. rewrite andb_false_r. symmetry. apply Z.testbit_neg_r. lia. }
  rewrite E, Z.shiftl_mul_pow2, Z.shiftr_div_pow2 by lia.
  change (2 ^ 3) with 8. lia.
Qed.

Lemma align_size_small n :
  0 <= n <= two32 - 12 -> n <> 448 ->
  align_size n = Z.max 16 (n + 11 - (n + 11) mod 8).
Proof.
  intros H N. unfold align_size. destruct (Z.eqb_spec n 448); [contradiction|].
  unfold wrap32. rewrite (Z.mod_small n) by (unfold two32 in *; lia).
  fold two32. rewrite (Z.mod_small (n + 11)) by (unfold two32 in *; lia).
  rewrite land_NOT_7 by (unfold two32 in *; lia).
  destruct (Z.ltb_spec (n + 11 - (n + 11) mod 8) 16); lia.
Qed.

(** A request of [n] bytes fits the payload of a block of [align_size n]. *)
Lemma align_size_fits n : 0 <= n <= two32 - 12 -> n + 4 <= align_size n.
Proof.
  intros H. destruct (Z.eq_dec n 448) as [->|N]; [cbv; discriminate|].
  rewrite align_size_small by assumption. lia.
Qed.

(** ... and is the smallest block size that does. *)
Lemma align_size_least n b :
  0 < n -> n <> 448 -> n + 4 <= b -> good_size b -> b < two32 -> align_size n <= b.
Proof.
  intros H N Hb [Hb16 Hb8] Hlt.
  rewrite align_size_small by (unfold two32 in *; lia). lia.
Qed.

Section Calloc.
Variable sbrk_ok : Z -> Z -> bool.
Hypothesis sbrk_bound : forall brk n, sbrk_ok brk n = true -> brk + n < two32.

Lemma mm_calloc_spec s bs L fuel nmemb size r s' :
  rep (heap_mem s) (heap_last_ptr s) bs L -> complete bs L -> nadj true bs ->
  wrap64 (nmemb * size) <= two32 - 12 ->
  mm_calloc sbrk_ok fuel nmemb size s = Some (r, s') ->
  match r with
  | Some p =>
      exists bs' L', rep (heap_mem s') (heap_last_ptr s') bs' L' /\
                     complete bs' L' /\ nadj true bs' /\
                     allocated_at bs bs' p (align_size (wrap64 (nmemb * size))) /\
                     forall w, p <= w < p + wrap64 (nmemb * size) -> heap_mem s' w = 0
  | None =>
      (wrap64 (nmemb * size) = 0 /\ s' = s) \/
      (wrap64 (nmemb * size) <> 0 /\
       (is_forward_allocated (heap_last_ptr s) (heap_mem s) = true -> s' = s))
  end.
Proof using sbrk_bound.
  intros H Hcomp Hadj Hfit Hr. unfold mm_calloc in Hr.
  set (N := wrap64 (nmemb * size)) in *.
  assert (HN : 0 <= N) by (apply Z.mod_pos_bound; reflexivity).
  destruct (mm_malloc sbrk_ok fuel N s) as [[[p|] s1]|] eqn:Em; [| |discriminate].
  - destruct (p + N <=? heap_last_ptr s1); [|discriminate].
    injection Hr as <- <-.
    destruct (mm_malloc_spec sbrk_ok sbrk_bound s bs L fuel N _ _ H Hcomp Hadj Em)
      as (bs' & L' & H' & Hc' & Ha' & Hal).
    exists bs', L'. cbn [with_mem heap_mem heap_last_ptr].
    pose proof Hal as (T & HT & Hiff).
    assert (Hp : In (p, T, true) (blocks_at 136 bs')) by (apply Hiff; left; auto).
    pose proof (align_size_fits N ltac:(lia)) as Hfits.
    split.
    { apply (rep_payload_write (heap_mem s1) _ _ bs' L' p T H' Hp).
      intros w Hw. apply memset_frame. lia. }
    split; [exact Hc'|]. split; [exact Ha'|]. split; [exact Hal|].
    intros w Hw. apply memset_zero. exact Hw.
  - injection Hr as <- <-.
    exact (mm_malloc_spec sbrk_ok sbrk_bound s bs L fuel N _ _ H Hcomp Hadj Em).
Qed.
End Calloc.

(** ** [mm_init] *)

Lemma init_links_frame l m w :
  (forall i, In i l -> w < i \/ i + 8 <= w) ->
  fold_left (fun m i => set_next i i (set_prev i i m)) l m w = m w.
Proof.
  revert m. induction l as [|a l IH]; intros m Hw; [reflexivity|].
  cbn [fold_left]. rewrite IH by (intros i Hi; apply Hw; right; exact Hi).
  pose proof (Hw a (or_introl eq_refl)).
  rewrite set_next_frame, set_prev_frame by lia. reflexivity.
Qed.

Lemma init_links_self l m i :
  NoDup l -> (forall j, In j l -> node_ok j) -> In i l ->
  let m' := fold_left (fun m i => set_next i i (set_prev i i m)) l m in
  get_next i m' = i /\ get_prev i m' = i.
Proof.
  revert m. induction l as [|a l IH]; intros m Hnd Hok Hi; [contradiction|].
  apply NoDup_cons_iff in Hnd. destruct Hnd as [Ha Hnd].
  cbn [fold_left]. destruct Hi as [->|Hi].
  - cbv zeta. pose proof (Hok i (or_introl eq_refl)) as [Hi32 Hi8].
    assert (Hfr : forall w, i <= w < i + 8 ->
              fold_left (fun m i => set_next i i (set_prev i i m)) l
                (set_next i i (set_prev i i m)) w = set_next i i (set_prev i i m) w).
    { intros w Hw. apply init_links_frame. intros j Hj.
      pose proof (Hok j (or_intror Hj)) as [_ Hj8].
      assert (j <> i) by (intros ->; contradiction). lia. }
    split.
    + rewrite (get_next_frame i (set_next i i (set_prev i i m)))
        by (intros w Hw; apply Hfr; lia).
      apply get_next_set_next. exact Hi32.
    + rewrite (get_prev_frame i (set_next i i (set_prev i i m)))
        by (intros w Hw; apply Hfr; lia).
      rewrite (get_prev_frame i (set_prev i i m))
        by (intros w Hw; apply set_next_frame; lia).
      apply get_prev_set_prev. exact Hi32.
  - apply IH; [exact Hnd| |exact Hi]. intros j Hj. apply Hok. right. exact Hj.
Qed.

Lemma sentinels_nodup : NoDup (map (fun k => 8 * Z.of_nat k) (seq 0 16)).
Proof.
  cbn. repeat (constructor; [cbn; intuition lia|]). constructor.
Qed.

Lemma sentinels_in c : 12 <= c <= 27 -> In (sent c) (map (fun k => 8 * Z.of_nat k) (seq 0 16)).
Proof.
  intros Hc. apply in_map_iff. exists (Z.to_nat (27 - c)). split.
  - unfold sent. lia.
  - apply in_seq. lia.
Qed.

Lemma sentinels_ok j : In j (map (fun k => 8 * Z.of_nat k) (seq 0 16)) -> node_ok j /\ j + 8 <= 128.
Proof.
  intros Hj. apply in_map_iff in Hj. destruct Hj as (k & <- & Hk). apply in_seq in Hk.
  unfold node_ok, two32. lia.
Qed.

Section Init.
Variable sbrk_ok : Z -> Z -> bool.

Lemma mm_init_fail m0 :
  sbrk_ok 0 EXTEND_SIZE = false -> mm_init sbrk_ok m0 = Some (-1, mkState m0 0).
Proof. intros E. unfold mm_init. rewrite E. reflexivity. Qed.

Lemma mm_init_spec m0 :
  sbrk_ok 0 EXTEND_SIZE = true ->
  exists s, mm_init sbrk_ok m0 = Some (0, s) /\ heap_last_ptr s = 4096 /\
            rep (heap_mem s) 4096 [(3960, false)] init_lists /\
            complete [(3960, false)] init_lists.
Proof.
  intros E. unfold mm_init. rewrite E. cbn [negb]. cbv zeta.
  change (0 + EXTEND_SIZE) with 4096. change (EXTEND_SIZE - 128 - 8) with 3960.
  change (Z.lor (Z.lor 0 ALLOCATED) FORWARD_FREE) with 1.
  set (m1 := fold_left _ _ m0).
  set (m2 := set_size 136 3960 m1).
  set (m3 := unset_allocated_flag 136 m2).
  set (m4 := set_forward_allocated_flag 136 m3).
  set (m5 := set_header 4096 1 m4).
  assert (Fr : forall w, w < 132 -> m5 w = m1 w).
  { intros w Hw. unfold m5, m4, m3, m2.
    rewrite set_header_frame, set_forward_allocated_flag_frame,
      unset_allocated_flag_frame, set_size_frame by lia. reflexivity. }
  assert (H4 : hdr_is m4 136 3960 false true).
  { unfold m4, m3, m2. apply hdr_is_set_forward_allocated_flag with (pa := is_forward_allocated 136 m1).
    apply hdr_is_unset_allocated_flag with (al := is_allocated 136 m1).
    apply hdr_is_set_size with (sz := get_size 136 m1); [apply hdr_is_self| |reflexivity].
    unfold two32. lia. }
  assert (F5 : read_word (136 + 3960 - 8) m5 = 3960).
  { transitivity (read_word (136 + 3960 - 8) m2);
      [|apply footer_set_size; unfold two32; lia].
    apply read_word_ext. intros w Hw. unfold m5, m4, m3.
    rewrite set_header_frame, set_forward_allocated_flag_frame,
      unset_allocated_flag_frame by lia. reflexivity. }
  assert (Hrep5 : rep m5 4096 [(3960, false)] (fun _ => [])).
  { constructor.
    - split; [|split].
      + cbn [seg]. split; [split; [lia|reflexivity]|]. split; [|exact I]. split.
        * apply hdr_is_frame with (m := m4); [exact H4|].
          intros w Hw. apply set_header_frame. lia.
        * intros _. exact F5.
      + reflexivity.
      + cbn [last_alloc]. apply hdr_is_sentinel_free.
    - reflexivity.
    - intros c Hc. split; [|constructor].
      pose proof (sentinels_ok _ (sentinels_in c Hc)) as [Hok Hlt].
      destruct (init_links_self _ m0 (sent c) sentinels_nodup
                  (fun j Hj => proj1 (sentinels_ok j Hj)) (sentinels_in c Hc))
        as [Hn Hp].
      fold m1 in Hn, Hp. unfold dll. cbn [dseg]. split.
      + rewrite <- Hn at 2. apply get_next_frame. intros w Hw. apply Fr. lia.
      + rewrite <- Hp at 2. apply get_prev_frame. intros w Hw. apply Fr. lia.
    - intros c x Hc []. }
  destruct (rep_link m5 4096 [(3960, false)] (fun _ => []) 136 3960 Hrep5)
    as [Eins Hrep6].
  { cbn [blocks_at In]. left. reflexivity. }
  { intros []. }
  rewrite Eins. eexists. split; [reflexivity|]. cbn [heap_mem heap_last_ptr].
  split; [reflexivity|]. split; [exact Hrep6|].
  intros x sz Hx. cbn [blocks_at In] in Hx. destruct Hx as [Hx|[]].
  injection Hx as <- <-. cbv. left. reflexivity.
Qed.
End Init.

(** ** The layout and the lists are determined by the memory *)

Lemma seg_unique m p pa pa' bs bs' :
  seg m p pa bs -> seg m p pa' bs' -> total bs = total bs' -> bs = bs'.
Proof.
  revert p pa pa' bs'. induction bs as [|[sz al] bs IH]; intros p pa pa' bs' H H' Ht.
  - destruct bs' as [|[sz' al'] bs']; [reflexivity|].
    pose proof (seg_sizes _ _ _ _ H') as Hs. apply Forall_cons_iff in Hs as [[Hg _] Hs].
    pose proof (total_nonneg _ Hs). cbn [total fst] in *. lia.
  - pose proof (seg_sizes _ _ _ _ H) as Hs. apply Forall_cons_iff in Hs as [[Hg _] Hs].
    pose proof (total_nonneg _ Hs) as Hn.
    destruct bs' as [|[sz' al'] bs']; [cbn [total fst] in *; lia|].
    cbn [seg] in H, H'. destruct H as (_ & [(E1 & E2 & _) _] & H).
    destruct H' as (_ & [(E1' & E2' & _) _] & H').
    assert (Es : sz' = sz) by congruence. assert (Ea : al' = al) by congruence.
    clear E1 E2 E1' E2'. subst sz' al'.
    f_equal. apply (IH (p + sz) al al bs' H H'). cbn [total] in Ht. lia.
Qed.

Lemma heap_ok_unique m hl bs bs' : heap_ok m hl bs -> heap_ok m hl bs' -> bs = bs'.
Proof.
  intros (H & E & _) (H' & E' & _). apply (seg_unique m 136 true true bs bs' H H'). lia.
Qed.

Lemma dseg_unique m a l l' b :
  dseg m a l b -> dseg m a l' b -> ~ In b l -> ~ In b l' -> l = l'.
Proof.
  revert a l'. induction l as [|y l IH]; intros a l' H H' Hb Hb'.
  - destruct l' as [|y' l']; [reflexivity|]. cbn [dseg] in H, H'.
    destruct H as [E _]. destruct H' as (E' & _). exfalso. apply Hb'. left. congruence.
  - destruct l' as [|y' l']; cbn [dseg] in H, H'.
    + destruct H as (E & _). destruct H' as [E' _]. exfalso. apply Hb. left. congruence.
    + destruct H as (E & _ & H). destruct H' as (E' & _ & H').
      assert (Ey : y' = y) by congruence. clear E E'. subst y'. f_equal.
      apply (IH y l' H H'); intros Hin; [apply Hb|apply Hb']; right; exact Hin.
Qed.

(** The nodes met from the sentinel of class [c] are the abstract list. *)
Lemma on_list_iff m hl bs L c x :
  rep m hl bs L -> 12 <= c <= 27 -> (on_list m c x <-> In x (L c)).
Proof.
  intros H Hc. pose proof (rep_sizes _ _ _ _ H) as Hs.
  pose proof (rep_total_bound _ _ _ _ H) as Hb.
  destruct (rep_lists _ _ _ _ H c Hc) as [Hd _].
  assert (Hns : ~ In (sent c) (L c)).
  { apply (sent_not_node bs L Hs Hb (rep_nodes _ _ _ _ H)); assumption. }
  split.
  - intros (l & Hl & Hnl & Hx).
    rewrite (dseg_unique _ _ _ _ _ Hd Hl Hns Hnl). exact Hx.
  - intros Hx. exists (L c). auto.
Qed.

(** ** The end of the heap never moves down *)

Section Last.
Variable sbrk_ok : Z -> Z -> bool.

Lemma extend_heap_last aligned s r s' :
  extend_heap sbrk_ok aligned s = Some (r, s') -> heap_last_ptr s <= heap_last_ptr s'.
Proof.
  unfold extend_heap. intros H.
  destruct (is_forward_allocated (heap_last_ptr s) (heap_mem s)).
  - cbv zeta in H.
    destruct (sbrk_ok _ _); cbn [negb] in H; [|injection H as <- <-; lia].
    destruct (place _ _ _ _) as [[p m4]|]; [|discriminate].
    injection H as <- <-. cbn [heap_last_ptr]. unfold EXTEND_SIZE.
    destruct (Z.gtb_spec aligned 4096); lia.
  - cbv zeta in H.
    destruct (sbrk_ok _ _); cbn [negb] in H;
      [|injection H as <- <-; cbn [heap_last_ptr]; lia].
    destruct (place _ _ _ _) as [[p m4]|]; [|discriminate].
    injection H as <- <-. cbn [heap_last_ptr]. unfold EXTEND_SIZE.
    match goal with |- context [if ?c then _ else _] => destruct c eqn:E end;
      [apply Z.gtb_lt in E|]; lia.
Qed.

Lemma mm_malloc_last fuel size s r s' :
  mm_malloc sbrk_ok fuel size s = Some (r, s') -> heap_last_ptr s <= heap_last_ptr s'.
Proof.
  unfold mm_malloc. intros H. destruct (size =? 0); [injection H as <- <-; lia|].
  cbv zeta in H. destruct (find_fit_in_index_th_list _ _ _ _) as [[[p|] m']|];
    [| |discriminate].
  - injection H as <- <-. cbn. lia.
  - apply extend_heap_last in H. cbn in H. exact H.
Qed.

Lemma mm_free_last p s s' : mm_free p s = Some s' -> heap_last_ptr s' = heap_last_ptr s.
Proof.
  unfold mm_free. intros H. destruct p as [p|]; [|injection H as <-; reflexivity].
  cbv zeta in H.
  repeat match type of H with
         | (if ?c then _ else _) = _ => destruct c
         end;
    match type of H with
    | option_map _ ?i = _ => destruct i; [|discriminate]
    end; injection H as <-; reflexivity.
Qed.

Lemma mm_realloc_last fuel p size s r s' :
  mm_realloc sbrk_ok fuel p size s = Some (r, s') -> heap_last_ptr s <= heap_last_ptr s'.
Proof.
  unfold mm_realloc. intros H. destruct p as [p|]; [|eapply mm_malloc_last; eauto].
  destruct (size =? 0).
  { destruct (mm_free (Some p) s) as [s2|] eqn:E; [|discriminate].
    injection H as <- <-. rewrite (mm_free_last _ _ _ E). lia. }
  cbv zeta in H.
  destruct (_ <=? _).
  { destruct (shrink _ _ _ _) as [[q m']|]; [|discriminate].
    injection H as <- <-. cbn. lia. }
  destruct (_ && _).
  { destruct (_ >=? _).
    - destruct (insert _ _ _); [|discriminate]. injection H as <- <-. cbn. lia.
    - injection H as <- <-. cbn. lia. }
  destruct (_ =? _).
  { destruct (sbrk_ok _ _); cbn [negb] in H; injection H as <- <-; [|lia].
    cbn [heap_last_ptr]. unfold sub32, wrap32, two32. lia. }
  destruct (mm_malloc sbrk_ok fuel size s) as [[q s1]|] eqn:Em; [|discriminate].
  apply mm_malloc_last in Em.
  destruct (mm_free _ _) as [s2|] eqn:Ef; [|discriminate].
  apply mm_free_last in Ef. injection H as <- <-. cbn in Ef. lia.
Qed.

Lemma mm_calloc_last fuel nmemb size s r s' :
  mm_calloc sbrk_ok fuel nmemb size s = Some (r, s') -> heap_last_ptr s <= heap_last_ptr s'.
Proof.
  unfold mm_calloc. intros H.
  destruct (mm_malloc _ _ _ _) as [[[p|] s1]|] eqn:Em; [| |discriminate];
    [destruct (_ <=? _); [|discriminate]|];
    apply mm_malloc_last in Em; injection H as <- <-; cbn; lia.
Qed.

Lemma reachable_last s live : reachable sbrk_ok s live -> 4096 <= heap_last_ptr s.
Proof.
  induction 1 as [m0 s E
                 |s live fuel size r s' _ IH Hm Hcl
                 |s live p s' _ IH Hp Hf
                 |s live fuel size r s' _ IH Hm Hcl
                 |s live fuel p size r s' _ IH Hp Hm Hcl
                 |s live fuel nmemb size r s' _ IH Hfit Hm Hcl
                 |s live p a v _ IH Hp Ha].
  - destruct (sbrk_ok 0 EXTEND_SIZE) eqn:Esb.
    + destruct (mm_init_spec sbrk_ok m0 Esb) as (s0 & E0 & Ehl & _).
      rewrite E0 in E. injection E as <-. lia.
    + rewrite (mm_init_fail sbrk_ok m0 Esb) in E. discriminate E.
  - apply mm_malloc_last in Hm. lia.
  - apply mm_free_last in Hf. lia.
  - apply mm_realloc_last in Hm. lia.
  - apply mm_realloc_last in Hm. lia.
  - apply mm_calloc_last in Hm. lia.
  - cbn. exact IH.
Qed.
End Last.

(** ** The search terminates *)

(** A list holds no more nodes than the chain has blocks. *)
Lemma list_length_bound m hl bs L c :
  rep m hl bs L -> 12 <= c <= 27 -> (length (L c) <= length bs)%nat.
Proof.
  intros H Hc.
  replace (length bs) with (length (map (fun b => fst (fst b)) (blocks_at 136 bs))).
  - apply NoDup_incl_length; [apply (rep_lists _ _ _ _ H c Hc)|].
    intros x Hx. destruct (rep_nodes _ _ _ _ H c x Hc Hx) as (sz & Hin & _).
    apply in_map_iff. exists (x, sz, false). auto.
  - rewrite length_map. clear H. generalize 136.
    induction bs as [|[sz al] bs IH]; intros p.
    + reflexivity.
    + cbn [blocks_at length]. rewrite IH. reflexivity.
Qed.

Lemma find_fit_loop_total rounds fuel m hl bs L aligned i :
  rep m hl bs L -> complete bs L -> nadj true bs -> good_size aligned ->
  12 <= i <= 27 -> i - 11 <= Z.of_nat rounds -> (length bs < fuel)%nat ->
  exists r m', find_fit_loop rounds fuel aligned i m = Some (r, m').
Proof.
  intros H Hcomp Hadj Hga. revert i.
  induction rounds as [|rounds IH]; intros i Hi Hr Hf; [lia|].
  pose proof (rep_sizes _ _ _ _ H) as Hs.
  pose proof (rep_total_bound _ _ _ _ H) as Hb.
  cbn [find_fit_loop]. rewrite begins_sent by exact Hi.
  destruct (rep_lists _ _ _ _ H i Hi) as [Hd _].
  pose proof (list_length_bound _ _ _ _ i H Hi) as Hlen.
  pose proof (scan_list_spec fuel aligned m (sent i) (L i) (sent i) Hd
                (sent_not_node bs L Hs Hb (rep_nodes _ _ _ _ H) i i Hi Hi)
                ltac:(lia)) as Es.
  pose proof (scan_round _ _ _ _ _ _ _ _ H Hcomp Hadj Hga Hi Es) as Hround.
  rewrite Es. destruct (find _ (L i)) as [p|].
  - destruct Hround as (m1 & bs' & L' & Hpl & _). rewrite Hpl. eauto.
  - rewrite sub32_small by (unfold two32; lia).
    destruct (Z.gtb_spec (i - 1) 11) as [Hgt|Hle]; [|eauto].
    apply IH; lia.
Qed.

Lemma find_fit_total fuel m hl bs L aligned :
  rep m hl bs L -> complete bs L -> nadj true bs -> good_size aligned ->
  aligned < 2 ^ 31 -> (16 <= fuel)%nat -> (length bs < fuel)%nat ->
  exists r m', find_fit_in_index_th_list fuel aligned (get_index aligned) m = Some (r, m').
Proof.
  intros H Hcomp Hadj Hga Hlt Hf16 Hf. unfold find_fit_in_index_th_list.
  pose proof Hga as [Hg16 _].
  pose proof (get_index_range aligned ltac:(unfold two32; lia)) as Hi.
  assert (Hi1 : 1 <= get_index aligned).
  { unfold get_index. destruct (Z.eqb_spec aligned 0); [lia|].
    assert (Z.log2 aligned < 31) by (apply Z.log2_lt_pow2; lia). lia. }
  destruct (Z.le_gt_cases 12 (get_index aligned)) as [Hhi|Hlo].
  - apply (find_fit_loop_total fuel fuel m hl bs L aligned _ H Hcomp Hadj Hga); lia.
  - pose proof (rep_sizes _ _ _ _ H) as Hs.
    pose proof (rep_total_bound _ _ _ _ H) as Hb.
    destruct fuel as [|fuel']; [lia|]. cbn [find_fit_loop].
    rewrite begins_low by lia.
    assert (H12 : 12 <= 12 <= 27) by lia.
    destruct (rep_lists _ _ _ _ H 12 H12) as [Hd _].
    pose proof (list_length_bound _ _ _ _ 12 H H12) as Hlen.
    pose proof (scan_list_spec (S fuel') aligned m (sent 12) (L 12) (sent 12) Hd
                  (sent_not_node bs L Hs Hb (rep_nodes _ _ _ _ H) 12 12 H12 H12)
                  ltac:(lia)) as Es.
    pose proof (scan_round _ _ _ _ _ _ _ _ H Hcomp Hadj Hga H12 Es) as Hround.
    rewrite Es. destruct (find _ (L 12)) as [p|].
    + destruct Hround as (m1 & bs' & L' & Hpl & _). rewrite Hpl. eauto.
    + rewrite sub32_small by (unfold two32; lia).
      destruct (Z.gtb_spec (get_index aligned - 1) 11) as [Hgt|Hle]; [lia|eauto].
Qed.

(** A request that some free block can hold is served from the lists. *)
Lemma malloc_from_lists sbrk_ok fuel size s bs L x sz :
  rep (heap_mem s) (heap_last_ptr s) bs L -> complete bs L -> nadj true bs ->
  size <> 0 -> In (x, sz, false) (blocks_at 136 bs) -> align_size size <= sz ->
  align_size size < 2 ^ 31 -> (16 <= fuel)%nat -> (length bs < fuel)%nat ->
  exists p s' bs' L',
    mm_malloc sbrk_ok fuel size s = Some (Some p, s') /\
    heap_last_ptr s' = heap_last_ptr s /\
    rep (heap_mem s') (heap_last_ptr s') bs' L' /\ complete bs' L' /\ nadj true bs' /\
    carved bs bs' p (align_size size).
Proof.
  intros H Hcomp Hadj Hn0 Hin Hle Hlt Hf16 Hf.
  destruct (align_size_good size) as [Hga Hlt32].
  pose proof (rep_sizes _ _ _ _ H) as Hs.
  destruct (find_fit_total fuel _ _ _ _ _ H Hcomp Hadj Hga Hlt Hf16 Hf) as (r & m' & Ef).
  unfold mm_malloc. destruct (Z.eqb_spec size 0) as [|_]; [contradiction|].
  cbv zeta. rewrite Ef.
  destruct (find_fit_spec _ _ _ _ _ _ _ _ H Hcomp Hadj Hga Hlt32 Ef)
    as [(_ & _ & Hnofit)|(p & bs' & L' & -> & Hrep' & Hc' & Hcv)].
  - specialize (Hnofit _ _ Hin). lia.
  - exists p, (with_mem s m'), bs', L'. cbn [with_mem heap_mem heap_last_ptr].
    split; [reflexivity|]. split; [reflexivity|]. split; [exact Hrep'|].
    split; [exact Hc'|]. split; [|exact Hcv].
    apply (carved_facts _ _ _ _ Hs Hadj Hcv).
Qed.

(** ** The calls return *)

Lemma length_bound bs : sizes_ok bs -> 16 * Z.of_nat (length bs) <= total bs.
Proof.
  induction 1 as [|[sz al] bs [Hg _] _ IH]; cbn [length total fst] in *; lia.
Qed.

Lemma fuel_enough m hl bs L fuel :
  rep m hl bs L -> hl <= 16 * Z.of_nat fuel -> (length bs < fuel)%nat.
Proof.
  intros H Hf. pose proof (length_bound bs (rep_sizes _ _ _ _ H)).
  destruct (rep_heap _ _ _ _ H) as (_ & E & _). lia.
Qed.

Section Total.
Variable sbrk_ok : Z -> Z -> bool.
Hypothesis sbrk_bound : forall brk n, sbrk_ok brk n = true -> brk + n < two32.

Lemma mm_malloc_total fuel size s bs L :
  rep (heap_mem s) (heap_last_ptr s) bs L -> complete bs L -> nadj true bs ->
  align_size size < 2 ^ 31 -> (16 <= fuel)%nat -> (length bs < fuel)%nat ->
  exists r s', mm_malloc sbrk_ok fuel size s = Some (r, s').
Proof using sbrk_bound.
  intros H Hcomp Hadj Hlt Hf16 Hf. unfold mm_malloc.
  destruct (size =? 0); [eauto|]. cbv zeta.
  destruct (align_size_good size) as [Hga Hlt32].
  destruct (find_fit_total fuel _ _ _ _ _ H Hcomp Hadj Hga Hlt Hf16 Hf) as (r & m' & Ef).
  rewrite Ef.
  destruct (find_fit_spec _ _ _ _ _ _ _ _ H Hcomp Hadj Hga Hlt32 Ef)
    as [(-> & -> & Hnofit)|(p & bs' & L' & -> & _)]; [|eauto].
  rewrite with_mem_self.
  exact (extend_heap_total sbrk_ok sbrk_bound s bs L _ H Hcomp Hadj Hga Hlt32 Hnofit).
Qed.

Lemma mm_calloc_total fuel nmemb size s bs L :
  rep (heap_mem s) (heap_last_ptr s) bs L -> complete bs L -> nadj true bs ->
  wrap64 (nmemb * size) <= two32 - 12 ->
  align_size (wrap64 (nmemb * size)) < 2 ^ 31 ->
  (16 <= fuel)%nat -> (length bs < fuel)%nat ->
  exists r s', mm_calloc sbrk_ok fuel nmemb size s = Some (r, s').
Proof using sbrk_bound.
  intros H Hcomp Hadj Hfit Hlt Hf16 Hf. unfold mm_calloc.
  set (N := wrap64 (nmemb * size)) in *.
  assert (HN : 0 <= N) by (apply Z.mod_pos_bound; reflexivity).
  destruct (mm_malloc_total fuel N s bs L H Hcomp Hadj Hlt Hf16 Hf) as (r & s' & Em).
  rewrite Em. destruct r as [p|]; [|eauto].
  destruct (mm_malloc_spec sbrk_ok sbrk_bound s bs L fuel N _ _ H Hcomp Hadj Em)
    as (bs' & L' & H' & _ & _ & (T & HT & Hiff)).
  assert (Hp : In (p, T, true) (blocks_at 136 bs')) by (apply Hiff; left; auto).
  destruct (block_node _ (rep_sizes _ _ _ _ H') (rep_total_bound _ _ _ _ H') _ _ _ Hp)
    as (_ & _ & Hend & _).
  destruct (rep_heap _ _ _ _ H') as (_ & Ehl & _).
  pose proof (align_size_fits N ltac:(lia)) as Hfits.
  replace (p + N <=? heap_last_ptr s') with true by (symmetry; apply Z.leb_le; lia).
  eauto.
Qed.
End Total.

(** Requests below [2^31 - 12] bytes are aligned to less than [2^31]. *)
Lemma align_size_below n : 0 <= n <= 2 ^ 31 - 12 -> align_size n < 2 ^ 31.
Proof.
  intros H. destruct (Z.eq_dec n 448) as [->|N]; [reflexivity|].
  rewrite align_size_small by (unfold two32; lia). lia.
Qed.

(** ** Consequences of the invariant *)

(** A chain without allocated blocks and without adjacent free blocks has
    at most one block. *)
Lemma nadj_all_free p bs :
  nadj true bs -> (forall x sz, ~ In (x, sz, true) (blocks_at p bs)) ->
  bs = [] \/ exists sz, bs = [(sz, false)].
Proof.
  intros Hadj Hno. destruct bs as [|[sz al] bs]; [left; reflexivity|right].
  destruct al; [exfalso; apply (Hno p sz); left; reflexivity|].
  exists sz. f_equal. destruct bs as [|[sz2 al2] bs]; [reflexivity|exfalso].
  cbn [nadj] in Hadj. destruct Hadj as (_ & Hal & _).
  rewrite (Hal eq_refl) in Hno. apply (Hno (p + sz) sz2). cbn [blocks_at In]. auto.
Qed.

(** The block after a free block, or the sentinel, is allocated. *)
Lemma free_then_allocated m hl bs x sz :
  heap_ok m hl bs -> nadj true bs -> In (x, sz, false) (blocks_at 136 bs) ->
  is_allocated x m = false /\ is_allocated (x + sz) m = true.
Proof.
  intros H Hadj Hin.
  destruct (in_blocks_at_split _ _ _ _ _ Hin) as (pre & post & Ebs & Ep).
  assert (Ebs' : bs = pre ++ [(sz, false)] ++ post) by exact Ebs. clear Ebs. subst bs.
  destruct (heap_mid _ _ _ _ _ _ H) as (_ & [(_ & Hal & _) _] & (_ & Hnext & _) & _).
  rewrite <- Ep in Hal, Hnext. split; [exact Hal|]. rewrite Hnext.
  apply nadj_app in Hadj. destruct Hadj as [_ Hadj]. cbn [app nadj] in Hadj.
  destruct Hadj as [_ Hpost]. destruct post as [|[s a] post]; [reflexivity|].
  cbn [nadj next_alloc] in *. destruct Hpost as [Ha _]. auto.
Qed.

(** The class of a size, by the tables of [mm_init]. *)
Lemma class_bounds sz :
  16 <= sz < two32 -> sz mod 8 = 0 ->
  list_min_block_size (class_of sz) <= sz < list_max_block_size (class_of sz).
Proof.
  intros H H8. pose proof (class_of_range sz H) as Hc.
  unfold list_min_block_size, list_max_block_size.
  destruct (Z.leb_spec 12 (class_of sz)); [|lia].
  destruct (Z.leb_spec (class_of sz) 27); [|lia]. cbn [andb].
  rewrite !Z.shiftl_1_l.
  assert (Hlog : 2 ^ Z.log2 sz <= sz < 2 ^ Z.succ (Z.log2 sz)) by (apply Z.log2_spec; lia).
  unfold class_of, get_index in *. destruct (Z.eqb_spec sz 0); [lia|].
  destruct (Z.eqb_spec (Z.max 12 (31 - Z.log2 sz)) 12) as [E|D].
  - assert (Hl : 19 <= Z.log2 sz) by lia.
    assert (2 ^ 19 <= 2 ^ Z.log2 sz) by (apply Z.pow_le_mono_r; lia).
    rewrite E. change (31 - 12) with 19. unfold two32 in *. lia.
  - rewrite Z.max_r by lia.
    replace (31 - (31 - Z.log2 sz)) with (Z.log2 sz) by lia.
    replace (32 - (31 - Z.log2 sz)) with (Z.succ (Z.log2 sz)) by lia. exact Hlog.
Qed.

Lemma class_of_cases sz :
  16 <= sz < two32 -> class_of sz = if 2 ^ 19 <=? sz then 12 else 31 - Z.log2 sz.
Proof.
  intros H. unfold class_of, get_index. destruct (Z.eqb_spec sz 0); [lia|].
  destruct (Z.leb_spec (2 ^ 19) sz) as [Hge|Hlt].
  - assert (19 <= Z.log2 sz).
    { change 19 with (Z.log2 (2 ^ 19)). apply Z.log2_le_mono. exact Hge. }
    lia.
  - assert (Z.log2 sz < 19) by (apply Z.log2_lt_pow2; lia). lia.
Qed.

(** [x & ~7] on the integers. *)
Lemma land_lnot_7 x : Z.land x (Z.lnot 7) = x - x mod 8.
Proof.
  rewrite <- Z.ldiff_land. change 7 with (Z.ones 3).
  rewrite Z.ldiff_ones_r by lia.
  rewrite Z.shiftl_mul_pow2, Z.shiftr_div_pow2 by lia. change (2 ^ 3) with 8. lia.
Qed.

(** Unlinking a node changes the memory. *)
Lemma unlink_changes m hl bs L c x :
  rep m hl bs L -> 12 <= c <= 27 -> In x (L c) -> delete_block x m <> m.
Proof.
  intros H Hc Hx E.
  destruct (rep_unlink _ _ _ _ _ _ H Hc Hx) as (l1 & l2 & El & H1).
  rewrite E in H1.
  pose proof (rep_sizes _ _ _ _ H) as Hs.
  pose proof (rep_total_bound _ _ _ _ H) as Hb.
  destruct (rep_lists _ _ _ _ H c Hc) as [Hd _].
  destruct (rep_lists _ _ _ _ H1 c Hc) as [Hd1 _].
  pose proof (dseg_unique _ _ _ _ _ Hd Hd1
                (sent_not_node bs L Hs Hb (rep_nodes _ _ _ _ H) c c Hc Hc)
                (sent_not_node bs _ Hs Hb (rep_nodes _ _ _ _ H1) c c Hc Hc)) as Eq.
  rewrite upd_same, El in Eq. apply (f_equal (@length Z)) in Eq.
  rewrite !length_app in Eq. cbn [length] in Eq. lia.
Qed.

(** Carving a request out of a chain whose only free block is known. *)
Lemma carved_only pre0 b post0 bs' p aligned :
  (forall x sz, ~ In (x, sz, false) (blocks_at 136 pre0)) ->
  (forall x sz, ~ In (x, sz, false) (blocks_at (136 + total pre0 + b) post0)) ->
  carved (pre0 ++ [(b, false)] ++ post0) bs' p aligned ->
  p = 136 + total pre0 /\ aligned <= b /\
  bs' = pre0 ++ (if b - aligned <? 16 then [(b, true)]
                 else [(aligned, true); (b - aligned, false)]) ++ post0.
Proof.
  intros Hpre Hpost (pre & bsz & post & new & E & -> & -> & Hle & Hshape).
  assert (Hsplit : pre = pre0 /\ bsz = b /\ post = post0).
  { clear Hshape Hle. revert pre E Hpre Hpost. generalize 136.
    induction pre0 as [|[s0 a0] pre0 IH]; intros q pre E Hpre Hpost.
    - destruct pre as [|[s1 a1] pre]; cbn [app] in E.
      + injection E as E1 E2. auto.
      + exfalso. injection E as E1 E2 E3.
        apply (Hpost (q + total [] + b + total pre) bsz).
        rewrite E3. apply in_blocks_at_mid.
    - destruct pre as [|[s1 a1] pre]; cbn [app] in E.
      + exfalso. injection E as E1 E2 E3.
        apply (Hpre q s0). rewrite E2. cbn [blocks_at In]. left. reflexivity.
      + injection E as E1 E2 E3.
        destruct (IH (q + s0) pre E3) as (Ea & Eb & Ec).
        * intros x sz Hx. apply (Hpre x sz). cbn [blocks_at In]. right. exact Hx.
        * intros x sz Hx. apply (Hpost x sz). cbn [total].
          replace (q + (s0 + total pre0) + b) with (q + s0 + total pre0 + b) by lia.
          exact Hx.
        * split; [|auto]. rewrite <- E1, <- E2, Ea. reflexivity. }
  destruct Hsplit as (-> & -> & ->). split; [reflexivity|]. split; [exact Hle|].
  destruct Hshape as [[Hs ->]|[Hs ->]]; destruct (Z.ltb_spec (b - aligned) 16);
    try lia; reflexivity.
Qed.

(** ** The block returned by [mm_malloc] was not allocated *)

Lemma free_not_allocated bs x sz :
  sizes_ok bs -> In (x, sz, false) (blocks_at 136 bs) -> ~ allocs bs x.
Proof.
  intros Hs Hin (sz' & Hx).
  pose proof (in_blocks_at_range _ _ _ _ _ Hs Hin) as (_ & _ & [? _] & _).
  pose proof (in_blocks_at_range _ _ _ _ _ Hs Hx) as (_ & _ & [? _] & _).
  destruct (blocks_at_disjoint _ _ _ _ _ _ _ _ Hs Hin Hx) as [(_ & _ & E)|D];
    [discriminate E|lia].
Qed.

Lemma carved_fresh bs bs' p aligned :
  sizes_ok bs -> carved bs bs' p aligned -> ~ allocs bs p.
Proof.
  intros Hs (pre & bsz & post & new & -> & _ & -> & _).
  apply (free_not_allocated _ _ bsz Hs). apply in_blocks_at_mid.
Qed.

Lemma grown_fresh bs bs' p aligned :
  sizes_ok bs -> grown bs bs' p aligned -> ~ allocs bs p.
Proof.
  intros Hs (pre & old & new & T & -> & _ & -> & Hold & _).
  destruct Hold as [->|(fsz & ->)].
  - rewrite app_nil_r in *. intros (sz & Hx).
    pose proof (in_blocks_at_range _ _ _ _ _ Hs Hx) as (_ & ? & [? _] & _). lia.
  - apply (free_not_allocated _ _ fsz Hs). apply in_blocks_at_mid.
Qed.

Section Fresh_block.
Variable sbrk_ok : Z -> Z -> bool.
Hypothesis sbrk_bound : forall brk n, sbrk_ok brk n = true -> brk + n < two32.

Lemma mm_malloc_fresh s bs L fuel size p s' :
  rep (heap_mem s) (heap_last_ptr s) bs L -> complete bs L -> nadj true bs ->
  mm_malloc sbrk_ok fuel size s = Some (Some p, s') -> ~ allocs bs p.
Proof using sbrk_bound.
  intros H Hcomp Hadj Hr. unfold mm_malloc in Hr.
  destruct (Z.eqb_spec size 0) as [E0|N0]; [discriminate|].
  destruct (align_size_good size) as [Hga Hlt].
  pose proof (rep_sizes _ _ _ _ H) as Hs.
  destruct (find_fit_in_index_th_list fuel (align_size size)
              (get_index (align_size size)) (heap_mem s)) as [[r0 m0]|] eqn:Ef;
    [|discriminate].
  destruct (find_fit_spec _ _ _ _ _ _ _ _ H Hcomp Hadj Hga Hlt Ef)
    as [(-> & -> & Hnofit)|(q & bs' & L' & -> & Hrep' & Hc' & Hcv)].
  - rewrite with_mem_self in Hr.
    destruct (extend_heap_spec sbrk_ok sbrk_bound s bs L (align_size size) _ s'
                H Hcomp Hadj Hga Hlt Hnofit Hr) as (bs' & L' & _ & _ & Hg).
    exact (grown_fresh _ _ _ _ Hs Hg).
  - injection Hr as <- <-. exact (carved_fresh _ _ _ _ Hs Hcv).
Qed.
End Fresh_block.

(** ** What a failed allocation leaves behind *)

(** The last block of a chain whose sentinel says "previous block free". *)
Lemma free_tail m hl bs L :
  rep m hl bs L -> complete bs L -> is_forward_allocated hl m = false ->
  exists fsz, 12 <= class_of fsz <= 27 /\
              In (get_forward hl m) (L (class_of fsz)) /\
              In (get_forward hl m, fsz, false) (blocks_at 136 bs) /\
              get_forward hl m + fsz = hl.
Proof.
  intros H Hcomp Efa.
  pose proof (rep_total_bound _ _ _ _ H) as Hb.
  pose proof (rep_heap _ _ _ _ H) as Hh. pose proof Hh as (Hseg & Hhl & Hsent).
  assert (Hla : last_alloc true bs = false).
  { destruct Hsent as (_ & _ & Hf). congruence. }
  destruct (last_free_split _ Hla) as (pre & fsz & Ebs). subst bs.
  assert (Hh' : heap_ok m hl (pre ++ [(fsz, false)] ++ [])) by exact Hh.
  destruct (heap_mid _ _ _ _ _ _ Hh') as ([Hf16 Hf8] & [Hfh Hff] & _ & _ & Hp0).
  rewrite total_app in Hhl, Hb. cbn [total] in Hhl, Hb.
  assert (Hfoot : read_word (hl - 8) m = fsz).
  { replace (hl - 8) with (136 + total pre + fsz - 8) by lia. auto. }
  assert (Hfwd : get_forward hl m = 136 + total pre).
  { unfold get_forward, WORD_SIZE. change (4 * 2) with 8. rewrite Hfoot. lia. }
  rewrite Hfwd.
  assert (Hinf : In (136 + total pre, fsz, false) (blocks_at 136 (pre ++ [(fsz, false)])))
    by apply in_blocks_at_mid.
  exists fsz. split; [apply class_of_range; unfold two32 in *; lia|].
  split; [apply Hcomp; exact Hinf|]. split; [exact Hinf|lia].
Qed.

Section Failure.
Variable sbrk_ok : Z -> Z -> bool.

Lemma malloc_failure s bs L fuel size s' :
  rep (heap_mem s) (heap_last_ptr s) bs L -> complete bs L -> nadj true bs ->
  size <> 0 -> mm_malloc sbrk_ok fuel size s = Some (None, s') ->
  heap_last_ptr s' = heap_last_ptr s /\
  (tail_allocated s -> s' = s) /\
  (~ tail_allocated s ->
   heap_mem s' = delete_block (get_forward (heap_last_ptr s) (heap_mem s)) (heap_mem s) /\
   s' <> s).
Proof.
  intros H Hcomp Hadj Hn0 Hr. unfold mm_malloc in Hr.
  destruct (Z.eqb_spec size 0) as [|_]; [contradiction|].
  destruct (align_size_good size) as [Hga Hlt].
  destruct (find_fit_in_index_th_list fuel (align_size size)
              (get_index (align_size size)) (heap_mem s)) as [[r0 m0]|] eqn:Ef;
    [|discriminate].
  destruct (find_fit_spec _ _ _ _ _ _ _ _ H Hcomp Hadj Hga Hlt Ef)
    as [(-> & -> & Hnofit)|(p & bs' & L' & -> & _)]; [|discriminate].
  rewrite with_mem_self in Hr. unfold extend_heap, tail_allocated in *.
  destruct (is_forward_allocated (heap_last_ptr s) (heap_mem s)) eqn:Efa.
  - cbv zeta in Hr. destruct (sbrk_ok _ _); cbn [negb] in Hr.
    + destruct (place _ _ _ _) as [[p m4]|]; discriminate.
    + injection Hr as <-. split; [reflexivity|]. split; [reflexivity|].
      intros C. exfalso. apply C. reflexivity.
  - cbv zeta in Hr. destruct (sbrk_ok _ _); cbn [negb] in Hr.
    + destruct (place _ _ _ _) as [[p m4]|]; discriminate.
    + injection Hr as <-. cbn [heap_mem heap_last_ptr].
      split; [reflexivity|]. split; [discriminate|]. intros _.
      split; [reflexivity|]. intros E.
      destruct (free_tail _ _ _ _ H Hcomp Efa) as (fsz & Hc & Hin & _).
      apply (unlink_changes _ _ _ _ _ _ H Hc Hin).
      apply (f_equal heap_mem) in E. exact E.
Qed.
End Failure.

(** ** A failed move in [mm_realloc] *)

Section MoveFailure.
Variable sbrk_ok : Z -> Z -> bool.

Lemma realloc_move_failure s bs L fuel p bsz size s1 :
  rep (heap_mem s) (heap_last_ptr s) bs L -> complete bs L -> nadj true bs ->
  In (p, bsz, true) (blocks_at 136 bs) -> size <> 0 ->
  bsz < align_size size ->
  is_allocated (p + bsz) (heap_mem s) = true -> p + bsz <> heap_last_ptr s ->
  mm_malloc sbrk_ok fuel size s = Some (None, s1) ->
  exists s' bs' L',
    mm_free (Some p) s1 = Some s' /\
    mm_realloc sbrk_ok fuel (Some p) size s = Some (None, s') /\
    heap_last_ptr s' = heap_last_ptr s /\
    rep (heap_mem s') (heap_last_ptr s') bs' L' /\ nadj true bs' /\
    (tail_allocated s -> complete bs' L') /\
    forall x sz', In (x, sz', true) (blocks_at 136 bs') <->
                  In (x, sz', true) (blocks_at 136 bs) /\ x <> p.
Proof.
  intros H Hcomp Hadj Hin Hn0 Hgt Hnext Hlast Hm.
  pose proof (rep_sizes _ _ _ _ H) as Hs.
  pose proof (rep_total_bound _ _ _ _ H) as Hb.
  destruct (block_node _ Hs Hb _ _ _ Hin) as (_ & _ & Hpe & [Hb16 _] & _).
  assert (Esz : get_size p (heap_mem s) = bsz)
    by (apply (block_size_read _ _ _ _ _ _ (rep_heap _ _ _ _ H) Hin)).
  destruct (malloc_failure sbrk_ok s bs L fuel size s1 H Hcomp Hadj Hn0 Hm)
    as (Ehl & Hclean & Hdirty).
  assert (Er : mm_realloc sbrk_ok fuel (Some p) size s
               = option_map (fun s2 => (None, s2)) (mm_free (Some p) s1)).
  { unfold mm_realloc. destruct (Z.eqb_spec size 0) as [|_]; [contradiction|].
    cbv zeta. unfold get_back. rewrite Esz.
    destruct (Z.leb_spec (align_size size) bsz); [lia|].
    rewrite Hnext. cbn [negb andb].
    destruct (Z.eqb_spec (p + bsz) (heap_last_ptr s)); [contradiction|].
    rewrite Hm. rewrite with_mem_self. reflexivity. }
  rewrite Er.
  destruct (is_forward_allocated (heap_last_ptr s) (heap_mem s)) eqn:Efa.
  - rewrite (Hclean Efa).
    destruct (mm_free_spec _ _ _ _ _ H Hcomp Hadj Hin)
      as (s' & bs' & L' & Ef & Ehl' & H' & Hc' & Ha' & Hal).
    rewrite Ef. exists s', bs', L'. cbn [option_map]. auto 10.
  - destruct Hdirty as [Em1 _]; [unfold tail_allocated; congruence|].
    destruct (free_tail _ _ _ _ H Hcomp Efa) as (fsz & Hc & Hint & Hinb & Ete).
    set (t := get_forward (heap_last_ptr s) (heap_mem s)) in *.
    destruct (rep_unlink _ _ _ _ _ _ H Hc Hint) as (l1 & l2 & El & H1).
    rewrite <- Em1, <- Ehl in H1.
    assert (Hc1 : complete_on (fun x => x <> t) bs (upd L (class_of fsz) (l1 ++ l2))).
    { intros x sz' Hx Hxt. eapply in_upd_remove; eauto. }
    assert (Htfree : is_allocated t (heap_mem s) = false)
      by apply (free_then_allocated _ _ _ _ _ (rep_heap _ _ _ _ H) Hadj Hinb).
    destruct (mm_free_gen (fun x => x <> t) s1 bs _ p bsz H1 Hc1 Hadj Hin)
      as (s' & bs' & L' & Ef & Ehl' & H' & _ & Ha' & Hal).
    { intros x sz' Hx Hor Ext. subst x. destruct Hor as [Hlt|E].
      - destruct (rep_heap _ _ _ _ H) as (_ & Ehl0 & _).
        destruct (blocks_at_disjoint _ _ _ _ _ _ _ _ Hs Hinb Hin) as [(_ & _ & E)|D];
          [discriminate E|lia].
      - rewrite E in Htfree. congruence. }
    rewrite Ef. exists s', bs', L'. cbn [option_map].
    split; [reflexivity|]. split; [reflexivity|]. split; [congruence|]. split; [exact H'|].
    split; [exact Ha'|]. split; [|exact Hal].
    unfold tail_allocated. congruence.
Qed.
End MoveFailure.

(** ** Facts about the concrete runs *)

Lemma cap_bounded c : c < two32 -> bounded (cap c).
Proof. intros Hc brk n H. unfold cap in H. apply Z.leb_le in H. lia. Qed.

Lemma reach_start c : 4096 <= c -> reachable (cap c) (start (cap c)) [].
Proof.
  intros Hc. apply (reach_init (cap c) m_zero).
  unfold start, mm_init.
  replace (cap c 0 EXTEND_SIZE) with true
    by (symmetry; apply Z.leb_le; unfold EXTEND_SIZE; lia).
  reflexivity.
Qed.

(** One block of 104 bytes is live. *)
Lemma reach_one : reachable (cap 4096) (after (cap 4096) [Malloc 100]) [136].
Proof.
  apply (reach_malloc (cap 4096) (start (cap 4096)) [] 100 100 (Some 136)).
  - apply reach_start. lia.
  - vm_compute. reflexivity.
  - discriminate.
Qed.

(** The heap is full: one block of 3960 bytes is live. *)
Lemma reach_full : reachable (cap 4096) (after (cap 4096) [Malloc 3950]) [136].
Proof.
  apply (reach_malloc (cap 4096) (start (cap 4096)) [] 100 3950 (Some 136)).
  - apply reach_start. lia.
  - vm_compute. reflexivity.
  - discriminate.
Qed.

(** Two blocks of 24 bytes are live, followed by a free block. *)
Lemma reach_two : reachable (cap 4096) (after (cap 4096) [Malloc 16; Malloc 16]) [160; 136].
Proof.
  apply (reach_malloc (cap 4096) (after (cap 4096) [Malloc 16]) [136] 100 16 (Some 160)).
  - apply (reach_malloc (cap 4096) (start (cap 4096)) [] 100 16 (Some 136)).
    + apply reach_start. lia.
    + vm_compute. reflexivity.
    + discriminate.
  - vm_compute. reflexivity.
  - discriminate.
Qed.

(** ** The first allocations on a fresh heap *)

Section Fresh.
Variable sbrk_ok : Z -> Z -> bool.

Lemma init_state m0 s0 :
  mm_init sbrk_ok m0 = Some (0, s0) ->
  heap_last_ptr s0 = 4096 /\
  rep (heap_mem s0) (heap_last_ptr s0) [(3960, false)] init_lists /\
  complete [(3960, false)] init_lists.
Proof.
  intros E. destruct (sbrk_ok 0 EXTEND_SIZE) eqn:Esb.
  - destruct (mm_init_spec sbrk_ok m0 Esb) as (s & E0 & Ehl & H & Hc).
    rewrite E0 in E. injection E as <-. rewrite Ehl. auto.
  - rewrite (mm_init_fail sbrk_ok m0 Esb) in E. discriminate E.
Qed.

(** The first allocation of [size] bytes, [align_size size] < 3944. *)
Lemma first_malloc m0 s0 fuel size :
  mm_init sbrk_ok m0 = Some (0, s0) -> (16 <= fuel)%nat ->
  size <> 0 -> align_size size <= 3944 ->
  exists s1 L1,
    mm_malloc sbrk_ok fuel size s0 = Some (Some 136, s1) /\
    heap_last_ptr s1 = 4096 /\
    rep (heap_mem s1) (heap_last_ptr s1)
      [(align_size size, true); (3960 - align_size size, false)] L1 /\
    complete [(align_size size, true); (3960 - align_size size, false)] L1.
Proof.
  intros E Hf Hn0 Hle.
  destruct (init_state m0 s0 E) as (Ehl & H & Hc).
  destruct (malloc_from_lists sbrk_ok fuel size s0 _ _ 136 3960 H Hc)
    as (p & s1 & bs1 & L1 & Em & Ehl1 & H1 & Hc1 & Ha1 & Hcv); try assumption.
  - cbn [nadj]. auto.
  - cbn [blocks_at In]. left. reflexivity.
  - lia.
  - lia.
  - cbn [length]. lia.
  - destruct (carved_only [] 3960 [] bs1 p (align_size size)) as (-> & _ & ->).
    + intros x sz [].
    + intros x sz [].
    + exact Hcv.
    + destruct (Z.ltb_spec (3960 - align_size size) 16); [lia|]. cbn [app] in *.
      exists s1, L1. rewrite Ehl1, Ehl in *. auto.
Qed.
End Fresh.

(** * The invariant holds on every reachable state *)

Lemma in_remove_iff (p x : Z) (l : list Z) :
  In x (remove Z.eq_dec p l) <-> In x l /\ x <> p.
Proof.
  split.
  - apply in_remove.
  - intros [H D]. apply in_in_remove; assumption.
Qed.

Lemma inv_write s live p a v :
  inv s live -> In p live -> p <= a < p + get_size p (heap_mem s) - 4 ->
  inv (with_mem s (write_byte a v (heap_mem s))) live.
Proof.
  intros (bs & L & H & Hc & Ha & Hl) Hp Hrange.
  apply Hl in Hp. destruct Hp as (sz & Hin).
  rewrite (block_size_read _ _ _ _ _ _ (rep_heap _ _ _ _ H) Hin) in Hrange.
  exists bs, L. cbn [with_mem heap_mem heap_last_ptr].
  split; [|split; [exact Hc|split; [exact Ha|exact Hl]]].
  apply (rep_payload_write (heap_mem s) _ _ bs L p sz H Hin).
  intros w Hw. apply write_byte_frame. lia.
Qed.

Lemma inv_free s live p s' :
  inv s live -> In p live -> mm_free (Some p) s = Some s' ->
  inv s' (remove Z.eq_dec p live).
Proof.
  intros (bs & L & H & Hc & Ha & Hl) Hp Hf.
  apply Hl in Hp. destruct Hp as (sz & Hin).
  destruct (mm_free_spec _ _ _ _ _ H Hc Ha Hin)
    as (s2 & bs' & L' & Ef & _ & H' & Hc' & Ha' & Hal).
  rewrite Ef in Hf. injection Hf as <-.
  exists bs', L'. split; [exact H'|]. split; [exact Hc'|]. split; [exact Ha'|].
  intros x. rewrite in_remove_iff, Hl. split.
  - intros [(sz' & Hx) D]. exists sz'. apply Hal. auto.
  - intros (sz' & Hx). apply Hal in Hx. destruct Hx as [Hx D]. split; [eauto|exact D].
Qed.

Section Steps.
Variable sbrk_ok : Z -> Z -> bool.
Hypothesis sbrk_bound : forall brk n, sbrk_ok brk n = true -> brk + n < two32.

Lemma inv_init m0 s : mm_init sbrk_ok m0 = Some (0, s) -> inv s [].
Proof using Type.
  intros E. destruct (sbrk_ok 0 EXTEND_SIZE) eqn:Esb.
  - destruct (mm_init_spec sbrk_ok m0 Esb) as (s0 & E0 & Ehl & H & Hc).
    rewrite E0 in E. injection E as <-.
    exists [(3960, false)], init_lists. rewrite Ehl.
    split; [exact H|]. split; [exact Hc|]. split; [cbn [nadj]; auto|].
    intros x. split; [intros []|].
    intros (sz & Hx). cbn [blocks_at In] in Hx. destruct Hx as [Hx|[]]. discriminate Hx.
  - rewrite (mm_init_fail sbrk_ok m0 Esb) in E. discriminate E.
Qed.

Lemma inv_malloc s live fuel size r s' :
  inv s live ->
  mm_malloc sbrk_ok fuel size s = Some (r, s') ->
  (r = None -> size <> 0 -> tail_allocated s) ->
  inv s' (add_live r live).
Proof using sbrk_bound.
  intros (bs & L & H & Hc & Ha & Hl) Hm Hclean.
  pose proof (mm_malloc_spec sbrk_ok sbrk_bound s bs L fuel size r s' H Hc Ha Hm) as Hs.
  destruct r as [p|]; cbn [add_live].
  - destruct Hs as (bs' & L' & H' & Hc' & Ha' & (T & HT & Hal)).
    exists bs', L'. split; [exact H'|]. split; [exact Hc'|]. split; [exact Ha'|].
    intros x. cbn [In]. rewrite Hl. split.
    + intros [<-|(sz & Hx)]; [exists T; apply Hal; left; auto|].
      exists sz. apply Hal. right. exact Hx.
    + intros (sz & Hx). apply Hal in Hx. destruct Hx as [[-> _]|Hx]; [left; reflexivity|].
      right. exists sz. exact Hx.
  - assert (s' = s) as ->.
    { destruct Hs as [[_ E]|[N E]]; [exact E|]. apply E. apply Hclean; auto. }
    exists bs, L. auto.
Qed.

Lemma inv_calloc s live fuel nmemb size r s' :
  inv s live ->
  wrap64 (nmemb * size) <= two32 - 12 ->
  mm_calloc sbrk_ok fuel nmemb size s = Some (r, s') ->
  (r = None -> wrap64 (nmemb * size) <> 0 -> tail_allocated s) ->
  inv s' (add_live r live).
Proof using sbrk_bound.
  intros (bs & L & H & Hc & Ha & Hl) Hfit Hm Hclean.
  pose proof (mm_calloc_spec sbrk_ok sbrk_bound s bs L fuel nmemb size r s'
                H Hc Ha Hfit Hm) as Hs.
  destruct r as [p|]; cbn [add_live].
  - destruct Hs as (bs' & L' & H' & Hc' & Ha' & (T & HT & Hal) & _).
    exists bs', L'. split; [exact H'|]. split; [exact Hc'|]. split; [exact Ha'|].
    intros x. cbn [In]. rewrite Hl. split.
    + intros [<-|(sz & Hx)]; [exists T; apply Hal; left; auto|].
      exists sz. apply Hal. right. exact Hx.
    + intros (sz & Hx). apply Hal in Hx. destruct Hx as [[-> _]|Hx]; [left; reflexivity|].
      right. exists sz. exact Hx.
  - assert (s' = s) as ->.
    { destruct Hs as [[_ E]|[N E]]; [exact E|]. apply E. apply Hclean; auto. }
    exists bs, L. auto.
Qed.

Lemma inv_realloc s live fuel p size r s' :
  inv s live -> In p live ->
  mm_realloc sbrk_ok fuel (Some p) size s = Some (r, s') ->
  (r = None -> size <> 0 -> tail_allocated s) ->
  inv s' (realloc_live s p size r live).
Proof using sbrk_bound.
  intros Hinv Hp Hm Hclean.
  destruct (Z.eq_dec size 0) as [->|N].
  - cbn [mm_realloc Z.eqb] in Hm.
    destruct (mm_free (Some p) s) as [s2|] eqn:Ef; [|discriminate].
    cbn [option_map] in Hm. injection Hm as <- <-.
    cbn [realloc_live Z.eqb orb]. eapply inv_free; eauto.
  - destruct Hinv as (bs & L & H & Hc & Ha & Hl).
    pose proof Hp as Hp'. apply Hl in Hp'. destruct Hp' as (bsz & Hin).
    destruct (mm_realloc_spec sbrk_ok sbrk_bound s bs L fuel p bsz size r s'
                H Hc Ha Hin N Hm (fun E => Hclean E N))
      as (bs' & L' & H' & Hc' & Ha' & Hal).
    exists bs', L'. split; [exact H'|]. split; [exact Hc'|]. split; [exact Ha'|].
    intros x. fold (allocs bs' x). rewrite Hal. unfold realloc_live, allocs.
    destruct r as [q|].
    + cbn [In]. rewrite in_remove_iff, Hl. split.
      * intros [->|Hx]; [left; reflexivity|right; exact Hx].
      * intros [->|Hx]; [left; reflexivity|right; exact Hx].
    + destruct (Z.eqb_spec size 0) as [|_]; [contradiction|]. cbn [orb].
      destruct (Z.eqb_spec (get_back p (heap_mem s)) (heap_last_ptr s)) as [E|D];
        cbn [negb].
      * rewrite Hl. tauto.
      * rewrite in_remove_iff, Hl. tauto.
Qed.

(** Every reachable state satisfies the invariant. *)
Lemma reachable_inv s live : reachable sbrk_ok s live -> inv s live.
Proof using sbrk_bound.
  induction 1 as [m0 s E
                 |s live fuel size r s' _ IH Hm Hcl
                 |s live p s' _ IH Hp Hf
                 |s live fuel size r s' _ IH Hm Hcl
                 |s live fuel p size r s' _ IH Hp Hm Hcl
                 |s live fuel nmemb size r s' _ IH Hfit Hm Hcl
                 |s live p a v _ IH Hp Ha].
  - eapply inv_init; eauto.
  - eapply inv_malloc; eauto.
  - eapply inv_free; eauto.
  - eapply inv_malloc; eauto.
  - eapply inv_realloc; eauto.
  - eapply inv_calloc; eauto.
  - eapply inv_write; eauto.
Qed.
End Steps.

(** ** [mm_realloc] returns *)

Section Progress.
Variable sbrk_ok : Z -> Z -> bool.
Hypothesis sbrk_bound : forall brk n, sbrk_ok brk n = true -> brk + n < two32.

Lemma realloc_move_total s bs L fuel p bsz size :
  rep (heap_mem s) (heap_last_ptr s) bs L -> complete bs L -> nadj true bs ->
  In (p, bsz, true) (blocks_at 136 bs) -> size <> 0 -> bsz < align_size size ->
  align_size size < 2 ^ 31 -> (16 <= fuel)%nat -> (length bs < fuel)%nat ->
  p + bsz <> heap_last_ptr s ->
  tail_allocated s \/ is_allocated (p + bsz) (heap_mem s) = true ->
  exists r s',
    match mm_malloc sbrk_ok fuel size s with
    | None => None
    | Some (newptr, s1) =>
        let m1 :=
          match newptr with
          | Some q => memcpy q p (get_size p (heap_mem s1)) (heap_mem s1)
          | None => heap_mem s1
          end in
        option_map (fun s2 => (newptr, s2)) (mm_free (Some p) (with_mem s1 m1))
    end = Some (r, s').
Proof using sbrk_bound.
  intros H Hcomp Hadj Hin Hn0 Hgt Hlt Hf16 Hf Nl Hcase.
  destruct (mm_malloc_total sbrk_ok sbrk_bound fuel size s bs L H Hcomp Hadj Hlt Hf16 Hf)
    as (newptr & s1 & Em).
  rewrite Em. cbv zeta.
  pose proof (mm_malloc_spec sbrk_ok sbrk_bound s bs L fuel size newptr s1
                H Hcomp Hadj Em) as Hm.
  destruct newptr as [q|].
  - destruct Hm as (bs1 & L1 & H1 & Hc1 & Ha1 & (T & HT & Hal)).
    assert (Hin1 : In (p, bsz, true) (blocks_at 136 bs1)) by (apply Hal; right; exact Hin).
    assert (Hq1 : In (q, T, true) (blocks_at 136 bs1)) by (apply Hal; left; auto).
    pose proof (rep_sizes _ _ _ _ H1) as Hs1.
    pose proof (rep_total_bound _ _ _ _ H1) as Hb1.
    destruct (block_node _ Hs1 Hb1 _ _ _ Hin1) as (_ & _ & _ & [Hb16 Hb8] & _).
    destruct (block_node _ Hs1 Hb1 _ _ _ Hq1) as (_ & _ & _ & [HT16 HT8] & _).
    rewrite (block_size_read _ _ _ _ _ _ (rep_heap _ _ _ _ H1) Hin1).
    set (m1 := memcpy q p bsz (heap_mem s1)).
    assert (H1' : rep (heap_mem (with_mem s1 m1)) (heap_last_ptr (with_mem s1 m1)) bs1 L1).
    { cbn [with_mem heap_mem heap_last_ptr].
      apply (rep_payload_write (heap_mem s1) m1 _ bs1 L1 q T H1 Hq1).
      intros w Hw. apply memcpy_frame. lia. }
    destruct (mm_free_spec _ _ _ _ _ H1' Hc1 Ha1 Hin1) as (s2 & _ & _ & Ef & _).
    rewrite Ef. cbn [option_map]. eauto.
  - rewrite with_mem_self. destruct Hcase as [Ht|Hsucc].
    + destruct Hm as [[E0 _]|[_ Hsame]]; [contradiction|].
      rewrite (Hsame Ht).
      destruct (mm_free_spec _ _ _ _ _ H Hcomp Hadj Hin) as (s2 & _ & _ & Ef & _).
      rewrite Ef. cbn [option_map]. eauto.
    + destruct (realloc_move_failure sbrk_ok s bs L fuel p bsz size s1
                  H Hcomp Hadj Hin Hn0 Hgt Hsucc Nl Em) as (s' & _ & _ & Ef & _).
      rewrite Ef. cbn [option_map]. eauto.
Qed.

Lemma mm_realloc_total fuel p bsz size s bs L :
  rep (heap_mem s) (heap_last_ptr s) bs L -> complete bs L -> nadj true bs ->
  In (p, bsz, true) (blocks_at 136 bs) ->
  align_size size < 2 ^ 31 -> (16 <= fuel)%nat -> (length bs < fuel)%nat ->
  tail_allocated s \/ is_allocated (p + bsz) (heap_mem s) = true ->
  exists r s', mm_realloc sbrk_ok fuel (Some p) size s = Some (r, s').
Proof using sbrk_bound.
  intros H Hcomp Hadj Hin Hlt Hf16 Hf Hcase.
  pose proof (rep_sizes _ _ _ _ H) as Hs.
  pose proof (rep_total_bound _ _ _ _ H) as Hb.
  pose proof (rep_bound _ _ _ _ H) as Hbd.
  destruct (block_node _ Hs Hb _ _ _ Hin) as (_ & Hp136 & _ & [Hb16 Hb8] & _).
  destruct (align_size_good size) as [[Ha16 Ha8] Halt].
  assert (Esz : get_size p (heap_mem s) = bsz)
    by (apply (block_size_read _ _ _ _ _ _ (rep_heap _ _ _ _ H) Hin)).
  destruct (Z.eq_dec size 0) as [->|Hn0].
  { destruct (mm_free_spec _ _ _ _ _ H Hcomp Hadj Hin) as (s' & _ & _ & Ef & _).
    cbn [mm_realloc Z.eqb]. rewrite Ef. cbn [option_map]. eauto. }
  unfold mm_realloc. destruct (Z.eqb_spec size 0) as [|_]; [contradiction|].
  cbv zeta. unfold get_back. rewrite Esz.
  destruct (Z.leb_spec (align_size size) bsz) as [Hle|Hgt].
  { destruct (shrink_spec _ _ _ _ _ _ _ H Hcomp Hadj Hin (conj Ha16 Ha8) Hle)
      as (m' & _ & _ & Esh & _).
    rewrite Esh. cbn [option_map]. eauto. }
  rewrite sub32_small by lia.
  destruct (in_blocks_at_split _ _ _ _ _ Hin) as (pre & post & Ebs & Ep).
  assert (Ebs' : bs = pre ++ [(bsz, true)] ++ post) by exact Ebs. clear Ebs.
  subst bs.
  destruct (heap_mid _ _ _ _ _ _ (rep_heap _ _ _ _ H))
    as (_ & [Hh _] & Hnext & Hend & Hp0).
  rewrite <- Ep in Hh, Hnext, Hend.
  destruct Hnext as (Ens & Ena & _). rewrite Ens, Ena.
  destruct (negb (next_alloc post) && (align_size size - bsz <=? next_size post))
    eqn:Efit.
  { apply andb_prop in Efit. destruct Efit as [Efree Efits].
    apply negb_true_iff in Efree. apply Z.leb_le in Efits.
    destruct (first_free_split _ Efree) as (nsz & post' & ->).
    cbn [next_size next_alloc] in *.
    pose proof (alloc_then_free _ _ _ _ _ _ _ H Hcomp) as X. cbv zeta in X.
    rewrite <- Ep in X.
    destruct X as (_ & _ & _ & _ & _ & _ & _ & _ & _ & _ & _ & Hn16 & Hn8 & Hend' & _).
    rewrite sub32_small by lia. rewrite Z.geb_leb.
    destruct (Z.leb_spec 16 (nsz - (align_size size - bsz))) as [Hbig|Hsmall]; [|eauto].
    pose proof (expand_split _ _ _ _ _ _ _ (align_size size) H Hcomp Hadj
                  (conj Ha16 Ha8) Hgt Hbig) as X. cbv zeta in X.
    rewrite <- Ep in X. destruct X as (m5 & _ & _ & Eins & _).
    replace (p + bsz + (align_size size - bsz)) with (p + align_size size) by lia.
    rewrite Eins. eauto. }
  destruct (Z.eqb_spec (p + bsz) (heap_last_ptr s)) as [Elast|Nlast].
  { destruct (sbrk_ok (heap_last_ptr s) (align_size size - bsz)); cbn [negb]; eauto. }
  apply (realloc_move_total s _ L fuel p bsz size H Hcomp Hadj Hin Hn0 Hgt Hlt Hf16 Hf
           Nlast Hcase).
Qed.
End Progress.

(** * The heap checker on a consistent heap *)

Lemma dseg_next_prev m a l b y :
  dseg m a l b -> In y l -> get_prev (get_next y m) m = y.
Proof.
  revert a. induction l as [|z l IH]; intros a Hd Hy; [destruct Hy|].
  cbn [dseg] in Hd. destruct Hd as (_ & _ & Hd).
  destruct Hy as [->|Hy]; [|exact (IH z Hd Hy)].
  destruct l as [|z' l]; cbn [dseg] in Hd.
  - destruct Hd as [-> E]. exact E.
  - destruct Hd as (-> & E & _). exact E.
Qed.

Lemma check_list_silent lineno s c l : forall fuel a,
  dseg (heap_mem s) a l (sent c) -> ~ In (sent c) l ->
  (forall x, In x l ->
             list_min_block_size c <= get_size x (heap_mem s) < list_max_block_size c) ->
  (length l < fuel)%nat ->
  check_list fuel lineno c (sent c) (get_next a (heap_mem s)) s = Some [].
Proof.
  induction l as [|y l IH]; intros fuel a Hd Hn Hsz Hf.
  - destruct fuel as [|fuel]; [simpl in Hf; lia|].
    cbn [dseg] in Hd. destruct Hd as [-> _].
    cbn [check_list]. rewrite Z.eqb_refl. reflexivity.
  - destruct fuel as [|fuel]; [simpl in Hf; lia|].
    pose proof (dseg_next_prev _ _ _ _ y Hd (or_introl eq_refl)) as Hlink.
    cbn [dseg] in Hd. destruct Hd as (E1 & E2 & Hd). rewrite E1.
    cbn [check_list].
    destruct (Z.eqb_spec y (sent c)) as [E|_]; [exfalso; apply Hn; left; auto|].
    rewrite (IH fuel y Hd).
    + pose proof (Hsz y (or_introl eq_refl)) as Hy.
      replace (get_size y (heap_mem s) <? list_min_block_size c) with false
        by (symmetry; apply Z.ltb_ge; lia).
      replace (get_size y (heap_mem s) >=? list_max_block_size c) with false
        by (symmetry; rewrite Z.geb_leb; apply Z.leb_gt; lia).
      rewrite Hlink, Z.eqb_refl. reflexivity.
    + intros H. apply Hn. right. exact H.
    + intros x Hx. apply Hsz. right. exact Hx.
    + simpl in Hf. lia.
Qed.

Lemma check_lists_silent lineno s bs L fuel indices :
  rep (heap_mem s) (heap_last_ptr s) bs L ->
  (length bs < fuel)%nat -> Forall (fun i => 12 <= i <= 27) indices ->
  check_lists fuel lineno indices s = Some [].
Proof.
  intros H Hf. induction 1 as [|i indices Hi _ IH]; [reflexivity|].
  cbn [check_lists]. rewrite (begins_sent i Hi).
  destruct (rep_lists _ _ _ _ H i Hi) as [Hd _].
  rewrite (check_list_silent lineno s i (L i) fuel (sent i) Hd).
  - rewrite IH. reflexivity.
  - exact (sent_not_node bs L (rep_sizes _ _ _ _ H) (rep_total_bound _ _ _ _ H)
             (rep_nodes _ _ _ _ H) i i Hi Hi).
  - intros x Hx.
    destruct (node_block bs L (rep_sizes _ _ _ _ H) (rep_total_bound _ _ _ _ H)
                (rep_nodes _ _ _ _ H) i x Hi Hx) as (sz & Hin & Hcl & _ & H136 & Hend & Hg).
    rewrite (block_size_read _ _ _ _ _ _ (rep_heap _ _ _ _ H) Hin).
    rewrite <- Hcl. apply class_bounds.
    + pose proof (rep_total_bound _ _ _ _ H). destruct Hg. lia.
    + apply Hg.
  - pose proof (list_length_bound _ _ _ _ i H Hi). lia.
Qed.

Lemma list_indices_range : Forall (fun i => 12 <= i <= 27) list_indices.
Proof. unfold list_indices. cbn. repeat constructor; lia. Qed.

Lemma check_blocks_silent lineno s fuel bs : forall rounds p pa,
  check_lists fuel lineno list_indices s = Some [] ->
  seg (heap_mem s) p pa bs -> heap_last_ptr s = p + total bs ->
  hdr_is (heap_mem s) (heap_last_ptr s) 0 true (last_alloc pa bs) ->
  nadj pa bs -> (length bs < rounds)%nat ->
  check_blocks fuel rounds lineno p s = Some [].
Proof.
  induction bs as [|[sz al] bs IH]; intros rounds p pa Hl Hs Hhl Hend Hadj Hr.
  - destruct rounds as [|rounds]; [simpl in Hr; lia|].
    cbn [check_blocks]. cbn [total] in Hhl.
    replace (p <? heap_last_ptr s) with false by (symmetry; apply Z.ltb_ge; lia).
    reflexivity.
  - destruct rounds as [|rounds]; [simpl in Hr; lia|].
    cbn [seg] in Hs. destruct Hs as (Hg & (Hh & Hfoot) & Hs).
    destruct Hh as (Esz & Eal & Efw).
    pose proof (total_nonneg bs (seg_sizes _ _ _ _ Hs)) as Ht.
    cbn [total] in Hhl. cbn [last_alloc] in Hend.
    cbn [nadj] in Hadj. destruct Hadj as [_ Hadj].
    cbn [check_blocks].
    replace (p <? heap_last_ptr s) with true
      by (symmetry; apply Z.ltb_lt; destruct Hg; lia).
    unfold get_back. rewrite Esz, Eal, Hl.
    rewrite (IH rounds (p + sz) al Hl Hs ltac:(lia) Hend Hadj ltac:(simpl in Hr; lia)).
    assert (Hnext : is_forward_allocated (p + sz) (heap_mem s) = al /\
                    (al = false -> is_allocated (p + sz) (heap_mem s) = true)).
    { destruct bs as [|[sz' al'] bs'].
      - cbn [total] in Hhl. replace (p + sz) with (heap_last_ptr s) by lia.
        cbn [last_alloc] in Hend. destruct Hend as (_ & Ea & Ef). auto.
      - cbn [seg] in Hs. destruct Hs as (_ & ((_ & Ea & Ef) & _) & _).
        cbn [nadj] in Hadj. destruct Hadj as [Hn _].
        split; [exact Ef|]. intros E. rewrite Ea. auto. }
    destruct Hnext as [Ef Ea]. rewrite Ef.
    destruct al; cbn [xorb negb andb app].
    + reflexivity.
    + rewrite (Ea eq_refl). cbn [negb andb app].
      unfold WORD_SIZE. replace (p + sz - 2 * 4) with (p + sz - 8) by lia.
      rewrite (Hfoot eq_refl), Z.eqb_refl. reflexivity.
Qed.

Lemma mm_checkheap_silent s bs L fuel lineno :
  rep (heap_mem s) (heap_last_ptr s) bs L -> nadj true bs ->
  (length bs < fuel)%nat ->
  mm_checkheap fuel lineno s = Some [].
Proof.
  intros H Hadj Hf. unfold mm_checkheap.
  destruct (rep_heap _ _ _ _ H) as (Hs & Hhl & Hend).
  apply (check_blocks_silent lineno s fuel bs fuel 136 true); auto.
  exact (check_lists_silent lineno s bs L fuel list_indices H Hf list_indices_range).
Qed.

(** ** The checker reports adjacent free blocks *)

Lemma check_blocks_both_free lineno s fuel pre : forall rounds p pa sz sz' post out,
  seg (heap_mem s) p pa (pre ++ (sz, false) :: (sz', false) :: post) ->
  heap_last_ptr s = p + total (pre ++ (sz, false) :: (sz', false) :: post) ->
  check_blocks fuel rounds lineno p s = Some out ->
  In (Both_free lineno (p + total pre)) out.
Proof.
  induction pre as [|[bsz bal] pre IH]; intros rounds p pa sz sz' post out Hs Hhl Hc.
  - cbn [app] in Hs, Hhl. cbn [total]. replace (p + 0) with p by lia.
    destruct rounds as [|rounds]; [discriminate|].
    cbn [seg] in Hs. destruct Hs as (Hg & ((Esz & Eal & _) & _) & (Hg' & ((_ & Eal' & _) & _) & Hs)).
    pose proof (total_nonneg _ (seg_sizes _ _ _ _ Hs)) as Ht.
    cbn [total] in Hhl. cbn [check_blocks] in Hc.
    replace (p <? heap_last_ptr s) with true in Hc
      by (symmetry; apply Z.ltb_lt; destruct Hg, Hg'; lia).
    unfold get_back in Hc. rewrite Esz, Eal, Eal' in Hc. cbn [negb andb] in Hc.
    destruct (check_lists _ _ _ _) as [out4|]; [|discriminate].
    destruct (check_blocks _ _ _ _ _) as [out5|]; [|discriminate].
    injection Hc as <-.
    apply in_or_app. right. right. left. reflexivity.
  - cbn [app] in Hs, Hhl.
    destruct rounds as [|rounds]; [discriminate|].
    cbn [seg] in Hs. destruct Hs as (Hg & ((Esz & _) & _) & Hs).
    pose proof (total_nonneg _ (seg_sizes _ _ _ _ Hs)) as Ht.
    cbn [total] in Hhl. cbn [check_blocks] in Hc.
    replace (p <? heap_last_ptr s) with true in Hc
      by (symmetry; apply Z.ltb_lt; destruct Hg; lia).
    unfold get_back in Hc. rewrite Esz in Hc.
    destruct (check_lists _ _ _ _) as [out4|]; [|discriminate].
    destruct (check_blocks fuel rounds lineno (p + bsz) s) as [out5|] eqn:E; [|discriminate].
    injection Hc as <-.
    pose proof (IH rounds (p + bsz) bal sz sz' post out5 Hs ltac:(lia) E) as Hin.
    cbn [total]. replace (p + (bsz + total pre)) with (p + bsz + total pre) by lia.
    apply in_or_app. right. apply in_or_app. right. apply in_or_app. right.
    apply in_or_app. right. exact Hin.
Qed.

Lemma check_blocks_returns lineno s fuel bs : forall rounds p pa,
  check_lists fuel lineno list_indices s = Some [] ->
  seg (heap_mem s) p pa bs -> heap_last_ptr s = p + total bs ->
  (length bs < rounds)%nat ->
  exists out, check_blocks fuel rounds lineno p s = Some out.
Proof.
  induction bs as [|[sz al] bs IH]; intros rounds p pa Hl Hs Hhl Hr.
  - destruct rounds as [|rounds]; [simpl in Hr; lia|].
    cbn [check_blocks]. cbn [total] in Hhl.
    replace (p <? heap_last_ptr s) with false by (symmetry; apply Z.ltb_ge; lia).
    eexists. reflexivity.
  - destruct rounds as [|rounds]; [simpl in Hr; lia|].
    cbn [seg] in Hs. destruct Hs as (Hg & ((Esz & _) & _) & Hs).
    pose proof (total_nonneg bs (seg_sizes _ _ _ _ Hs)) as Ht.
    cbn [total] in Hhl. cbn [check_blocks].
    replace (p <? heap_last_ptr s) with true
      by (symmetry; apply Z.ltb_lt; destruct Hg; lia).
    unfold get_back. rewrite Esz, Hl.
    destruct (IH rounds (p + sz) al Hl Hs ltac:(lia) ltac:(simpl in Hr; lia)) as (out & ->).
    eexists. reflexivity.
Qed.

Lemma nadj_or_pair bs : forall pa,
  nadj pa bs \/
  (pa = false /\ exists sz post, bs = (sz, false) :: post) \/
  exists pre sz sz' post, bs = pre ++ (sz, false) :: (sz', false) :: post.
Proof.
  induction bs as [|[sz al] bs IH]; intros pa; [left; exact I|].
  destruct pa, al.
  - destruct (IH true) as [N|[[E _]|(pre & a & b & post & ->)]]; [|discriminate|].
    + left. cbn [nadj]. split; [reflexivity|exact N].
    + right. right. exists ((sz, true) :: pre), a, b, post. reflexivity.
  - destruct (IH false) as [N|[[_ (a & post & ->)]|(pre & a & b & post & ->)]].
    + left. cbn [nadj]. split; [discriminate|exact N].
    + right. right. exists [], sz, a, post. reflexivity.
    + right. right. exists ((sz, false) :: pre), a, b, post. reflexivity.
  - destruct (IH true) as [N|[[E _]|(pre & a & b & post & ->)]]; [|discriminate|].
    + left. cbn [nadj]. split; [reflexivity|exact N].
    + right. right. exists ((sz, true) :: pre), a, b, post. reflexivity.
  - right. left. split; [reflexivity|]. exists sz, bs. reflexivity.
Qed.

Lemma mm_checkheap_adjacent s bs L fuel lineno :
  rep (heap_mem s) (heap_last_ptr s) bs L -> (length bs < fuel)%nat ->
  exists out, mm_checkheap fuel lineno s = Some out /\
    (out = [] <-> nadj true bs) /\
    forall pre sz sz' post, bs = pre ++ (sz, false) :: (sz', false) :: post ->
                            In (Both_free lineno (136 + total pre)) out.
Proof.
  intros H Hf. unfold mm_checkheap.
  destruct (rep_heap _ _ _ _ H) as (Hs & Hhl & Hend).
  pose proof (check_lists_silent lineno s bs L fuel list_indices H Hf list_indices_range)
    as Hl.
  destruct (check_blocks_returns lineno s fuel bs fuel 136 true Hl Hs Hhl Hf) as (out & E).
  exists out. split; [exact E|].
  assert (Hpair : forall pre sz sz' post, bs = pre ++ (sz, false) :: (sz', false) :: post ->
                    In (Both_free lineno (136 + total pre)) out).
  { intros pre sz sz' post ->.
    exact (check_blocks_both_free lineno s fuel pre fuel 136 true sz sz' post out Hs Hhl E). }
  split; [|exact Hpair]. split.
  - intros ->.
    destruct (nadj_or_pair bs true) as [N|[[X _]|(pre & a & b & post & Ebs)]];
      [exact N|discriminate|].
    destruct (Hpair pre a b post Ebs).
  - intros N.
    pose proof (mm_checkheap_silent s bs L fuel lineno H N Hf) as E'.
    unfold mm_checkheap in E'. congruence.
Qed.

(** * How the end of the heap moves *)

Section Growth.
Variable sbrk_ok : Z -> Z -> bool.

Lemma extend_heap_moved aligned s r s' :
  extend_heap sbrk_ok aligned s = Some (r, s') -> moved sbrk_ok 4096 s s'.
Proof.
  unfold extend_heap, moved. intros H.
  destruct (is_forward_allocated (heap_last_ptr s) (heap_mem s)); cbv zeta in H.
  - destruct (sbrk_ok _ _) eqn:Es; cbn [negb] in H; [|injection H as <- <-; left; reflexivity].
    destruct (place _ _ _ _) as [[p m4]|]; [|discriminate].
    injection H as <- <-. cbn [heap_last_ptr]. right. eexists. split; [|split; [exact Es|reflexivity]].
    unfold EXTEND_SIZE. destruct (Z.gtb_spec aligned 4096); lia.
  - destruct (sbrk_ok _ _) eqn:Es; cbn [negb] in H;
      [|injection H as <- <-; cbn [heap_last_ptr]; left; reflexivity].
    destruct (place _ _ _ _) as [[p m4]|]; [|discriminate].
    injection H as <- <-. cbn [heap_last_ptr]. right. eexists. split; [|split; [exact Es|reflexivity]].
    unfold EXTEND_SIZE.
    match goal with |- context [if ?c then _ else _] => destruct c eqn:E end;
      [apply Z.gtb_lt in E|]; lia.
Qed.

Lemma mm_malloc_moved fuel size s r s' :
  mm_malloc sbrk_ok fuel size s = Some (r, s') -> moved sbrk_ok 4096 s s'.
Proof.
  unfold mm_malloc. intros H. destruct (size =? 0); [injection H as <- <-; left; reflexivity|].
  cbv zeta in H. destruct (find_fit_in_index_th_list _ _ _ _) as [[[p|] m']|];
    [| |discriminate].
  - injection H as <- <-. left. reflexivity.
  - apply extend_heap_moved in H. exact H.
Qed.

Lemma mm_calloc_moved fuel nmemb size s r s' :
  mm_calloc sbrk_ok fuel nmemb size s = Some (r, s') -> moved sbrk_ok 4096 s s'.
Proof.
  unfold mm_calloc. intros H.
  destruct (mm_malloc _ _ _ _) as [[[p|] s1]|] eqn:Em; [| |discriminate];
    [destruct (_ <=? _); [|discriminate]|];
    apply mm_malloc_moved in Em; injection H as <- <-; exact Em.
Qed.

Lemma mm_realloc_moved fuel p size s r s' :
  mm_realloc sbrk_ok fuel (Some p) size s = Some (r, s') -> moved sbrk_ok 8 s s'.
Proof.
  unfold mm_realloc, moved. intros H.
  destruct (size =? 0).
  { destruct (mm_free (Some p) s) as [s2|] eqn:E; [|discriminate].
    injection H as <- <-. left. exact (mm_free_last _ _ _ E). }
  cbv zeta in H.
  destruct (Z.leb_spec (align_size size) (get_size p (heap_mem s))) as [_|Hlt].
  { destruct (shrink _ _ _ _) as [[q m']|]; [|discriminate].
    injection H as <- <-. left. reflexivity. }
  destruct (_ && _).
  { destruct (_ >=? _).
    - destruct (insert _ _ _); [|discriminate]. injection H as <- <-. left. reflexivity.
    - injection H as <- <-. left. reflexivity. }
  destruct (_ =? _).
  { destruct (sbrk_ok _ _) eqn:Es; cbn [negb] in H; injection H as <- <-;
      [|left; reflexivity].
    cbn [heap_last_ptr]. right. eexists. split; [|split; [exact Es|reflexivity]].
    destruct (align_size_good size) as [[_ Ha8] Ha].
    pose proof (get_size_bound p (heap_mem s)).
    pose proof (get_size_mult8 p (heap_mem s)).
    rewrite sub32_small by lia. lia. }
  destruct (mm_malloc sbrk_ok fuel size s) as [[q s1]|] eqn:Em; [|discriminate].
  apply mm_malloc_moved in Em.
  destruct (mm_free _ _) as [s2|] eqn:Ef; [|discriminate].
  apply mm_free_last in Ef. injection H as <- <-. cbn [heap_last_ptr with_mem] in Ef.
  rewrite Ef. destruct Em as [Em|(n & Hn & Es & Em)]; [left; exact Em|].
  right. exists n. split; [lia|]. split; assumption.
Qed.
End Growth.

(** * Further facts about the search and the extension of the heap *)

Lemma find_all_false {A} (f : A -> bool) (l : list A) :
  (forall x, In x l -> f x = false) -> find f l = None.
Proof.
  induction l as [|a l IH]; intros H; [reflexivity|].
  cbn [find]. rewrite (H a (or_introl eq_refl)). apply IH.
  intros x Hx. apply H. right. exact Hx.
Qed.

(** An aligned size of [2^31] or more has index 0: the search looks into
    the list of class 12 and then leaves the table [begins]. *)
Lemma find_fit_index_0 fuel m hl bs L aligned :
  rep m hl bs L -> 2 ^ 31 <= aligned < two32 -> hl <= 2 ^ 31 ->
  find_fit_in_index_th_list fuel aligned 0 m = None.
Proof.
  intros H Ha Hhl. unfold find_fit_in_index_th_list.
  destruct fuel as [|fuel]; [reflexivity|].
  cbn [find_fit_loop]. change (begins 0) with (Some (sent 12)).
  destruct (rep_lists _ _ _ _ H 12 ltac:(lia)) as [Hd _].
  pose proof (rep_sizes _ _ _ _ H) as Hs.
  pose proof (rep_total_bound _ _ _ _ H) as Hb.
  assert (Hns : ~ In (sent 12) (L 12)).
  { apply (sent_not_node bs L Hs Hb (rep_nodes _ _ _ _ H)); lia. }
  destruct (scan_list (S fuel) aligned (sent 12) (get_next (sent 12) m) m)
    as [r0|] eqn:Es; [|reflexivity].
  rewrite (scan_list_find _ _ _ _ _ _ _ Hd Hns Es).
  rewrite find_all_false.
  - change (sub32 0 1 >? 11) with true. cbv iota.
    destruct fuel as [|fuel]; reflexivity.
  - intros x Hx. apply Z.leb_gt.
    destruct (node_block bs L Hs Hb (rep_nodes _ _ _ _ H) 12 x ltac:(lia) Hx)
      as (sz & Hin & _ & _ & H136 & Hend & _).
    rewrite (block_size_read _ _ _ _ _ _ (rep_heap _ _ _ _ H) Hin).
    destruct (rep_heap _ _ _ _ H) as (_ & Ehl & _). lia.
Qed.

Lemma align_size_huge n :
  2 ^ 31 - 11 <= n <= two32 - 12 ->
  2 ^ 31 <= align_size n < two32 /\ get_index (align_size n) = 0.
Proof.
  intros Hn.
  assert (Ha : 2 ^ 31 <= align_size n < two32).
  { split; [|apply align_size_good].
    rewrite align_size_small by (unfold two32 in *; lia).
    unfold two32 in *. lia. }
  split; [exact Ha|].
  unfold get_index. destruct (Z.eqb_spec (align_size n) 0); [lia|].
  assert (Z.log2 (align_size n) = 31); [|lia].
  apply Z.log2_unique; [lia|]. unfold two32 in Ha.
  change (2 ^ Z.succ 31) with 4294967296. lia.
Qed.

Section Refusal.
Variable sbrk_ok : Z -> Z -> bool.

Lemma mm_malloc_huge s bs L fuel n :
  rep (heap_mem s) (heap_last_ptr s) bs L ->
  2 ^ 31 - 11 <= n <= two32 - 12 -> heap_last_ptr s <= 2 ^ 31 ->
  mm_malloc sbrk_ok fuel n s = None.
Proof.
  intros H Hn Hhl. unfold mm_malloc.
  destruct (Z.eqb_spec n 0); [lia|]. cbv zeta.
  destruct (align_size_huge n Hn) as [Ha ->].
  rewrite (find_fit_index_0 fuel _ _ _ _ _ H Ha Hhl). reflexivity.
Qed.

(** A null result for a size that is not 0 comes from a refusal of the
    provider. *)
Lemma malloc_null_refused s bs L fuel size s' :
  rep (heap_mem s) (heap_last_ptr s) bs L -> complete bs L -> nadj true bs ->
  size <> 0 -> mm_malloc sbrk_ok fuel size s = Some (None, s') ->
  exists n, 4096 <= n <= Z.max 4096 (align_size size) /\
            sbrk_ok (heap_last_ptr s) n = false.
Proof.
  intros H Hcomp Hadj Hn0 Hr. unfold mm_malloc in Hr.
  destruct (Z.eqb_spec size 0) as [|_]; [contradiction|].
  destruct (align_size_good size) as [Hga Hlt].
  destruct (find_fit_in_index_th_list fuel (align_size size)
              (get_index (align_size size)) (heap_mem s)) as [[r0 m0]|] eqn:Ef;
    [|discriminate].
  destruct (find_fit_spec _ _ _ _ _ _ _ _ H Hcomp Hadj Hga Hlt Ef)
    as [(-> & -> & Hnofit)|(p & bs' & L' & -> & _)]; [|discriminate].
  rewrite with_mem_self in Hr. unfold extend_heap in Hr.
  destruct (is_forward_allocated (heap_last_ptr s) (heap_mem s)) eqn:Efa.
  - cbv zeta in Hr. destruct (sbrk_ok _ _) eqn:Es; cbn [negb] in Hr.
    + destruct (place _ _ _ _) as [[p m4]|]; discriminate.
    + eexists. split; [|exact Es]. unfold EXTEND_SIZE.
      destruct (Z.gtb_spec (align_size size) 4096); lia.
  - cbv zeta in Hr.
    destruct (free_tail _ _ _ _ H Hcomp Efa) as (fsz & Hc & Hl & Hin & _).
    destruct (rep_unlink _ _ _ _ _ _ H Hc Hl) as (l1 & l2 & _ & H1).
    rewrite (block_size_read _ _ _ _ _ _ (rep_heap _ _ _ _ H1) Hin) in Hr.
    pose proof (Hnofit _ _ Hin) as Hsmall.
    destruct (block_node _ (rep_sizes _ _ _ _ H) (rep_total_bound _ _ _ _ H) _ _ _ Hin)
      as (_ & _ & _ & [Hf16 _] & _).
    rewrite sub32_small in Hr by lia.
    destruct (sbrk_ok _ _) eqn:Es; cbn [negb] in Hr.
    + destruct (place _ _ _ _) as [[p m4]|]; discriminate.
    + eexists. split; [|exact Es]. unfold EXTEND_SIZE.
      destruct (Z.gtb_spec (align_size size - fsz) 4096); lia.
Qed.
End Refusal.

(** ** Growing a block in place *)

Section InPlace.
Variable sbrk_ok : Z -> Z -> bool.
Hypothesis sbrk_bound : forall brk n, sbrk_ok brk n = true -> brk + n < two32.

Lemma mm_realloc_grow s bs L fuel p bsz size :
  rep (heap_mem s) (heap_last_ptr s) bs L -> complete bs L -> nadj true bs ->
  In (p, bsz, true) (blocks_at 136 bs) -> size <> 0 -> bsz < align_size size ->
  (is_allocated (p + bsz) (heap_mem s) = false ->
   align_size size - bsz <= get_size (p + bsz) (heap_mem s) ->
   exists s' bs' L',
     mm_realloc sbrk_ok fuel (Some p) size s = Some (Some p, s') /\
     heap_last_ptr s' = heap_last_ptr s /\
     rep (heap_mem s') (heap_last_ptr s') bs' L' /\ complete bs' L' /\
     nadj true bs' /\ same_allocs bs bs') /\
  (p + bsz = heap_last_ptr s ->
   (sbrk_ok (heap_last_ptr s) (align_size size - bsz) = true ->
    exists s' bs' L',
      mm_realloc sbrk_ok fuel (Some p) size s = Some (Some p, s') /\
      heap_last_ptr s' = heap_last_ptr s + (align_size size - bsz) /\
      rep (heap_mem s') (heap_last_ptr s') bs' L' /\ complete bs' L' /\
      nadj true bs' /\ same_allocs bs bs') /\
   (sbrk_ok (heap_last_ptr s) (align_size size - bsz) = false ->
    mm_realloc sbrk_ok fuel (Some p) size s = Some (None, s))).
Proof using sbrk_bound.
  intros H Hcomp Hadj Hin Hn0 Hgt.
  pose proof (rep_sizes _ _ _ _ H) as Hs.
  pose proof (rep_total_bound _ _ _ _ H) as Hb.
  pose proof (rep_bound _ _ _ _ H) as Hbd.
  destruct (block_node _ Hs Hb _ _ _ Hin) as (_ & Hp136 & _ & [Hb16 Hb8] & _).
  destruct (align_size_good size) as [[Ha16 Ha8] Halt].
  assert (Esz : get_size p (heap_mem s) = bsz)
    by (apply (block_size_read _ _ _ _ _ _ (rep_heap _ _ _ _ H) Hin)).
  unfold mm_realloc.
  destruct (Z.eqb_spec size 0) as [|_]; [contradiction|].
  cbv zeta. unfold get_back. rewrite Esz.
  destruct (Z.leb_spec (align_size size) bsz) as [Hle|_]; [lia|].
  rewrite sub32_small by lia.
  destruct (in_blocks_at_split _ _ _ _ _ Hin) as (pre & post & Ebs & Ep).
  assert (Ebs' : bs = pre ++ [(bsz, true)] ++ post) by exact Ebs. clear Ebs.
  subst bs.
  destruct (heap_mid _ _ _ _ _ _ (rep_heap _ _ _ _ H))
    as (_ & [Hh _] & Hnext & Hend & Hp0).
  rewrite <- Ep in Hh, Hnext, Hend.
  destruct Hnext as (Ens & Ena & _). rewrite Ens, Ena.
  destruct (negb (next_alloc post) && (align_size size - bsz <=? next_size post))
    eqn:Efit.
  { apply andb_prop in Efit. destruct Efit as [Efree Efits].
    apply negb_true_iff in Efree. apply Z.leb_le in Efits.
    destruct (first_free_split _ Efree) as (nsz & post' & ->).
    cbn [next_size next_alloc] in *.
    pose proof (alloc_then_free _ _ _ _ _ _ _ H Hcomp) as X. cbv zeta in X.
    rewrite <- Ep in X.
    destruct X as (_ & _ & _ & _ & _ & _ & _ & _ & _ & _ & _ & Hn16 & Hn8 & Hend' & _).
    assert (Hnl : p + bsz <> heap_last_ptr s) by lia.
    split; [intros _ _|intros E; contradiction].
    rewrite sub32_small by lia.
    rewrite Z.geb_leb.
    destruct (Z.leb_spec 16 (nsz - (align_size size - bsz))) as [Hbig|Hsmall].
    - pose proof (expand_split _ _ _ _ _ _ _ (align_size size) H Hcomp Hadj
                    (conj Ha16 Ha8) Hgt Hbig) as X. cbv zeta in X.
      rewrite <- Ep in X.
      destruct X as (m5 & bs' & L' & Eins & H' & Hc' & Ha' & Hsame).
      replace (p + bsz + (align_size size - bsz)) with (p + align_size size) by lia.
      rewrite Eins.
      eexists _, bs', L'. split; [reflexivity|]. split; [reflexivity|].
      cbn [with_mem heap_mem heap_last_ptr]. auto.
    - pose proof (expand_absorb _ _ _ _ _ _ _ H Hcomp Hadj) as X. cbv zeta in X.
      rewrite <- Ep in X.
      destruct X as (bs' & L' & H' & Hc' & Ha' & Hsame).
      rewrite add32_small by lia.
      rewrite get_size_set_size_only_header by lia.
      eexists _, bs', L'. split; [reflexivity|]. split; [reflexivity|].
      cbn [with_mem heap_mem heap_last_ptr]. auto. }
  assert (Hno : ~ (next_alloc post = false /\ align_size size - bsz <= next_size post)).
  { intros [E1 E2]. rewrite E1 in Efit. cbn [negb andb] in Efit.
    apply Z.leb_gt in Efit. lia. }
  split; [intros E1 E2; exfalso; apply Hno; split; assumption|]. intros Elast.
  destruct (Z.eqb_spec (p + bsz) (heap_last_ptr s)) as [_|N]; [|contradiction].
  assert (Hnil : post = []).
  { apply (post_nil_iff _ _ _ _ _ _ (rep_heap _ _ _ _ H)). lia. }
  subst post.
  destruct (sbrk_ok (heap_last_ptr s) (align_size size - bsz)) eqn:Esb; cbn [negb].
  - split; [intros _|discriminate].
    pose proof (grow_tail _ _ _ _ _ (align_size size) H Hcomp Hadj (conj Ha16 Ha8) Hgt
                  (sbrk_bound _ _ Esb)) as X. cbv zeta in X. rewrite <- Ep in X.
    destruct X as (H' & Hc' & Ha' & Hsame).
    eexists _, (pre ++ [(align_size size, true)]), L.
    split; [reflexivity|]. split; [reflexivity|].
    cbn [heap_mem heap_last_ptr]. auto.
  - split; [discriminate|intros _; reflexivity].
Qed.
End InPlace.

(** * The layout is determined by the allocated blocks *)

Lemma blocks_at_lower p bs x sz al :
  sizes_ok bs -> In (x, sz, al) (blocks_at p bs) -> p <= x.
Proof.
  intros Hs Hin. destruct (in_blocks_at_range _ _ _ _ _ Hs Hin) as (H & _). exact H.
Qed.

(** Two chains of the same length without adjacent free blocks that have
    the same allocated blocks are the same chain. *)
Lemma layout_unique bs : forall p pa bs',
  sizes_ok bs -> sizes_ok bs' -> nadj pa bs -> nadj pa bs' ->
  total bs = total bs' ->
  (forall x sz, In (x, sz, true) (blocks_at p bs) <-> In (x, sz, true) (blocks_at p bs')) ->
  bs = bs'.
Proof.
  induction bs as [|[sz al] bs IH]; intros p pa bs' Hs Hs' Ha Ha' Ht Hiff.
  - destruct bs' as [|[sz' al'] bs']; [reflexivity|].
    apply Forall_cons_iff in Hs' as [[Hg _] Hs'].
    pose proof (total_nonneg _ Hs'). cbn [total fst] in *. lia.
  - pose proof Hs as Hs0. apply Forall_cons_iff in Hs as [[Hg _] Hs]. cbn [fst] in Hg.
    pose proof (total_nonneg _ Hs) as Hn.
    destruct bs' as [|[sz' al'] bs']; [cbn [total] in *; lia|].
    pose proof Hs' as Hs0'. apply Forall_cons_iff in Hs' as [[Hg' _] Hs']. cbn [fst] in Hg'.
    pose proof (total_nonneg _ Hs') as Hn'.
    cbn [nadj] in Ha, Ha'. destruct Ha as [Hpa Ha]. destruct Ha' as [Hpa' Ha'].
    cbn [total] in Ht.
    assert (Hhead : forall s1 a1 r1 s2 a2 r2,
               sizes_ok r2 -> 16 <= s2 ->
               (forall x sz, In (x, sz, true) (blocks_at p ((s1, a1) :: r1)) ->
                             In (x, sz, true) (blocks_at p ((s2, a2) :: r2))) ->
               a1 = true -> a2 = true /\ s2 = s1).
    { intros s1 a1 r1 s2 a2 r2 Hr2 H16 Hsub ->.
      specialize (Hsub p s1 (or_introl eq_refl)). cbn [blocks_at In] in Hsub.
      destruct Hsub as [E|Hin]; [injection E as -> ->; auto|].
      apply (blocks_at_lower _ _ _ _ _ Hr2) in Hin. lia. }
    assert (Eal : al' = al).
    { destruct al, al'; try reflexivity.
      - destruct (Hhead sz true bs sz' false bs' Hs' ltac:(lia)
                    (fun x s => proj1 (Hiff x s)) eq_refl) as [E _]. discriminate E.
      - destruct (Hhead sz' true bs' sz false bs Hs ltac:(lia)
                    (fun x s => proj2 (Hiff x s)) eq_refl) as [E _]. discriminate E. }
    subst al'.
    assert (Esz : sz' = sz).
    { destruct al.
      - exact (proj2 (Hhead sz true bs sz' true bs' Hs' ltac:(lia)
                        (fun x s => proj1 (Hiff x s)) eq_refl)).
      - (* both free: the next block of the shorter one is allocated *)
        assert (Hnext : forall s1 r1 s2 r2,
                   sizes_ok r1 -> sizes_ok r2 -> nadj false r1 -> 16 <= s1 -> 16 <= s2 ->
                   s1 + total r1 = s2 + total r2 ->
                   (forall x sz, In (x, sz, true) (blocks_at p ((s1, false) :: r1)) ->
                                 In (x, sz, true) (blocks_at p ((s2, false) :: r2))) ->
                   s2 <= s1).
        { intros s1 r1 s2 r2 Hr1 Hr2 Hna H1 H2 Et Hsub.
          destruct (Z_le_gt_dec s2 s1) as [|Hgt]; [assumption|exfalso].
          destruct r1 as [|[s3 a3] r1].
          - pose proof (total_nonneg _ Hr2). cbn [total] in Et. lia.
          - cbn [nadj] in Hna. destruct Hna as [Ha3 _]. rewrite (Ha3 eq_refl) in *.
            specialize (Hsub (p + s1) s3). cbn [blocks_at In] in Hsub.
            destruct Hsub as [E|Hin]; [right; left; reflexivity|discriminate E|].
            apply (blocks_at_lower _ _ _ _ _ Hr2) in Hin. lia. }
        pose proof (Hnext sz bs sz' bs' Hs Hs' Ha ltac:(lia) ltac:(lia) Ht
                      (fun x s => proj1 (Hiff x s))).
        pose proof (Hnext sz' bs' sz bs Hs' Hs Ha' ltac:(lia) ltac:(lia) (eq_sym Ht)
                      (fun x s => proj2 (Hiff x s))).
        lia. }
    subst sz'. f_equal.
    apply (IH (p + sz) al bs' Hs Hs' Ha Ha'); [lia|].
    intros x s. specialize (Hiff x s). cbn [blocks_at In] in Hiff.
    split; intros Hin.
    + destruct (proj1 Hiff (or_intror Hin)) as [E|Hin']; [|exact Hin'].
      apply (blocks_at_lower _ _ _ _ _ Hs) in Hin. injection E as E _ _. lia.
    + destruct (proj2 Hiff (or_intror Hin)) as [E|Hin']; [|exact Hin'].
      apply (blocks_at_lower _ _ _ _ _ Hs') in Hin. injection E as E _ _. lia.
Qed.

Section RoundTrip.
Variable sbrk_ok : Z -> Z -> bool.
Hypothesis sbrk_bound : forall brk n, sbrk_ok brk n = true -> brk + n < two32.

End RoundTrip.

(** * Which block the search picks *)

Lemma find_split {A} (f : A -> bool) (l : list A) (p : A) :
  find f l = Some p ->
  exists l1 l2, l = l1 ++ p :: l2 /\ f p = true /\ forall y, In y l1 -> f y = false.
Proof.
  induction l as [|a l IH]; intros H; [discriminate|].
  cbn [find] in H. destruct (f a) eqn:Ea.
  - injection H as ->. exists [], l. split; [reflexivity|]. split; [exact Ea|intros y []].
  - destruct (IH H) as (l1 & l2 & -> & Hp & Hl1).
    exists (a :: l1), l2. split; [reflexivity|]. split; [exact Hp|].
    intros y [<-|Hy]; auto.
Qed.

Lemma place_returns_ptr aligned ptr bsz m p m' :
  place aligned ptr bsz m = Some (p, m') -> p = ptr.
Proof.
  unfold place. destruct (_ <? 16).
  - intros E. injection E as <- _. reflexivity.
  - cbv zeta. destruct (insert _ _ _); [|discriminate].
    intros E. injection E as <- _. reflexivity.
Qed.

Lemma scan_first fuel m hl bs L aligned c p :
  rep m hl bs L -> 12 <= c <= 27 ->
  scan_list fuel aligned (sent c) (get_next (sent c) m) m = Some (Some p) ->
  exists l1 l2, L c = l1 ++ p :: l2 /\ aligned <= get_size p m /\
                forall y, In y l1 -> get_size y m < aligned.
Proof.
  intros H Hc Hscan.
  pose proof (rep_sizes _ _ _ _ H) as Hs.
  pose proof (rep_total_bound _ _ _ _ H) as Hb.
  destruct (rep_lists _ _ _ _ H c Hc) as [Hd _].
  apply scan_list_find with (l := L c) in Hscan; auto.
  2:{ apply (sent_not_node bs L Hs Hb (rep_nodes _ _ _ _ H)); auto. }
  symmetry in Hscan. destruct (find_split _ _ _ Hscan) as (l1 & l2 & El & Hp & Hl1).
  exists l1, l2. split; [exact El|]. split; [apply Z.leb_le; exact Hp|].
  intros y Hy. apply Z.leb_gt. exact (Hl1 y Hy).
Qed.

Lemma find_fit_loop_first rounds fuel m hl bs L aligned : forall i p m',
  rep m hl bs L -> complete bs L -> nadj true bs -> good_size aligned ->
  12 <= i <= 27 ->
  find_fit_loop rounds fuel aligned i m = Some (Some p, m') ->
  exists c l1 l2, 12 <= c <= i /\ L c = l1 ++ p :: l2 /\ aligned <= get_size p m /\
    (forall y, In y l1 -> get_size y m < aligned) /\
    (forall c' y, c < c' <= i -> In y (L c') -> get_size y m < aligned).
Proof.
  induction rounds as [|rounds IH]; intros i p m' H Hcomp Hadj Hga Hi Hr; [discriminate|].
  cbn [find_fit_loop] in Hr. rewrite begins_sent in Hr by exact Hi.
  destruct (scan_list fuel aligned (sent i) (get_next (sent i) m) m) as [r0|] eqn:Es;
    [|discriminate].
  pose proof (scan_round _ _ _ _ _ _ _ _ H Hcomp Hadj Hga Hi Es) as Hround.
  destruct r0 as [p0|].
  - destruct Hround as (m1 & bs' & L' & Hpl & _).
    rewrite Hpl in Hr. injection Hr as <- _.
    destruct (scan_first _ _ _ _ _ _ _ _ H Hi Es) as (l1 & l2 & El & Hp & Hl1).
    exists i, l1, l2. split; [lia|]. split; [exact El|]. split; [exact Hp|].
    split; [exact Hl1|]. intros c' y Hc'. lia.
  - rewrite sub32_small in Hr by (unfold two32; lia).
    destruct (Z.gtb_spec (i - 1) 11) as [Hgt|Hle]; [|discriminate].
    destruct (IH (i - 1) p m' H Hcomp Hadj Hga ltac:(lia) Hr)
      as (c & l1 & l2 & Hc & El & Hp & Hl1 & Hcs).
    exists c, l1, l2. split; [lia|]. split; [exact El|]. split; [exact Hp|].
    split; [exact Hl1|]. intros c' y Hc' Hy.
    destruct (Z.eq_dec c' i) as [->|N]; [exact (Hround y Hy)|].
    apply (Hcs c' y); [lia|exact Hy].
Qed.

Lemma find_fit_first fuel m hl bs L aligned p m' :
  rep m hl bs L -> complete bs L -> nadj true bs ->
  good_size aligned -> aligned < two32 ->
  find_fit_in_index_th_list fuel aligned (get_index aligned) m = Some (Some p, m') ->
  exists c l1 l2, 12 <= c <= class_of aligned /\ L c = l1 ++ p :: l2 /\
    aligned <= get_size p m /\
    (forall y, In y l1 -> get_size y m < aligned) /\
    (forall c' y, c < c' <= class_of aligned -> In y (L c') -> get_size y m < aligned).
Proof.
  intros H Hcomp Hadj Hga Hlt Hr. unfold find_fit_in_index_th_list in Hr.
  assert (Hrange : 16 <= aligned < two32) by (destruct Hga; lia).
  pose proof (get_index_range aligned Hrange) as Hidx.
  destruct (Z.le_gt_cases 12 (get_index aligned)) as [Hhi|Hlo].
  - assert (Ecl : class_of aligned = get_index aligned) by (unfold class_of; lia).
    rewrite Ecl.
    exact (find_fit_loop_first fuel fuel m hl bs L aligned (get_index aligned) p m'
             H Hcomp Hadj Hga ltac:(lia) Hr).
  - assert (Ecl : class_of aligned = 12) by (unfold class_of; lia).
    rewrite Ecl.
    destruct fuel as [|fuel]; [discriminate|].
    cbn [find_fit_loop] in Hr. rewrite begins_low in Hr by lia.
    destruct (scan_list (S fuel) aligned (sent 12) (get_next (sent 12) m) m)
      as [r0|] eqn:Es; [|discriminate].
    pose proof (scan_round (S fuel) m hl bs L aligned 12 _ H Hcomp Hadj Hga ltac:(lia) Es)
      as Hround.
    destruct r0 as [p0|].
    + destruct Hround as (m1 & bs' & L' & Hpl & _).
      rewrite Hpl in Hr. injection Hr as <- _.
      destruct (scan_first (S fuel) m hl bs L aligned 12 p0 H ltac:(lia) Es)
        as (l1 & l2 & El & Hp & Hl1).
      exists 12, l1, l2. split; [lia|]. split; [exact El|]. split; [exact Hp|].
      split; [exact Hl1|]. intros c' y Hc'. lia.
    + exfalso. destruct (Z.eq_dec (get_index aligned) 0) as [E0|N0].
      * rewrite E0 in Hr. change (sub32 0 1 >? 11) with true in Hr. cbv iota in Hr.
        destruct fuel; discriminate Hr.
      * rewrite sub32_small in Hr by (unfold two32; lia).
        destruct (Z.gtb_spec (get_index aligned - 1) 11) as [Hgt|Hle]; [lia|].
        discriminate Hr.
Qed.

Section Policy.
Variable sbrk_ok : Z -> Z -> bool.

Lemma extend_heap_some_grows aligned s p s' :
  extend_heap sbrk_ok aligned s = Some (Some p, s') ->
  heap_last_ptr s + 4096 <= heap_last_ptr s'.
Proof.
  unfold extend_heap. intros H.
  destruct (is_forward_allocated (heap_last_ptr s) (heap_mem s)); cbv zeta in H.
  - destruct (sbrk_ok _ _); cbn [negb] in H; [|discriminate].
    destruct (place _ _ _ _) as [[q m4]|]; [|discriminate].
    injection H as _ <-. cbn [heap_last_ptr]. unfold EXTEND_SIZE.
    destruct (Z.gtb_spec aligned 4096); lia.
  - destruct (sbrk_ok _ _); cbn [negb] in H; [|discriminate].
    destruct (place _ _ _ _) as [[q m4]|]; [|discriminate].
    injection H as _ <-. cbn [heap_last_ptr]. unfold EXTEND_SIZE.
    match goal with |- context [if ?c then _ else _] => destruct c eqn:E end;
      [apply Z.gtb_lt in E|]; lia.
Qed.

(** A block that [mm_malloc] takes from the lists is the first one that
    is large enough, in list order, of the first list that has one,
    from the class of the aligned size towards class 12. *)
Lemma mm_malloc_first s bs L fuel size p s' :
  rep (heap_mem s) (heap_last_ptr s) bs L -> complete bs L -> nadj true bs ->
  mm_malloc sbrk_ok fuel size s = Some (Some p, s') ->
  heap_last_ptr s' = heap_last_ptr s ->
  exists c l1 l2, 12 <= c <= class_of (align_size size) /\ L c = l1 ++ p :: l2 /\
    align_size size <= get_size p (heap_mem s) /\
    (forall y, In y l1 -> get_size y (heap_mem s) < align_size size) /\
    (forall c' y, c < c' <= class_of (align_size size) -> In y (L c') ->
                  get_size y (heap_mem s) < align_size size).
Proof.
  intros H Hcomp Hadj Hm Ehl. unfold mm_malloc in Hm.
  destruct (size =? 0); [discriminate|]. cbv zeta in Hm.
  destruct (align_size_good size) as [Hga Hlt].
  destruct (find_fit_in_index_th_list fuel (align_size size)
              (get_index (align_size size)) (heap_mem s)) as [[[q|] m0]|] eqn:Ef;
    [| |discriminate].
  - injection Hm as <- _.
    exact (find_fit_first _ _ _ _ _ _ _ _ H Hcomp Hadj Hga Hlt Ef).
  - apply extend_heap_some_grows in Hm. cbn [with_mem heap_last_ptr] in Hm. lia.
Qed.
End Policy.

(** * The payload of the allocated blocks *)

(** ** Where a payload byte is *)

Lemma spared_off_lists m hl bs L top x w :
  rep m hl bs L -> hl <= top -> spared bs top x w -> off_lists L w.
Proof.
  intros H Ht Hw c y Hc Hy.
  pose proof (rep_sizes _ _ _ _ H) as Hs.
  pose proof (rep_total_bound _ _ _ _ H) as Hb.
  destruct (rep_heap _ _ _ _ H) as (_ & Ehl & _).
  pose proof (total_nonneg bs Hs) as Hnn.
  destruct Hw as [(sz & Hin & Hw)|Hout].
  - destruct (block_node _ Hs Hb _ _ _ Hin) as (_ & Hx136 & _).
    destruct Hy as [<-|Hy].
    + pose proof (sent_node c Hc). lia.
    + destruct (node_block bs L Hs Hb (rep_nodes _ _ _ _ H) c y Hc Hy)
        as (sy & Hiny & _ & _ & _ & _ & [Hy16 _]).
      destruct (blocks_at_disjoint _ _ _ _ _ _ _ _ Hs Hin Hiny) as [(_ & _ & E)|D];
        [discriminate E|lia].
  - destruct Hy as [<-|Hy].
    + pose proof (sent_node c Hc). lia.
    + destruct (node_block bs L Hs Hb (rep_nodes _ _ _ _ H) c y Hc Hy)
        as (sy & _ & _ & _ & Hy136 & Hye & [Hy16 _]). lia.
Qed.

Lemma spared_off_block m hl bs L top x w y sy al :
  rep m hl bs L -> hl <= top -> spared bs top x w ->
  In (y, sy, al) (blocks_at 136 bs) -> y <> x ->
  w < y - 4 \/ y + sy <= w.
Proof.
  intros H Ht Hw Hy Hne.
  pose proof (rep_sizes _ _ _ _ H) as Hs.
  pose proof (rep_total_bound _ _ _ _ H) as Hb.
  destruct (rep_heap _ _ _ _ H) as (_ & Ehl & _).
  destruct Hw as [(sz & Hin & Hw)|Hout].
  - destruct (blocks_at_disjoint _ _ _ _ _ _ _ _ Hs Hin Hy) as [(E & _)|D]; [congruence|lia].
  - destruct (block_node _ Hs Hb _ _ _ Hy) as (_ & Hy136 & Hye & _). lia.
Qed.

Lemma spared_off_free m hl bs L top x w y sy :
  rep m hl bs L -> hl <= top -> spared bs top x w ->
  In (y, sy, false) (blocks_at 136 bs) ->
  w < y - 4 \/ y + sy <= w.
Proof.
  intros H Ht Hw Hy.
  pose proof (rep_sizes _ _ _ _ H) as Hs.
  destruct Hw as [(sz & Hin & Hw)|Hout].
  - destruct (blocks_at_disjoint _ _ _ _ _ _ _ _ Hs Hin Hy) as [(_ & _ & E)|D];
      [discriminate E|lia].
  - destruct (block_node _ Hs (rep_total_bound _ _ _ _ H) _ _ _ Hy) as (_ & Hy136 & Hye & _).
    destruct (rep_heap _ _ _ _ H) as (_ & Ehl & _). lia.
Qed.

(** A spared byte and an allocated block: the byte is outside the block
    and its header, or it is a payload byte of that very block. *)
Lemma spared_own m hl bs L top x w p bsz :
  rep m hl bs L -> hl <= top -> spared bs top x w ->
  In (p, bsz, true) (blocks_at 136 bs) ->
  (w < p - 4 \/ p + bsz <= w) \/ (x = p /\ p <= w < p + bsz - 4).
Proof.
  intros H Ht Hw Hin.
  destruct (Z.eq_dec p x) as [->|N].
  - destruct Hw as [(sz & Hx & Hr)|Hout].
    + right. split; [reflexivity|].
      destruct (blocks_at_disjoint _ _ _ _ _ _ _ _ (rep_sizes _ _ _ _ H) Hx Hin)
        as [(_ & -> & _)|D]; [exact Hr|].
      destruct (in_blocks_at_range _ _ _ _ _ (rep_sizes _ _ _ _ H) Hin) as (_ & _ & [? _] & _).
      destruct (in_blocks_at_range _ _ _ _ _ (rep_sizes _ _ _ _ H) Hx) as (_ & _ & [? _] & _).
      lia.
    + left.
      destruct (block_node _ (rep_sizes _ _ _ _ H) (rep_total_bound _ _ _ _ H) _ _ _ Hin)
        as (_ & Hy136 & Hye & _).
      destruct (rep_heap _ _ _ _ H) as (_ & Ehl & _). lia.
  - left. exact (spared_off_block m hl bs L top x w p bsz true H Ht Hw Hin N).
Qed.

Lemma spared_range m hl bs L top x w :
  rep m hl bs L -> hl <= top -> spared bs top x w ->
  (w < 0 \/ 136 <= w) /\ (w < hl - 4 \/ top <= w) /\ 136 <= hl.
Proof.
  intros H Ht Hw.
  pose proof (total_nonneg bs (rep_sizes _ _ _ _ H)) as Hnn.
  destruct (rep_heap _ _ _ _ H) as (_ & Ehl & _).
  destruct Hw as [(sz & Hin & Hw)|Hout]; [|lia].
  destruct (block_node _ (rep_sizes _ _ _ _ H) (rep_total_bound _ _ _ _ H) _ _ _ Hin)
    as (_ & Hx136 & Hend & _).
  lia.
Qed.

Lemma tail_in_list m L c :
  lists_ok m L -> 12 <= c <= 27 -> In (get_prev (sent c) m) (sent c :: L c).
Proof.
  intros Hl Hc. destruct (Hl c Hc) as [Hd _].
  rewrite (dseg_last_prev _ _ _ _ Hd). apply last_in_cons.
Qed.

Lemma off_lists_tail m L c w :
  lists_ok m L -> off_lists L w -> 12 <= c <= 27 ->
  w < get_prev (sent c) m + 4 \/ get_prev (sent c) m + 8 <= w.
Proof.
  intros Hl Hw Hc. pose proof (Hw c _ Hc (tail_in_list m L c Hl Hc)). lia.
Qed.

Lemma off_lists_sub (L L' : lists) w :
  off_lists L w -> (forall c y, 12 <= c <= 27 -> In y (L' c) -> In y (L c)) ->
  off_lists L' w.
Proof.
  intros Hw Hsub c y Hc [<-|Hy]; [apply (Hw c); [exact Hc|left; reflexivity]|].
  apply (Hw c); [exact Hc|]. right. apply Hsub; assumption.
Qed.

Lemma off_lists_remove (L : lists) c l1 x l2 w :
  off_lists L w -> L c = l1 ++ x :: l2 -> off_lists (upd L c (l1 ++ l2)) w.
Proof.
  intros Hw El. apply (off_lists_sub L _ w Hw). intros c' y Hc' Hy.
  unfold upd in Hy. destruct (Z.eqb_spec c' c) as [->|_]; [|exact Hy].
  rewrite El. apply in_app_or in Hy. apply in_or_app. simpl. tauto.
Qed.

(** ** The writes of [insert] and [delete_block] *)

Lemma insert_frame x sz m m' w :
  16 <= sz < two32 -> insert x sz m = Some m' ->
  w < x \/ x + 8 <= w -> w < 0 \/ 128 <= w ->
  w < get_prev (sent (class_of sz)) m + 4 \/ get_prev (sent (class_of sz)) m + 8 <= w ->
  m' w = m w.
Proof.
  intros Hsz Hi Hx Hw Ht. unfold insert in Hi. rewrite (begins_class sz Hsz) in Hi.
  injection Hi as <-.
  pose proof (sent_node _ (class_of_range sz Hsz)) as (_ & Hs0 & Hs).
  change (link_tail (sent (class_of sz)) x m w = m w).
  apply link_tail_frame; lia.
Qed.

Lemma delete_node_frame m hl bs L c x w :
  rep m hl bs L -> 12 <= c <= 27 -> In x (L c) -> off_lists L w ->
  delete_block x m w = m w.
Proof.
  intros H Hc Hx Hw.
  destruct (unlink_lists m L bs c x (rep_sizes _ _ _ _ H) (rep_total_bound _ _ _ _ H)
              (rep_nodes _ _ _ _ H) (rep_lists _ _ _ _ H) Hc Hx) as (_ & _ & _ & _ & _ & Hf).
  apply Hf. intros y Hy. exact (Hw c y Hc Hy).
Qed.

(** The prev link of a sentinel is not changed by writes above it. *)
Lemma tail_frame m m' c :
  12 <= c <= 27 -> (forall x, x < 128 -> m' x = m x) ->
  get_prev (sent c) m' = get_prev (sent c) m.
Proof.
  intros Hc Hf. apply get_prev_frame. intros x Hx. apply Hf.
  pose proof (sent_node c Hc). lia.
Qed.

(** ** [place] *)

Lemma place_frame aligned p bsz m p' m' w :
  get_size p m = bsz -> 16 <= aligned -> aligned mod 8 = 0 -> aligned <= bsz ->
  bsz < two32 -> 132 <= p ->
  place aligned p bsz m = Some (p', m') ->
  w < p - 4 \/ p + bsz <= w -> w < 0 \/ 128 <= w ->
  (forall c, 12 <= c <= 27 ->
             w < get_prev (sent c) m + 4 \/ get_prev (sent c) m + 8 <= w) ->
  m' w = m w.
Proof.
  intros Esz Ha16 Ha8 Hle Hlt Hp Hpl Hw Hw128 Ht.
  pose proof (get_size_mult8 p m) as Hb8. rewrite Esz in Hb8.
  pose proof (hdr_is_self p m) as Hself. rewrite Esz in Hself.
  unfold place in Hpl. rewrite sub32_small in Hpl by lia.
  destruct (Z.ltb_spec (bsz - aligned) 16) as [Hsmall|Hbig].
  - injection Hpl as _ <-.
    set (m1 := set_allocated_flag p m).
    assert (H1 : get_size p m1 = bsz).
    { exact (proj1 (hdr_is_set_allocated_flag _ _ _ _ _ Hself)). }
    unfold get_back. rewrite H1.
    rewrite set_forward_allocated_flag_frame by lia.
    unfold m1. rewrite set_allocated_flag_frame by lia. reflexivity.
  - cbv zeta in Hpl.
    set (remain := bsz - aligned) in *.
    set (m1 := set_size p aligned m) in *.
    assert (H1 : hdr_is m1 p aligned (is_allocated p m) (is_forward_allocated p m)).
    { apply (hdr_is_set_size _ _ _ _ _ aligned Hself); lia. }
    set (m2 := set_allocated_flag p m1) in *.
    assert (H2 : get_size p m2 = aligned).
    { exact (proj1 (hdr_is_set_allocated_flag _ _ _ _ _ H1)). }
    unfold get_back in Hpl. rewrite H2 in Hpl.
    set (q := p + aligned) in *.
    set (m3 := set_size q remain m2) in *.
    set (m4 := unset_allocated_flag q m3) in *.
    set (m5 := set_forward_allocated_flag q m4) in *.
    assert (Fr : forall v, v < p - 4 \/ p + bsz - 4 <= v -> m5 v = m v).
    { intros v Hv. unfold m5, m4, m3, m2, m1.
      rewrite set_forward_allocated_flag_frame, unset_allocated_flag_frame,
        set_size_frame, set_allocated_flag_frame, set_size_frame by (unfold q, remain; lia).
      reflexivity. }
    destruct (insert q remain m5) as [m6|] eqn:Ei; [|discriminate].
    injection Hpl as _ <-.
    assert (Hr : 16 <= remain < two32) by (unfold remain; lia).
    pose proof (class_of_range remain Hr) as Hc.
    rewrite (insert_frame q remain m5 m6 w Hr Ei); [apply Fr; lia|unfold q; lia|exact Hw128|].
    rewrite (tail_frame m m5 _ Hc); [apply Ht; exact Hc|].
    intros v Hv. apply Fr. lia.
Qed.

(** ** The search *)

Lemma begins_some i e :
  begins i = Some e -> exists c, 12 <= c <= 27 /\ e = sent c.
Proof.
  unfold begins. intros H.
  destruct ((0 <=? i) && (i <=? 11)) eqn:E1.
  - injection H as <-. exists 12. split; [lia|reflexivity].
  - destruct ((12 <=? i) && (i <=? 27)) eqn:E2; [|discriminate].
    injection H as <-. exists i. split; [|reflexivity].
    apply andb_prop in E2. destruct E2 as [A B].
    apply Z.leb_le in A. apply Z.leb_le in B. lia.
Qed.

Lemma unlink_place_spares m hl bs L c p aligned p' m' top x w :
  rep m hl bs L -> 12 <= c <= 27 -> In p (L c) ->
  good_size aligned -> aligned <= get_size p m ->
  place aligned p (get_size p m) (delete_block p m) = Some (p', m') ->
  hl <= top -> spared bs top x w -> m' w = m w.
Proof.
  intros H Hc Hp [Ha16 Ha8] Hle Hpl Htop Hw.
  pose proof (rep_sizes _ _ _ _ H) as Hs.
  pose proof (rep_total_bound _ _ _ _ H) as Hb.
  destruct (node_block bs L Hs Hb (rep_nodes _ _ _ _ H) c p Hc Hp)
    as (sz & Hin & Hcl & Hok & Hp136 & Hpe & Hg).
  rewrite (block_size_read _ _ _ _ _ _ (rep_heap _ _ _ _ H) Hin) in *.
  destruct (rep_unlink _ _ _ _ _ _ H Hc Hp) as (l1 & l2 & El & H1).
  pose proof (spared_off_lists _ _ _ _ top _ _ H Htop Hw) as Hoff.
  pose proof (spared_range _ _ _ _ top _ _ H Htop Hw) as Hr.
  rewrite (place_frame aligned p sz (delete_block p m) p' m' w); try assumption; try lia.
  - exact (delete_node_frame _ _ _ _ _ _ w H Hc Hp Hoff).
  - exact (block_size_read _ _ _ _ _ _ (rep_heap _ _ _ _ H1) Hin).
  - exact (spared_off_free _ _ _ _ top x w p sz H Htop Hw Hin).
  - intros c' Hc'. apply (off_lists_tail _ _ c' w (rep_lists _ _ _ _ H1)); [|exact Hc'].
    exact (off_lists_remove L c l1 p l2 w Hoff El).
Qed.

Lemma find_fit_loop_spares rounds fuel m hl bs L aligned top : forall i r m' x w,
  rep m hl bs L -> good_size aligned ->
  find_fit_loop rounds fuel aligned i m = Some (r, m') ->
  hl <= top -> spared bs top x w -> m' w = m w.
Proof.
  induction rounds as [|rounds IH]; intros i r m' x w H Hga Hr Htop Hw; [discriminate|].
  cbn [find_fit_loop] in Hr.
  destruct (begins i) as [e|] eqn:Eb; [|discriminate].
  destruct (begins_some i e Eb) as (c & Hc & ->).
  destruct (scan_list fuel aligned (sent c) (get_next (sent c) m) m) as [[p|]|] eqn:Es;
    [| |discriminate].
  - pose proof (rep_sizes _ _ _ _ H) as Hs.
    pose proof (rep_total_bound _ _ _ _ H) as Hb.
    destruct (rep_lists _ _ _ _ H c Hc) as [Hd _].
    apply scan_list_find with (l := L c) in Es; auto.
    2:{ apply (sent_not_node bs L Hs Hb (rep_nodes _ _ _ _ H)); auto. }
    symmetry in Es. apply find_some in Es. destruct Es as [Hp Hfit].
    apply Z.leb_le in Hfit.
    destruct (place aligned p (get_size p m) (delete_block p m)) as [[p' m1]|] eqn:Ep;
      [|discriminate].
    injection Hr as _ <-.
    exact (unlink_place_spares m hl bs L c p aligned p' m1 top x w H Hc Hp Hga Hfit Ep
             Htop Hw).
  - destruct (_ >? 11).
    + exact (IH _ r m' x w H Hga Hr Htop Hw).
    + injection Hr as _ <-. reflexivity.
Qed.

(** ** The extension of the heap and [mm_malloc] *)

Section Keeps.
Variable sbrk_ok : Z -> Z -> bool.
Hypothesis sbrk_bound : forall brk n, sbrk_ok brk n = true -> brk + n < two32.

Lemma extend_heap_spares s bs L aligned r s' top x w :
  rep (heap_mem s) (heap_last_ptr s) bs L -> complete bs L ->
  good_size aligned -> aligned < two32 ->
  (forall y sz, In (y, sz, false) (blocks_at 136 bs) -> sz < aligned) ->
  extend_heap sbrk_ok aligned s = Some (r, s') ->
  heap_last_ptr s' <= top -> spared bs top x w -> heap_mem s' w = heap_mem s w.
Proof using sbrk_bound.
  intros H Hcomp [Ha16 Ha8] Halt Hnofit Hr Htop' Hw.
  assert (Htop : heap_last_ptr s <= top).
  { pose proof (extend_heap_last sbrk_ok _ _ _ _ Hr). lia. }
  revert H Hr Htop. destruct s as [m hl]. cbn [heap_mem heap_last_ptr].
  intros H Hr Htop.
  pose proof (rep_sizes _ _ _ _ H) as Hs.
  pose proof (rep_total_bound _ _ _ _ H) as Hb.
  pose proof (spared_off_lists _ _ _ _ top _ _ H Htop Hw) as Hoff.
  pose proof (spared_range _ _ _ _ top _ _ H Htop Hw) as Hrg.
  unfold extend_heap in Hr. cbn [heap_mem heap_last_ptr] in Hr.
  destruct (is_forward_allocated hl m) eqn:Efa; cbv zeta in Hr.
  - (* the last block is allocated *)
    set (ext := if aligned >? EXTEND_SIZE then aligned else EXTEND_SIZE) in *.
    assert (Hext : 4096 <= ext /\ aligned <= ext /\ ext mod 8 = 0).
    { unfold ext, EXTEND_SIZE. destruct (Z.gtb_spec aligned 4096); lia. }
    destruct (sbrk_ok hl ext) eqn:Esb; cbn [negb] in Hr;
      [|injection Hr as _ <-; reflexivity].
    pose proof (sbrk_bound _ _ Esb) as Hbd.
    set (m1 := set_size hl ext m) in *.
    set (m2 := unset_allocated_flag hl m1) in *.
    set (m3 := set_header (hl + ext) (Z.lor (Z.lor 0 ALLOCATED) FORWARD_FREE) m2) in *.
    destruct (place aligned hl ext m3) as [[p m4]|] eqn:Ep; [|discriminate].
    injection Hr as _ <-. cbn [heap_mem]. cbn [heap_last_ptr] in Htop'.
    assert (Fr : forall v, v < hl - 4 \/ hl + ext <= v -> m3 v = m v).
    { intros v Hv. unfold m3, m2, m1.
      rewrite set_header_frame, unset_allocated_flag_frame, set_size_frame by lia.
      reflexivity. }
    assert (H1 : hdr_is m1 hl ext (is_allocated hl m) (is_forward_allocated hl m)).
    { apply (hdr_is_set_size _ _ _ _ _ ext (hdr_is_self hl m)); lia. }
    assert (H3 : get_size hl m3 = ext).
    { pose proof (hdr_is_unset_allocated_flag _ _ _ _ _ H1) as H2.
      assert (H3 : hdr_is m3 hl ext false (is_forward_allocated hl m)).
      { apply hdr_is_frame with (m := m2); [exact H2|].
        intros v Hv. apply set_header_frame. lia. }
      exact (proj1 H3). }
    rewrite (place_frame aligned hl ext m3 p m4 w); try assumption; try lia.
    + apply Fr. lia.
    + intros c Hc. rewrite (tail_frame m m3 c Hc).
      * exact (off_lists_tail _ _ c w (rep_lists _ _ _ _ H) Hoff Hc).
      * intros v Hv. apply Fr. lia.
  - (* the last block is free *)
    destruct (free_tail _ _ _ _ H Hcomp Efa) as (fsz & Hc & Hl & Hin & Eend).
    set (f := get_forward hl m) in *.
    destruct (rep_unlink _ _ _ _ _ _ H Hc Hl) as (l1 & l2 & El & H1).
    set (m1 := delete_block f m) in *.
    assert (Fr1 : m1 w = m w) by exact (delete_node_frame _ _ _ _ _ _ w H Hc Hl Hoff).
    rewrite (block_size_read _ _ _ _ _ _ (rep_heap _ _ _ _ H1) Hin) in Hr.
    pose proof (Hnofit _ _ Hin) as Hsmall.
    destruct (block_node _ Hs Hb _ _ _ Hin) as (_ & Hf136 & _ & [Hf16 Hf8] & _).
    rewrite sub32_small in Hr by lia.
    set (ext := if aligned - fsz >? EXTEND_SIZE then aligned - fsz else EXTEND_SIZE) in *.
    assert (Hext : 4096 <= ext /\ aligned - fsz <= ext /\ ext mod 8 = 0).
    { unfold ext, EXTEND_SIZE. destruct (Z.gtb_spec (aligned - fsz) 4096); lia. }
    destruct (sbrk_ok hl ext) eqn:Esb; cbn [negb] in Hr;
      [|injection Hr as _ <-; exact Fr1].
    pose proof (sbrk_bound _ _ Esb) as Hbd.
    rewrite !add32_small in Hr by lia.
    set (m2 := set_size f (fsz + ext) m1) in *.
    set (m3 := set_header (hl + ext) (Z.lor (Z.lor 0 ALLOCATED) FORWARD_FREE) m2) in *.
    replace (ext + fsz) with (fsz + ext) in Hr by lia.
    destruct (place aligned f (fsz + ext) m3) as [[p m4]|] eqn:Ep; [|discriminate].
    injection Hr as _ <-. cbn [heap_mem]. cbn [heap_last_ptr] in Htop'.
    assert (Fr : forall v, v < f - 4 \/ hl + ext <= v -> m3 v = m1 v).
    { intros v Hv. unfold m3, m2.
      rewrite set_header_frame, set_size_frame by lia. reflexivity. }
    assert (H3 : get_size f m3 = fsz + ext).
    { assert (H2 : hdr_is m2 f (fsz + ext) (is_allocated f m1) (is_forward_allocated f m1)).
      { apply (hdr_is_set_size _ _ _ _ _ (fsz + ext) (hdr_is_self f m1)); lia. }
      assert (H3 : hdr_is m3 f (fsz + ext) (is_allocated f m1) (is_forward_allocated f m1)).
      { apply hdr_is_frame with (m := m2); [exact H2|].
        intros v Hv. apply set_header_frame. lia. }
      exact (proj1 H3). }
    pose proof (spared_off_free _ _ _ _ top x w f fsz H Htop Hw Hin) as Hwf.
    rewrite (place_frame aligned f (fsz + ext) m3 p m4 w); try assumption; try lia.
    + rewrite Fr by lia. exact Fr1.
    + intros c Hc'. rewrite (tail_frame m1 m3 c Hc').
      * apply (off_lists_tail _ _ c w (rep_lists _ _ _ _ H1)); [|exact Hc'].
        exact (off_lists_remove L _ l1 f l2 w Hoff El).
      * intros v Hv. apply Fr. lia.
Qed.

Lemma mm_malloc_spares s bs L fuel size r s' top x w :
  rep (heap_mem s) (heap_last_ptr s) bs L -> complete bs L -> nadj true bs ->
  mm_malloc sbrk_ok fuel size s = Some (r, s') ->
  heap_last_ptr s' <= top -> spared bs top x w -> heap_mem s' w = heap_mem s w.
Proof using sbrk_bound.
  intros H Hcomp Hadj Hm Htop' Hw.
  assert (Htop : heap_last_ptr s <= top).
  { pose proof (mm_malloc_last sbrk_ok _ _ _ _ _ Hm). lia. }
  unfold mm_malloc in Hm.
  destruct (size =? 0); [injection Hm as _ <-; reflexivity|]. cbv zeta in Hm.
  destruct (align_size_good size) as [Hga Hlt].
  destruct (find_fit_in_index_th_list fuel (align_size size)
              (get_index (align_size size)) (heap_mem s)) as [[r0 m0]|] eqn:Ef;
    [|discriminate].
  pose proof (find_fit_loop_spares _ _ _ _ _ _ _ top _ _ _ x w H Hga Ef Htop Hw) as Hk.
  destruct r0 as [q|].
  - injection Hm as _ <-. exact Hk.
  - destruct (find_fit_spec _ _ _ _ _ _ _ _ H Hcomp Hadj Hga Hlt Ef)
      as [(_ & -> & Hnofit)|(p & bs' & L' & E & _)]; [|discriminate E].
    rewrite with_mem_self in Hm.
    exact (extend_heap_spares s bs L (align_size size) r s' top x w H Hcomp Hga Hlt Hnofit
             Hm Htop' Hw).
Qed.

Lemma mm_malloc_keeps s bs L fuel size r s' x w :
  rep (heap_mem s) (heap_last_ptr s) bs L -> complete bs L -> nadj true bs ->
  mm_malloc sbrk_ok fuel size s = Some (r, s') ->
  payload_byte bs x w -> heap_mem s' w = heap_mem s w.
Proof using sbrk_bound.
  intros H Hcomp Hadj Hm Hw.
  exact (mm_malloc_spares s bs L fuel size r s' (heap_last_ptr s') x w H Hcomp Hadj Hm
           (Z.le_refl _) (or_introl Hw)).
Qed.
End Keeps.

(** ** [mm_free] *)

Lemma free_writes f T m1 (pa na : bool) m' w :
  16 <= T < two32 -> T mod 8 = 0 -> 132 <= f ->
  insert f T
    (let m2 := set_size f T m1 in
     let m3 := if pa then unset_allocated_flag f m2 else m2 in
     if na then unset_forward_allocated_flag (f + T) m3 else m3) = Some m' ->
  w < f - 4 \/ f + T <= w -> w < 0 \/ 128 <= w ->
  w < get_prev (sent (class_of T)) m1 + 4 \/ get_prev (sent (class_of T)) m1 + 8 <= w ->
  m' w = m1 w.
Proof.
  intros HT HT8 Hf Hi Hw Hw128 Ht. cbv zeta in Hi.
  set (m2 := set_size f T m1) in *.
  set (m3 := if pa then unset_allocated_flag f m2 else m2) in *.
  set (m4 := if na then unset_forward_allocated_flag (f + T) m3 else m3) in *.
  assert (Fr : forall v, v < f - 4 \/ f + T <= v -> m4 v = m1 v).
  { intros v Hv. unfold m4, m3, m2.
    destruct na, pa;
      rewrite ?unset_forward_allocated_flag_frame, ?unset_allocated_flag_frame,
        ?set_size_frame by lia; reflexivity. }
  pose proof (class_of_range T HT) as Hc.
  rewrite (insert_frame f T m4 m' w HT Hi); [apply Fr; exact Hw|lia|exact Hw128|].
  rewrite (tail_frame m1 m4 _ Hc); [exact Ht|].
  intros v Hv. apply Fr. lia.
Qed.

(** As for [mm_free_gen], the lists need only hold the free blocks that
    satisfy [P], the free neighbours of the block among them. *)
Lemma mm_free_spares_gen (P : Z -> Prop) s bs L p sz s' top x w :
  rep (heap_mem s) (heap_last_ptr s) bs L -> complete_on P bs L -> nadj true bs ->
  In (p, sz, true) (blocks_at 136 bs) ->
  (forall y sz', In (y, sz', false) (blocks_at 136 bs) -> y < p \/ y = p + sz -> P y) ->
  mm_free (Some p) s = Some s' ->
  heap_last_ptr s <= top -> spared bs top x w -> x <> p ->
  heap_mem s' w = heap_mem s w.
Proof.
  destruct s as [m hl]. cbn [heap_mem heap_last_ptr].
  intros H Hcomp Hadj Hin HPn Hf Htop Hw Hxp.
  pose proof (rep_sizes _ _ _ _ H) as Hs.
  pose proof (rep_total_bound _ _ _ _ H) as Hb.
  pose proof (rep_bound _ _ _ _ H) as Hbd.
  pose proof (spared_off_lists _ _ _ _ top _ _ H Htop Hw) as Hoff.
  pose proof (spared_range _ _ _ _ top _ _ H Htop Hw) as Hrg.
  pose proof (spared_off_block _ _ _ _ top x w p sz true H Htop Hw Hin ltac:(congruence)) as Hwp.
  destruct (in_blocks_at_split _ _ _ _ _ Hin) as (pre & post & Ebs & Ep).
  assert (Ebs' : bs = pre ++ [(sz, true)] ++ post) by exact Ebs. clear Ebs.
  subst bs.
  destruct (heap_mid _ _ _ _ _ _ (rep_heap _ _ _ _ H))
    as ([Hg16 Hg8] & [Hh _] & Hnext & Hend & Hp0).
  rewrite <- Ep in Hh, Hnext, Hend.
  assert (Hback : get_back p m = p + sz).
  { unfold get_back. destruct Hh as (-> & _). reflexivity. }
  assert (Hfa : is_forward_allocated p m = last_alloc true pre) by apply Hh.
  assert (Hba : is_allocated (p + sz) m = next_alloc post) by apply Hnext.
  assert (Hgs : get_size p m = sz) by apply Hh.
  unfold mm_free in Hf. cbn [heap_mem] in Hf. rewrite Hback, Hfa, Hba in Hf.
  destruct (last_alloc true pre) eqn:Epa; destruct (next_alloc post) eqn:Ena;
    cbn [andb negb] in Hf.
  - (* both neighbours allocated *)
    rewrite Hgs in Hf.
    destruct (insert _ _ _) as [m6|] eqn:Ei; [|discriminate].
    injection Hf as <-. cbn [with_mem heap_mem].
    apply (free_writes p sz m true true m6 w); try lia; try exact Ei.
    exact (off_lists_tail _ _ _ w (rep_lists _ _ _ _ H) Hoff
             (class_of_range sz ltac:(lia))).
  - (* successor free *)
    destruct (first_free_split _ Ena) as (nsz & post' & ->).
    assert (Hinb : In (p + sz, nsz, false)
                     (blocks_at 136 (pre ++ [(sz, true)] ++ (nsz, false) :: post'))).
    { replace (pre ++ [(sz, true)] ++ (nsz, false) :: post')
        with ((pre ++ [(sz, true)]) ++ (nsz, false) :: post')
        by (rewrite <- app_assoc; reflexivity).
      replace (p + sz) with (136 + total (pre ++ [(sz, true)]))
        by (rewrite total_app; cbn [total]; lia).
      apply in_blocks_at_mid. }
    pose proof (Hcomp _ _ Hinb (HPn _ _ Hinb ltac:(right; reflexivity))) as Hbl.
    destruct (block_node _ Hs Hb _ _ _ Hinb) as (_ & _ & Hbe & [Hn16 Hn8] & Hnlt).
    assert (Hcn : 12 <= class_of nsz <= 27) by (apply class_of_range; lia).
    destruct (rep_unlink _ _ _ _ _ _ H Hcn Hbl) as (l1 & l2 & El & H1).
    pose proof (delete_node_frame _ _ _ _ _ _ w H Hcn Hbl Hoff) as Fr1.
    set (m1 := delete_block (p + sz) m) in *.
    rewrite (block_size_read _ _ _ _ _ _ (rep_heap _ _ _ _ H1) Hin) in Hf.
    rewrite (block_size_read _ _ _ _ _ _ (rep_heap _ _ _ _ H1) Hinb) in Hf.
    rewrite add32_small in Hf by lia.
    destruct (insert _ _ _) as [m6|] eqn:Ei; [|discriminate].
    injection Hf as <-. cbn [with_mem heap_mem].
    pose proof (spared_off_free _ _ _ _ top x w _ _ H Htop Hw Hinb) as Hwb.
    rewrite <- Fr1.
    apply (free_writes p (sz + nsz) m1 true false m6 w); try lia; try exact Ei.
    apply (off_lists_tail _ _ _ w (rep_lists _ _ _ _ H1)).
    + exact (off_lists_remove L _ l1 _ l2 w Hoff El).
    + apply class_of_range. lia.
  - (* predecessor free *)
    destruct (last_free_split _ Epa) as (pre' & fsz & ->).
    rewrite total_app in Ep. cbn [total] in Ep.
    set (f := 136 + total pre') in *.
    assert (Ebs : (pre' ++ [(fsz, false)]) ++ [(sz, true)] ++ post
                  = pre' ++ [(fsz, false)] ++ ((sz, true) :: post))
      by (rewrite <- app_assoc; reflexivity).
    rewrite Ebs in *.
    destruct (heap_mid _ _ _ _ _ _ (rep_heap _ _ _ _ H))
      as ([Hf16 Hf8] & [_ Hff] & _ & _ & Hp0').
    fold f in Hff.
    assert (Hfwd : get_forward p m = f).
    { unfold get_forward, WORD_SIZE. change (4 * 2) with 8.
      replace (p - 8) with (f + fsz - 8) by lia. rewrite Hff by reflexivity. lia. }
    rewrite Hfwd in Hf.
    assert (Hinf : In (f, fsz, false)
                     (blocks_at 136 (pre' ++ [(fsz, false)] ++ (sz, true) :: post)))
      by apply in_blocks_at_mid.
    pose proof (Hcomp _ _ Hinf (HPn _ _ Hinf ltac:(left; lia))) as Hfl.
    destruct (block_node _ Hs Hb _ _ _ Hinf) as (_ & _ & _ & _ & Hflt).
    assert (Hcf : 12 <= class_of fsz <= 27) by (apply class_of_range; lia).
    destruct (rep_unlink _ _ _ _ _ _ H Hcf Hfl) as (l1 & l2 & El & H1).
    pose proof (delete_node_frame _ _ _ _ _ _ w H Hcf Hfl Hoff) as Fr1.
    set (m1 := delete_block f m) in *.
    rewrite (block_size_read _ _ _ _ _ _ (rep_heap _ _ _ _ H1) Hin) in Hf.
    rewrite (block_size_read _ _ _ _ _ _ (rep_heap _ _ _ _ H1) Hinf) in Hf.
    rewrite add32_small in Hf by lia.
    replace (p + sz) with (f + (fsz + sz)) in Hf by lia.
    destruct (insert _ _ _) as [m6|] eqn:Ei; [|discriminate].
    injection Hf as <-. cbn [with_mem heap_mem].
    pose proof (spared_off_free _ _ _ _ top x w _ _ H Htop Hw Hinf) as Hwf.
    rewrite <- Fr1.
    apply (free_writes f (fsz + sz) m1 false true m6 w); try lia; try exact Ei.
    apply (off_lists_tail _ _ _ w (rep_lists _ _ _ _ H1)).
    + exact (off_lists_remove L _ l1 _ l2 w Hoff El).
    + apply class_of_range. lia.
  - (* both neighbours free *)
    destruct (last_free_split _ Epa) as (pre' & fsz & ->).
    destruct (first_free_split _ Ena) as (nsz & post' & ->).
    rewrite total_app in Ep. cbn [total] in Ep.
    set (f := 136 + total pre') in *.
    assert (Ebs : (pre' ++ [(fsz, false)]) ++ [(sz, true)] ++ (nsz, false) :: post'
                  = pre' ++ [(fsz, false)] ++ ((sz, true) :: (nsz, false) :: post'))
      by (rewrite <- app_assoc; reflexivity).
    rewrite Ebs in *.
    destruct (heap_mid _ _ _ _ _ _ (rep_heap _ _ _ _ H))
      as ([Hf16 Hf8] & [_ Hff] & _ & _ & Hp0').
    fold f in Hff.
    assert (Hfwd : get_forward p m = f).
    { unfold get_forward, WORD_SIZE. change (4 * 2) with 8.
      replace (p - 8) with (f + fsz - 8) by lia. rewrite Hff by reflexivity. lia. }
    rewrite Hfwd in Hf.
    assert (Hinf : In (f, fsz, false)
                     (blocks_at 136 (pre' ++ [(fsz, false)] ++ (sz, true) :: (nsz, false) :: post')))
      by apply in_blocks_at_mid.
    assert (Hinb : In (p + sz, nsz, false)
                     (blocks_at 136 (pre' ++ [(fsz, false)] ++ (sz, true) :: (nsz, false) :: post'))).
    { replace (pre' ++ [(fsz, false)] ++ (sz, true) :: (nsz, false) :: post')
        with ((pre' ++ [(fsz, false); (sz, true)]) ++ (nsz, false) :: post')
        by (rewrite <- app_assoc; reflexivity).
      replace (p + sz) with (136 + total (pre' ++ [(fsz, false); (sz, true)]))
        by (rewrite total_app; cbn [total]; unfold f in Ep; lia).
      apply in_blocks_at_mid. }
    pose proof (Hcomp _ _ Hinf (HPn _ _ Hinf ltac:(left; lia))) as Hfl.
    pose proof (Hcomp _ _ Hinb (HPn _ _ Hinb ltac:(right; reflexivity))) as Hbl.
    destruct (block_node _ Hs Hb _ _ _ Hinf) as (_ & _ & _ & _ & Hflt).
    destruct (block_node _ Hs Hb _ _ _ Hinb) as (_ & _ & Hbe & [Hn16 Hn8] & Hnlt).
    assert (Hcf : 12 <= class_of fsz <= 27) by (apply class_of_range; lia).
    assert (Hcn : 12 <= class_of nsz <= 27) by (apply class_of_range; lia).
    destruct (rep_unlink _ _ _ _ _ _ H Hcf Hfl) as (l1 & l2 & El & H1).
    pose proof (delete_node_frame _ _ _ _ _ _ w H Hcf Hfl Hoff) as Fr1.
    set (m1 := delete_block f m) in *.
    set (L1 := upd L (class_of fsz) (l1 ++ l2)) in *.
    assert (Hoff1 : off_lists L1 w) by exact (off_lists_remove L _ l1 _ l2 w Hoff El).
    assert (Hbl1 : In (p + sz) (L1 (class_of nsz))).
    { unfold L1. eapply in_upd_remove; eauto. lia. }
    destruct (rep_unlink _ _ _ _ _ _ H1 Hcn Hbl1) as (l3 & l4 & El1 & H2).
    pose proof (delete_node_frame _ _ _ _ _ _ w H1 Hcn Hbl1 Hoff1) as Fr2.
    set (m2 := delete_block (p + sz) m1) in *.
    rewrite (block_size_read _ _ _ _ _ _ (rep_heap _ _ _ _ H2) Hin) in Hf.
    rewrite (block_size_read _ _ _ _ _ _ (rep_heap _ _ _ _ H2) Hinf) in Hf.
    rewrite (block_size_read _ _ _ _ _ _ (rep_heap _ _ _ _ H2) Hinb) in Hf.
    rewrite !add32_small in Hf by (try rewrite add32_small by lia; lia).
    destruct (insert _ _ _) as [m6|] eqn:Ei; [|discriminate].
    injection Hf as <-. cbn [with_mem heap_mem].
    pose proof (spared_off_free _ _ _ _ top x w _ _ H Htop Hw Hinf) as Hwf.
    pose proof (spared_off_free _ _ _ _ top x w _ _ H Htop Hw Hinb) as Hwb.
    rewrite <- Fr1, <- Fr2.
    apply (free_writes f (fsz + sz + nsz) m2 false false m6 w); try lia; try exact Ei.
    apply (off_lists_tail _ _ _ w (rep_lists _ _ _ _ H2)).
    + exact (off_lists_remove L1 _ l3 _ l4 w Hoff1 El1).
    + apply class_of_range. lia.
Qed.

Lemma mm_free_spares s bs L p s' top x w :
  rep (heap_mem s) (heap_last_ptr s) bs L -> complete bs L -> nadj true bs ->
  allocs bs p -> mm_free (Some p) s = Some s' ->
  heap_last_ptr s <= top -> spared bs top x w -> x <> p ->
  heap_mem s' w = heap_mem s w.
Proof.
  intros H Hcomp Hadj (sz & Hin) Hf Htop Hw Hxp.
  apply (mm_free_spares_gen (fun _ => True) s bs L p sz s' top x w H); auto.
  intros y sz' Hy _. exact (Hcomp y sz' Hy).
Qed.

Lemma mm_free_keeps s bs L p s' x w :
  rep (heap_mem s) (heap_last_ptr s) bs L -> complete bs L -> nadj true bs ->
  allocs bs p -> mm_free (Some p) s = Some s' ->
  payload_byte bs x w -> x <> p -> heap_mem s' w = heap_mem s w.
Proof.
  intros H Hcomp Hadj Hp Hf Hw Hxp.
  exact (mm_free_spares s bs L p s' (heap_last_ptr s) x w H Hcomp Hadj Hp Hf
           (Z.le_refl _) (or_introl Hw) Hxp).
Qed.

(** ** [shrink] *)

Lemma off_lists_apart (L : lists) lo hi w :
  apart L lo hi -> lo <= w < hi -> off_lists L w.
Proof. intros Ha Hw c y Hc Hy. exact (apart_nodes L lo hi c w Ha Hc Hw y Hy). Qed.

Lemma shrink_spares m hl bs L p bsz aligned p' m' top x w :
  rep m hl bs L -> complete bs L ->
  In (p, bsz, true) (blocks_at 136 bs) -> good_size aligned -> aligned <= bsz ->
  shrink aligned p bsz m = Some (p', m') ->
  hl <= top -> spared bs top x w -> x <> p \/ w < p + aligned - 4 ->
  m' w = m w.
Proof.
  intros H Hcomp Hin [Ha16 Ha8] Hle Hsh Htop Hw Hcase.
  pose proof (rep_sizes _ _ _ _ H) as Hs.
  pose proof (rep_total_bound _ _ _ _ H) as Hb.
  pose proof (rep_bound _ _ _ _ H) as Hbd.
  pose proof (spared_off_lists _ _ _ _ top _ _ H Htop Hw) as Hoff.
  pose proof (spared_range _ _ _ _ top _ _ H Htop Hw) as Hrg.
  assert (Hw' : w < p - 4 \/ p + bsz <= w \/ p <= w < p + aligned - 4).
  { destruct (spared_own _ _ _ _ top x w p bsz H Htop Hw Hin) as [D|[E Hr]]; [lia|].
    destruct Hcase as [N|Hlt]; [contradiction|lia]. }
  destruct (in_blocks_at_split _ _ _ _ _ Hin) as (pre & post & Ebs & Ep).
  assert (Ebs' : bs = pre ++ [(bsz, true)] ++ post) by exact Ebs. clear Ebs.
  subst bs.
  destruct (heap_mid _ _ _ _ _ _ (rep_heap _ _ _ _ H))
    as ([Hg16 Hg8] & [Hh _] & Hnext & Hend & Hp0).
  rewrite <- Ep in Hh, Hnext, Hend.
  assert (Hnp : forall c, 12 <= c <= 27 -> ~ In p (L c)).
  { eapply alloc_not_node; eauto. }
  assert (Hout : forall c y, 12 <= c <= 27 -> In y (L c) -> y < p \/ p + bsz <= y).
  { intros c y Hc Hy. eapply nodes_apart; eauto. }
  assert (Hap : apart L (p - 4) (p + bsz)).
  { apply (apart_of_region pre [(bsz, true)] post L p bsz Hs (rep_nodes _ _ _ _ H) Ep
             ltac:(cbn [total]; lia) Hout). }
  unfold shrink in Hsh. rewrite sub32_small in Hsh by lia.
  destruct (Z.ltb_spec (bsz - aligned) 16) as [Hsmall|Hbig].
  { injection Hsh as _ <-. reflexivity. }
  cbv zeta in Hsh. set (remain := bsz - aligned) in *.
  assert (Hr8 : remain mod 8 = 0) by (unfold remain; lia).
  set (m1 := set_size_only_header p aligned m) in *.
  assert (H1 : hdr_is m1 p aligned true (last_alloc true pre)).
  { eapply hdr_is_set_size_only_header; eauto. lia. }
  assert (Hqb : get_back p m1 = p + aligned).
  { unfold get_back. destruct H1 as (-> & _). reflexivity. }
  rewrite Hqb in Hsh. set (q := p + aligned) in *.
  set (m2 := unset_allocated_flag q m1) in *.
  assert (H2 : hdr_is m2 q (get_size q m1) false (is_forward_allocated q m1)).
  { eapply hdr_is_unset_allocated_flag. apply hdr_is_self. }
  set (m3 := set_size q remain m2) in *.
  assert (H3 : hdr_is m3 q remain false (is_forward_allocated q m1)).
  { eapply hdr_is_set_size; eauto. lia. }
  set (m4 := set_forward_allocated_flag q m3) in *.
  assert (H4 : hdr_is m4 q remain false true).
  { eapply hdr_is_set_forward_allocated_flag; eauto. }
  assert (Fr4 : forall v, v < p - 4 \/ p + bsz - 4 <= v -> m4 v = m v).
  { intros v Hv. unfold m4, m3, m2, m1.
    rewrite set_forward_allocated_flag_frame, set_size_frame, unset_allocated_flag_frame,
      set_size_only_header_frame by (unfold q, remain; lia). reflexivity. }
  assert (Fr4w : m4 w = m w).
  { unfold m4, m3, m2, m1.
    rewrite set_forward_allocated_flag_frame, set_size_frame, unset_allocated_flag_frame,
      set_size_only_header_frame by (unfold q, remain; lia). reflexivity. }
  assert (Hrb : get_back q m4 = p + bsz).
  { unfold get_back. destruct H4 as (-> & _). unfold q, remain. lia. }
  rewrite Hrb in Hsh.
  assert (Hr4 : hdr_is m4 (p + bsz) (next_size post) (next_alloc post) true).
  { apply hdr_is_frame with (m := m); [exact Hnext|]. intros v Hv. apply Fr4. lia. }
  assert (Hia : is_allocated (p + bsz) m4 = next_alloc post) by apply Hr4.
  rewrite Hia in Hsh.
  assert (Hl4 : lists_ok m4 L).
  { apply lists_frame_apart with (m := m) (lo := p - 4) (hi := p + bsz - 4).
    - apply (rep_lists _ _ _ _ H).
    - eapply apart_sub; eauto; lia.
    - exact Fr4. }
  assert (Ht4 : forall c, 12 <= c <= 27 ->
                          w < get_prev (sent c) m4 + 4 \/ get_prev (sent c) m4 + 8 <= w).
  { intros c Hc. exact (off_lists_tail m4 L c w Hl4 Hoff Hc). }
  destruct (next_alloc post) eqn:Ena.
  - (* the successor is allocated *)
    destruct (insert q remain m4) as [m5|] eqn:Ei; [|discriminate].
    injection Hsh as _ <-.
    assert (Hrr : 16 <= remain < two32) by (unfold remain; lia).
    pose proof (class_of_range remain Hrr) as Hcr.
    assert (Hq5 : get_size q m5 = remain).
    { rewrite !get_size_hdr. rewrite (get_header_frame q m4 m5).
      - rewrite <- get_size_hdr. exact (proj1 H4).
      - intros v Hv. apply (insert_frame q remain m4 m5 v Hrr Ei); [lia|unfold q; lia|].
        apply (off_lists_tail m4 L _ v Hl4); [|exact Hcr].
        apply (off_lists_apart L (p - 4) (p + bsz) v Hap). unfold q in Hv. lia. }
    unfold get_back. rewrite Hq5.
    replace (q + remain) with (p + bsz) by (unfold q, remain; lia).
    rewrite unset_forward_allocated_flag_frame by lia.
    rewrite (insert_frame q remain m4 m5 w Hrr Ei); [exact Fr4w|unfold q; lia|lia|].
    apply Ht4. exact Hcr.
  - (* the successor is free *)
    destruct (first_free_split _ Ena) as (nsz & post' & ->).
    cbn [next_size next_alloc] in *.
    set (r := p + bsz) in *.
    assert (Hgr : get_size r m4 = nsz) by apply Hr4.
    rewrite Hgr in Hsh.
    assert (Hinr : In (r, nsz, false)
                     (blocks_at 136 (pre ++ [(bsz, true)] ++ (nsz, false) :: post'))).
    { replace (pre ++ [(bsz, true)] ++ (nsz, false) :: post')
        with ((pre ++ [(bsz, true)]) ++ (nsz, false) :: post')
        by (rewrite <- app_assoc; reflexivity).
      replace r with (136 + total (pre ++ [(bsz, true)]))
        by (rewrite total_app; cbn [total]; unfold r; lia).
      apply in_blocks_at_mid. }
    pose proof (Hcomp _ _ Hinr) as Hrl.
    destruct (block_node _ Hs Hb _ _ _ Hinr) as (_ & _ & Hre & [Hn16 Hn8] & Hnlt).
    assert (Hcn : 12 <= class_of nsz <= 27) by (apply class_of_range; lia).
    rewrite add32_small in Hsh by (unfold remain, r in *; lia).
    set (T := remain + nsz) in *.
    destruct (unlink_lists m4 L _ (class_of nsz) r Hs Hb (rep_nodes _ _ _ _ H) Hl4 Hcn Hrl)
      as (l1 & l2 & El & Hl5 & Hn5 & Fr5).
    set (m5 := delete_block r m4) in *.
    set (L1 := upd L (class_of nsz) (l1 ++ l2)) in *.
    set (m6 := set_size q T m5) in *.
    destruct (insert q T m6) as [m7|] eqn:Ei; [|discriminate].
    injection Hsh as _ <-.
    pose proof (spared_off_free _ _ _ _ top x w _ _ H Htop Hw Hinr) as Hwr.
    assert (HT : 16 <= T < two32) by (unfold T, remain, r in *; lia).
    pose proof (class_of_range T HT) as HcT.
    rewrite (insert_frame q T m6 m7 w HT Ei); [| unfold q, r in *; lia | lia |].
    + unfold m6. rewrite set_size_frame by (unfold q, T, remain, r in *; lia).
      unfold m5. rewrite Fr5; [exact Fr4w|].
      intros y Hy. exact (Hoff _ y Hcn Hy).
    + rewrite (tail_frame m5 m6 _ HcT).
      * apply (off_lists_tail m5 L1 _ w Hl5); [|exact HcT].
        exact (off_lists_remove L _ l1 r l2 w Hoff El).
      * intros v Hv. unfold m6. apply set_size_frame; unfold q, T, remain, r in *; lia.
Qed.

(** ** [mm_realloc] *)

Lemma memcpy_inside dst src len m x :
  dst <= x < dst + len -> memcpy dst src len m x = m (src + (x - dst)).
Proof.
  intros Hx. unfold memcpy.
  replace (dst <=? x) with true by (symmetry; apply Z.leb_le; lia).
  replace (x <? dst + len) with true by (symmetry; apply Z.ltb_lt; lia).
  reflexivity.
Qed.

Section KeepsRealloc.
Variable sbrk_ok : Z -> Z -> bool.
Hypothesis sbrk_bound : forall brk n, sbrk_ok brk n = true -> brk + n < two32.

(** A successful [mm_realloc] keeps the payload of the other blocks and
    carries the old payload, as far as the new block holds it, to the
    block it returns. *)
Lemma mm_realloc_spares s bs L fuel p bsz size q s' top :
  rep (heap_mem s) (heap_last_ptr s) bs L -> complete bs L -> nadj true bs ->
  In (p, bsz, true) (blocks_at 136 bs) -> size <> 0 ->
  mm_realloc sbrk_ok fuel (Some p) size s = Some (Some q, s') ->
  heap_last_ptr s' <= top ->
  (forall x w, spared bs top x w -> x <> p -> heap_mem s' w = heap_mem s w) /\
  (forall i, 0 <= i < Z.min bsz (align_size size) - 4 ->
             heap_mem s' (q + i) = heap_mem s (p + i)).
Proof using sbrk_bound.
  intros H Hcomp Hadj Hin Hn0 Hr Htop'.
  assert (Htop : heap_last_ptr s <= top).
  { pose proof (mm_realloc_last sbrk_ok _ _ _ _ _ _ Hr). lia. }
  pose proof (rep_sizes _ _ _ _ H) as Hs.
  pose proof (rep_total_bound _ _ _ _ H) as Hb.
  pose proof (rep_bound _ _ _ _ H) as Hbd.
  destruct (block_node _ Hs Hb _ _ _ Hin) as (_ & Hp136 & _ & [Hb16 Hb8] & _).
  destruct (align_size_good size) as [[Ha16 Ha8] Halt].
  assert (Esz : get_size p (heap_mem s) = bsz)
    by (apply (block_size_read _ _ _ _ _ _ (rep_heap _ _ _ _ H) Hin)).
  (* it is enough to treat the bytes one by one *)
  assert (Hown : forall i, 0 <= i < bsz - 4 -> payload_byte bs p (p + i)).
  { intros i Hi. exists bsz. split; [exact Hin|lia]. }
  unfold mm_realloc in Hr.
  destruct (Z.eqb_spec size 0) as [|_]; [contradiction|].
  cbv zeta in Hr. unfold get_back in Hr. rewrite Esz in Hr.
  destruct (Z.leb_spec (align_size size) bsz) as [Hle|Hgt].
  { (* shrink in place *)
    destruct (shrink_spec _ _ _ _ _ _ _ H Hcomp Hadj Hin (conj Ha16 Ha8) Hle)
      as (m' & bs' & L' & Esh & _).
    rewrite Esh in Hr. cbn [option_map fst snd] in Hr. injection Hr as <- <-.
    cbn [with_mem heap_mem].
    split.
    - intros x w Hw Hx.
      exact (shrink_spares _ _ _ _ _ _ _ _ _ top x w H Hcomp Hin (conj Ha16 Ha8) Hle Esh
               Htop Hw (or_introl Hx)).
    - intros i Hi.
      apply (shrink_spares _ _ _ _ _ _ _ _ _ top p (p + i) H Hcomp Hin (conj Ha16 Ha8) Hle
               Esh Htop).
      + left. apply Hown. lia.
      + right. lia. }
  rewrite sub32_small in Hr by lia.
  replace (Z.min bsz (align_size size)) with bsz by lia.
  (* in the branches that keep the pointer every payload byte is kept *)
  assert (Hsame : forall s0,
             (forall x w, spared bs top x w -> heap_mem s0 w = heap_mem s w) ->
             (forall x w, spared bs top x w -> x <> p -> heap_mem s0 w = heap_mem s w) /\
             (forall i, 0 <= i < bsz - 4 -> heap_mem s0 (p + i) = heap_mem s (p + i))).
  { intros s0 Hk. split.
    - intros x w Hw _. exact (Hk x w Hw).
    - intros i Hi. exact (Hk p (p + i) (or_introl (Hown i Hi))). }
  destruct (in_blocks_at_split _ _ _ _ _ Hin) as (pre & post & Ebs & Ep).
  assert (Ebs' : bs = pre ++ [(bsz, true)] ++ post) by exact Ebs. clear Ebs.
  subst bs.
  destruct (heap_mid _ _ _ _ _ _ (rep_heap _ _ _ _ H))
    as (_ & [Hh _] & Hnext & Hend & Hp0).
  rewrite <- Ep in Hh, Hnext, Hend.
  destruct Hnext as (Ens & Ena & _). rewrite Ens, Ena in Hr.
  destruct (negb (next_alloc post) && (align_size size - bsz <=? next_size post))
    eqn:Efit.
  { (* the successor is free and large enough *)
    apply andb_prop in Efit. destruct Efit as [Efree Efits].
    apply negb_true_iff in Efree. apply Z.leb_le in Efits.
    destruct (first_free_split _ Efree) as (nsz & post' & ->).
    cbn [next_size next_alloc] in *.
    pose proof (alloc_then_free _ _ _ _ _ _ _ H Hcomp) as X. cbv zeta in X.
    rewrite <- Ep in X.
    destruct X as (l1 & l2 & El & H1 & _ & _ & _ & _ & _ & _ & _ & Hn16 & Hn8 & Hend' & _).
    assert (Hinb : In (p + bsz, nsz, false)
                     (blocks_at 136 (pre ++ [(bsz, true)] ++ (nsz, false) :: post'))).
    { replace (pre ++ [(bsz, true)] ++ (nsz, false) :: post')
        with ((pre ++ [(bsz, true)]) ++ (nsz, false) :: post')
        by (rewrite <- app_assoc; reflexivity).
      replace (p + bsz) with (136 + total (pre ++ [(bsz, true)]))
        by (rewrite total_app; cbn [total]; lia).
      apply in_blocks_at_mid. }
    pose proof (Hcomp _ _ Hinb) as Hbl.
    assert (Hcn : 12 <= class_of nsz <= 27) by (apply class_of_range; lia).
    set (m1 := delete_block (p + bsz) (heap_mem s)) in *.
    set (L1 := upd L (class_of nsz) (l1 ++ l2)) in *.
    assert (Hcommon : forall x w,
               spared (pre ++ [(bsz, true)] ++ (nsz, false) :: post') top x w ->
               m1 w = heap_mem s w /\ off_lists L1 w /\ (w < 0 \/ 136 <= w) /\
               (w < p - 4 \/ p <= w) /\ (w < p + bsz - 4 \/ p + bsz + nsz <= w)).
    { intros x w Hw.
      pose proof (spared_off_lists _ _ _ _ top _ _ H Htop Hw) as Hoff.
      pose proof (spared_range _ _ _ _ top _ _ H Htop Hw) as Hrg.
      pose proof (spared_off_free _ _ _ _ top x w _ _ H Htop Hw Hinb) as Hwb.
      split; [exact (delete_node_frame _ _ _ _ _ _ w H Hcn Hbl Hoff)|].
      split; [exact (off_lists_remove L _ l1 _ l2 w Hoff El)|].
      split; [lia|].
      pose proof (spared_own _ _ _ _ top x w p bsz H Htop Hw Hin). lia. }
    rewrite sub32_small in Hr by lia.
    rewrite Z.geb_leb in Hr.
    destruct (Z.leb_spec 16 (nsz - (align_size size - bsz))) as [Hbig|Hsmall].
    - replace (p + bsz + (align_size size - bsz)) with (p + align_size size) in Hr by lia.
      set (nb := p + align_size size) in *.
      set (nbs := nsz - (align_size size - bsz)) in *.
      set (m2 := set_size nb nbs m1) in *.
      set (m3 := unset_allocated_flag nb m2) in *.
      set (m4 := set_forward_allocated_flag nb m3) in *.
      destruct (insert nb nbs m4) as [m5|] eqn:Ei; [|discriminate].
      injection Hr as <- <-.
      apply Hsame. intros x w Hw. cbn [with_mem heap_mem].
      destruct (Hcommon x w Hw) as (F1 & Hoff1 & H136 & Hwp & Hwb).
      assert (Hnr : 16 <= nbs < two32) by (unfold nbs; lia).
      pose proof (class_of_range nbs Hnr) as Hcr.
      assert (Fr4 : forall v, v < nb - 4 \/ p + bsz + nsz - 4 <= v -> m4 v = m1 v).
      { intros v Hv. unfold m4, m3, m2.
        rewrite set_forward_allocated_flag_frame, unset_allocated_flag_frame,
          set_size_frame by (unfold nb, nbs in *; lia). reflexivity. }
      rewrite set_size_only_header_frame by lia.
      rewrite (insert_frame nb nbs m4 m5 w Hnr Ei);
        [rewrite Fr4 by (unfold nb; lia); exact F1 | unfold nb; lia | lia |].
      rewrite (tail_frame m1 m4 _ Hcr);
        [exact (off_lists_tail m1 L1 _ w (rep_lists _ _ _ _ H1) Hoff1 Hcr)|].
      intros v Hv. apply Fr4. unfold nb. lia.
    - rewrite add32_small in Hr by lia.
      rewrite get_size_set_size_only_header in Hr by lia.
      injection Hr as <- <-.
      apply Hsame. intros x w Hw. cbn [with_mem heap_mem].
      destruct (Hcommon x w Hw) as (F1 & Hoff1 & H136 & Hwp & Hwb).
      rewrite set_forward_allocated_flag_frame, set_size_only_header_frame by lia.
      exact F1. }
  destruct (Z.eqb_spec (p + bsz) (heap_last_ptr s)) as [Elast|Nlast].
  { (* the block is the last one *)
    destruct (sbrk_ok (heap_last_ptr s) (align_size size - bsz)) eqn:Esb;
      cbn [negb] in Hr; [|discriminate].
    injection Hr as <- <-. cbn [heap_last_ptr] in Htop'.
    apply Hsame. intros x w Hw. cbn [heap_mem].
    pose proof (spared_range _ _ _ _ top _ _ H Htop Hw) as Hrg.
    assert (Hwp : w < p - 4 \/ p <= w).
    { pose proof (spared_own _ _ _ _ top x w p bsz H Htop Hw Hin). lia. }
    rewrite set_header_frame, set_size_only_header_frame by lia.
    reflexivity. }
  (* move *)
  destruct (mm_malloc sbrk_ok fuel size s) as [[newptr s1]|] eqn:Em; [|discriminate].
  pose proof (mm_malloc_spec sbrk_ok sbrk_bound s _ L fuel size newptr s1
                H Hcomp Hadj Em) as Hm.
  destruct newptr as [q'|].
  2:{ cbv zeta in Hr. destruct (mm_free _ _); discriminate Hr. }
  pose proof (mm_malloc_fresh sbrk_ok sbrk_bound s _ L fuel size q' s1 H Hcomp Hadj Em)
    as Hfresh.
  destruct Hm as (bs1 & L1 & H1 & Hc1 & Ha1 & (T & HT & Hal)).
  assert (Hin1 : In (p, bsz, true) (blocks_at 136 bs1)) by (apply Hal; right; exact Hin).
  assert (Hq1 : In (q', T, true) (blocks_at 136 bs1)) by (apply Hal; left; auto).
  pose proof (rep_sizes _ _ _ _ H1) as Hs1.
  pose proof (rep_total_bound _ _ _ _ H1) as Hb1.
  destruct (block_node _ Hs1 Hb1 _ _ _ Hq1) as (_ & _ & _ & [HT16 HT8] & _).
  assert (Hqp : q' <> p).
  { intros ->. apply Hfresh. exists bsz. exact Hin. }
  cbv zeta in Hr.
  rewrite (block_size_read _ _ _ _ _ _ (rep_heap _ _ _ _ H1) Hin1) in Hr.
  set (mc := memcpy q' p bsz (heap_mem s1)) in *.
  assert (H1' : rep (heap_mem (with_mem s1 mc)) (heap_last_ptr (with_mem s1 mc)) bs1 L1).
  { cbn [with_mem heap_mem heap_last_ptr].
    apply (rep_payload_write (heap_mem s1) mc _ bs1 L1 q' T H1 Hq1).
    intros w Hw. apply memcpy_frame. lia. }
  destruct (mm_free (Some p) (with_mem s1 mc)) as [s2|] eqn:Ef; [|discriminate].
  cbn [option_map] in Hr. injection Hr as <- <-.
  assert (Htop1 : heap_last_ptr s1 <= top).
  { rewrite (mm_free_last _ _ _ Ef) in Htop'. exact Htop'. }
  assert (Hfk : forall x w, spared bs1 top x w -> x <> p -> heap_mem s2 w = mc w).
  { intros x w Hw Hx.
    exact (mm_free_spares (with_mem s1 mc) bs1 L1 p s2 top x w H1' Hc1 Ha1
             (ex_intro _ bsz Hin1) Ef Htop1 Hw Hx). }
  split.
  - intros x w Hw Hx.
    assert (Hw1 : spared bs1 top x w).
    { destruct Hw as [(sz & Hxin & Hwr)|Hout]; [left|right; exact Hout].
      exists sz. split; [|exact Hwr]. apply Hal. right. exact Hxin. }
    rewrite (Hfk x w Hw1 Hx).
    assert (Hwq : w < q' - 4 \/ q' + T <= w).
    { destruct Hw as [(sz & Hxin & _)|Hout].
      - apply (spared_off_block _ _ _ _ top x w q' T true H1 Htop1 Hw1 Hq1).
        intros ->. apply Hfresh. exists sz. exact Hxin.
      - destruct (block_node _ Hs1 Hb1 _ _ _ Hq1) as (_ & Hq136 & Hqe & _).
        destruct (rep_heap _ _ _ _ H1) as (_ & Ehl1 & _). lia. }
    unfold mc. rewrite memcpy_frame by lia.
    exact (mm_malloc_spares sbrk_ok sbrk_bound s _ L fuel size _ s1 top x w H Hcomp Hadj Em
             Htop1 Hw).
  - intros i Hi.
    assert (Hw1 : spared bs1 top q' (q' + i)).
    { left. exists T. split; [exact Hq1|lia]. }
    rewrite (Hfk q' (q' + i) Hw1 Hqp).
    unfold mc. rewrite memcpy_inside by lia.
    replace (p + (q' + i - q')) with (p + i) by lia.
    exact (mm_malloc_spares sbrk_ok sbrk_bound s _ L fuel size _ s1 top p (p + i)
             H Hcomp Hadj Em Htop1 (or_introl (Hown i Hi))).
Qed.

Lemma mm_realloc_keeps s bs L fuel p bsz size q s' :
  rep (heap_mem s) (heap_last_ptr s) bs L -> complete bs L -> nadj true bs ->
  In (p, bsz, true) (blocks_at 136 bs) -> size <> 0 ->
  mm_realloc sbrk_ok fuel (Some p) size s = Some (Some q, s') ->
  (forall x w, payload_byte bs x w -> x <> p -> heap_mem s' w = heap_mem s w) /\
  (forall i, 0 <= i < Z.min bsz (align_size size) - 4 ->
             heap_mem s' (q + i) = heap_mem s (p + i)).
Proof using sbrk_bound.
  intros H Hcomp Hadj Hin Hn0 Hr.
  destruct (mm_realloc_spares s bs L fuel p bsz size q s' (heap_last_ptr s')
              H Hcomp Hadj Hin Hn0 Hr (Z.le_refl _)) as [Ho Hi].
  split; [|exact Hi].
  intros x w Hw Hx. exact (Ho x w (or_introl Hw) Hx).
Qed.
End KeepsRealloc.

(** ** [mm_calloc] *)

Section KeepsCalloc.
Variable sbrk_ok : Z -> Z -> bool.
Hypothesis sbrk_bound : forall brk n, sbrk_ok brk n = true -> brk + n < two32.

Lemma mm_calloc_spares s bs L fuel nmemb size r s' top x w :
  rep (heap_mem s) (heap_last_ptr s) bs L -> complete bs L -> nadj true bs ->
  wrap64 (nmemb * size) <= two32 - 12 ->
  mm_calloc sbrk_ok fuel nmemb size s = Some (r, s') ->
  heap_last_ptr s' <= top -> spared bs top x w -> heap_mem s' w = heap_mem s w.
Proof using sbrk_bound.
  intros H Hcomp Hadj Hfit Hr Htop' Hw. unfold mm_calloc in Hr.
  destruct (mm_malloc sbrk_ok fuel (wrap64 (nmemb * size)) s) as [[[q|] s1]|] eqn:Em;
    [| |discriminate]; [destruct (_ <=? _); [|discriminate]|];
    injection Hr as _ <-; cbn [with_mem heap_last_ptr] in Htop'.
  - pose proof (mm_malloc_spares sbrk_ok sbrk_bound s bs L fuel _ _ s1 top x w H Hcomp Hadj
                  Em Htop' Hw) as Hk.
    pose proof (mm_malloc_fresh sbrk_ok sbrk_bound s bs L fuel _ q s1 H Hcomp Hadj Em)
      as Hfresh.
    destruct (mm_malloc_spec sbrk_ok sbrk_bound s bs L fuel _ _ _ H Hcomp Hadj Em)
      as (bs1 & L1 & H1 & _ & _ & (T & HT & Hal)).
    assert (Hq1 : In (q, T, true) (blocks_at 136 bs1)) by (apply Hal; left; auto).
    assert (Hw1 : spared bs1 top x w).
    { destruct Hw as [(sz & Hxin & Hwr)|Hout]; [left|right; exact Hout].
      exists sz. split; [|exact Hwr]. apply Hal. right. exact Hxin. }
    assert (Hwq : w < q - 4 \/ q + T <= w).
    { destruct Hw as [(sz & Hxin & _)|Hout].
      - apply (spared_off_block _ _ _ _ top x w q T true H1 Htop' Hw1 Hq1).
        intros ->. apply Hfresh. exists sz. exact Hxin.
      - destruct (block_node _ (rep_sizes _ _ _ _ H1) (rep_total_bound _ _ _ _ H1)
                    _ _ _ Hq1) as (_ & Hq136 & Hqe & _).
        destruct (rep_heap _ _ _ _ H1) as (_ & Ehl1 & _). lia. }
    assert (H0 : 0 <= wrap64 (nmemb * size)).
    { unfold wrap64. apply Z.mod_pos_bound. reflexivity. }
    pose proof (align_size_fits _ (conj H0 Hfit)).
    cbn [with_mem heap_mem]. rewrite memset_frame by lia. exact Hk.
  - exact (mm_malloc_spares sbrk_ok sbrk_bound s bs L fuel _ _ s1 top x w H Hcomp Hadj Em
             Htop' Hw).
Qed.

Lemma mm_calloc_keeps s bs L fuel nmemb size r s' x w :
  rep (heap_mem s) (heap_last_ptr s) bs L -> complete bs L -> nadj true bs ->
  wrap64 (nmemb * size) <= two32 - 12 ->
  mm_calloc sbrk_ok fuel nmemb size s = Some (r, s') ->
  payload_byte bs x w -> heap_mem s' w = heap_mem s w.
Proof using sbrk_bound.
  intros H Hcomp Hadj Hfit Hr Hw.
  exact (mm_calloc_spares s bs L fuel nmemb size r s' (heap_last_ptr s') x w H Hcomp Hadj
           Hfit Hr (Z.le_refl _) (or_introl Hw)).
Qed.
End KeepsCalloc.

(** The payload bytes of a live block, read off the memory. *)
Lemma live_payload_byte s live bs L x w :
  rep (heap_mem s) (heap_last_ptr s) bs L ->
  (forall y, In y live <-> exists sz, In (y, sz, true) (blocks_at 136 bs)) ->
  In x live -> x <= w < x + get_size x (heap_mem s) - 4 ->
  payload_byte bs x w.
Proof.
  intros H Hl Hx Hw. destruct (proj1 (Hl x) Hx) as (sz & Hin).
  rewrite (block_size_read _ _ _ _ _ _ (rep_heap _ _ _ _ H) Hin) in Hw.
  exists sz. split; assumption.
Qed.

(** * The block that [mm_free] leaves *)

Lemma mm_free_exact s bs L p sz s' :
  rep (heap_mem s) (heap_last_ptr s) bs L -> complete bs L -> nadj true bs ->
  In (p, sz, true) (blocks_at 136 bs) -> mm_free (Some p) s = Some s' ->
  let m := heap_mem s in
  let f := if is_forward_allocated p m then p else get_forward p m in
  let e := if is_allocated (p + sz) m then p + sz else p + sz + get_size (p + sz) m in
  f <= p /\ p + sz <= e /\
  hdr_is (heap_mem s') f (e - f) false true /\
  read_word (e - 8) (heap_mem s') = e - f /\
  is_allocated e (heap_mem s') = true /\
  is_forward_allocated e (heap_mem s') = false.
Proof.
  intros H Hcomp Hadj Hin Hf.
  destruct (mm_free_spec _ _ _ _ _ H Hcomp Hadj Hin)
    as (s2 & bs' & L' & Ef & Ehl & H' & _ & Ha' & Hal').
  rewrite Hf in Ef. injection Ef as <-.
  pose proof (rep_sizes _ _ _ _ H) as Hs.
  pose proof (rep_total_bound _ _ _ _ H) as Hb.
  assert (Htot : total bs' = total bs).
  { destruct (rep_heap _ _ _ _ H') as (_ & E' & _).
    destruct (rep_heap _ _ _ _ H) as (_ & E & _). lia. }
  (* the layout after the call is the one with the merged block *)
  assert (Hexact : forall pre0 old post0 T,
             bs = pre0 ++ old ++ post0 -> T = total old -> 16 <= T -> T mod 8 = 0 ->
             (forall x sz', In (x, sz', true) (blocks_at (136 + total pre0) old) <->
                            x = p /\ sz' = sz) ->
             136 + total pre0 <= p < 136 + total pre0 + T ->
             last_alloc true pre0 = true -> next_alloc post0 = true ->
             let f := 136 + total pre0 in
             hdr_is (heap_mem s') f T false true /\
             read_word (f + T - 8) (heap_mem s') = T /\
             is_allocated (f + T) (heap_mem s') = true /\
             is_forward_allocated (f + T) (heap_mem s') = false).
  { intros pre0 old post0 T Ebs ET HT HT8 Hold Hp Hpa Hna f.
    destruct (freed_facts bs pre0 old post0 T p sz Hs Ebs ET Hold Hp Hadj Hpa Hna)
      as [Hadj0 Hal0].
    assert (E : bs' = pre0 ++ [(T, false)] ++ post0).
    { apply (layout_unique bs' 136 true); auto.
      - exact (rep_sizes _ _ _ _ H').
      - rewrite Ebs in Hs. apply sizes_ok_replace with (old := old); [exact Hs|].
        constructor; [split; assumption|constructor].
      - rewrite Htot, Ebs, !total_app. cbn [total]. lia.
      - intros x sz'. rewrite Hal', Hal0. tauto. }
    rewrite E in H'.
    destruct (heap_mid _ _ _ _ _ _ (rep_heap _ _ _ _ H'))
      as (_ & [Hh Hft] & Hnx & _).
    rewrite Hpa in Hh. rewrite Hna in Hnx.
    split; [exact Hh|]. split; [exact (Hft eq_refl)|].
    destruct Hnx as (_ & A & B). split; assumption. }
  destruct (in_blocks_at_split _ _ _ _ _ Hin) as (pre & post & Ebs & Ep).
  assert (Ebs' : bs = pre ++ [(sz, true)] ++ post) by exact Ebs. clear Ebs.
  pose proof (rep_heap _ _ _ _ H) as Hh0. rewrite Ebs' in Hh0.
  destruct (heap_mid _ _ _ _ _ _ Hh0) as ([Hg16 Hg8] & [Hh _] & Hnext & Hend & Hp0).
  rewrite <- Ep in Hh, Hnext, Hend.
  assert (Hfa : is_forward_allocated p (heap_mem s) = last_alloc true pre) by apply Hh.
  assert (Hba : is_allocated (p + sz) (heap_mem s) = next_alloc post) by apply Hnext.
  assert (Hns : get_size (p + sz) (heap_mem s) = next_size post) by apply Hnext.
  cbv zeta. rewrite Hfa, Hba, Hns.
  assert (Hadj' := Hadj). rewrite Ebs' in Hadj'.
  destruct (last_alloc true pre) eqn:Epa; destruct (next_alloc post) eqn:Ena.
  - (* both neighbours allocated *)
    pose proof (Hexact pre [(sz, true)] post sz Ebs' ltac:(cbn [total]; lia) Hg16 Hg8) as X.
    cbv zeta in X. rewrite <- Ep in X.
    replace (p + sz - p) with sz by lia.
    split; [lia|]. split; [lia|]. apply X; auto; [|lia].
    intros x sz'. cbn [blocks_at In]. split.
    + intros [Hx|[]]. inversion Hx. auto.
    + intros [-> ->]. auto.
  - (* successor free *)
    destruct (first_free_split _ Ena) as (nsz & post' & ->).
    cbn [next_size] in *.
    assert (Hs' : sizes_ok (pre ++ [(sz, true)] ++ (nsz, false) :: post'))
      by (rewrite <- Ebs'; exact Hs).
    apply sizes_ok_app in Hs' as [_ Hs']. apply sizes_ok_app in Hs' as [_ Hs'].
    apply Forall_cons_iff in Hs' as [[Hn16 Hn8] _]. cbn [fst] in Hn16, Hn8.
    pose proof (Hexact pre [(sz, true); (nsz, false)] post' (sz + nsz) Ebs'
                  ltac:(cbn [total]; lia) ltac:(lia) ltac:(lia)) as X.
    cbv zeta in X. rewrite <- Ep in X.
    replace (p + sz + nsz - p) with (sz + nsz) by lia.
    replace (p + sz + nsz) with (p + (sz + nsz)) by lia.
    split; [lia|]. split; [lia|]. apply X; auto; [|lia|].
    + intros x sz'. cbn [blocks_at In]. split.
      * intros [Hx|[Hx|[]]]; inversion Hx. auto.
      * intros [-> ->]. auto.
    + eapply nadj_post_alloc with (pre := pre ++ [(sz, true)]).
      rewrite <- app_assoc. exact Hadj'.
  - (* predecessor free *)
    destruct (last_free_split _ Epa) as (pre' & fsz & ->).
    rewrite total_app in Ep. cbn [total] in Ep.
    assert (Ebs2 : bs = pre' ++ [(fsz, false); (sz, true)] ++ post).
    { rewrite Ebs'. rewrite <- app_assoc. reflexivity. }
    assert (Hh2 : heap_ok (heap_mem s) (heap_last_ptr s)
                    (pre' ++ [(fsz, false)] ++ ((sz, true) :: post))).
    { rewrite <- app_assoc in Hh0. exact Hh0. }
    destruct (heap_mid _ _ _ _ _ _ Hh2) as ([Hf16 Hf8] & [_ Hff] & _ & _ & Hp0').
    assert (Hfwd : get_forward p (heap_mem s) = 136 + total pre').
    { unfold get_forward, WORD_SIZE. change (4 * 2) with 8.
      replace (p - 8) with (136 + total pre' + fsz - 8) by lia.
      rewrite Hff by reflexivity. lia. }
    rewrite Hfwd.
    pose proof (Hexact pre' [(fsz, false); (sz, true)] post (fsz + sz) Ebs2
                  ltac:(cbn [total]; lia) ltac:(lia) ltac:(lia)) as X.
    cbv zeta in X.
    remember (136 + total pre') as f eqn:Ef0.
    replace (p + sz - f) with (fsz + sz) by lia.
    replace (p + sz) with (f + (fsz + sz)) by lia.
    split; [lia|]. split; [lia|]. apply X; auto; [|lia|].
    + intros x sz'. cbn [blocks_at In]. split.
      * intros [Hx|[Hx|[]]]; [discriminate Hx|]. injection Hx as E1 E2.
        split; [lia|auto].
      * intros [-> ->]. right. left. f_equal. f_equal. lia.
    + rewrite Ebs2 in Hadj. eapply nadj_pre_alloc; eauto.
  - (* both neighbours free *)
    destruct (last_free_split _ Epa) as (pre' & fsz & ->).
    destruct (first_free_split _ Ena) as (nsz & post' & ->).
    cbn [next_size] in *.
    rewrite total_app in Ep. cbn [total] in Ep.
    assert (Ebs2 : bs = pre' ++ [(fsz, false); (sz, true); (nsz, false)] ++ post').
    { rewrite Ebs'. rewrite <- app_assoc. reflexivity. }
    assert (Hh2 : heap_ok (heap_mem s) (heap_last_ptr s)
                    (pre' ++ [(fsz, false)] ++ ((sz, true) :: (nsz, false) :: post'))).
    { rewrite <- app_assoc in Hh0. exact Hh0. }
    destruct (heap_mid _ _ _ _ _ _ Hh2) as ([Hf16 Hf8] & [_ Hff] & _ & _ & Hp0').
    assert (Hfwd : get_forward p (heap_mem s) = 136 + total pre').
    { unfold get_forward, WORD_SIZE. change (4 * 2) with 8.
      replace (p - 8) with (136 + total pre' + fsz - 8) by lia.
      rewrite Hff by reflexivity. lia. }
    rewrite Hfwd.
    assert (Hs' : sizes_ok (pre' ++ [(fsz, false); (sz, true); (nsz, false)] ++ post'))
      by (rewrite <- Ebs2; exact Hs).
    apply sizes_ok_app in Hs' as [_ Hs']. apply sizes_ok_app in Hs' as [Hs' _].
    apply Forall_cons_iff in Hs' as [_ Hs']. apply Forall_cons_iff in Hs' as [_ Hs'].
    apply Forall_cons_iff in Hs' as [[Hn16 Hn8] _]. cbn [fst] in Hn16, Hn8.
    pose proof (Hexact pre' [(fsz, false); (sz, true); (nsz, false)] post' (fsz + sz + nsz)
                  Ebs2 ltac:(cbn [total]; lia) ltac:(lia) ltac:(lia)) as X.
    cbv zeta in X.
    remember (136 + total pre') as f eqn:Ef0.
    replace (p + sz + nsz - f) with (fsz + sz + nsz) by lia.
    replace (p + sz + nsz) with (f + (fsz + sz + nsz)) by lia.
    split; [lia|]. split; [lia|]. apply X; auto; [|lia| |].
    + intros x sz'. cbn [blocks_at In]. split.
      * intros [Hx|[Hx|[Hx|[]]]]; [discriminate Hx| |discriminate Hx].
        injection Hx as E1 E2. split; [lia|auto].
      * intros [-> ->]. right. left. f_equal. f_equal. lia.
    + rewrite Ebs2 in Hadj. eapply nadj_pre_alloc; eauto.
    + eapply nadj_post_alloc with (pre := (pre' ++ [(fsz, false)]) ++ [(sz, true)]).
      rewrite <- app_assoc. exact Hadj'.
Qed.

(** * The block that [shrink] leaves *)

(** [shrink] leaves the block allocated, with its old size when fewer
    than 16 bytes would be cut off, and with the aligned size otherwise. *)
Lemma shrink_header m hl bs L p bsz aligned p' m' :
  rep m hl bs L -> complete bs L ->
  In (p, bsz, true) (blocks_at 136 bs) -> good_size aligned -> aligned <= bsz ->
  shrink aligned p bsz m = Some (p', m') ->
  get_size p m' = (if bsz - aligned <? 16 then bsz else aligned) /\
  is_allocated p m' = true.
Proof.
  intros H Hcomp Hin [Ha16 Ha8] Hle Hsh.
  pose proof (rep_sizes _ _ _ _ H) as Hs.
  pose proof (rep_total_bound _ _ _ _ H) as Hb.
  pose proof (rep_bound _ _ _ _ H) as Hbd.
  destruct (block_node _ Hs Hb _ _ _ Hin) as (_ & Hp136 & _).
  destruct (in_blocks_at_split _ _ _ _ _ Hin) as (pre & post & Ebs & Ep).
  assert (Ebs' : bs = pre ++ [(bsz, true)] ++ post) by exact Ebs. clear Ebs.
  subst bs.
  destruct (heap_mid _ _ _ _ _ _ (rep_heap _ _ _ _ H))
    as ([Hg16 Hg8] & [Hh _] & Hnext & Hend & Hp0).
  rewrite <- Ep in Hh, Hnext, Hend.
  assert (Hnp : forall c, 12 <= c <= 27 -> ~ In p (L c)).
  { eapply alloc_not_node; eauto. }
  assert (Hout : forall c y, 12 <= c <= 27 -> In y (L c) -> y < p \/ p + bsz <= y).
  { intros c y Hc Hy. eapply nodes_apart; eauto. }
  assert (Hap : apart L (p - 4) (p + bsz)).
  { apply (apart_of_region pre [(bsz, true)] post L p bsz Hs (rep_nodes _ _ _ _ H) Ep
             ltac:(cbn [total]; lia) Hout). }
  unfold shrink in Hsh. rewrite sub32_small in Hsh by lia.
  destruct (Z.ltb_spec (bsz - aligned) 16) as [Hsmall|Hbig].
  { injection Hsh as _ <-. destruct Hh as (E1 & E2 & _). auto. }
  cbv zeta in Hsh. set (remain := bsz - aligned) in *.
  assert (Hr8 : remain mod 8 = 0) by (unfold remain; lia).
  set (m1 := set_size_only_header p aligned m) in *.
  assert (H1 : hdr_is m1 p aligned true (last_alloc true pre)).
  { eapply hdr_is_set_size_only_header; eauto. lia. }
  assert (Hqb : get_back p m1 = p + aligned).
  { unfold get_back. destruct H1 as (-> & _). reflexivity. }
  rewrite Hqb in Hsh. set (q := p + aligned) in *.
  (* the later writes leave the header of the block alone *)
  cut (forall w, p - 4 <= w < p -> m' w = m1 w).
  { intros Hf. destruct (hdr_is_frame m1 m' p _ _ _ H1 Hf) as (E1 & E2 & _). auto. }
  intros w Hwh.
  assert (Hoff : off_lists L w).
  { apply (off_lists_apart L (p - 4) (p + bsz) w Hap). lia. }
  set (m2 := unset_allocated_flag q m1) in *.
  assert (H2 : hdr_is m2 q (get_size q m1) false (is_forward_allocated q m1)).
  { eapply hdr_is_unset_allocated_flag. apply hdr_is_self. }
  set (m3 := set_size q remain m2) in *.
  assert (H3 : hdr_is m3 q remain false (is_forward_allocated q m1)).
  { eapply hdr_is_set_size; eauto. lia. }
  set (m4 := set_forward_allocated_flag q m3) in *.
  assert (H4 : hdr_is m4 q remain false true).
  { eapply hdr_is_set_forward_allocated_flag; eauto. }
  assert (Fr4 : forall v, v < p - 4 \/ p + bsz - 4 <= v -> m4 v = m v).
  { intros v Hv. unfold m4, m3, m2, m1.
    rewrite set_forward_allocated_flag_frame, set_size_frame, unset_allocated_flag_frame,
      set_size_only_header_frame by (unfold q, remain; lia). reflexivity. }
  assert (Fr4w : m4 w = m1 w).
  { unfold m4, m3, m2.
    rewrite set_forward_allocated_flag_frame, set_size_frame, unset_allocated_flag_frame
      by (unfold q, remain; lia). reflexivity. }
  assert (Hrb : get_back q m4 = p + bsz).
  { unfold get_back. destruct H4 as (-> & _). unfold q, remain. lia. }
  rewrite Hrb in Hsh.
  assert (Hr4 : hdr_is m4 (p + bsz) (next_size post) (next_alloc post) true).
  { apply hdr_is_frame with (m := m); [exact Hnext|]. intros v Hv. apply Fr4. lia. }
  assert (Hia : is_allocated (p + bsz) m4 = next_alloc post) by apply Hr4.
  rewrite Hia in Hsh.
  assert (Hl4 : lists_ok m4 L).
  { apply lists_frame_apart with (m := m) (lo := p - 4) (hi := p + bsz - 4).
    - apply (rep_lists _ _ _ _ H).
    - eapply apart_sub; eauto; lia.
    - exact Fr4. }
  assert (Ht4 : forall c, 12 <= c <= 27 ->
                          w < get_prev (sent c) m4 + 4 \/ get_prev (sent c) m4 + 8 <= w).
  { intros c Hc. exact (off_lists_tail m4 L c w Hl4 Hoff Hc). }
  destruct (next_alloc post) eqn:Ena.
  - (* the successor is allocated *)
    destruct (insert q remain m4) as [m5|] eqn:Ei; [|discriminate].
    injection Hsh as _ <-.
    assert (Hrr : 16 <= remain < two32) by (unfold remain; lia).
    pose proof (class_of_range remain Hrr) as Hcr.
    assert (Hq5 : get_size q m5 = remain).
    { rewrite !get_size_hdr. rewrite (get_header_frame q m4 m5).
      - rewrite <- get_size_hdr. exact (proj1 H4).
      - intros v Hv. apply (insert_frame q remain m4 m5 v Hrr Ei); [lia|unfold q; lia|].
        apply (off_lists_tail m4 L _ v Hl4); [|exact Hcr].
        apply (off_lists_apart L (p - 4) (p + bsz) v Hap). unfold q in Hv. lia. }
    unfold get_back. rewrite Hq5.
    replace (q + remain) with (p + bsz) by (unfold q, remain; lia).
    rewrite unset_forward_allocated_flag_frame by lia.
    rewrite (insert_frame q remain m4 m5 w Hrr Ei); [exact Fr4w|unfold q; lia|lia|].
    apply Ht4. exact Hcr.
  - (* the successor is free *)
    destruct (first_free_split _ Ena) as (nsz & post' & ->).
    cbn [next_size next_alloc] in *.
    set (r := p + bsz) in *.
    assert (Hgr : get_size r m4 = nsz) by apply Hr4.
    rewrite Hgr in Hsh.
    assert (Hinr : In (r, nsz, false)
                     (blocks_at 136 (pre ++ [(bsz, true)] ++ (nsz, false) :: post'))).
    { replace (pre ++ [(bsz, true)] ++ (nsz, false) :: post')
        with ((pre ++ [(bsz, true)]) ++ (nsz, false) :: post')
        by (rewrite <- app_assoc; reflexivity).
      replace r with (136 + total (pre ++ [(bsz, true)]))
        by (rewrite total_app; cbn [total]; unfold r; lia).
      apply in_blocks_at_mid. }
    pose proof (Hcomp _ _ Hinr) as Hrl.
    destruct (block_node _ Hs Hb _ _ _ Hinr) as (_ & _ & Hre & [Hn16 Hn8] & Hnlt).
    assert (Hcn : 12 <= class_of nsz <= 27) by (apply class_of_range; lia).
    rewrite add32_small in Hsh by (unfold remain, r in *; lia).
    set (T := remain + nsz) in *.
    destruct (unlink_lists m4 L _ (class_of nsz) r Hs Hb (rep_nodes _ _ _ _ H) Hl4 Hcn Hrl)
      as (l1 & l2 & El & Hl5 & Hn5 & Fr5).
    set (m5 := delete_block r m4) in *.
    set (L1 := upd L (class_of nsz) (l1 ++ l2)) in *.
    set (m6 := set_size q T m5) in *.
    destruct (insert q T m6) as [m7|] eqn:Ei; [|discriminate].
    injection Hsh as _ <-.
    assert (HT : 16 <= T < two32) by (unfold T, remain, r in *; lia).
    pose proof (class_of_range T HT) as HcT.
    rewrite (insert_frame q T m6 m7 w HT Ei); [| unfold q, r in *; lia | lia |].
    + unfold m6. rewrite set_size_frame by (unfold q, T, remain, r in *; lia).
      unfold m5. rewrite Fr5; [exact Fr4w|].
      intros y Hy. exact (Hoff _ y Hcn Hy).
    + rewrite (tail_frame m5 m6 _ HcT).
      * apply (off_lists_tail m5 L1 _ w Hl5); [|exact HcT].
        exact (off_lists_remove L _ l1 r l2 w Hoff El).
      * intros v Hv. unfold m6. apply set_size_frame; unfold q, T, remain, r in *; lia.
Qed.

(** * The writes stay inside the heap *)

Section Inside.
Variable sbrk_ok : Z -> Z -> bool.
Hypothesis sbrk_bound : forall brk n, sbrk_ok brk n = true -> brk + n < two32.

(** When [mm_realloc] returns null for a size that is not 0, it has
    changed nothing, or [mm_malloc] has failed and the block has been
    freed. *)
Lemma mm_realloc_none s fuel p size s' :
  size <> 0 -> mm_realloc sbrk_ok fuel (Some p) size s = Some (None, s') ->
  s' = s \/
  exists s1, mm_malloc sbrk_ok fuel size s = Some (None, s1) /\
             mm_free (Some p) s1 = Some s'.
Proof.
  intros Hn0 Hr. unfold mm_realloc in Hr.
  destruct (Z.eqb_spec size 0) as [|_]; [contradiction|]. cbv zeta in Hr.
  destruct (align_size size <=? get_size p (heap_mem s)).
  { destruct (shrink _ _ _ _) as [[a b]|]; discriminate Hr. }
  destruct (negb _ && _).
  { destruct (_ >=? 16).
    - destruct (insert _ _ _); discriminate Hr.
    - discriminate Hr. }
  destruct (_ =? heap_last_ptr s).
  { destruct (negb _); [injection Hr as <-; left; reflexivity|discriminate Hr]. }
  destruct (mm_malloc _ _ _ _) as [[[q|] s1]|]; [| |discriminate Hr].
  - destruct (mm_free _ _); discriminate Hr.
  - rewrite with_mem_self in Hr.
    destruct (mm_free (Some p) s1) as [s2|] eqn:Ef; [|discriminate Hr].
    cbn [option_map] in Hr. injection Hr as <-. right. exists s1. auto.
Qed.

Lemma mm_realloc_none_spares s bs L fuel p bsz size s' top x w :
  rep (heap_mem s) (heap_last_ptr s) bs L -> complete bs L -> nadj true bs ->
  In (p, bsz, true) (blocks_at 136 bs) -> size <> 0 ->
  tail_allocated s \/ is_allocated (p + bsz) (heap_mem s) = true ->
  mm_realloc sbrk_ok fuel (Some p) size s = Some (None, s') ->
  heap_last_ptr s' <= top -> spared bs top x w -> x <> p ->
  heap_mem s' w = heap_mem s w.
Proof using sbrk_bound.
  intros H Hcomp Hadj Hin Hn0 Hcase Hr Htop' Hw Hxp.
  destruct (mm_realloc_none s fuel p size s' Hn0 Hr) as [->|(s1 & Em & Ef)];
    [reflexivity|].
  pose proof (rep_sizes _ _ _ _ H) as Hs.
  pose proof (rep_total_bound _ _ _ _ H) as Hb.
  destruct (block_node _ Hs Hb _ _ _ Hin) as (_ & _ & Hpe & [Hb16 _] & _).
  destruct (malloc_failure sbrk_ok s bs L fuel size s1 H Hcomp Hadj Hn0 Em)
    as (Ehl & Hclean & Hdirty).
  assert (Htop : heap_last_ptr s <= top).
  { rewrite (mm_free_last _ _ _ Ef), Ehl in Htop'. exact Htop'. }
  destruct (is_forward_allocated (heap_last_ptr s) (heap_mem s)) eqn:Efa.
  - rewrite (Hclean Efa) in Ef.
    exact (mm_free_spares s bs L p s' top x w H Hcomp Hadj (ex_intro _ bsz Hin) Ef
             Htop Hw Hxp).
  - destruct Hdirty as [Em1 _]; [unfold tail_allocated; congruence|].
    destruct Hcase as [Ht|Hnext]; [unfold tail_allocated in Ht; congruence|].
    destruct (free_tail _ _ _ _ H Hcomp Efa) as (fsz & Hc & Hint & Hinb & Ete).
    set (t := get_forward (heap_last_ptr s) (heap_mem s)) in *.
    destruct (rep_unlink _ _ _ _ _ _ H Hc Hint) as (l1 & l2 & El & H1).
    pose proof (delete_node_frame _ _ _ _ _ _ w H Hc Hint
                  (spared_off_lists _ _ _ _ top _ _ H Htop Hw)) as Fr.
    rewrite <- Em1, <- Ehl in H1.
    assert (Hc1 : complete_on (fun y => y <> t) bs (upd L (class_of fsz) (l1 ++ l2))).
    { intros y sz' Hy Hyt. eapply in_upd_remove; eauto. }
    assert (Htfree : is_allocated t (heap_mem s) = false)
      by apply (free_then_allocated _ _ _ _ _ (rep_heap _ _ _ _ H) Hadj Hinb).
    rewrite (mm_free_spares_gen (fun y => y <> t) s1 bs _ p bsz s' top x w H1 Hc1 Hadj Hin).
    + rewrite Em1. exact Fr.
    + intros y sz' Hy Hor Eyt. subst y. destruct Hor as [Hlt|E].
      * destruct (rep_heap _ _ _ _ H) as (_ & Ehl0 & _).
        destruct (blocks_at_disjoint _ _ _ _ _ _ _ _ Hs Hinb Hin) as [(_ & _ & E)|D];
          [discriminate E|lia].
      * rewrite E in Htfree. congruence.
    + exact Ef.
    + rewrite Ehl. exact Htop.
    + exact Hw.
    + exact Hxp.
Qed.
End Inside.

(** * Main properties of the allocator *)

(** ** C1: the heap after every block has been freed *)

(** C1. Starting from a successfully initialized heap, after any sequence
    of calls that leaves no block outstanding, the heap is exactly one
    free block that spans from offset 136 to the trailing sentinel.  This
    holds for the runs in which no request fails while the last block of
    the heap is free; [extend_heap] breaks it otherwise, as the run after
    the theorem shows. *)
Theorem freed_heap_is_one_block sbrk_ok s live :
  bounded sbrk_ok -> reachable sbrk_ok s live -> (forall x, ~ In x live) ->
  heap_ok (heap_mem s) (heap_last_ptr s) [(heap_last_ptr s - 136, false)].
Proof.
  intros Hb Hr Hlive.
  pose proof (reachable_last sbrk_ok s live Hr) as Hlast.
  destruct (reachable_inv sbrk_ok Hb s live Hr) as (bs & L & H & _ & Hadj & Hl).
  pose proof (rep_heap _ _ _ _ H) as Hh.
  destruct (nadj_all_free 136 bs Hadj) as [->|(sz & ->)].
  - intros x sz Hx. apply (Hlive x). apply Hl. exists sz. exact Hx.
  - destruct Hh as (_ & E & _). cbn [total] in E. lia.
  - replace (heap_last_ptr s - 136) with sz; [exact Hh|].
    destruct Hh as (_ & E & _). cbn [total] in E. lia.
Qed.

Lemma freed_heap_is_one_block_witness :
  heap_ok (heap_mem (after (cap 4096) [Malloc 100; Free 136]))
    (heap_last_ptr (after (cap 4096) [Malloc 100; Free 136]))
    [(heap_last_ptr (after (cap 4096) [Malloc 100; Free 136]) - 136, false)].
Proof.
  apply (freed_heap_is_one_block (cap 4096) _ (remove Z.eq_dec 136 [136])).
  - apply cap_bounded. reflexivity.
  - apply (reach_free (cap 4096) (after (cap 4096) [Malloc 100]) [136] 136).
    + exact reach_one.
    + left. reflexivity.
    + vm_compute. reflexivity.
  - vm_compute. intros x H. exact H.
Defined.

(** The run [refusals] followed by the release of the three live blocks
    leaves a heap that is not one free block: the header at 136 records a
    free block of 48 bytes in a heap of 3960. *)
Lemma freed_heap_not_one_block :
  let cs := refusals ++ [Free 136; Free 232; Free 256] in
  let s := after (cap 4096) cs in
  results (cap 4096) cs =
    Some [Some 136; Some 160; Some 232; None; Some 256; None; None; Some 136; None;
          None; None; None] /\
  heap_last_ptr s = 4096 /\ get_size 136 (heap_mem s) = 48 /\
  ~ heap_ok (heap_mem s) (heap_last_ptr s) [(heap_last_ptr s - 136, false)].
Proof.
  cbv zeta. split; [vm_compute; reflexivity|]. split; [vm_compute; reflexivity|].
  assert (E : get_size 136 (heap_mem (after (cap 4096)
                (refusals ++ [Free 136; Free 232; Free 256]))) = 48)
    by (vm_compute; reflexivity).
  split; [exact E|].
  intros (Hseg & _). cbn [seg] in Hseg. destruct Hseg as (_ & [(Hsz & _) _] & _).
  rewrite E in Hsz. vm_compute in Hsz. discriminate Hsz.
Qed.

(** ** C2: no two adjacent free blocks *)

(** C2. After every call the heap is a well-formed chain of blocks in
    which no two physically adjacent blocks are both free: the block that
    follows a free block (or the trailing sentinel) is allocated.  This
    holds for the runs in which no request fails while the last block of
    the heap is free; [extend_heap] breaks it otherwise, as the run after
    the theorem shows. *)
Theorem no_adjacent_free_blocks sbrk_ok s live :
  bounded sbrk_ok -> reachable sbrk_ok s live ->
  exists bs,
    heap_ok (heap_mem s) (heap_last_ptr s) bs /\ nadj true bs /\
    forall x sz, In (x, sz, false) (blocks_at 136 bs) ->
                 is_allocated x (heap_mem s) = false /\
                 is_allocated (get_back x (heap_mem s)) (heap_mem s) = true.
Proof.
  intros Hb Hr.
  destruct (reachable_inv sbrk_ok Hb s live Hr) as (bs & L & H & _ & Hadj & _).
  pose proof (rep_heap _ _ _ _ H) as Hh.
  exists bs. split; [exact Hh|]. split; [exact Hadj|].
  intros x sz Hin. unfold get_back.
  rewrite (block_size_read _ _ _ _ _ _ Hh Hin).
  exact (free_then_allocated _ _ _ _ _ Hh Hadj Hin).
Qed.

Lemma no_adjacent_free_blocks_witness :
  exists bs,
    heap_ok (heap_mem (after (cap 4096) [Malloc 100]))
      (heap_last_ptr (after (cap 4096) [Malloc 100])) bs /\ nadj true bs /\
    forall x sz, In (x, sz, false) (blocks_at 136 bs) ->
                 is_allocated x (heap_mem (after (cap 4096) [Malloc 100])) = false /\
                 is_allocated (get_back x (heap_mem (after (cap 4096) [Malloc 100])))
                   (heap_mem (after (cap 4096) [Malloc 100])) = true.
Proof.
  apply (no_adjacent_free_blocks (cap 4096) _ [136]).
  - apply cap_bounded. reflexivity.
  - exact reach_one.
Defined.

(** After the run [refusals] the block at 168 and the block that follows
    it, at 184 and before the sentinel, are both free; the chain is not
    even well formed any more, since the header at 184 records size 0. *)
Lemma adjacent_free_after_refusals :
  let s := after (cap 4096) refusals in
  results (cap 4096) refusals =
    Some [Some 136; Some 160; Some 232; None; Some 256; None; None; Some 136; None] /\
  get_back 136 (heap_mem s) = 168 /\
  is_allocated 168 (heap_mem s) = false /\
  get_back 168 (heap_mem s) = 184 /\ 184 < heap_last_ptr s /\
  is_allocated 184 (heap_mem s) = false /\ get_size 184 (heap_mem s) = 0.
Proof.
  cbv zeta. repeat split; vm_compute; reflexivity.
Qed.

(** ** C3: a refused extension *)

(** C3. When an allocation fails because the provider refuses to extend
    the heap, the end of the heap does not move, and the state is exactly
    as before if the last block of the heap is allocated.  If the last
    block is free the claim fails: [extend_heap] has unlinked that block
    from its list before it asked the provider and does not link it
    again, so the state differs from the one before the call. *)
Theorem failed_extension_state sbrk_ok s live fuel size s' :
  bounded sbrk_ok -> reachable sbrk_ok s live -> size <> 0 ->
  mm_malloc sbrk_ok fuel size s = Some (None, s') ->
  heap_last_ptr s' = heap_last_ptr s /\
  (tail_allocated s -> s' = s) /\
  (~ tail_allocated s ->
   heap_mem s' = delete_block (get_forward (heap_last_ptr s) (heap_mem s)) (heap_mem s) /\
   s' <> s).
Proof.
  intros Hb Hr Hn0 Hm.
  destruct (reachable_inv sbrk_ok Hb s live Hr) as (bs & L & H & Hc & Hadj & _).
  exact (malloc_failure sbrk_ok s bs L fuel size s' H Hc Hadj Hn0 Hm).
Qed.

Lemma failed_extension_state_witness :
  let s := start (cap 4096) in
  let s' := after (cap 4096) [Malloc 5000] in
  heap_last_ptr s' = heap_last_ptr s /\
  (tail_allocated s -> s' = s) /\
  (~ tail_allocated s ->
   heap_mem s' = delete_block (get_forward (heap_last_ptr s) (heap_mem s)) (heap_mem s) /\
   s' <> s).
Proof.
  apply (failed_extension_state (cap 4096) (start (cap 4096)) [] 100 5000).
  - apply cap_bounded. reflexivity.
  - apply reach_start. lia.
  - discriminate.
  - vm_compute. reflexivity.
Defined.

(** On a fresh heap the whole heap is one free block, the only node of
    the list of class 20.  A request of 5000 bytes that the provider
    refuses returns null and leaves that list empty. *)
Lemma failed_extension_unlinks_tail :
  let s := start (cap 4096) in
  let s' := after (cap 4096) [Malloc 5000] in
  mm_malloc (cap 4096) 100 5000 s = Some (None, s') /\
  get_next (sent 20) (heap_mem s) = 136 /\
  get_next (sent 20) (heap_mem s') = sent 20 /\
  s' <> s.
Proof.
  cbv zeta. split; [vm_compute; reflexivity|]. split; [vm_compute; reflexivity|].
  split; [vm_compute; reflexivity|].
  intros E. apply (f_equal (fun s => get_next (sent 20) (heap_mem s))) in E.
  vm_compute in E. discriminate E.
Qed.

(** ** C4: shrinking in place *)

(** C4. On a state reached from a successful [mm_init] without a request
    that failed while the last block was free, take a live block [p] and
    a request [n] with [n <= size(p) - 4].  When [0 < n], and [n] is not
    448 or the block holds at least 520 bytes, [mm_realloc p n] returns
    [p] itself and the block is shrunk in place: it stays allocated, with
    [align_size n] bytes when at least 16 bytes are cut off and with its
    old size otherwise; the end of the heap, the live pointers and the
    allocator invariant are kept.  When [n] is 0, [mm_realloc p n]
    releases [p] and returns null.  A request of 448 bytes is aligned to
    520. *)
Theorem realloc_shrink_returns_same sbrk_ok s live fuel p n :
  bounded sbrk_ok -> reachable sbrk_ok s live -> In p live ->
  0 <= n -> n <= get_size p (heap_mem s) - 4 ->
  (n = 0 ->
   exists s', mm_realloc sbrk_ok fuel (Some p) n s = Some (None, s') /\
              inv s' (remove Z.eq_dec p live)) /\
  (0 < n -> (n = 448 -> 520 <= get_size p (heap_mem s)) ->
   exists s', mm_realloc sbrk_ok fuel (Some p) n s = Some (Some p, s') /\
              is_allocated p (heap_mem s') = true /\
              get_size p (heap_mem s')
              = (if get_size p (heap_mem s) - align_size n <? 16
                 then get_size p (heap_mem s) else align_size n) /\
              heap_last_ptr s' = heap_last_ptr s /\
              inv s' live) /\
  align_size 448 = 520.
Proof.
  intros Hb Hr Hp Hn0 Hfit.
  destruct (reachable_inv sbrk_ok Hb s live Hr) as (bs & L & H & Hc & Hadj & Hl).
  pose proof Hp as Hp'. apply Hl in Hp'. destruct Hp' as (bsz & Hin).
  pose proof (rep_sizes _ _ _ _ H) as Hs.
  pose proof (rep_total_bound _ _ _ _ H) as Hbt.
  destruct (block_node _ Hs Hbt _ _ _ Hin) as (_ & _ & _ & Hg & Hlt).
  rewrite (block_size_read _ _ _ _ _ _ (rep_heap _ _ _ _ H) Hin) in *.
  split; [|split; [|reflexivity]].
  - intros ->.
    destruct (mm_free_spec _ _ _ _ _ H Hc Hadj Hin) as (s' & _ & _ & Ef & _).
    exists s'. split.
    + unfold mm_realloc. cbn [Z.eqb]. rewrite Ef. reflexivity.
    + apply (inv_free s live p s'); [|exact Hp|exact Ef].
      exists bs, L. auto.
  - intros Hn H448.
    assert (Hle : align_size n <= bsz).
    { destruct (Z.eq_dec n 448) as [->|N].
      - change (align_size 448) with 520. auto.
      - apply align_size_least; auto. lia. }
    destruct (shrink_spec _ _ _ _ _ _ _ H Hc Hadj Hin (proj1 (align_size_good n)) Hle)
      as (m' & bs' & L' & Esh & H' & Hc' & Ha' & Hsame).
    destruct (shrink_header _ _ _ _ _ _ _ _ _ H Hc Hin (proj1 (align_size_good n)) Hle Esh)
      as [Esz Eal].
    exists (with_mem s m'). cbn [with_mem heap_mem heap_last_ptr].
    split; [|split; [exact Eal|split; [exact Esz|split; [reflexivity|]]]].
    + unfold mm_realloc. destruct (Z.eqb_spec n 0) as [|_]; [lia|]. cbv zeta.
      rewrite (block_size_read _ _ _ _ _ _ (rep_heap _ _ _ _ H) Hin).
      destruct (Z.leb_spec (align_size n) bsz); [|lia].
      rewrite Esh. reflexivity.
    + exists bs', L'. cbn [heap_mem heap_last_ptr].
      split; [exact H'|]. split; [exact Hc'|]. split; [exact Ha'|].
      intros x. rewrite Hl. symmetry. apply Hsame.
Qed.

Lemma realloc_shrink_returns_same_witness :
  exists s', mm_realloc (cap 4096) 100 (Some 136) 50 (after (cap 4096) [Malloc 100])
             = Some (Some 136, s') /\
             is_allocated 136 (heap_mem s') = true /\
             get_size 136 (heap_mem s')
             = (if get_size 136 (heap_mem (after (cap 4096) [Malloc 100]))
                   - align_size 50 <? 16
                then get_size 136 (heap_mem (after (cap 4096) [Malloc 100]))
                else align_size 50) /\
             heap_last_ptr s' = heap_last_ptr (after (cap 4096) [Malloc 100]) /\
             inv s' [136].
Proof.
  refine (proj1 (proj2 (realloc_shrink_returns_same (cap 4096)
                          (after (cap 4096) [Malloc 100]) [136] 100 136 50 _ _ _ _ _)) _ _).
  - apply cap_bounded. reflexivity.
  - exact reach_one.
  - left. reflexivity.
  - lia.
  - vm_compute. discriminate.
  - lia.
  - intros E. discriminate E.
Defined.

(** A request of 0 bytes releases the block and returns null; a request
    of 448 bytes is aligned to 520 and moves a block of 456 bytes. *)
Lemma realloc_not_same :
  results (cap 4096) [Malloc 16; Realloc 136 0] = Some [Some 136; None] /\
  0 <= get_size 136 (heap_mem (after (cap 4096) [Malloc 16])) - 4 /\
  results (cap 4096) [Malloc 452; Malloc 16; Realloc 136 448]
  = Some [Some 136; Some 592; Some 616] /\
  448 <= get_size 136 (heap_mem (after (cap 4096) [Malloc 452; Malloc 16])) - 4.
Proof.
  split; [vm_compute; reflexivity|]. split; [vm_compute; discriminate|].
  split; [vm_compute; reflexivity|]. vm_compute; discriminate.
Qed.

(** ** C5: two allocations on a fresh heap *)

(** C5. On a freshly initialized heap, [a = mm_malloc 16] and then
    [b = mm_malloc 16] return the pointers 136 and 160: both are not null
    and [b = a + 24], since a request of 16 bytes takes a block of
    [align_size 16 = 24] bytes. *)
Theorem fresh_heap_two_mallocs sbrk_ok m0 s0 fuel :
  mm_init sbrk_ok m0 = Some (0, s0) -> (16 <= fuel)%nat ->
  exists a b s1 s2,
    mm_malloc sbrk_ok fuel 16 s0 = Some (Some a, s1) /\
    mm_malloc sbrk_ok fuel 16 s1 = Some (Some b, s2) /\
    a = 136 /\ b = a + 24.
Proof.
  intros E Hf.
  destruct (first_malloc sbrk_ok m0 s0 fuel 16 E Hf)
    as (s1 & L1 & Em1 & Ehl1 & H1 & Hc1); [discriminate|vm_compute; discriminate|].
  change (align_size 16) with 24 in H1, Hc1. change (3960 - 24) with 3936 in H1, Hc1.
  destruct (malloc_from_lists sbrk_ok fuel 16 s1 _ _ 160 3936 H1 Hc1)
    as (p & s2 & bs2 & L2 & Em2 & _ & _ & _ & _ & Hcv).
  - cbn [nadj]. repeat split; auto; discriminate.
  - discriminate.
  - cbn [blocks_at In]. right. left. reflexivity.
  - vm_compute. discriminate.
  - vm_compute. reflexivity.
  - exact Hf.
  - cbn [length]. lia.
  - destruct (carved_only [(24, true)] 3936 [] bs2 p (align_size 16)) as (-> & _ & _).
    + intros x sz Hx. cbn [blocks_at In] in Hx. destruct Hx as [Hx|[]]. discriminate Hx.
    + intros x sz [].
    + exact Hcv.
    + exists 136, 160, s1, s2. auto.
Qed.

Lemma fresh_heap_two_mallocs_witness :
  exists a b s1 s2,
    mm_malloc (cap 4096) 100 16 (start (cap 4096)) = Some (Some a, s1) /\
    mm_malloc (cap 4096) 100 16 s1 = Some (Some b, s2) /\
    a = 136 /\ b = a + 24.
Proof.
  apply (fresh_heap_two_mallocs (cap 4096) m_zero (start (cap 4096)) 100).
  - reflexivity.
  - repeat constructor.
Defined.

(** The second pointer is not 16 bytes after the first. *)
Lemma fresh_heap_second_not_plus_16 :
  results (cap 4096) [Malloc 16; Malloc 16] = Some [Some 136; Some 160] /\
  160 <> 136 + 16.
Proof. split; [vm_compute; reflexivity|discriminate]. Qed.

(** ** C6: the size classes of the lists *)

(** C6. After every call, every node of the list of class [i] is a free
    block whose size lies in [[list_min_block_size i, list_max_block_size i)],
    the bounds that [mm_init] stores: [2^(31-i)] and [2^(32-i)] for
    [i = 13..27], and [2^19] and [2^32 - 1] for class 12.  Every free block
    is on the list of its class: on the list of class 12 exactly when its
    size is at least [2^19]. *)
Theorem list_nodes_in_class_bounds sbrk_ok s live :
  bounded sbrk_ok -> reachable sbrk_ok s live ->
  (forall i x, 12 <= i <= 27 -> on_list (heap_mem s) i x ->
     is_allocated x (heap_mem s) = false /\
     list_min_block_size i <= get_size x (heap_mem s) < list_max_block_size i) /\
  list_min_block_size 12 = 2 ^ 19 /\ list_max_block_size 12 = 2 ^ 32 - 1 /\
  exists bs,
    heap_ok (heap_mem s) (heap_last_ptr s) bs /\
    forall x sz, In (x, sz, false) (blocks_at 136 bs) ->
                 on_list (heap_mem s) (if 2 ^ 19 <=? sz then 12 else 31 - Z.log2 sz) x.
Proof.
  intros Hb Hr.
  destruct (reachable_inv sbrk_ok Hb s live Hr) as (bs & L & H & Hc & Hadj & _).
  pose proof (rep_heap _ _ _ _ H) as Hh.
  pose proof (rep_sizes _ _ _ _ H) as Hs.
  pose proof (rep_total_bound _ _ _ _ H) as Hbt.
  split; [|split; [reflexivity|split; [reflexivity|]]].
  - intros i x Hi Hx. apply (on_list_iff _ _ _ _ _ _ H Hi) in Hx.
    destruct (rep_nodes _ _ _ _ H i x Hi Hx) as (sz & Hin & <-).
    destruct (block_node _ Hs Hbt _ _ _ Hin) as (_ & _ & _ & [Hg16 Hg8] & Hlt).
    rewrite (block_size_read _ _ _ _ _ _ Hh Hin).
    split; [apply (free_then_allocated _ _ _ _ _ Hh Hadj Hin)|].
    apply class_bounds; [lia|exact Hg8].
  - exists bs. split; [exact Hh|]. intros x sz Hin.
    destruct (block_node _ Hs Hbt _ _ _ Hin) as (_ & _ & _ & [Hg16 Hg8] & Hlt).
    rewrite <- class_of_cases by lia.
    apply (on_list_iff _ _ _ _ _ _ H (class_of_range sz ltac:(lia))).
    apply Hc. exact Hin.
Qed.

Lemma list_nodes_in_class_bounds_witness :
  (forall i x, 12 <= i <= 27 -> on_list (heap_mem (start (cap 4096))) i x ->
     is_allocated x (heap_mem (start (cap 4096))) = false /\
     list_min_block_size i <= get_size x (heap_mem (start (cap 4096)))
     < list_max_block_size i) /\
  list_min_block_size 12 = 2 ^ 19 /\ list_max_block_size 12 = 2 ^ 32 - 1 /\
  exists bs,
    heap_ok (heap_mem (start (cap 4096))) (heap_last_ptr (start (cap 4096))) bs /\
    forall x sz, In (x, sz, false) (blocks_at 136 bs) ->
                 on_list (heap_mem (start (cap 4096)))
                   (if 2 ^ 19 <=? sz then 12 else 31 - Z.log2 sz) x.
Proof.
  apply (list_nodes_in_class_bounds (cap 4096) (start (cap 4096)) []).
  - apply cap_bounded. reflexivity.
  - apply reach_start. lia.
Defined.

(** A free block of 600008 bytes, less than [2^20], is on the list of
    class 12. *)
Lemma class_12_holds_below_2_20 :
  let s := after (cap 1000000) [Malloc 600000; Free 136] in
  results (cap 1000000) [Malloc 600000; Free 136] = Some [Some 136; None] /\
  on_list (heap_mem s) 12 136 /\
  is_allocated 136 (heap_mem s) = false /\
  get_size 136 (heap_mem s) = 600008 /\ 600008 < 2 ^ 20.
Proof.
  cbv zeta. split; [vm_compute; reflexivity|]. split.
  - exists [136]. unfold dll. cbn [dseg]. split; [|split].
    + repeat split; vm_compute; reflexivity.
    + intros [E|[]]. vm_compute in E. discriminate E.
    + left. reflexivity.
  - split; [vm_compute; reflexivity|]. split; [vm_compute; reflexivity|reflexivity].
Qed.

(** ** C7: the size reserved for a request *)

(** C7. [mm_malloc 0] returns null and changes nothing, in every state.
    For a request of [n] bytes, [n] a 32-bit size other than 0, the
    allocator reserves [align_size n] bytes: this is the size for which
    [mm_malloc] searches the lists and extends the heap.  For
    [n <= 2^32 - 12] it is [max 16 ((n + 4 + 7) & ~7)], or 520 when [n]
    is 448; for larger [n] the 32-bit sum [n + 11] wraps around and 16
    bytes are reserved.  On a state reached from a successful [mm_init]
    without a request that failed while the last block was free, a block
    returned for the request holds the reserved bytes, and fewer than 16
    more. *)
Theorem malloc_reserved_size sbrk_ok fuel s n :
  0 <= n < two32 ->
  (n = 0 -> mm_malloc sbrk_ok fuel n s = Some (None, s)) /\
  (n <> 0 ->
   mm_malloc sbrk_ok fuel n s
   = match find_fit_in_index_th_list fuel (align_size n) (get_index (align_size n))
             (heap_mem s) with
     | None => None
     | Some (Some ptr, m') => Some (Some ptr, with_mem s m')
     | Some (None, m') => extend_heap sbrk_ok (align_size n) (with_mem s m')
     end) /\
  (0 < n <= two32 - 12 ->
   align_size n = if n =? 448 then 520 else Z.max 16 (Z.land (n + 4 + 7) (Z.lnot 7))) /\
  (two32 - 12 < n -> align_size n = 16) /\
  (forall live p s',
     bounded sbrk_ok -> reachable sbrk_ok s live -> n <> 0 ->
     mm_malloc sbrk_ok fuel n s = Some (Some p, s') ->
     align_size n <= get_size p (heap_mem s') < align_size n + 16).
Proof.
  intros Hn. split; [|split; [|split; [|split]]].
  - intros ->. reflexivity.
  - intros N. unfold mm_malloc. destruct (Z.eqb_spec n 0) as [|_]; [contradiction|].
    reflexivity.
  - intros Hpos.
    destruct (Z.eqb_spec n 448) as [->|N]; [reflexivity|].
    rewrite align_size_small by (try assumption; lia).
    rewrite land_lnot_7. replace (n + 4 + 7) with (n + 11) by lia. reflexivity.
  - intros Hbig. unfold align_size.
    destruct (Z.eqb_spec n 448) as [->|_]; [unfold two32 in Hbig; lia|].
    unfold wrap32. fold two32. rewrite (Z.mod_small n) by lia.
    replace ((n + 11) mod two32) with (n + 11 - two32)
      by (unfold two32 in *; apply Z.mod_unique with (q := 1); lia).
    rewrite land_NOT_7 by (unfold two32 in *; lia). cbv zeta.
    destruct (Z.ltb_spec (n + 11 - two32 - (n + 11 - two32) mod 8) 16) as [_|Hge];
      [reflexivity|unfold two32 in *; lia].
  - intros live p s' Hb Hr Hn0 Hm.
    destruct (reachable_inv sbrk_ok Hb s live Hr) as (bs & L & H & Hc & Hadj & _).
    destruct (mm_malloc_spec sbrk_ok Hb s bs L fuel n _ _ H Hc Hadj Hm)
      as (bs' & L' & H' & _ & _ & (T & HT & Hal)).
    assert (Hin : In (p, T, true) (blocks_at 136 bs')) by (apply Hal; left; auto).
    rewrite (block_size_read _ _ _ _ _ _ (rep_heap _ _ _ _ H') Hin). exact HT.
Qed.

Lemma malloc_reserved_size_witness :
  align_size 100 = Z.max 16 (Z.land (100 + 4 + 7) (Z.lnot 7)) /\
  forall p s', mm_malloc (cap 4096) 100 100 (start (cap 4096)) = Some (Some p, s') ->
               align_size 100 <= get_size p (heap_mem s') < align_size 100 + 16.
Proof.
  assert (Hn : 0 <= 100 < two32) by (unfold two32; lia).
  split.
  - exact (proj1 (proj2 (proj2 (malloc_reserved_size (cap 4096) 100 (start (cap 4096))
                                  100 Hn)))
             ltac:(unfold two32; lia)).
  - intros p s'.
    apply (proj2 (proj2 (proj2 (proj2 (malloc_reserved_size (cap 4096) 100
                                         (start (cap 4096)) 100 Hn)))) []).
    + apply cap_bounded. reflexivity.
    + apply reach_start. lia.
    + discriminate.
Defined.

(** A request of [2^32 - 4] bytes, a 32-bit size, is served with a block
    of 16 bytes, not of [max 16 ((2^32 - 4 + 4 + 7) & ~7) = 2^32]
    bytes. *)
Lemma reserved_size_wraps :
  0 < 2 ^ 32 - 4 < 2 ^ 32 /\
  align_size (2 ^ 32 - 4) = 16 /\
  Z.max 16 (Z.land (2 ^ 32 - 4 + 4 + 7) (Z.lnot 7)) = 2 ^ 32 /\
  results (cap 4096) [Malloc (2 ^ 32 - 4)] = Some [Some 136] /\
  get_size 136 (heap_mem (after (cap 4096) [Malloc (2 ^ 32 - 4)])) = 16.
Proof. repeat split; vm_compute; reflexivity. Qed.

(** ** C8: zeroed allocation *)

(** C8. On a state reached from a successful [mm_init] without a request
    that failed while the last block was free, for a count [k] and an
    element size [n] whose product is at most [2^31 - 12], [mm_calloc k n]
    returns, given fuel for the lists: it returns null, or a pointer to
    [k * n] bytes that are all zero and lie in the payload of the block
    it returns; the allocator invariant is kept. *)
Theorem calloc_zeroed sbrk_ok s live fuel k n :
  bounded sbrk_ok -> reachable sbrk_ok s live ->
  0 <= k -> 0 <= n -> k * n <= 2 ^ 31 - 12 ->
  heap_last_ptr s <= 16 * Z.of_nat fuel ->
  exists r s',
    mm_calloc sbrk_ok fuel k n s = Some (r, s') /\
    (r = None \/
     exists p, r = Some p /\
               (forall w, p <= w < p + k * n -> heap_mem s' w = 0) /\
               k * n <= get_size p (heap_mem s') - 4 /\
               inv s' (p :: live)).
Proof.
  intros Hb Hr Hk Hn Hfit Hfuel.
  destruct (reachable_inv sbrk_ok Hb s live Hr) as (bs & L & H & Hc & Hadj & Hl).
  assert (Ew : wrap64 (k * n) = k * n).
  { unfold wrap64. apply Z.mod_small. unfold two64. nia. }
  assert (Hfit32 : wrap64 (k * n) <= two32 - 12) by (rewrite Ew; unfold two32; lia).
  pose proof (reachable_last sbrk_ok s live Hr) as Hlast.
  destruct (mm_calloc_total sbrk_ok Hb fuel k n s bs L H Hc Hadj Hfit32)
    as (r & s' & Hm).
  { rewrite Ew. apply align_size_below. nia. }
  { lia. }
  { exact (fuel_enough _ _ _ _ fuel H Hfuel). }
  exists r, s'. split; [exact Hm|].
  destruct r as [p|]; [right|left; reflexivity].
  pose proof (mm_calloc_spec sbrk_ok Hb s bs L fuel k n _ _ H Hc Hadj Hfit32 Hm) as Hs.
  cbv beta iota in Hs. rewrite Ew in Hs.
  destruct Hs as (bs' & L' & H' & Hc' & Ha' & (T & HT & Hal) & Hz).
  assert (Hin : In (p, T, true) (blocks_at 136 bs')) by (apply Hal; left; auto).
  exists p. split; [reflexivity|]. split; [exact Hz|]. split.
  - rewrite (block_size_read _ _ _ _ _ _ (rep_heap _ _ _ _ H') Hin).
    pose proof (align_size_fits (k * n) ltac:(unfold two32; nia)). lia.
  - exists bs', L'. split; [exact H'|]. split; [exact Hc'|]. split; [exact Ha'|].
    intros x. cbn [In]. rewrite Hl. split.
    + intros [<-|(sz & Hx)]; [exists T; exact Hin|].
      exists sz. apply Hal. right. exact Hx.
    + intros (sz & Hx). apply Hal in Hx. destruct Hx as [[-> _]|Hx]; [left; reflexivity|].
      right. exists sz. exact Hx.
Qed.

Lemma calloc_zeroed_witness :
  exists r s',
    mm_calloc (cap 4096) 256 10 10 (start (cap 4096)) = Some (r, s') /\
    (r = None \/
     exists p, r = Some p /\
               (forall w, p <= w < p + 10 * 10 -> heap_mem s' w = 0) /\
               10 * 10 <= get_size p (heap_mem s') - 4 /\
               inv s' [p]).
Proof.
  apply (calloc_zeroed (cap 4096) (start (cap 4096)) [] 256 10 10).
  - apply cap_bounded. reflexivity.
  - apply reach_start. lia.
  - lia.
  - lia.
  - lia.
  - vm_compute. discriminate.
Defined.

(** The product is not checked.  [65536 * 65536 = 2^32] does not fit 32
    bits: [mm_malloc] serves a block of 16 bytes for it, and the zeroing
    of [2^32] bytes from offset 136 leaves the heap, which ends at 4096.
    A product of [2^31 - 11] is aligned to [2^31], a size for which the
    search of the lists leaves the table of the lists.  In both cases the
    call does not return. *)
Lemma calloc_no_result :
  results (cap 4096) [Malloc (65536 * 65536)] = Some [Some 136] /\
  get_size 136 (heap_mem (after (cap 4096) [Malloc (65536 * 65536)])) = 16 /\
  heap_last_ptr (after (cap 4096) [Malloc (65536 * 65536)]) = 4096 /\
  mm_calloc (cap 4096) 100 65536 65536 (start (cap 4096)) = None /\
  mm_calloc (cap 4096) 100 1 (2 ^ 31 - 11) (start (cap 4096)) = None.
Proof. repeat split; vm_compute; reflexivity. Qed.

(** ** C9: the request is truncated to 32 bits *)

(** C9. [align_size] depends on the request only through its value modulo
    [2^32], except that the special case 448 is keyed on the full value:
    [2^32 + 448] is aligned to 456, not to 520.  In particular a request
    of [2^32] bytes on a fresh heap returns a pointer that is not null, to
    a block of 16 bytes. *)
Theorem malloc_truncates_size sbrk_ok m0 s0 fuel :
  mm_init sbrk_ok m0 = Some (0, s0) -> (16 <= fuel)%nat ->
  (forall n n', n <> 448 -> n' <> 448 -> n mod two32 = n' mod two32 ->
                align_size n = align_size n') /\
  align_size 448 = 520 /\ align_size (two32 + 448) = 456 /\
  exists s1, mm_malloc sbrk_ok fuel two32 s0 = Some (Some 136, s1) /\
             is_allocated 136 (heap_mem s1) = true /\
             get_size 136 (heap_mem s1) = 16.
Proof.
  intros E Hf. split; [|split; [reflexivity|split; [reflexivity|]]].
  - intros n n' N N' Emod. unfold align_size.
    destruct (Z.eqb_spec n 448) as [|_]; [contradiction|].
    destruct (Z.eqb_spec n' 448) as [|_]; [contradiction|].
    unfold wrap32 at 2 4. rewrite Emod. reflexivity.
  - destruct (first_malloc sbrk_ok m0 s0 fuel two32 E Hf)
      as (s1 & L1 & Em1 & Ehl1 & H1 & Hc1); [discriminate|vm_compute; discriminate|].
    change (align_size two32) with 16 in H1.
    exists s1. split; [exact Em1|].
    destruct (rep_heap _ _ _ _ H1) as (Hseg & _). cbn [seg] in Hseg.
    destruct Hseg as (_ & [(Hsz & Hal & _) _] & _). auto.
Qed.

Lemma malloc_truncates_size_witness :
  (forall n n', n <> 448 -> n' <> 448 -> n mod two32 = n' mod two32 ->
                align_size n = align_size n') /\
  align_size 448 = 520 /\ align_size (two32 + 448) = 456 /\
  exists s1, mm_malloc (cap 4096) 100 two32 (start (cap 4096)) = Some (Some 136, s1) /\
             is_allocated 136 (heap_mem s1) = true /\
             get_size 136 (heap_mem s1) = 16.
Proof.
  apply (malloc_truncates_size (cap 4096) m_zero (start (cap 4096)) 100).
  - reflexivity.
  - repeat constructor.
Defined.

(** ** C10: a failed move releases the old block *)

(** C10. In the move branch of [mm_realloc] (the request does not fit
    the block, the physical successor of [p] is allocated and [p] is not the
    last block), if the internal [mm_malloc] fails then [mm_realloc]
    returns null after it has released [p]: the state has changed, the
    heap is a well-formed chain in which the allocated blocks are the
    live pointers other than [p], and, if the last block of the heap was
    allocated, the allocator invariant holds for them.  This holds for
    the runs in which no request has failed before while the last block
    of the heap was free; after such a failure the call to [mm_free] can
    leave [p] allocated, as the run after the theorem shows. *)
Theorem realloc_move_failure_frees sbrk_ok s live fuel p size s1 :
  bounded sbrk_ok -> reachable sbrk_ok s live -> In p live -> size <> 0 ->
  get_size p (heap_mem s) < align_size size ->
  is_allocated (get_back p (heap_mem s)) (heap_mem s) = true ->
  get_back p (heap_mem s) <> heap_last_ptr s ->
  mm_malloc sbrk_ok fuel size s = Some (None, s1) ->
  exists s',
    mm_realloc sbrk_ok fuel (Some p) size s = Some (None, s') /\ s' <> s /\
    (exists bs', heap_ok (heap_mem s') (heap_last_ptr s') bs' /\ nadj true bs' /\
                 forall x, allocs bs' x <-> In x live /\ x <> p) /\
    (tail_allocated s -> inv s' (remove Z.eq_dec p live)).
Proof.
  intros Hb Hr Hp Hn0 Hgt Hnext Hlast Hm.
  destruct (reachable_inv sbrk_ok Hb s live Hr) as (bs & L & H & Hc & Hadj & Hl).
  pose proof Hp as Hp'. apply Hl in Hp'. destruct Hp' as (bsz & Hin).
  pose proof (block_size_read _ _ _ _ _ _ (rep_heap _ _ _ _ H) Hin) as Esz.
  unfold get_back in Hnext, Hlast. rewrite Esz in Hgt, Hnext, Hlast.
  destruct (realloc_move_failure sbrk_ok s bs L fuel p bsz size s1
              H Hc Hadj Hin Hn0 Hgt Hnext Hlast Hm)
    as (s' & bs' & L' & _ & Er & Ehl & H' & Ha' & Hc' & Hal).
  assert (Hallocs : forall x, allocs bs' x <-> In x live /\ x <> p).
  { intros x. rewrite Hl. unfold allocs. split.
    - intros (sz & Hx). apply Hal in Hx. destruct Hx as [Hx D]. eauto.
    - intros [(sz & Hx) D]. exists sz. apply Hal. auto. }
  exists s'. split; [exact Er|]. split; [|split].
  - intros ->.
    pose proof (heap_ok_unique _ _ _ _ (rep_heap _ _ _ _ H') (rep_heap _ _ _ _ H)) as <-.
    assert (Hbad : allocs bs' p) by (exists bsz; exact Hin).
    apply Hallocs in Hbad. destruct Hbad as [_ D]. apply D. reflexivity.
  - exists bs'. split; [apply (rep_heap _ _ _ _ H')|]. split; [exact Ha'|exact Hallocs].
  - intros Ht. exists bs', L'. split; [exact H'|]. split; [exact (Hc' Ht)|].
    split; [exact Ha'|]. intros x. rewrite in_remove_iff. symmetry. apply Hallocs.
Qed.

Lemma realloc_move_failure_frees_witness :
  exists s',
    mm_realloc (cap 4096) 100 (Some 136) 100000 (after (cap 4096) [Malloc 16; Malloc 16])
    = Some (None, s') /\
    s' <> after (cap 4096) [Malloc 16; Malloc 16] /\
    (exists bs', heap_ok (heap_mem s') (heap_last_ptr s') bs' /\ nadj true bs' /\
                 forall x, allocs bs' x <-> In x [160; 136] /\ x <> 136) /\
    (tail_allocated (after (cap 4096) [Malloc 16; Malloc 16]) ->
     inv s' (remove Z.eq_dec 136 [160; 136])).
Proof.
  apply (realloc_move_failure_frees (cap 4096) (after (cap 4096) [Malloc 16; Malloc 16])
           [160; 136] 100 136 100000
           (after (cap 4096) [Malloc 16; Malloc 16; Malloc 100000])).
  - apply cap_bounded. reflexivity.
  - exact reach_two.
  - right. left. reflexivity.
  - intros E. discriminate E.
  - vm_compute. reflexivity.
  - vm_compute. reflexivity.
  - vm_compute. intros E. discriminate E.
  - vm_compute. reflexivity.
Defined.

(** After the run [refusals] the block at 232 is allocated, it holds 24
    bytes, the block after it, at 256, is allocated and is not the last
    one, and [mm_malloc 100000] fails.  [mm_realloc 232 100000] returns
    null, but the header of 232 still says allocated, and the free block
    before it, at 168, ends at 208: the block has not been released. *)
Lemma realloc_failure_after_refusals :
  let s := after (cap 4096) refusals in
  let s' := after (cap 4096) (refusals ++ [Realloc 232 100000]) in
  results (cap 4096) (refusals ++ [Realloc 232 100000]) =
    Some [Some 136; Some 160; Some 232; None; Some 256; None; None; Some 136; None;
          None] /\
  is_allocated 232 (heap_mem s) = true /\ get_size 232 (heap_mem s) = 24 /\
  24 < align_size 100000 /\
  get_back 232 (heap_mem s) = 256 /\ is_allocated 256 (heap_mem s) = true /\
  256 < heap_last_ptr s /\
  option_map fst (mm_malloc (cap 4096) 100 100000 s) = Some None /\
  is_allocated 232 (heap_mem s') = true /\
  get_forward 232 (heap_mem s') = 168 /\
  is_allocated 168 (heap_mem s') = false /\ get_size 168 (heap_mem s') = 40.
Proof. cbv zeta. repeat split; vm_compute; reflexivity. Qed.

(** * Further properties *)

(** X1. Every state reached from a successful [mm_init] by calls of the
    allocator and writes of the client into live payloads, without a
    request that fails while the last block is free, satisfies the
    allocator invariant: the heap is a chain of well-formed blocks from
    offset 136 to the trailing sentinel, no two adjacent blocks are free,
    the sixteen lists hold exactly the free blocks, each in the list of its
    size class, and the allocated blocks are the live pointers. *)
Theorem reachable_invariant sbrk_ok s live :
  bounded sbrk_ok -> reachable sbrk_ok s live -> inv s live.
Proof. intros Hb Hr. exact (reachable_inv sbrk_ok Hb s live Hr). Qed.

Lemma reachable_invariant_witness :
  inv (after (cap 4096) [Malloc 16; Malloc 16]) [160; 136].
Proof.
  apply (reachable_invariant (cap 4096)).
  - apply cap_bounded. reflexivity.
  - exact reach_two.
Defined.

(** X2. On a state reached from a successful [mm_init] without a request
    that failed while the last block was free, every valid call returns,
    given fuel for the traversal of the lists: the model neither faults
    nor runs out of fuel.  The valid calls are [mm_malloc] of at most
    [2^31 - 12] bytes, [mm_free] of a live pointer, [mm_realloc] of a
    live pointer to at most [2^31 - 12] bytes when the last block or the
    block after the pointer is allocated, and [mm_calloc] of at most
    [2^31 - 12] bytes in all. *)
Theorem calls_return sbrk_ok s live fuel c :
  bounded sbrk_ok -> reachable sbrk_ok s live ->
  heap_last_ptr s <= 16 * Z.of_nat fuel -> valid_call s live c ->
  exists r s', step sbrk_ok fuel c s = Some (r, s').
Proof.
  intros Hb Hr Hfuel Hv.
  pose proof (reachable_last sbrk_ok s live Hr) as Hlast.
  destruct (reachable_inv sbrk_ok Hb s live Hr) as (bs & L & H & Hc & Hadj & Hl).
  pose proof (fuel_enough _ _ _ _ fuel H Hfuel) as Hf.
  assert (Hf16 : (16 <= fuel)%nat) by lia.
  destruct c as [size|ptr|ptr size|nmemb size]; cbn [step valid_call] in *.
  - apply (mm_malloc_total sbrk_ok Hb fuel size s bs L H Hc Hadj); auto.
    apply align_size_below. exact Hv.
  - apply Hl in Hv. destruct Hv as (sz & Hin).
    destruct (mm_free_spec _ _ _ _ _ H Hc Hadj Hin) as (s' & _ & _ & Ef & _).
    rewrite Ef. cbn [option_map]. eauto.
  - destruct Hv as (Hp & Hsize & Hcase).
    apply Hl in Hp. destruct Hp as (sz & Hin).
    apply (mm_realloc_total sbrk_ok Hb fuel ptr sz size s bs L H Hc Hadj Hin); auto.
    + apply align_size_below. exact Hsize.
    + unfold get_back in Hcase.
      rewrite (block_size_read _ _ _ _ _ _ (rep_heap _ _ _ _ H) Hin) in Hcase. exact Hcase.
  - destruct Hv as (Hk & Hn & Hkn).
    assert (Ew : wrap64 (nmemb * size) = nmemb * size).
    { unfold wrap64. apply Z.mod_small. unfold two64. nia. }
    apply (mm_calloc_total sbrk_ok Hb fuel nmemb size s bs L H Hc Hadj); auto.
    + rewrite Ew. unfold two32. lia.
    + rewrite Ew. apply align_size_below. nia.
Qed.

Lemma calls_return_witness :
  exists r s', step (cap 4096) 256 (Realloc 136 1000)
                 (after (cap 4096) [Malloc 16; Malloc 16]) = Some (r, s').
Proof.
  apply (calls_return (cap 4096) (after (cap 4096) [Malloc 16; Malloc 16]) [160; 136]).
  - apply cap_bounded. reflexivity.
  - exact reach_two.
  - vm_compute. discriminate.
  - cbn [valid_call]. split; [right; left; reflexivity|]. split; [lia|].
    right. vm_compute. reflexivity.
Defined.

(** X3. A block that [mm_malloc] returns for a request of
    [0 < n <= 2^32 - 12] bytes is 8-byte aligned, lies inside the heap,
    holds the [n] bytes after its 4-byte header, was not live before, and
    overlaps no live block. *)
Theorem malloc_block_fresh sbrk_ok s live fuel n p s' :
  bounded sbrk_ok -> reachable sbrk_ok s live -> 0 < n <= two32 - 12 ->
  mm_malloc sbrk_ok fuel n s = Some (Some p, s') ->
  p mod 8 = 0 /\ 136 <= p /\
  p + get_size p (heap_mem s') <= heap_last_ptr s' /\
  n + 4 <= get_size p (heap_mem s') /\
  ~ In p live /\
  forall q, In q live ->
            q + get_size q (heap_mem s') <= p \/ p + get_size p (heap_mem s') <= q.
Proof.
  intros Hb Hr Hn Hm.
  destruct (reachable_inv sbrk_ok Hb s live Hr) as (bs & L & H & Hc & Hadj & Hl).
  destruct (mm_malloc_spec sbrk_ok Hb s bs L fuel n _ _ H Hc Hadj Hm)
    as (bs' & L' & H' & _ & _ & (T & HT & Hal)).
  assert (Hin : In (p, T, true) (blocks_at 136 bs')) by (apply Hal; left; auto).
  pose proof (rep_sizes _ _ _ _ H') as Hs'.
  pose proof (rep_total_bound _ _ _ _ H') as Hb'.
  pose proof (rep_heap _ _ _ _ H') as Hh'.
  destruct (block_node _ Hs' Hb' _ _ _ Hin) as ([_ Hp8] & Hp136 & Hpe & _ & _).
  rewrite (block_size_read _ _ _ _ _ _ Hh' Hin).
  pose proof (align_size_fits n ltac:(lia)) as Hfits.
  split; [exact Hp8|]. split; [exact Hp136|]. split.
  { destruct Hh' as (_ & -> & _). exact Hpe. }
  split; [lia|].
  assert (Hfresh : ~ In p live).
  { intros Hp. apply Hl in Hp.
    exact (mm_malloc_fresh sbrk_ok Hb s bs L fuel n p s' H Hc Hadj Hm Hp). }
  split; [exact Hfresh|].
  intros q Hq. assert (Hqp : q <> p) by (intros ->; contradiction).
  apply Hl in Hq. destruct Hq as (sz & Hq).
  assert (Hq' : In (q, sz, true) (blocks_at 136 bs')) by (apply Hal; right; exact Hq).
  rewrite (block_size_read _ _ _ _ _ _ Hh' Hq').
  destruct (blocks_at_disjoint _ _ _ _ _ _ _ _ Hs' Hq' Hin) as [(E & _)|D];
    [contradiction|exact D].
Qed.

Lemma malloc_block_fresh_witness :
  160 mod 8 = 0 /\ 136 <= 160 /\
  160 + get_size 160 (heap_mem (after (cap 4096) [Malloc 16; Malloc 16]))
  <= heap_last_ptr (after (cap 4096) [Malloc 16; Malloc 16]) /\
  16 + 4 <= get_size 160 (heap_mem (after (cap 4096) [Malloc 16; Malloc 16])) /\
  ~ In 160 [136] /\
  forall q, In q [136] ->
            q + get_size q (heap_mem (after (cap 4096) [Malloc 16; Malloc 16])) <= 160 \/
            160 + get_size 160 (heap_mem (after (cap 4096) [Malloc 16; Malloc 16])) <= q.
Proof.
  apply (malloc_block_fresh (cap 4096) (after (cap 4096) [Malloc 16]) [136] 100 16).
  - apply cap_bounded. reflexivity.
  - apply (reach_malloc (cap 4096) (start (cap 4096)) [] 100 16 (Some 136)).
    + apply reach_start. lia.
    + vm_compute. reflexivity.
    + intros E. discriminate E.
  - unfold two32. lia.
  - vm_compute. reflexivity.
Defined.

(** * The heap checker *)

(** X4. On every state reached from a successful [mm_init] without a
    request that failed while the last block was free, [mm_checkheap]
    returns and prints nothing, given fuel for its walks. *)
Theorem checkheap_silent sbrk_ok s live fuel lineno :
  bounded sbrk_ok -> reachable sbrk_ok s live ->
  heap_last_ptr s <= 16 * Z.of_nat fuel ->
  mm_checkheap fuel lineno s = Some [].
Proof.
  intros Hb Hr Hf.
  destruct (reachable_inv sbrk_ok Hb s live Hr) as (bs & L & H & _ & Hadj & _).
  exact (mm_checkheap_silent s bs L fuel lineno H Hadj (fuel_enough _ _ _ _ fuel H Hf)).
Qed.

Lemma checkheap_silent_witness :
  mm_checkheap 256 7 (after (cap 4096) [Malloc 16; Malloc 16]) = Some [].
Proof.
  apply (checkheap_silent (cap 4096) (after (cap 4096) [Malloc 16; Malloc 16]) [160; 136]).
  - apply cap_bounded. reflexivity.
  - exact reach_two.
  - vm_compute. discriminate.
Defined.

(** X5. The checker does not see a free block that is on no list.  Take
    a state reached from a successful [mm_init] without a request that
    failed while the last block was free.  When [mm_malloc] fails there
    while the last block is free, that block is afterwards free and on
    none of the sixteen lists, and [mm_checkheap] still returns and
    prints nothing. *)
Theorem checkheap_misses_unlinked_block sbrk_ok s live fuel size s' fuel' lineno :
  bounded sbrk_ok -> reachable sbrk_ok s live ->
  size <> 0 -> ~ tail_allocated s ->
  mm_malloc sbrk_ok fuel size s = Some (None, s') ->
  heap_last_ptr s <= 16 * Z.of_nat fuel' ->
  mm_checkheap fuel' lineno s' = Some [] /\
  is_allocated (get_forward (heap_last_ptr s) (heap_mem s)) (heap_mem s') = false /\
  forall c, 12 <= c <= 27 ->
            ~ on_list (heap_mem s') c (get_forward (heap_last_ptr s) (heap_mem s)).
Proof.
  intros Hb Hr Hn0 Htail Hm Hf.
  destruct (reachable_inv sbrk_ok Hb s live Hr) as (bs & L & H & Hc & Hadj & _).
  destruct (malloc_failure sbrk_ok s bs L fuel size s' H Hc Hadj Hn0 Hm)
    as (Ehl & _ & Hlost).
  destruct (Hlost Htail) as [Em _].
  assert (Efa : is_forward_allocated (heap_last_ptr s) (heap_mem s) = false).
  { unfold tail_allocated in Htail.
    destruct (is_forward_allocated (heap_last_ptr s) (heap_mem s)); congruence. }
  destruct (free_tail _ _ _ _ H Hc Efa) as (fsz & Hcl & Hl & Hin & _).
  set (t := get_forward (heap_last_ptr s) (heap_mem s)) in *.
  pose proof (rep_sizes _ _ _ _ H) as Hs.
  pose proof (rep_total_bound _ _ _ _ H) as Hbd.
  destruct (unlink_lists _ _ _ _ _ Hs Hbd (rep_nodes _ _ _ _ H) (rep_lists _ _ _ _ H) Hcl Hl)
    as (l1 & l2 & El & _).
  destruct (rep_unlink _ _ _ _ _ _ H Hcl Hl) as (l1' & l2' & El' & H1).
  assert (H1' : rep (heap_mem s') (heap_last_ptr s') bs
                  (upd L (class_of fsz) (l1' ++ l2'))).
  { rewrite Em, Ehl. exact H1. }
  split; [|split].
  - exact (mm_checkheap_silent s' bs _ fuel' lineno H1' Hadj
             (fuel_enough _ _ _ _ fuel' H ltac:(lia))).
  - exact (proj1 (free_then_allocated _ _ _ _ _ (rep_heap _ _ _ _ H1') Hadj Hin)).
  - intros c Hcr Hon.
    apply (on_list_iff _ _ _ _ c t H1' Hcr) in Hon.
    revert Hon. apply (not_in_upd_remove L (class_of fsz) l1' t l2' c El').
    + exact (proj2 (rep_lists _ _ _ _ H _ Hcl)).
    + intros Hne Hx.
      apply Hne. symmetry.
      exact (node_class_unique bs L Hs (rep_nodes _ _ _ _ H) _ _ t Hcl Hcr Hl Hx).
Qed.

Lemma checkheap_misses_unlinked_block_witness :
  mm_checkheap 256 7 (after (cap 4096) [Malloc 5000]) = Some [] /\
  is_allocated (get_forward (heap_last_ptr (start (cap 4096)))
                  (heap_mem (start (cap 4096))))
    (heap_mem (after (cap 4096) [Malloc 5000])) = false /\
  forall c, 12 <= c <= 27 ->
            ~ on_list (heap_mem (after (cap 4096) [Malloc 5000])) c
                (get_forward (heap_last_ptr (start (cap 4096)))
                   (heap_mem (start (cap 4096)))).
Proof.
  apply (checkheap_misses_unlinked_block (cap 4096) (start (cap 4096)) [] 100 5000).
  - apply cap_bounded. reflexivity.
  - apply reach_start. lia.
  - discriminate.
  - intros E. vm_compute in E. discriminate E.
  - vm_compute. reflexivity.
  - vm_compute. discriminate.
Defined.

(** * Initialization *)

(** X6. [mm_init] returns for every content of the heap area.  When the
    provider refuses the first 4096 bytes it returns -1 and writes
    nothing.  Otherwise it returns 0, the heap ends at offset 4096 and
    is one free block of 3960 bytes at offset 136, which is the only node
    of the list of class 20; the other fifteen lists are empty. *)
Theorem mm_init_result sbrk_ok m0 :
  exists r s, mm_init sbrk_ok m0 = Some (r, s) /\
    (sbrk_ok 0 4096 = false -> r = -1 /\ s = mkState m0 0) /\
    (sbrk_ok 0 4096 = true ->
     r = 0 /\ heap_last_ptr s = 4096 /\
     heap_ok (heap_mem s) 4096 [(3960, false)] /\
     forall c x, 12 <= c <= 27 -> (on_list (heap_mem s) c x <-> c = 20 /\ x = 136)).
Proof.
  destruct (sbrk_ok 0 4096) eqn:E.
  - destruct (mm_init_spec sbrk_ok m0 E) as (s & Ei & Ehl & H & _).
    exists 0, s. split; [exact Ei|]. split; [discriminate|]. intros _.
    split; [reflexivity|]. split; [exact Ehl|]. split; [exact (rep_heap _ _ _ _ H)|].
    intros c x Hc. rewrite (on_list_iff _ _ _ _ c x H Hc).
    unfold init_lists, upd. destruct (Z.eqb_spec c 20) as [->|N]; cbn [In].
    + split; [intros [<-|[]]; auto|intros [_ ->]; auto].
    + split; [intros []|intros [Ec _]; contradiction].
  - exists (-1), (mkState m0 0). split; [exact (mm_init_fail sbrk_ok m0 E)|].
    split; [auto|discriminate].
Qed.

(** * The end of the heap *)

(** X7. A call moves the end of the heap only upwards and only by the
    size of one request that [mem_sbrk] granted at the old end:
    [mm_free] never moves it, [mm_malloc] and [mm_calloc] move it by at
    least 4096 bytes, [mm_realloc] by at least 8 bytes. *)
Theorem heap_end_moves sbrk_ok fuel c s r s' :
  step sbrk_ok fuel c s = Some (r, s') ->
  match c with
  | Free _ => heap_last_ptr s' = heap_last_ptr s
  | Realloc _ _ => moved sbrk_ok 8 s s'
  | Malloc _ | Calloc _ _ => moved sbrk_ok 4096 s s'
  end.
Proof.
  intros H. destruct c as [size|ptr|ptr size|nmemb size]; cbn [step] in H.
  - exact (mm_malloc_moved sbrk_ok fuel size s r s' H).
  - destruct (mm_free (Some ptr) s) as [s2|] eqn:E; [|discriminate].
    injection H as _ <-. exact (mm_free_last _ _ _ E).
  - exact (mm_realloc_moved sbrk_ok fuel ptr size s r s' H).
  - exact (mm_calloc_moved sbrk_ok fuel nmemb size s r s' H).
Qed.

Lemma heap_end_moves_witness :
  moved (cap 100000) 4096 (start (cap 100000)) (after (cap 100000) [Malloc 5000]).
Proof.
  apply (heap_end_moves (cap 100000) 100 (Malloc 5000) (start (cap 100000)) (Some 136)).
  vm_compute. reflexivity.
Defined.

(** * Headers *)

(** X8. The three fields of a header are updated independently.  For a
    size that is a multiple of 8, at least 8 and below [2^32],
    [set_size] stores the size in the header and in the footer and keeps
    both flags; each of the four flag setters changes its flag only and
    keeps the size and the other flag. *)
Theorem header_fields_independent p sz m :
  8 <= sz < two32 -> sz mod 8 = 0 ->
  hdr_is (set_size p sz m) p sz (is_allocated p m) (is_forward_allocated p m) /\
  read_word (p + sz - 8) (set_size p sz m) = sz /\
  hdr_is (set_allocated_flag p m) p (get_size p m) true (is_forward_allocated p m) /\
  hdr_is (unset_allocated_flag p m) p (get_size p m) false (is_forward_allocated p m) /\
  hdr_is (set_forward_allocated_flag p m) p (get_size p m) (is_allocated p m) true /\
  hdr_is (unset_forward_allocated_flag p m) p (get_size p m) (is_allocated p m) false.
Proof.
  intros Hsz H8. pose proof (hdr_is_self p m) as Hself.
  split; [exact (hdr_is_set_size _ _ _ _ _ sz Hself Hsz H8)|].
  split; [apply footer_set_size; lia|].
  split; [exact (hdr_is_set_allocated_flag _ _ _ _ _ Hself)|].
  split; [exact (hdr_is_unset_allocated_flag _ _ _ _ _ Hself)|].
  split; [exact (hdr_is_set_forward_allocated_flag _ _ _ _ _ Hself)|].
  exact (hdr_is_unset_forward_allocated_flag _ _ _ _ _ Hself).
Qed.

Lemma header_fields_independent_witness :
  hdr_is (set_size 136 24 m_zero) 136 24
    (is_allocated 136 m_zero) (is_forward_allocated 136 m_zero) /\
  read_word (136 + 24 - 8) (set_size 136 24 m_zero) = 24 /\
  hdr_is (set_allocated_flag 136 m_zero) 136 (get_size 136 m_zero) true
    (is_forward_allocated 136 m_zero) /\
  hdr_is (unset_allocated_flag 136 m_zero) 136 (get_size 136 m_zero) false
    (is_forward_allocated 136 m_zero) /\
  hdr_is (set_forward_allocated_flag 136 m_zero) 136 (get_size 136 m_zero)
    (is_allocated 136 m_zero) true /\
  hdr_is (unset_forward_allocated_flag 136 m_zero) 136 (get_size 136 m_zero)
    (is_allocated 136 m_zero) false.
Proof.
  apply (header_fields_independent 136 24 m_zero).
  - unfold two32. lia.
  - reflexivity.
Defined.

(** * The free lists *)

(** X9. [insert] puts a block at the tail of the list of its size class,
    and [delete_block] takes it out again: the list is as it was. *)
Theorem insert_then_delete m l x sz :
  16 <= sz < two32 ->
  dll m (sent (class_of sz)) l -> NoDup l -> Forall node_ok l ->
  ~ In (sent (class_of sz)) l -> ~ In x l -> x <> sent (class_of sz) -> node_ok x ->
  exists m', insert x sz m = Some m' /\
             dll m' (sent (class_of sz)) (l ++ [x]) /\
             dll (delete_block x m') (sent (class_of sz)) l.
Proof.
  intros Hsz Hd Hnd Hok Hns Hnx Hxs Hx.
  pose proof (class_of_range sz Hsz) as Hc.
  destruct (sent_node _ Hc) as (Hsn & _).
  exists (link_tail (sent (class_of sz)) x m).
  split; [unfold insert; rewrite (begins_class sz Hsz); reflexivity|].
  pose proof (dll_link_tail _ _ _ x Hd Hnd Hns Hnx Hxs Hsn Hx Hok) as Hd'.
  split; [exact Hd'|].
  assert (X : dll (delete_block x (link_tail (sent (class_of sz)) x m))
                 (sent (class_of sz)) (l ++ [])).
  { apply dll_unlink; auto.
    - apply NoDup_snoc; assumption.
    - intros Hin. apply in_app_or in Hin. destruct Hin as [Hin|[E|[]]]; [auto|].
      apply Hxs. exact E.
    - apply Forall_app. split; [exact Hok|]. constructor; [exact Hx|constructor]. }
  rewrite app_nil_r in X. exact X.
Qed.

Lemma insert_then_delete_witness :
  exists m', insert 2184 2048 (heap_mem (start (cap 4096))) = Some m' /\
             dll m' (sent (class_of 2048)) ([136] ++ [2184]) /\
             dll (delete_block 2184 m') (sent (class_of 2048)) [136].
Proof.
  apply (insert_then_delete (heap_mem (start (cap 4096))) [136] 2184 2048).
  - unfold two32. lia.
  - vm_compute. auto.
  - constructor; [intros []|constructor].
  - constructor; [|constructor]. unfold node_ok, two32. split; [lia|reflexivity].
  - vm_compute. intros [E|[]]. discriminate E.
  - intros [E|[]]. discriminate E.
  - vm_compute. intros E. discriminate E.
  - unfold node_ok, two32. split; [lia|reflexivity].
Defined.

(** * Sizes *)

(** X10. For a request of [0 < n <= 2^32 - 12] bytes other than 448,
    [align_size n] is the least multiple of 8 that is at least 16 and
    at least [n + 4]. *)
Theorem align_size_is_least n :
  0 < n <= two32 - 12 -> n <> 448 ->
  align_size n mod 8 = 0 /\ 16 <= align_size n /\ n + 4 <= align_size n /\
  forall b, b mod 8 = 0 -> 16 <= b -> n + 4 <= b -> align_size n <= b.
Proof.
  intros Hn N. destruct (align_size_good n) as [[H16 H8] Hlt].
  split; [exact H8|]. split; [exact H16|].
  split; [apply align_size_fits; lia|].
  intros b Hb8 Hb16 Hbn.
  destruct (Z_lt_le_dec b two32) as [Hb|Hb]; [|lia].
  apply align_size_least; try assumption; try lia. split; assumption.
Qed.

Lemma align_size_is_least_witness :
  align_size 100 mod 8 = 0 /\ 16 <= align_size 100 /\ 100 + 4 <= align_size 100 /\
  forall b, b mod 8 = 0 -> 16 <= b -> 100 + 4 <= b -> align_size 100 <= b.
Proof.
  apply (align_size_is_least 100).
  - unfold two32. lia.
  - discriminate.
Defined.

(** * Requests that cannot be served *)

(** X11. A request of at least [2^31 - 11] and at most [2^32 - 12] bytes
    on a heap of at most [2^31] bytes has no defined result: its aligned
    size has index 0, and after the list of class 12
    [find_fit_in_index_th_list] decrements the index to 4294967295 and
    reads the table [begins], which has 32 entries, at that index. *)
Theorem malloc_huge_request_faults sbrk_ok s live fuel n :
  bounded sbrk_ok -> reachable sbrk_ok s live ->
  2 ^ 31 - 11 <= n <= two32 - 12 -> heap_last_ptr s <= 2 ^ 31 ->
  mm_malloc sbrk_ok fuel n s = None.
Proof.
  intros Hb Hr Hn Hhl.
  destruct (reachable_inv sbrk_ok Hb s live Hr) as (bs & L & H & _).
  exact (mm_malloc_huge sbrk_ok s bs L fuel n H Hn Hhl).
Qed.

Lemma malloc_huge_request_faults_witness :
  mm_malloc (cap 4096) 100 (2 ^ 31) (start (cap 4096)) = None.
Proof.
  apply (malloc_huge_request_faults (cap 4096) (start (cap 4096)) []).
  - apply cap_bounded. reflexivity.
  - apply reach_start. lia.
  - unfold two32. lia.
  - vm_compute. discriminate.
Defined.

(** X12. On a state reached from a successful [mm_init] without a
    request that failed while the last block was free, [mm_malloc]
    returns null for a size that is not 0 only when [mem_sbrk] refused a
    request of at least 4096 bytes and at most the larger of 4096 and the
    aligned size. *)
Theorem malloc_null_only_on_refusal sbrk_ok s live fuel size s' :
  bounded sbrk_ok -> reachable sbrk_ok s live -> size <> 0 ->
  mm_malloc sbrk_ok fuel size s = Some (None, s') ->
  exists n, 4096 <= n <= Z.max 4096 (align_size size) /\
            sbrk_ok (heap_last_ptr s) n = false.
Proof.
  intros Hb Hr Hn0 Hm.
  destruct (reachable_inv sbrk_ok Hb s live Hr) as (bs & L & H & Hc & Hadj & _).
  exact (malloc_null_refused sbrk_ok s bs L fuel size s' H Hc Hadj Hn0 Hm).
Qed.

Lemma malloc_null_only_on_refusal_witness :
  exists n, 4096 <= n <= Z.max 4096 (align_size 5000) /\
            cap 4096 (heap_last_ptr (start (cap 4096))) n = false.
Proof.
  apply (malloc_null_only_on_refusal (cap 4096) (start (cap 4096)) [] 100 5000
           (after (cap 4096) [Malloc 5000])).
  - apply cap_bounded. reflexivity.
  - apply reach_start. lia.
  - discriminate.
  - vm_compute. reflexivity.
Defined.

(** * Reuse of free blocks *)

(** X13. On a state reached from a successful [mm_init] without a
    request that failed while the last block was free, [mm_malloc] does
    not extend the heap while a free block is large enough: for a request
    of at most [2^31 - 12] bytes, when some free block holds the aligned
    size, it returns a pointer to what was a free block of at least that
    size and leaves the end of the heap where it was. *)
Theorem malloc_reuses_free_block sbrk_ok s live fuel n bs x sz :
  bounded sbrk_ok -> reachable sbrk_ok s live ->
  0 < n <= 2 ^ 31 - 12 -> heap_last_ptr s <= 16 * Z.of_nat fuel ->
  heap_ok (heap_mem s) (heap_last_ptr s) bs ->
  In (x, sz, false) (blocks_at 136 bs) -> align_size n <= sz ->
  exists p s', mm_malloc sbrk_ok fuel n s = Some (Some p, s') /\
               heap_last_ptr s' = heap_last_ptr s /\
               exists bsz, In (p, bsz, false) (blocks_at 136 bs) /\ align_size n <= bsz.
Proof.
  intros Hb Hr Hn Hf Hh Hx Hfit.
  pose proof (reachable_last sbrk_ok s live Hr) as Hlast.
  destruct (reachable_inv sbrk_ok Hb s live Hr) as (bs0 & L & H & Hc & Hadj & _).
  rewrite (heap_ok_unique _ _ _ _ Hh (rep_heap _ _ _ _ H)) in *.
  destruct (malloc_from_lists sbrk_ok fuel n s bs0 L x sz H Hc Hadj ltac:(lia) Hx Hfit
              (align_size_below n ltac:(lia)) ltac:(lia) (fuel_enough _ _ _ _ fuel H Hf))
    as (p & s' & bs' & L' & Em & Ehl & _ & _ & _ & Hcv).
  exists p, s'. split; [exact Em|]. split; [exact Ehl|].
  destruct Hcv as (pre & bsz & post & new & -> & _ & -> & Hle & _).
  exists bsz. split; [apply in_blocks_at_mid|exact Hle].
Qed.

Lemma malloc_reuses_free_block_witness :
  exists p s',
    mm_malloc (cap 4096) 256 100 (after (cap 4096) [Malloc 16; Malloc 16]) = Some (Some p, s') /\
    heap_last_ptr s' = heap_last_ptr (after (cap 4096) [Malloc 16; Malloc 16]) /\
    exists bsz, In (p, bsz, false) (blocks_at 136 [(24, true); (24, true); (3912, false)]) /\
                align_size 100 <= bsz.
Proof.
  apply (malloc_reuses_free_block (cap 4096) (after (cap 4096) [Malloc 16; Malloc 16])
           [160; 136] 256 100 [(24, true); (24, true); (3912, false)] 184 3912).
  - apply cap_bounded. reflexivity.
  - exact reach_two.
  - lia.
  - vm_compute. discriminate.
  - repeat split; vm_compute; try reflexivity; try discriminate;
      intros E; try discriminate E; reflexivity.
  - right. right. left. reflexivity.
  - vm_compute. discriminate.
Defined.

(** X14. [mm_malloc] takes from the lists the first block, in list
    order, that is large enough, of the first list that has one, going
    from the class of the aligned size towards class 12: the nodes before
    it in its list and all nodes of the lists passed over are too
    small. *)
Theorem malloc_first_fit sbrk_ok s live fuel n p s' :
  bounded sbrk_ok -> reachable sbrk_ok s live ->
  mm_malloc sbrk_ok fuel n s = Some (Some p, s') ->
  heap_last_ptr s' = heap_last_ptr s ->
  exists c l1 l2,
    12 <= c <= class_of (align_size n) /\
    dll (heap_mem s) (sent c) (l1 ++ p :: l2) /\ ~ In (sent c) (l1 ++ p :: l2) /\
    align_size n <= get_size p (heap_mem s) /\
    (forall y, In y l1 -> get_size y (heap_mem s) < align_size n) /\
    (forall c' y, c < c' <= class_of (align_size n) -> on_list (heap_mem s) c' y ->
                  get_size y (heap_mem s) < align_size n).
Proof.
  intros Hb Hr Hm Ehl.
  destruct (reachable_inv sbrk_ok Hb s live Hr) as (bs & L & H & Hc & Hadj & _).
  destruct (mm_malloc_first sbrk_ok s bs L fuel n p s' H Hc Hadj Hm Ehl)
    as (c & l1 & l2 & Hcr & El & Hp & Hl1 & Hcs).
  destruct (align_size_good n) as [[Ha16 _] Halt].
  pose proof (class_of_range (align_size n) ltac:(lia)) as Hcl.
  assert (Hc27 : 12 <= c <= 27) by lia.
  exists c, l1, l2. split; [exact Hcr|].
  rewrite <- El.
  split; [exact (proj1 (rep_lists _ _ _ _ H c Hc27))|].
  split.
  { exact (sent_not_node bs L (rep_sizes _ _ _ _ H) (rep_total_bound _ _ _ _ H)
             (rep_nodes _ _ _ _ H) c c Hc27 Hc27). }
  split; [exact Hp|]. split; [exact Hl1|].
  intros c' y Hc' Hy. apply (Hcs c' y Hc').
  apply (on_list_iff _ _ _ _ c' y H ltac:(lia)). exact Hy.
Qed.

Lemma malloc_first_fit_witness :
  exists c l1 l2,
    12 <= c <= class_of (align_size 100) /\
    dll (heap_mem (after (cap 4096) [Malloc 16; Malloc 16])) (sent c) (l1 ++ 184 :: l2) /\
    ~ In (sent c) (l1 ++ 184 :: l2) /\
    align_size 100 <= get_size 184 (heap_mem (after (cap 4096) [Malloc 16; Malloc 16])) /\
    (forall y, In y l1 ->
               get_size y (heap_mem (after (cap 4096) [Malloc 16; Malloc 16]))
               < align_size 100) /\
    (forall c' y, c < c' <= class_of (align_size 100) ->
                  on_list (heap_mem (after (cap 4096) [Malloc 16; Malloc 16])) c' y ->
                  get_size y (heap_mem (after (cap 4096) [Malloc 16; Malloc 16]))
                  < align_size 100).
Proof.
  apply (malloc_first_fit (cap 4096) (after (cap 4096) [Malloc 16; Malloc 16]) [160; 136]
           100 100 184 (after (cap 4096) [Malloc 16; Malloc 16; Malloc 100])).
  - apply cap_bounded. reflexivity.
  - exact reach_two.
  - vm_compute. reflexivity.
  - vm_compute. reflexivity.
Defined.

(** * Round trip *)



(** * Growing a block in place *)

(** X16. When the block after [p] is free and holds the missing bytes,
    [mm_realloc] grows [p] in place: it returns [p], the end of the heap
    stays where it was, and the invariant holds with the same live
    pointers. *)
Theorem realloc_grows_into_free_successor sbrk_ok s live fuel p n :
  bounded sbrk_ok -> reachable sbrk_ok s live -> In p live -> n <> 0 ->
  get_size p (heap_mem s) < align_size n ->
  is_allocated (get_back p (heap_mem s)) (heap_mem s) = false ->
  align_size n - get_size p (heap_mem s)
  <= get_size (get_back p (heap_mem s)) (heap_mem s) ->
  exists s', mm_realloc sbrk_ok fuel (Some p) n s = Some (Some p, s') /\
             heap_last_ptr s' = heap_last_ptr s /\ inv s' live.
Proof.
  intros Hb Hr Hp Hn0 Hgt Hfree Hfit.
  destruct (reachable_inv sbrk_ok Hb s live Hr) as (bs & L & H & Hc & Hadj & Hl).
  destruct (proj1 (Hl p) Hp) as (bsz & Hin).
  unfold get_back in *.
  rewrite (block_size_read _ _ _ _ _ _ (rep_heap _ _ _ _ H) Hin) in *.
  destruct (mm_realloc_grow sbrk_ok Hb s bs L fuel p bsz n H Hc Hadj Hin Hn0 Hgt)
    as [Hcase _].
  destruct (Hcase Hfree Hfit) as (s' & bs' & L' & Er & Ehl & H' & Hc' & Ha' & Hsame).
  exists s'. split; [exact Er|]. split; [exact Ehl|].
  exists bs', L'. split; [exact H'|]. split; [exact Hc'|]. split; [exact Ha'|].
  intros x. rewrite Hl. symmetry. apply Hsame.
Qed.

Lemma realloc_grows_into_free_successor_witness :
  exists s', mm_realloc (cap 4096) 100 (Some 160) 100
               (after (cap 4096) [Malloc 16; Malloc 16]) = Some (Some 160, s') /\
             heap_last_ptr s' = heap_last_ptr (after (cap 4096) [Malloc 16; Malloc 16]) /\
             inv s' [160; 136].
Proof.
  apply (realloc_grows_into_free_successor (cap 4096)
           (after (cap 4096) [Malloc 16; Malloc 16]) [160; 136] 100 160 100).
  - apply cap_bounded. reflexivity.
  - exact reach_two.
  - left. reflexivity.
  - discriminate.
  - vm_compute. reflexivity.
  - vm_compute. reflexivity.
  - vm_compute. discriminate.
Defined.

(** X17. When [p] is the last block of the heap, [mm_realloc] asks the
    provider for exactly the missing bytes.  If they are granted it
    returns [p], the heap ends that many bytes later and the invariant
    holds with the same live pointers; if they are refused it returns
    null and the state, with the block [p], is unchanged. *)
Theorem realloc_last_block sbrk_ok s live fuel p n :
  bounded sbrk_ok -> reachable sbrk_ok s live -> In p live -> n <> 0 ->
  get_size p (heap_mem s) < align_size n ->
  get_back p (heap_mem s) = heap_last_ptr s ->
  (sbrk_ok (heap_last_ptr s) (align_size n - get_size p (heap_mem s)) = true ->
   exists s', mm_realloc sbrk_ok fuel (Some p) n s = Some (Some p, s') /\
              heap_last_ptr s'
              = heap_last_ptr s + (align_size n - get_size p (heap_mem s)) /\
              inv s' live) /\
  (sbrk_ok (heap_last_ptr s) (align_size n - get_size p (heap_mem s)) = false ->
   mm_realloc sbrk_ok fuel (Some p) n s = Some (None, s)).
Proof.
  intros Hb Hr Hp Hn0 Hgt Hlast.
  destruct (reachable_inv sbrk_ok Hb s live Hr) as (bs & L & H & Hc & Hadj & Hl).
  destruct (proj1 (Hl p) Hp) as (bsz & Hin).
  unfold get_back in *.
  rewrite (block_size_read _ _ _ _ _ _ (rep_heap _ _ _ _ H) Hin) in *.
  destruct (mm_realloc_grow sbrk_ok Hb s bs L fuel p bsz n H Hc Hadj Hin Hn0 Hgt)
    as [_ Hcase].
  destruct (Hcase Hlast) as [Hyes Hno].
  split; [|exact Hno]. intros Es.
  destruct (Hyes Es) as (s' & bs' & L' & Er & Ehl & H' & Hc' & Ha' & Hsame).
  exists s'. split; [exact Er|]. split; [exact Ehl|].
  exists bs', L'. split; [exact H'|]. split; [exact Hc'|]. split; [exact Ha'|].
  intros x. rewrite Hl. symmetry. apply Hsame.
Qed.

Lemma realloc_last_block_witness :
  (cap 4096 (heap_last_ptr (after (cap 4096) [Malloc 3950]))
     (align_size 5000 - get_size 136 (heap_mem (after (cap 4096) [Malloc 3950]))) = true ->
   exists s', mm_realloc (cap 4096) 100 (Some 136) 5000 (after (cap 4096) [Malloc 3950])
              = Some (Some 136, s') /\
              heap_last_ptr s'
              = heap_last_ptr (after (cap 4096) [Malloc 3950])
                + (align_size 5000 - get_size 136 (heap_mem (after (cap 4096) [Malloc 3950]))) /\
              inv s' [136]) /\
  (cap 4096 (heap_last_ptr (after (cap 4096) [Malloc 3950]))
     (align_size 5000 - get_size 136 (heap_mem (after (cap 4096) [Malloc 3950]))) = false ->
   mm_realloc (cap 4096) 100 (Some 136) 5000 (after (cap 4096) [Malloc 3950])
   = Some (None, after (cap 4096) [Malloc 3950])).
Proof.
  apply (realloc_last_block (cap 4096) (after (cap 4096) [Malloc 3950]) [136] 100 136 5000).
  - apply cap_bounded. reflexivity.
  - exact reach_full.
  - left. reflexivity.
  - discriminate.
  - vm_compute. reflexivity.
  - vm_compute. reflexivity.
Defined.

(** * The contents of the live blocks *)

(** X18. On a state reached from a successful [mm_init] without a
    request that failed while the last block was free, [mm_malloc]
    changes no payload byte of a live block, whatever it returns. *)
Theorem malloc_keeps_payload sbrk_ok s live fuel n r s' x w :
  bounded sbrk_ok -> reachable sbrk_ok s live ->
  mm_malloc sbrk_ok fuel n s = Some (r, s') ->
  In x live -> x <= w < x + get_size x (heap_mem s) - 4 ->
  heap_mem s' w = heap_mem s w.
Proof.
  intros Hb Hr Hm Hx Hw.
  destruct (reachable_inv sbrk_ok Hb s live Hr) as (bs & L & H & Hc & Hadj & Hl).
  exact (mm_malloc_keeps sbrk_ok Hb s bs L fuel n r s' x w H Hc Hadj Hm
           (live_payload_byte s live bs L x w H Hl Hx Hw)).
Qed.

Lemma malloc_keeps_payload_witness :
  heap_mem (after (cap 4096) [Malloc 16; Malloc 16; Malloc 100]) 140
  = heap_mem (after (cap 4096) [Malloc 16; Malloc 16]) 140.
Proof.
  apply (malloc_keeps_payload (cap 4096) (after (cap 4096) [Malloc 16; Malloc 16])
           [160; 136] 100 100 (Some 184)
           (after (cap 4096) [Malloc 16; Malloc 16; Malloc 100]) 136 140).
  - apply cap_bounded. reflexivity.
  - exact reach_two.
  - vm_compute. reflexivity.
  - right. left. reflexivity.
  - split; [vm_compute; discriminate|vm_compute; reflexivity].
Defined.

(** X19. On a state reached from a successful [mm_init] without a
    request that failed while the last block was free, [mm_free] of a
    live block changes no payload byte of the other live blocks. *)
Theorem free_keeps_payload sbrk_ok s live p s' x w :
  bounded sbrk_ok -> reachable sbrk_ok s live -> In p live ->
  mm_free (Some p) s = Some s' ->
  In x live -> x <> p -> x <= w < x + get_size x (heap_mem s) - 4 ->
  heap_mem s' w = heap_mem s w.
Proof.
  intros Hb Hr Hp Hf Hx Hxp Hw.
  destruct (reachable_inv sbrk_ok Hb s live Hr) as (bs & L & H & Hc & Hadj & Hl).
  exact (mm_free_keeps s bs L p s' x w H Hc Hadj (proj1 (Hl p) Hp) Hf
           (live_payload_byte s live bs L x w H Hl Hx Hw) Hxp).
Qed.

Lemma free_keeps_payload_witness :
  heap_mem (after (cap 4096) [Malloc 16; Malloc 16; Free 136]) 164
  = heap_mem (after (cap 4096) [Malloc 16; Malloc 16]) 164.
Proof.
  apply (free_keeps_payload (cap 4096) (after (cap 4096) [Malloc 16; Malloc 16])
           [160; 136] 136 (after (cap 4096) [Malloc 16; Malloc 16; Free 136]) 160 164).
  - apply cap_bounded. reflexivity.
  - exact reach_two.
  - right. left. reflexivity.
  - vm_compute. reflexivity.
  - left. reflexivity.
  - discriminate.
  - split; [vm_compute; discriminate|vm_compute; reflexivity].
Defined.

(** X20. On a state reached from a successful [mm_init] without a
    request that failed while the last block was free, a successful
    [mm_realloc] of a live block [p] to [n] bytes, [0 < n <= 2^32 - 12],
    returns a block whose first bytes are those of the old payload, up to
    the smaller of [n] and the old payload size, whether the block was
    resized in place or moved; no payload byte of the other live blocks
    changes. *)
Theorem realloc_keeps_payload sbrk_ok s live fuel p n q s' :
  bounded sbrk_ok -> reachable sbrk_ok s live -> In p live ->
  0 < n <= two32 - 12 ->
  mm_realloc sbrk_ok fuel (Some p) n s = Some (Some q, s') ->
  (forall i, 0 <= i < Z.min n (get_size p (heap_mem s) - 4) ->
             heap_mem s' (q + i) = heap_mem s (p + i)) /\
  (forall x w, In x live -> x <> p -> x <= w < x + get_size x (heap_mem s) - 4 ->
               heap_mem s' w = heap_mem s w).
Proof.
  intros Hb Hr Hp Hn Hm.
  destruct (reachable_inv sbrk_ok Hb s live Hr) as (bs & L & H & Hc & Hadj & Hl).
  destruct (proj1 (Hl p) Hp) as (bsz & Hin).
  destruct (mm_realloc_keeps sbrk_ok Hb s bs L fuel p bsz n q s' H Hc Hadj Hin
              ltac:(lia) Hm) as [Hothers Hown].
  rewrite (block_size_read _ _ _ _ _ _ (rep_heap _ _ _ _ H) Hin).
  pose proof (align_size_fits n ltac:(lia)) as Hfit.
  split.
  - intros i Hi. apply Hown. lia.
  - intros x w Hx Hxp Hw.
    exact (Hothers x w (live_payload_byte s live bs L x w H Hl Hx Hw) Hxp).
Qed.

Lemma realloc_keeps_payload_witness :
  (forall i, 0 <= i < Z.min 100
               (get_size 160 (heap_mem (after (cap 4096) [Malloc 16; Malloc 16])) - 4) ->
             heap_mem (after (cap 4096) [Malloc 16; Malloc 16; Realloc 160 100]) (160 + i)
             = heap_mem (after (cap 4096) [Malloc 16; Malloc 16]) (160 + i)) /\
  (forall x w, In x [160; 136] -> x <> 160 ->
               x <= w < x + get_size x (heap_mem (after (cap 4096) [Malloc 16; Malloc 16])) - 4 ->
               heap_mem (after (cap 4096) [Malloc 16; Malloc 16; Realloc 160 100]) w
               = heap_mem (after (cap 4096) [Malloc 16; Malloc 16]) w).
Proof.
  apply (realloc_keeps_payload (cap 4096) (after (cap 4096) [Malloc 16; Malloc 16])
           [160; 136] 100 160 100 160
           (after (cap 4096) [Malloc 16; Malloc 16; Realloc 160 100])).
  - apply cap_bounded. reflexivity.
  - exact reach_two.
  - left. reflexivity.
  - unfold two32. lia.
  - vm_compute. reflexivity.
Defined.

(** X21. On a state reached from a successful [mm_init] without a
    request that failed while the last block was free, an [mm_calloc] of
    a byte count of at most [2^32 - 12] that returns has changed no
    payload byte of a live block: the bytes it sets to zero are in the
    block it returns. *)
Theorem calloc_keeps_payload sbrk_ok s live fuel k n r s' x w :
  bounded sbrk_ok -> reachable sbrk_ok s live ->
  0 <= k -> 0 <= n -> k * n <= two32 - 12 ->
  mm_calloc sbrk_ok fuel k n s = Some (r, s') ->
  In x live -> x <= w < x + get_size x (heap_mem s) - 4 ->
  heap_mem s' w = heap_mem s w.
Proof.
  intros Hb Hr Hk Hn Hfit Hm Hx Hw.
  destruct (reachable_inv sbrk_ok Hb s live Hr) as (bs & L & H & Hc & Hadj & Hl).
  assert (Ew : wrap64 (k * n) = k * n).
  { unfold wrap64. apply Z.mod_small. unfold two32, two64 in *. nia. }
  exact (mm_calloc_keeps sbrk_ok Hb s bs L fuel k n r s' x w H Hc Hadj
           ltac:(rewrite Ew; exact Hfit) Hm
           (live_payload_byte s live bs L x w H Hl Hx Hw)).
Qed.

Lemma calloc_keeps_payload_witness :
  heap_mem (after (cap 4096) [Malloc 16; Malloc 16; Calloc 10 10]) 140
  = heap_mem (after (cap 4096) [Malloc 16; Malloc 16]) 140.
Proof.
  apply (calloc_keeps_payload (cap 4096) (after (cap 4096) [Malloc 16; Malloc 16])
           [160; 136] 100 10 10 (Some 184)
           (after (cap 4096) [Malloc 16; Malloc 16; Calloc 10 10]) 136 140).
  - apply cap_bounded. reflexivity.
  - exact reach_two.
  - lia.
  - lia.
  - unfold two32. lia.
  - vm_compute. reflexivity.
  - right. left. reflexivity.
  - split; [vm_compute; discriminate|vm_compute; reflexivity].
Defined.

(** * Coalescing *)

(** X22. [mm_free] coalesces.  After the live block [p] is freed, the
    free block that holds it starts at [p], or at the block before [p]
    when that one was free, and ends where the block after [p] started,
    or where that block ended when it was free.  Its header and its
    footer carry its size, its header says that it is free and that the
    block before it is allocated, and the block after it is allocated
    with a header that says that the block before it is free. *)
Theorem free_coalesces sbrk_ok s live p s' :
  bounded sbrk_ok -> reachable sbrk_ok s live -> In p live ->
  mm_free (Some p) s = Some s' ->
  merged_start p (heap_mem s) <= p < merged_end p (heap_mem s) /\
  get_size (merged_start p (heap_mem s)) (heap_mem s')
  = merged_end p (heap_mem s) - merged_start p (heap_mem s) /\
  read_word (merged_end p (heap_mem s) - 8) (heap_mem s')
  = merged_end p (heap_mem s) - merged_start p (heap_mem s) /\
  is_allocated (merged_start p (heap_mem s)) (heap_mem s') = false /\
  is_forward_allocated (merged_start p (heap_mem s)) (heap_mem s') = true /\
  is_allocated (merged_end p (heap_mem s)) (heap_mem s') = true /\
  is_forward_allocated (merged_end p (heap_mem s)) (heap_mem s') = false.
Proof.
  intros Hb Hr Hp Hf.
  destruct (reachable_inv sbrk_ok Hb s live Hr) as (bs & L & H & Hc & Hadj & Hl).
  destruct (proj1 (Hl p) Hp) as (sz & Hin).
  pose proof (block_size_read _ _ _ _ _ _ (rep_heap _ _ _ _ H) Hin) as Esz.
  pose proof (mm_free_exact s bs L p sz s' H Hc Hadj Hin Hf) as X. cbv zeta in X.
  unfold merged_start, merged_end, get_back. rewrite Esz.
  destruct X as (X1 & X2 & (X3 & X4 & X5) & X6 & X7 & X8).
  pose proof (rep_sizes _ _ _ _ H) as Hs.
  assert (Hg : 16 <= sz).
  { destruct (in_blocks_at_range _ _ _ _ _ Hs Hin) as (_ & _ & [G _] & _). exact G. }
  repeat split; try assumption; lia.
Qed.

Lemma free_coalesces_witness :
  merged_start 160 (heap_mem (after (cap 4096) [Malloc 16; Malloc 16; Free 136])) <= 160
  < merged_end 160 (heap_mem (after (cap 4096) [Malloc 16; Malloc 16; Free 136])) /\
  get_size (merged_start 160 (heap_mem (after (cap 4096) [Malloc 16; Malloc 16; Free 136])))
    (heap_mem (after (cap 4096) [Malloc 16; Malloc 16; Free 136; Free 160]))
  = merged_end 160 (heap_mem (after (cap 4096) [Malloc 16; Malloc 16; Free 136]))
    - merged_start 160 (heap_mem (after (cap 4096) [Malloc 16; Malloc 16; Free 136])) /\
  read_word (merged_end 160 (heap_mem (after (cap 4096) [Malloc 16; Malloc 16; Free 136])) - 8)
    (heap_mem (after (cap 4096) [Malloc 16; Malloc 16; Free 136; Free 160]))
  = merged_end 160 (heap_mem (after (cap 4096) [Malloc 16; Malloc 16; Free 136]))
    - merged_start 160 (heap_mem (after (cap 4096) [Malloc 16; Malloc 16; Free 136])) /\
  is_allocated (merged_start 160 (heap_mem (after (cap 4096) [Malloc 16; Malloc 16; Free 136])))
    (heap_mem (after (cap 4096) [Malloc 16; Malloc 16; Free 136; Free 160])) = false /\
  is_forward_allocated
    (merged_start 160 (heap_mem (after (cap 4096) [Malloc 16; Malloc 16; Free 136])))
    (heap_mem (after (cap 4096) [Malloc 16; Malloc 16; Free 136; Free 160])) = true /\
  is_allocated (merged_end 160 (heap_mem (after (cap 4096) [Malloc 16; Malloc 16; Free 136])))
    (heap_mem (after (cap 4096) [Malloc 16; Malloc 16; Free 136; Free 160])) = true /\
  is_forward_allocated
    (merged_end 160 (heap_mem (after (cap 4096) [Malloc 16; Malloc 16; Free 136])))
    (heap_mem (after (cap 4096) [Malloc 16; Malloc 16; Free 136; Free 160])) = false.
Proof.
  apply (free_coalesces (cap 4096) (after (cap 4096) [Malloc 16; Malloc 16; Free 136]) [160]).
  - apply cap_bounded. reflexivity.
  - apply (reach_free (cap 4096) (after (cap 4096) [Malloc 16; Malloc 16]) [160; 136] 136
             (after (cap 4096) [Malloc 16; Malloc 16; Free 136])).
    + exact reach_two.
    + right. left. reflexivity.
    + vm_compute. reflexivity.
  - left. reflexivity.
  - vm_compute. reflexivity.
Defined.

(** * The heap checker on a malformed heap *)

(** X23. On a heap whose chain of blocks and whose lists are well formed,
    [mm_checkheap] returns, given fuel for its walks, and it prints
    nothing exactly when no two adjacent blocks are free: for every free
    block that is followed by a free block it prints the line of
    [Both_free] with the pointer of the first of the two. *)
Theorem checkheap_reports_adjacent_free s bs L fuel lineno :
  rep (heap_mem s) (heap_last_ptr s) bs L -> (length bs < fuel)%nat ->
  exists out, mm_checkheap fuel lineno s = Some out /\
    (out = [] <-> nadj true bs) /\
    forall pre sz sz' post, bs = pre ++ (sz, false) :: (sz', false) :: post ->
                            In (Both_free lineno (136 + total pre)) out.
Proof.
  intros H Hf.
  destruct (mm_checkheap_adjacent s bs L fuel lineno H Hf) as (out & E & Hiff & Hp).
  exists out. split; [exact E|]. split; [exact Hiff|exact Hp].
Qed.

Lemma checkheap_reports_adjacent_free_witness :
  exists out, mm_checkheap 3 7 two_free = Some out /\
    (out = [] <-> nadj true [(24, false); (3936, false)]) /\
    forall pre sz sz' post,
      [(24, false); (3936, false)] = pre ++ (sz, false) :: (sz', false) :: post ->
      In (Both_free 7 (136 + total pre)) out.
Proof.
  apply (checkheap_reports_adjacent_free two_free [(24, false); (3936, false)]
           (fun _ => []) 3 7).
  - constructor.
    + split; [|split].
      * cbn [seg]. unfold good_size, blk, hdr_is.
        repeat split; try (vm_compute; reflexivity); try (intros _; vm_compute; reflexivity);
          try lia.
      * vm_compute. reflexivity.
      * unfold hdr_is. repeat split; vm_compute; reflexivity.
    + vm_compute. reflexivity.
    + intros c Hc. split; [|constructor].
      assert (Hcs : In c [12; 13; 14; 15; 16; 17; 18; 19; 20; 21; 22; 23; 24; 25; 26; 27]).
      { cbn [In]. lia. }
      cbn [In] in Hcs.
      repeat (destruct Hcs as [<-|Hcs]; [split; vm_compute; reflexivity|]).
      destruct Hcs.
    + intros c x _ [].
  - simpl. lia.
Defined.

(** * Memory safety *)

(** X24. The allocator writes only into its heap.  A valid call on a
    reachable state changes no byte below the start of the heap area and
    no byte at or above the end of the heap that the call leaves,
    whatever the call returns. *)
Theorem calls_write_inside_heap sbrk_ok s live fuel c r s' w :
  bounded sbrk_ok -> reachable sbrk_ok s live -> valid_call s live c ->
  step sbrk_ok fuel c s = Some (r, s') ->
  w < 0 \/ heap_last_ptr s' <= w ->
  heap_mem s' w = heap_mem s w.
Proof.
  intros Hb Hr Hv Hstep Hw.
  destruct (reachable_inv sbrk_ok Hb s live Hr) as (bs & L & H & Hc & Hadj & Hl).
  destruct c as [size|ptr|ptr size|nmemb size]; cbn [step valid_call] in *.
  - exact (mm_malloc_spares sbrk_ok Hb s bs L fuel size r s' (heap_last_ptr s') 0 w
             H Hc Hadj Hstep (Z.le_refl _) (or_intror Hw)).
  - destruct (mm_free (Some ptr) s) as [s2|] eqn:Ef; [|discriminate].
    cbn [option_map] in Hstep. injection Hstep as _ <-.
    apply (mm_free_spares s bs L ptr s2 (heap_last_ptr s2) (ptr + 1) w H Hc Hadj);
      [exact (proj1 (Hl ptr) Hv) | exact Ef | | right; exact Hw | lia].
    rewrite (mm_free_last _ _ _ Ef). lia.
  - destruct Hv as (Hp & Hsize & Hcase).
    destruct (proj1 (Hl ptr) Hp) as (bsz & Hin).
    destruct (Z.eq_dec size 0) as [->|Hn0].
    + unfold mm_realloc in Hstep. cbn [Z.eqb] in Hstep.
      destruct (mm_free (Some ptr) s) as [s2|] eqn:Ef; [|discriminate].
      cbn [option_map] in Hstep. injection Hstep as _ <-.
      apply (mm_free_spares s bs L ptr s2 (heap_last_ptr s2) (ptr + 1) w H Hc Hadj);
        [exists bsz; exact Hin | exact Ef | | right; exact Hw | lia].
      rewrite (mm_free_last _ _ _ Ef). lia.
    + destruct r as [q|].
      * destruct (mm_realloc_spares sbrk_ok Hb s bs L fuel ptr bsz size q s'
                    (heap_last_ptr s') H Hc Hadj Hin Hn0 Hstep (Z.le_refl _)) as [Ho _].
        apply (Ho (ptr + 1) w); [right; exact Hw|lia].
      * apply (mm_realloc_none_spares sbrk_ok Hb s bs L fuel ptr bsz size s'
                 (heap_last_ptr s') (ptr + 1) w H Hc Hadj Hin Hn0); auto.
        -- unfold get_back in Hcase.
           rewrite (block_size_read _ _ _ _ _ _ (rep_heap _ _ _ _ H) Hin) in Hcase.
           exact Hcase.
        -- lia.
        -- right. exact Hw.
        -- lia.
  - destruct Hv as (Hk & Hn & Hkn).
    assert (Ew : wrap64 (nmemb * size) = nmemb * size).
    { unfold wrap64. apply Z.mod_small. unfold two64. nia. }
    apply (mm_calloc_spares sbrk_ok Hb s bs L fuel nmemb size r s' (heap_last_ptr s') 0 w
             H Hc Hadj); [|exact Hstep|lia|right; exact Hw].
    rewrite Ew. unfold two32. lia.
Qed.

Lemma calls_write_inside_heap_witness :
  heap_mem (after (cap 8192) [Malloc 16; Malloc 5000]) 8200
  = heap_mem (after (cap 8192) [Malloc 16]) 8200.
Proof.
  apply (calls_write_inside_heap (cap 8192) (after (cap 8192) [Malloc 16]) [136] 100
           (Malloc 5000) (Some 160) (after (cap 8192) [Malloc 16; Malloc 5000]) 8200).
  - apply cap_bounded. reflexivity.
  - apply (reach_malloc (cap 8192) (start (cap 8192)) [] 100 16 (Some 136)).
    + apply reach_start. lia.
    + vm_compute. reflexivity.
    + discriminate.
  - cbn [valid_call]. lia.
  - vm_compute. reflexivity.
  - right. vm_compute. discriminate.
Defined.
